(** * Unified merge view: accept, reject and undo over the chunk store

    A shallow embedding of [src/unified.ts].  Documents are flat character
    sequences whose line breaks are the single character [Text.nl] (the
    editor's [lineSeparator] facet is left at its default, so
    [state.lineBreak] is that character).  A JavaScript string is a
    character sequence too; where a string is given as the text to insert,
    [ChangeSet.insertText] gives the text it stands for.  Positions are JavaScript numbers
    holding integers and are modelled as [Z].  Library code that throws a
    [RangeError] is modelled with [option].

    The merge view is embedded over any chunk store ([Chunk.Ops]); the calls
    it makes to the store are recorded.  The diff engine and the chunk
    store themselves ([diff.ts], [chunk.ts]) are modelled from the
    specification in [DiffEngine], [ChunkBuilder] and [ChunkStore]. *)

From Stdlib Require Import ZArith List Ascii String Bool Lia Sorted.
Import ListNotations.
Local Open Scope Z_scope.

(** ** Documents ([Text] of @codemirror/state) *)

Module Text.

Definition t := list ascii.

Definition nl : ascii := "010"%char.

Definition empty : t := [].

Definition length (d : t) : Z := Z.of_nat (List.length d).

Definition of_string (s : string) : t := list_ascii_of_string s.

(** [Text.of(lines)]: the lines joined by line breaks. *)
Fixpoint of_lines (lines : list string) : t :=
  match lines with
  | [] => []
  | l :: rest =>
      match rest with
      | [] => of_string l
      | _ :: _ => of_string l ++ nl :: of_lines rest
      end
  end.

(** [clip]: both ends are forced into the document, the end not before the
    start. *)
Definition clip (d : t) (from to : Z) : Z * Z :=
  let from' := Z.max 0 (Z.min (length d) from) in
  (from', Z.max from' (Z.min (length d) to)).

Definition sliceString (d : t) (from to : Z) : t :=
  let '(f, e) := clip d from to in
  firstn (Z.to_nat (e - f)) (skipn (Z.to_nat f) d).

End Text.

(** ** Change descriptions ([ChangeDesc] of @codemirror/state)

    The lengths of the sections of a change set: a section keeps [len]
    characters, or replaces [len] characters by [ins] characters. *)

Module ChangeDesc.

Inductive section : Type :=
| Keep (len : nat)
| Replace (len ins : nat).

Definition t := list section.

Definition sectionLen (s : section) : nat :=
  match s with Keep n => n | Replace n _ => n end.

Definition length (desc : t) : Z :=
  Z.of_nat (fold_right (fun s acc => (sectionLen s + acc)%nat) 0%nat desc).

(** [mapPos(pos, assoc)] in the default mode.  Inside a replaced range a
    position goes to the start of the inserted text when [assoc] is
    negative and to its end otherwise; where text is inserted at the
    position itself, it stays before the insertion when [assoc] is negative
    and moves behind it otherwise.  A position past the end of the old
    document raises. *)
Fixpoint mapPosFrom (desc : t) (assoc posA posB pos : Z) : option Z :=
  match desc with
  | [] => if pos >? posA then None else Some posB
  | Keep n :: rest =>
      let endA := posA + Z.of_nat n in
      if endA >? pos then Some (posB + (pos - posA))
      else mapPosFrom rest assoc endA (posB + Z.of_nat n) pos
  | Replace n ins :: rest =>
      let endA := posA + Z.of_nat n in
      if (endA >? pos) || ((endA =? pos) && (assoc <? 0) && (Z.of_nat n =? 0))
      then Some (if (pos =? posA) || (assoc <? 0) then posB
                 else posB + Z.of_nat ins)
      else mapPosFrom rest assoc endA (posB + Z.of_nat ins) pos
  end.

Definition mapPos (desc : t) (pos assoc : Z) : option Z :=
  mapPosFrom desc assoc 0 0 pos.

End ChangeDesc.

(** ** Change sets ([ChangeSet] of @codemirror/state)

    A change set is a sequence of sections over the old document: a section
    either keeps [len] characters or replaces [len] characters by the
    inserted text. *)

Module ChangeSet.

Inductive section : Type :=
| Keep (len : nat)
| Replace (len : nat) (ins : Text.t).

Definition t := list section.

Definition sectionLen (s : section) : nat :=
  match s with Keep n => n | Replace n _ => n end.

Definition sectionNewLen (s : section) : nat :=
  match s with Keep n => n | Replace _ ins => List.length ins end.

(** [length]: the length of the document the set applies to;
    [newLength]: the length of the document it produces. *)
Definition length (cs : t) : Z :=
  Z.of_nat (fold_right (fun s acc => (sectionLen s + acc)%nat) 0%nat cs).

Definition newLength (cs : t) : Z :=
  Z.of_nat (fold_right (fun s acc => (sectionNewLen s + acc)%nat) 0%nat cs).

(** [empty]: no section replaces anything. *)
Definition empty (cs : t) : bool :=
  forallb (fun s => match s with Keep _ => true | Replace _ _ => false end) cs.

(** An unchanged stretch; [addSection] drops it when it is empty. *)
Definition keep (n : Z) : t :=
  if n =? 0 then [] else [Keep (Z.to_nat n)].

(** [ChangeSet.empty(length)]. *)
Definition none (length : Z) : t := keep length.

(** [ChangeSet.of({from, to, insert}, length)] where [insert] is a [Text]:
    a range that is not inside the document raises; a replacement of
    nothing by nothing is skipped. *)
Definition of_ (from to : Z) (insert : Text.t) (length : Z) : option t :=
  if (from >? to) || (from <? 0) || (to >? length) then None
  else if (from =? to) && (Text.length insert =? 0) then Some (keep length)
  else Some (keep from ++ [Replace (Z.to_nat (to - from)) insert]
               ++ keep (length - to)).

Definition CR : ascii := "013"%char.

(** The text that a string stands for when it is given as the [insert] of
    a change: [Text.of(insert.split(DefaultSplit))] with
    [DefaultSplit = /\r\n?|\n/] (no [lineSeparator] is configured).  The
    string is cut at every carriage return, carriage return with line feed,
    and line feed, so in the text each of them is one line break. *)
Fixpoint insertText (s : Text.t) : Text.t :=
  match s with
  | [] => []
  | c :: rest =>
      if Ascii.eqb c CR
      then Text.nl :: match rest with
                      | c' :: rest' =>
                          if Ascii.eqb c' Text.nl then insertText rest'
                          else insertText rest
                      | [] => []
                      end
      else c :: insertText rest
  end.

(** [ChangeSet.of({from, to, insert}, length)] where [insert] is a
    string. *)
Definition ofString (from to : Z) (insert : Text.t) (length : Z) : option t :=
  of_ from to (insertText insert) length.

Fixpoint applySections (cs : t) (doc : Text.t) : Text.t :=
  match cs with
  | [] => []
  | Keep n :: rest => firstn n doc ++ applySections rest (skipn n doc)
  | Replace n ins :: rest => ins ++ applySections rest (skipn n doc)
  end.

(** [apply]: raises when the set was made for another document length. *)
Definition apply (cs : t) (doc : Text.t) : option Text.t :=
  if length cs =? Text.length doc then Some (applySections cs doc) else None.

(** [invert(doc)]: every replacement is turned around; the text it puts
    back is read from [doc], the document before the change. *)
Fixpoint invert (cs : t) (doc : Text.t) : t :=
  match cs with
  | [] => []
  | Keep n :: rest => Keep n :: invert rest (skipn n doc)
  | Replace n ins :: rest =>
      Replace (List.length ins) (firstn n doc) :: invert rest (skipn n doc)
  end.

(** [mapPos(pos)] with the default association (-1) and mode: the position
    in the new document of a position of the old one.  A position past
    the end of the old document raises. *)
Fixpoint mapPosFrom (cs : t) (posA posB pos : Z) : option Z :=
  match cs with
  | [] => if pos >? posA then None else Some posB
  | Keep n :: rest =>
      let endA := posA + Z.of_nat n in
      if endA >? pos then Some (posB + (pos - posA))
      else mapPosFrom rest endA (posB + Z.of_nat n) pos
  | Replace n ins :: rest =>
      let endA := posA + Z.of_nat n in
      if (endA >? pos) || ((endA =? pos) && (Z.of_nat n =? 0)) then Some posB
      else mapPosFrom rest endA (posB + Text.length ins) pos
  end.

Definition mapPos (cs : t) (pos : Z) : option Z := mapPosFrom cs 0 0 pos.

(** [desc]: the lengths of the sections; [invertedDesc]: the lengths of the
    sections of the inverted set. *)
Definition desc (cs : t) : ChangeDesc.t :=
  List.map (fun s => match s with
                     | Keep n => ChangeDesc.Keep n
                     | Replace n ins => ChangeDesc.Replace n (List.length ins)
                     end) cs.

Definition invertedDesc (cs : t) : ChangeDesc.t :=
  List.map (fun s => match s with
                     | Keep n => ChangeDesc.Keep n
                     | Replace n ins => ChangeDesc.Replace (List.length ins) n
                     end) cs.

End ChangeSet.

(** ** Chunks *)

Module Change.
(** Modelled from the spec: the type [Change] is declared in [diff.ts],
    which is not among the sources; its fields are those of the spec's data
    model, [{fromA, toA, fromB, toB}]. *)
Record t : Type := mk { fromA : Z; toA : Z; fromB : Z; toB : Z }.
End Change.

(** Modelled from the spec: the type [DiffConfig] is declared in [diff.ts],
    which is not among the sources; the spec's data model gives it the
    field [scanLimit]. *)
Record DiffConfig : Type := { scanLimit : Z }.

(** Modelled from the spec: [defaultDiffConfig] is exported by [chunk.ts],
    which is not among the sources; the merge view's comment at lines 59-60
    says "By default, the merge view sets scanLimit to 500." *)
Definition defaultDiffConfig : DiffConfig := {| scanLimit := 500 |}.

Module Chunk.

(** Modelled from the spec: the type [Chunk] is declared in [chunk.ts],
    which is not among the sources; its fields are those of the spec's data
    model, [{fromA, toA, endA, fromB, toB, endB, changes}]. *)
Record t : Type := mk {
  changes : list Change.t;
  fromA : Z; toA : Z; endA : Z;
  fromB : Z; toB : Z; endB : Z
}.

(** The three operations of the chunk store that the merge view calls
    ([Chunk.build], [Chunk.updateA], [Chunk.updateB]); their code is in
    [chunk.ts], so the view is embedded over any implementation. *)
Record Ops : Type := {
  build : Text.t -> Text.t -> DiffConfig -> list t;
  updateA : list t -> Text.t -> Text.t -> ChangeSet.t -> DiffConfig -> list t;
  updateB : list t -> Text.t -> Text.t -> ChangeSet.t -> DiffConfig -> list t
}.

End Chunk.

(** ** State effects (lines 161-219) *)

Module AcceptChunk.

Record value : Type := mk {
  chunkFromA : Z; chunkToA : Z; chunkFromB : Z; chunkToB : Z;
  originalDoc : Text.t;
  currentContent : Text.t;
  changes : ChangeSet.t
}.

(** The effect's [map]: [None] is a raised error, [Some None] is
    [undefined] (the effect is dropped). *)
Definition map (v : value) (change : ChangeSet.t) : option (option value) :=
  match ChangeSet.mapPos change (chunkFromB v) with
  | None => None
  | Some fromB =>
      match ChangeSet.mapPos change (chunkToB v) with
      | None => None
      | Some toB =>
          Some (if fromB <? toB
                then Some (mk (chunkFromA v) (chunkToA v) fromB toB
                             (originalDoc v) (currentContent v) (changes v))
                else None)
      end
  end.

End AcceptChunk.

Module RejectChunk.

Record value : Type := mk {
  chunkFromA : Z; chunkToA : Z; chunkFromB : Z; chunkToB : Z;
  originalContent : Text.t;
  currentContent : Text.t;
  changes : ChangeSet.t
}.

Definition map (v : value) (change : ChangeSet.t) : option (option value) :=
  match ChangeSet.mapPos change (chunkFromB v) with
  | None => None
  | Some fromB =>
      match ChangeSet.mapPos change (chunkToB v) with
      | None => None
      | Some toB =>
          Some (if fromB <? toB
                then Some (mk (chunkFromA v) (chunkToA v) fromB toB
                             (originalContent v) (currentContent v) (changes v))
                else None)
      end
  end.

End RejectChunk.

Inductive StateEffect : Type :=
| updateOriginalDoc (doc : Text.t) (changes : ChangeSet.t)
| acceptChunkEffect (v : AcceptChunk.value)
| rejectChunkEffect (v : RejectChunk.value)
| generateCodeEffect (generatedCode : Text.t) (replaceAll : option bool)
    (insertAt : option Z).

(** [tr.effects.find((e) => e.is(...))]: the first effect of each kind. *)
Fixpoint findUpdateDoc (effs : list StateEffect)
  : option (Text.t * ChangeSet.t) :=
  match effs with
  | [] => None
  | updateOriginalDoc d cs :: _ => Some (d, cs)
  | _ :: rest => findUpdateDoc rest
  end.

Fixpoint findAccept (effs : list StateEffect) : option AcceptChunk.value :=
  match effs with
  | [] => None
  | acceptChunkEffect v :: _ => Some v
  | _ :: rest => findAccept rest
  end.

Fixpoint findReject (effs : list StateEffect) : option RejectChunk.value :=
  match effs with
  | [] => None
  | rejectChunkEffect v :: _ => Some v
  | _ :: rest => findReject rest
  end.

Fixpoint findGenerate (effs : list StateEffect) : bool :=
  match effs with
  | [] => false
  | generateCodeEffect _ _ _ :: _ => true
  | _ :: rest => findGenerate rest
  end.

(** ** Editor state and transactions *)

Record EditorState : Type := {
  doc : Text.t;                  (* state.doc, document B *)
  head : Z;                      (* state.selection.main.head *)
  originalDoc : Text.t;          (* state.field(originalDoc), document A *)
  ChunkField : list Chunk.t      (* state.field(ChunkField) *)
}.

Definition lineBreak : Text.t := [Text.nl].

Definition sliceDoc (state : EditorState) (from to : Z) : Text.t :=
  Text.sliceString (doc state) from to.

(** The [changes] of a transaction spec: none, one range with the string
    to insert, or a change set. *)
Inductive ChangeSpec : Type :=
| NoChanges
| Range (from to : Z) (insert : Text.t)
| OfSet (cs : ChangeSet.t).

Record TransactionSpec : Type := {
  spec_changes : ChangeSpec;
  spec_selection : option Z;
  spec_effects : list StateEffect;
  spec_userEvent : string
}.

Record Transaction : Type := {
  startState : EditorState;
  changes : ChangeSet.t;
  selection : Z;
  effects : list StateEffect;
  userEvent : string
}.

Definition newDoc (tr : Transaction) : option Text.t :=
  ChangeSet.apply (changes tr) (doc (startState tr)).

Definition docChanged (tr : Transaction) : bool :=
  negb (ChangeSet.empty (changes tr)).

(** [originalDoc.update] (lines 279-291). *)
Fixpoint originalDoc_update (d : Text.t) (effs : list StateEffect)
  : option Text.t :=
  match effs with
  | [] => Some d
  | updateOriginalDoc d' _ :: rest => originalDoc_update d' rest
  | acceptChunkEffect v :: rest =>
      match ChangeSet.apply (AcceptChunk.changes v) d with
      | Some d' => originalDoc_update d' rest
      | None => None
      end
  | rejectChunkEffect _ :: rest => originalDoc_update d rest
  | generateCodeEffect _ _ _ :: rest => originalDoc_update d rest
  end.

(** [tr.state.field(originalDoc)]: document A after the transaction. *)
Definition newOriginalDoc (tr : Transaction) : option Text.t :=
  originalDoc_update (originalDoc (startState tr)) (effects tr).

(** ** Calls into the chunk store

    A computation may raise and records, in order, the calls it makes to the
    chunk store. *)

Inductive ChunkCall : Type :=
| CallBuild (a b : Text.t)
| CallUpdateA (chunks : list Chunk.t) (a b : Text.t) (changes : ChangeSet.t)
| CallUpdateB (chunks : list Chunk.t) (a b : Text.t) (changes : ChangeSet.t).

Definition M (A : Type) : Type := option (A * list ChunkCall).

Definition ret {A : Type} (a : A) : M A := Some (a, []).

Definition raise {A : Type} : M A := None.

Definition bind {A B : Type} (m : M A) (k : A -> M B) : M B :=
  match m with
  | None => None
  | Some (a, l) =>
      match k a with
      | None => None
      | Some (b, l') => Some (b, l ++ l')
      end
  end.

Definition lift {A : Type} (o : option A) : M A :=
  match o with Some a => ret a | None => raise end.

Notation "x <- m ;; k" := (bind m (fun x => k))
  (at level 61, m at next level, right associativity).

Definition isCallBuild (c : ChunkCall) : bool :=
  match c with CallBuild _ _ => true | _ => false end.

Definition isUpdateCall (c : ChunkCall) : bool :=
  match c with CallBuild _ _ => false | _ => true end.

Section View.

(** The chunk store in use and the view's diff configuration
    ([diffConf], line 95). *)
Variable ops : Chunk.Ops.
Variable diffConf : DiffConfig.

Definition Chunk_build (a b : Text.t) : M (list Chunk.t) :=
  Some (Chunk.build ops a b diffConf, [CallBuild a b]).

Definition Chunk_updateA (chunks : list Chunk.t) (a b : Text.t)
    (cs : ChangeSet.t) : M (list Chunk.t) :=
  Some (Chunk.updateA ops chunks a b cs diffConf, [CallUpdateA chunks a b cs]).

Definition Chunk_updateB (chunks : list Chunk.t) (a b : Text.t)
    (cs : ChangeSet.t) : M (list Chunk.t) :=
  Some (Chunk.updateB ops chunks a b cs diffConf, [CallUpdateB chunks a b cs]).

(** The [computeChunks] callback (lines 107-144). *)
Definition computeChunks (chunks : list Chunk.t) (tr : Transaction)
  : M (list Chunk.t) :=
  let updateDoc := findUpdateDoc (effects tr) in
  let acceptEffect := findAccept (effects tr) in
  let rejectEffect := findReject (effects tr) in
  let generateEffect := findGenerate (effects tr) in
  chunks <- match updateDoc with
            | Some (d, cs) =>
                Chunk_updateA chunks d (doc (startState tr)) cs
            | None => ret chunks
            end ;;
  chunks <- match acceptEffect with
            | Some v =>
                a <- lift (ChangeSet.apply (AcceptChunk.changes v)
                             (originalDoc (startState tr))) ;;
                Chunk_updateA chunks a (doc (startState tr))
                  (AcceptChunk.changes v)
            | None => ret chunks
            end ;;
  chunks <- (if generateEffect
             then a <- lift (newOriginalDoc tr) ;;
                  b <- lift (newDoc tr) ;;
                  Chunk_build a b
             else ret chunks) ;;
  if (match rejectEffect with Some _ => true | None => false end)
     || (negb (Z.of_nat (List.length chunks) =? 0) && docChanged tr)
  then a <- lift (newOriginalDoc tr) ;;
       b <- lift (newDoc tr) ;;
       Chunk_updateB chunks a b (changes tr)
  else ret chunks.

(** [ChunkField.init] (line 157), with [orig] the configured original. *)
Definition initialState (orig b : Text.t) (sel : Z) : EditorState :=
  {| doc := b; head := sel; originalDoc := orig;
     ChunkField := Chunk.build ops orig b diffConf |}.

(** [state.update(spec)]: the changes are resolved against the current
    document, the string of a range becoming the text it stands for; a
    selection that is not given is mapped through them (and returned as it
    is when nothing changes). *)
Definition resolveChanges (state : EditorState) (c : ChangeSpec)
  : option ChangeSet.t :=
  match c with
  | NoChanges => Some (ChangeSet.none (Text.length (doc state)))
  | Range from to insert =>
      ChangeSet.ofString from to insert (Text.length (doc state))
  | OfSet cs =>
      if ChangeSet.length cs =? Text.length (doc state) then Some cs else None
  end.

(** The selection after a transaction with the change set [cs].  The main
    selection is modelled as a cursor, which is mapped with the default
    association. *)
Definition mappedHead (state : EditorState) (cs : ChangeSet.t) : option Z :=
  if ChangeSet.empty cs then Some (head state)
  else ChangeSet.mapPos cs (head state).

Definition update (state : EditorState) (spec : TransactionSpec)
  : option Transaction :=
  match resolveChanges state (spec_changes spec) with
  | None => None
  | Some cs =>
      match (match spec_selection spec with
             | Some s => Some s
             | None => mappedHead state cs
             end) with
      | None => None
      | Some sel =>
          Some {| startState := state; changes := cs; selection := sel;
                  effects := spec_effects spec;
                  userEvent := spec_userEvent spec |}
      end
  end.

(** Modelled from the spec: [ChunkField.update], which runs the
    [computeChunks] callback, is declared in [merge.ts], which is not among
    the sources; the store is "a pure reducer: (previous store, edit
    descriptor) -> new store".  This is [tr.state]: every field of the new
    state is computed from the transaction. *)
Definition applyTransaction (tr : Transaction) : M EditorState :=
  b <- lift (newDoc tr) ;;
  a <- lift (newOriginalDoc tr) ;;
  chunks <- computeChunks (ChunkField (startState tr)) tr ;;
  ret {| doc := b; head := selection tr; originalDoc := a;
         ChunkField := chunks |}.

(** [view.dispatch(spec)]. *)
Definition dispatch (state : EditorState) (spec : TransactionSpec)
  : M EditorState :=
  tr <- lift (update state spec) ;;
  applyTransaction tr.

(** The chunk under a position:
    [.find((ch) => ch.fromB <= at && ch.endB >= at)]. *)
Definition chunkAt (state : EditorState) (at_ : Z) : option Chunk.t :=
  find (fun ch => (Chunk.fromB ch <=? at_) && (Chunk.endB ch >=? at_))
       (ChunkField state).

Definition posOrHead (state : EditorState) (pos : option Z) : Z :=
  match pos with Some p => p | None => head state end.

(** The string [insert] of [acceptChunk] (lines 482-488). *)
Definition acceptInsert (state : EditorState) (chunk : Chunk.t) : Text.t :=
  let insert := sliceDoc state (Chunk.fromB chunk)
                  (Z.max (Chunk.fromB chunk) (Chunk.toB chunk - 1)) in
  let orig := originalDoc state in
  if negb (Chunk.fromB chunk =? Chunk.toB chunk)
     && (Chunk.toA chunk <=? Text.length orig)
  then insert ++ lineBreak
  else insert.

(** The effect [acceptChunk] dispatches (lines 489-503): [currentContent]
    is the string, [changes] inserts the text the string stands for. *)
Definition acceptEffectFor (state : EditorState) (chunk : Chunk.t)
  : option StateEffect :=
  let insert := acceptInsert state chunk in
  let orig := originalDoc state in
  match ChangeSet.ofString (Chunk.fromA chunk)
          (Z.min (Text.length orig) (Chunk.toA chunk)) insert
          (Text.length orig) with
  | None => None
  | Some changes =>
      Some (acceptChunkEffect
              (AcceptChunk.mk (Chunk.fromA chunk) (Chunk.toA chunk)
                 (Chunk.fromB chunk) (Chunk.toB chunk) orig insert changes))
  end.

(** The transaction [acceptChunk] dispatches (lines 494-505): the effect
    alone, no change to the editor's document. *)
Definition acceptSpec (state : EditorState) (chunk : Chunk.t)
  : option TransactionSpec :=
  match acceptEffectFor state chunk with
  | None => None
  | Some eff =>
      Some {| spec_changes := NoChanges; spec_selection := None;
              spec_effects := [eff]; spec_userEvent := "accept" |}
  end.

(** [acceptChunk(view, pos)] (lines 475-507): the returned boolean and the
    view's state afterwards. *)
Definition acceptChunk (state : EditorState) (pos : option Z)
  : M (bool * EditorState) :=
  let at_ := posOrHead state pos in
  match chunkAt state at_ with
  | None => ret (false, state)
  | Some chunk =>
      spec <- lift (acceptSpec state chunk) ;;
      state' <- dispatch state spec ;;
      ret (true, state')
  end.

(** The string [insert] of [rejectChunk] (lines 519-525). *)
Definition rejectInsert (state : EditorState) (chunk : Chunk.t) : Text.t :=
  let orig := originalDoc state in
  let insert := Text.sliceString orig (Chunk.fromA chunk)
                  (Z.max (Chunk.fromA chunk) (Chunk.toA chunk - 1)) in
  if negb (Chunk.fromA chunk =? Chunk.toA chunk)
     && (Chunk.toB chunk <=? Text.length (doc state))
  then insert ++ lineBreak
  else insert.

(** The effect [rejectChunk] dispatches (lines 527-555). *)
Definition rejectEffectFor (state : EditorState) (chunk : Chunk.t)
  : option StateEffect :=
  let insert := rejectInsert state chunk in
  let currentContent :=
    sliceDoc state (Chunk.fromB chunk)
      (Z.max (Chunk.fromB chunk) (Chunk.toB chunk - 1)) in
  match ChangeSet.ofString (Chunk.fromB chunk)
          (Z.min (Text.length (doc state)) (Chunk.toB chunk)) insert
          (Text.length (doc state)) with
  | None => None
  | Some changes =>
      Some (rejectChunkEffect
              (RejectChunk.mk (Chunk.fromA chunk) (Chunk.toA chunk)
                 (Chunk.fromB chunk) (Chunk.toB chunk) insert currentContent
                 changes))
  end.

(** The transaction [rejectChunk] dispatches (lines 541-557): the edit of
    the editor's document together with the effect. *)
Definition rejectSpec (state : EditorState) (chunk : Chunk.t)
  : option TransactionSpec :=
  match rejectEffectFor state chunk with
  | None => None
  | Some eff =>
      Some {| spec_changes :=
                Range (Chunk.fromB chunk)
                  (Z.min (Text.length (doc state)) (Chunk.toB chunk))
                  (rejectInsert state chunk);
              spec_selection := None;
              spec_effects := [eff]; spec_userEvent := "revert" |}
  end.

(** [rejectChunk(view, pos)] (lines 512-559). *)
Definition rejectChunk (state : EditorState) (pos : option Z)
  : M (bool * EditorState) :=
  let at_ := posOrHead state pos in
  match chunkAt state at_ with
  | None => ret (false, state)
  | Some chunk =>
      spec <- lift (rejectSpec state chunk) ;;
      state' <- dispatch state spec ;;
      ret (true, state')
  end.

(** [applyGeneratedCode(view, generatedCode, options)] (lines 234-275);
    [replaceAll] defaults to true. *)
Definition generateSpec (state : EditorState) (generatedCode : Text.t)
    (replaceAll : option bool) (insertAt : option Z) : TransactionSpec :=
  let replaceAll := match replaceAll with Some r => r | None => true end in
  let changes :=
    if replaceAll then Range 0 (Text.length (doc state)) generatedCode
    else match insertAt with
         | Some at_ => Range at_ at_ generatedCode
         | None => Range (head state) (head state) generatedCode
         end in
  {| spec_changes := changes; spec_selection := None;
     spec_effects :=
       [generateCodeEffect generatedCode (Some replaceAll) insertAt];
     spec_userEvent := "generate.code" |}.

Definition applyGeneratedCode (state : EditorState) (generatedCode : Text.t)
    (replaceAll : option bool) (insertAt : option Z) : M EditorState :=
  dispatch state (generateSpec state generatedCode replaceAll insertAt).

(** The callback of [createUndoableChunkOperations] (lines 303-330): the
    effects that undo the accept and reject effects of a transaction. *)
Fixpoint invertEffects (start : EditorState) (effs : list StateEffect)
  : list StateEffect :=
  match effs with
  | [] => []
  | acceptChunkEffect v :: rest =>
      updateOriginalDoc (AcceptChunk.originalDoc v)
        (ChangeSet.invert (AcceptChunk.changes v) (originalDoc start))
      :: invertEffects start rest
  | rejectChunkEffect v :: rest =>
      rejectChunkEffect
        (RejectChunk.mk (RejectChunk.chunkFromA v) (RejectChunk.chunkToA v)
           (RejectChunk.chunkFromB v) (RejectChunk.chunkToB v)
           (RejectChunk.currentContent v) (RejectChunk.originalContent v)
           (ChangeSet.invert (RejectChunk.changes v) (doc start)))
      :: invertEffects start rest
  | _ :: rest => invertEffects start rest
  end.

Definition undoableChunkOperations (tr : Transaction) : list StateEffect :=
  invertEffects (startState tr) (effects tr).

(** The host's undo history (@codemirror/commands), as far as the merge
    view relies on it: at apply time a transaction is recorded as its
    inverted document changes together with the effects the inverted-effect
    callback returns for it, unless both are empty; undoing or redoing
    dispatches the record. *)
Record HistEvent : Type := {
  h_changes : ChangeSet.t;
  h_effects : list StateEffect;
  h_selection : Z
}.

(** [HistEvent.fromTransaction(tr, selection)]: the record of a
    transaction, with the selection to go back to, which is the given one
    or else the selection the transaction started from. *)
Definition HistEvent_from (tr : Transaction) (selection : option Z)
  : option HistEvent :=
  let effs := undoableChunkOperations tr in
  if (match effs with [] => true | _ :: _ => false end)
     && ChangeSet.empty (changes tr)
  then None
  else Some {| h_changes := ChangeSet.invert (changes tr) (doc (startState tr));
               h_effects := effs;
               h_selection := match selection with
                              | Some s => s
                              | None => head (startState tr)
                              end |}.

(** The record the history takes of a transaction that it did not dispatch
    itself: no selection is given. *)
Definition HistEvent_fromTransaction (tr : Transaction) : option HistEvent :=
  HistEvent_from tr None.

(** The transaction that undoes a record ([pop] on the done events). *)
Definition historySpec (ev : HistEvent) : TransactionSpec :=
  {| spec_changes := OfSet (h_changes ev);
     spec_selection := Some (h_selection ev);
     spec_effects := h_effects ev;
     spec_userEvent := "undo" |}.

(** The transaction that redoes a record ([pop] on the undone events). *)
Definition redoSpec (ev : HistEvent) : TransactionSpec :=
  {| spec_changes := OfSet (h_changes ev);
     spec_selection := Some (h_selection ev);
     spec_effects := h_effects ev;
     spec_userEvent := "redo" |}.

(** The selection [pop] gives to the record of the transaction it
    dispatches for [ev]:
    [event.startSelection.map(event.changes.invertedDesc, 1)], the record's
    own selection taken through the change the record undoes (a selection
    is returned as it is when nothing changes).  Events that hold a
    selection only are not modelled, so [selectionsAfter] is empty.  The
    history takes [HistEvent_from tr (Some selection)] as the record of
    that transaction [tr]. *)
Definition historySelection (ev : HistEvent) : option Z :=
  if ChangeSet.empty (h_changes ev) then Some (h_selection ev)
  else ChangeDesc.mapPos (ChangeSet.invertedDesc (h_changes ev))
         (h_selection ev) 1.

End View.

(** * The diff engine and the chunk store, from the specification

    [diff.ts] and [chunk.ts] are not among the sources.  The three modules
    below follow the specification's component design (sections 4.1 to 4.3)
    and give the merge view a chunk store to run on. *)

Module DiffEngine.

(** Modelled from the spec: equality of two lines, for the line-granularity
    comparison of [diff.ts]. *)
Fixpoint text_eqb (x y : Text.t) : bool :=
  match x, y with
  | [], [] => true
  | c :: x', d :: y' => Ascii.eqb c d && text_eqb x' y'
  | _, _ => false
  end.

(** Modelled from the spec: the trimming of [diff.ts], "trims any common
    leading/trailing text deterministically (longest common prefix, then
    longest common suffix of the remainder)".  The length of the longest
    common prefix. *)
Fixpoint commonPrefix (a b : Text.t) : nat :=
  match a, b with
  | c :: a', d :: b' => if Ascii.eqb c d then S (commonPrefix a' b') else 0%nat
  | _, _ => 0%nat
  end.

(** Modelled from the spec: the length of the longest common suffix, for
    the trimming of [diff.ts]. *)
Definition commonSuffix (a b : Text.t) : nat :=
  commonPrefix (rev a) (rev b).

(** Modelled from the spec: the units of the "line-granularity" diff of
    [diff.ts], the lines of a region, each with its terminator, so that the
    lines concatenate to the region. *)
Fixpoint splitLinesFrom (d : Text.t) (cur : Text.t) : list Text.t :=
  match d with
  | [] => match cur with [] => [] | _ :: _ => [rev cur] end
  | c :: rest =>
      if Ascii.eqb c Text.nl then rev (c :: cur) :: splitLinesFrom rest []
      else splitLinesFrom rest (c :: cur)
  end.

(** Modelled from the spec: the lines of a region, for [diff.ts]. *)
Definition splitLines (d : Text.t) : list Text.t := splitLinesFrom d [].

(** Modelled from the spec: the "edit script" of [diff.ts], at line
    granularity. *)
Inductive edit : Type :=
| Same (l : Text.t)
| Del (l : Text.t)
| Ins (l : Text.t).

(** Modelled from the spec: the cost of an edit script of [diff.ts], the
    number of lines it deletes or inserts. *)
Definition cost (e : edit) : nat :=
  match e with Same _ => 0%nat | Del _ => 1%nat | Ins _ => 1%nat end.

(** Modelled from the spec: the cost of a whole script of [diff.ts]. *)
Definition scriptCost (s : list edit) : nat :=
  fold_right (fun e acc => (cost e + acc)%nat) 0%nat s.

(** Modelled from the spec: what an edit script of [diff.ts] does.  The
    lines a script reads from A and the lines it writes for B; a script
    turns [la] into [lb] when they are [la] and [lb]. *)
Fixpoint scriptA (s : list edit) : list Text.t :=
match s with
| [] => []
| Same l :: rest => l :: scriptA rest
| Del l :: rest => l :: scriptA rest
| Ins _ :: rest => scriptA rest
end.

(** Modelled from the spec: the lines an edit script of [diff.ts] writes
    for B. *)
Fixpoint scriptB (s : list edit) : list Text.t :=
match s with
| [] => []
| Same l :: rest => l :: scriptB rest
| Del _ :: rest => scriptB rest
| Ins l :: rest => l :: scriptB rest
end.

(** Modelled from the spec: the first of two search results, for the
    search of [diff.ts]. *)
Definition orElse {A : Type} (x y : option A) : option A :=
  match x with Some _ => x | None => y end.

(** Modelled from the spec: one round of the search of [diff.ts], a script
    of at most [d] deletions and insertions, when there is one; "prefer
    treating text as unchanged as early as possible". *)
Fixpoint scriptWithin (d : nat) : list Text.t -> list Text.t
                                  -> option (list edit) :=
  fix go (la lb : list Text.t) {struct la} : option (list edit) :=
    match la, lb with
    | [], [] => Some []
    | x :: la', y :: lb' =>
        orElse
          (if text_eqb x y then option_map (cons (Same x)) (go la' lb')
           else None)
          (match d with
           | O => None
           | S d' =>
               orElse (option_map (cons (Del x)) (scriptWithin d' la' lb))
                      (option_map (cons (Ins y)) (scriptWithin d' la lb'))
           end)
    | x :: la', [] =>
        match d with
        | O => None
        | S d' => option_map (cons (Del x)) (scriptWithin d' la' [])
        end
    | [], y :: lb' =>
        match d with
        | O => None
        | S d' => option_map (cons (Ins y)) (scriptWithin d' [] lb')
        end
    end.

(** Modelled from the spec: the search of [diff.ts], the "line-granularity
    shortest-edit-script computation (Myers-style)": it goes by increasing
    script cost [d], and "if the work exceeds scanLimit, the engine aborts
    the fine search".  [rounds] costs above [d] are still tried. *)
Fixpoint searchFrom (rounds d : nat) (la lb : list Text.t)
  : option (list edit) :=
  match scriptWithin d la lb with
  | Some s => Some s
  | None =>
      match rounds with
      | O => None
      | S r => searchFrom r (S d) la lb
      end
  end.

(** Modelled from the spec: the search of [diff.ts] from cost 0 up to the
    limit. *)
Definition shortestScript (limit : Z) (la lb : list Text.t)
  : option (list edit) :=
  searchFrom (Z.to_nat limit) 0 la lb.

(** Modelled from the spec: the end of a run of changed lines, for the
    changes of [diff.ts]. *)
Definition closeChange (cur : option Change.t) : list Change.t :=
  match cur with Some c => [c] | None => [] end.

(** Modelled from the spec: the result of [diff.ts], the changes of a
    script "in absolute document coordinates": every maximal run of
    deletions and insertions is one change. *)
Fixpoint toChanges (s : list edit) (posA posB : Z) (cur : option Change.t)
  : list Change.t :=
  match s with
  | [] => closeChange cur
  | Same l :: rest =>
      closeChange cur
        ++ toChanges rest (posA + Text.length l) (posB + Text.length l) None
  | Del l :: rest =>
      let c := match cur with
               | Some c => c
               | None => Change.mk posA posA posB posB
               end in
      toChanges rest (posA + Text.length l) posB
        (Some (Change.mk (Change.fromA c) (posA + Text.length l)
                 (Change.fromB c) (Change.toB c)))
  | Ins l :: rest =>
      let c := match cur with
               | Some c => c
               | None => Change.mk posA posA posB posB
               end in
      toChanges rest posA (posB + Text.length l)
        (Some (Change.mk (Change.fromA c) (Change.toA c)
                 (Change.fromB c) (posB + Text.length l)))
  end.

(** Modelled from the spec: the trimming of [diff.ts], the two regions
    left after it, and where they start. *)
Definition regions (a b : Text.t) : nat * Text.t * Text.t :=
  let p := commonPrefix a b in
  let a1 := skipn p a in
  let b1 := skipn p b in
  let s := commonSuffix a1 b1 in
  (p, firstn (List.length a1 - s) a1, firstn (List.length b1 - s) b1).

(** Modelled from the spec: the fallback of [diff.ts], "a single
    replace-span covering the whole untrimmed region". *)
Definition wholeRegion (p : nat) (ra rb : Text.t) : Change.t :=
  Change.mk (Z.of_nat p) (Z.of_nat p + Text.length ra)
            (Z.of_nat p) (Z.of_nat p + Text.length rb).

(** Modelled from the spec: [diff(textA, textB, config)] of [diff.ts], the
    ordered changes in absolute document coordinates.  The optional
    character-level refinement of a changed run is left out. *)
Definition diff (a b : Text.t) (config : DiffConfig) : list Change.t :=
  let '(p, ra, rb) := regions a b in
  match ra, rb with
  | [], [] => []
  | _, _ =>
      match shortestScript (scanLimit config) (splitLines ra) (splitLines rb)
      with
      | Some script => toChanges script (Z.of_nat p) (Z.of_nat p) None
      | None => [wholeRegion p ra rb]
      end
  end.

End DiffEngine.

Module ChunkBuilder.

(** Modelled from the spec: a character that does not end a line, for the
    line boundaries of [chunk.ts]. *)
Definition notNl (c : ascii) : bool := negb (Ascii.eqb c Text.nl).

(** Modelled from the spec: the longest prefix on which [f] holds, a list
    helper of the model of [chunk.ts]. *)
Fixpoint takeWhile {A : Type} (f : A -> bool) (l : list A) : list A :=
  match l with
  | [] => []
  | x :: r => if f x then x :: takeWhile f r else []
  end.

(** Modelled from the spec: the list without that prefix, a list helper of
    the model of [chunk.ts]. *)
Fixpoint dropWhile {A : Type} (f : A -> bool) (l : list A) : list A :=
  match l with
  | [] => []
  | x :: r => if f x then dropWhile f r else l
  end.

(** Modelled from the spec: the "line boundaries" of [chunk.ts].  The
    start of the line a position is on. *)
Definition lineStart (d : Text.t) (pos : Z) : Z :=
  pos - Z.of_nat (List.length
                    (takeWhile notNl (rev (firstn (Z.to_nat pos) d)))).

(** Modelled from the spec: the end of the line a position is on (the
    position of its terminator, or the end of the document), for
    [chunk.ts]. *)
Definition lineEnd (d : Text.t) (pos : Z) : Z :=
  pos + Z.of_nat (List.length (takeWhile notNl (skipn (Z.to_nat pos) d))).

(** Modelled from the spec: whether a position starts a line, for
    [chunk.ts]. *)
Definition atLineStart (d : Text.t) (pos : Z) : bool :=
  lineStart d pos =? pos.

(** Modelled from the spec: a change moved by an offset on each side;
    a chunk's changes are "relative to the enclosing chunk's start"
    ([chunk.ts]). *)
Definition offsetChange (dA dB : Z) (c : Change.t) : Change.t :=
  Change.mk (Change.fromA c + dA) (Change.toA c + dA)
            (Change.fromB c + dB) (Change.toB c + dB).

(** Modelled from the spec: the chunk constructor of [chunk.ts]; a chunk's
    [endA]/[endB] are "equal to toA/toB unless the changed region is the
    final line of its document without a trailing line terminator". *)
Definition mkChunk (a b : Text.t) (changes : list Change.t)
    (fromA toA fromB toB : Z) : Chunk.t :=
  Chunk.mk changes fromA toA (Z.min toA (Text.length a))
           fromB toB (Z.min toB (Text.length b)).

(** Modelled from the spec: the chunk of one change ([chunk.ts]),
    "extending both sides' ranges to line boundaries".  A change that ends
    at a line start on both sides ends
    the chunk there; otherwise the chunk runs to the start of the next
    line, one past the document's end on the final line. *)
Definition lineChunk (a b : Text.t) (c : Change.t) : Chunk.t :=
  let fromA := lineStart a (Change.fromA c) in
  let fromB := lineStart b (Change.fromB c) in
  let '(toA, toB) :=
    if atLineStart a (Change.toA c) && atLineStart b (Change.toB c)
    then (Change.toA c, Change.toB c)
    else (lineEnd a (Change.toA c) + 1, lineEnd b (Change.toB c) + 1) in
  mkChunk a b [offsetChange (- fromA) (- fromB) c] fromA toA fromB toB.

(** Modelled from the spec: the test for merging in [chunk.ts]; no
    unchanged line lies between [c] and the chunk [n] after it. *)
Definition touches (c n : Chunk.t) : bool :=
  (Chunk.fromA n <=? Chunk.toA c) || (Chunk.fromB n <=? Chunk.toB c).

(** Modelled from the spec: two chunks of [chunk.ts] merged into one. *)
Definition join (c n : Chunk.t) : Chunk.t :=
  Chunk.mk
    (Chunk.changes c
       ++ List.map (offsetChange (Chunk.fromA n - Chunk.fromA c)
                      (Chunk.fromB n - Chunk.fromB c)) (Chunk.changes n))
    (Chunk.fromA c) (Z.max (Chunk.toA c) (Chunk.toA n))
    (Z.max (Chunk.endA c) (Chunk.endA n))
    (Chunk.fromB c) (Z.max (Chunk.toB c) (Chunk.toB n))
    (Z.max (Chunk.endB c) (Chunk.endB n)).

(** Modelled from the spec: the merging of [chunk.ts],
    "adjacent/overlapping chunks are always merged". *)
Fixpoint mergeFrom (c : Chunk.t) (rest : list Chunk.t) : list Chunk.t :=
  match rest with
  | [] => [c]
  | n :: rest' =>
      if touches c n then mergeFrom (join c n) rest'
      else c :: mergeFrom n rest'
  end.

(** Modelled from the spec: the merging of [chunk.ts] over a whole
    list. *)
Definition mergeAdjacent (l : list Chunk.t) : list Chunk.t :=
  match l with
  | [] => []
  | c :: rest => mergeFrom c rest
  end.

(** Modelled from the spec: [group(changes, textA, textB)] of [chunk.ts]
    "merges Change
    spans into a Chunk whenever they fall on the same or adjacent lines
    (no intervening unchanged line)". *)
Definition group (changes : list Change.t) (a b : Text.t) : list Chunk.t :=
  mergeAdjacent (List.map (lineChunk a b) changes).

End ChunkBuilder.

Module ChunkStore.

Import ChunkBuilder.

(** Modelled from the spec: [Chunk.build] of [chunk.ts],
    [build(A, B, config)], the full recompute. *)
Definition build (a b : Text.t) (config : DiffConfig) : list Chunk.t :=
  group (DiffEngine.diff a b config) a b.

(** Modelled from the spec: the position mapping of [chunk.ts], "standard
    position-mapping (positions before the edited range are unchanged;
    positions strictly after shift by the edit's length delta; positions
    inside the replaced range collapse to the edit's boundary)".  It is
    [ChangeSet.mapPos] made total: a position past the end moves with the
    end. *)
Fixpoint mapThroughFrom (cs : ChangeSet.t) (posA posB pos : Z) : Z :=
  match cs with
  | [] => posB + (pos - posA)
  | ChangeSet.Keep n :: rest =>
      let endA := posA + Z.of_nat n in
      if endA >? pos then posB + (pos - posA)
      else mapThroughFrom rest endA (posB + Z.of_nat n) pos
  | ChangeSet.Replace n ins :: rest =>
      let endA := posA + Z.of_nat n in
      if (endA >? pos) || ((endA =? pos) && (Z.of_nat n =? 0)) then posB
      else mapThroughFrom rest endA (posB + Text.length ins) pos
  end.

(** Modelled from the spec: the position mapping of [chunk.ts], from the
    start of the document. *)
Definition mapThrough (cs : ChangeSet.t) (pos : Z) : Z :=
  mapThroughFrom cs 0 0 pos.

(** Modelled from the spec: step 1 of [Chunk.updateA] ([chunk.ts]), "Map
    every chunk's A-side coordinates through editToA". *)
Definition mapChunkA (cs : ChangeSet.t) (c : Chunk.t) : Chunk.t :=
  Chunk.mk (Chunk.changes c)
    (mapThrough cs (Chunk.fromA c)) (mapThrough cs (Chunk.toA c))
    (mapThrough cs (Chunk.endA c))
    (Chunk.fromB c) (Chunk.toB c) (Chunk.endB c).

(** Modelled from the spec: the "edited region" of [Chunk.updateA]
    ([chunk.ts]) in the new document, from the start of the first
    replacement to the end of the last one. *)
Fixpoint changedRangeFrom (cs : ChangeSet.t) (posB : Z)
    (acc : option (Z * Z)) : option (Z * Z) :=
  match cs with
  | [] => acc
  | ChangeSet.Keep n :: rest => changedRangeFrom rest (posB + Z.of_nat n) acc
  | ChangeSet.Replace n ins :: rest =>
      let e := posB + Text.length ins in
      changedRangeFrom rest e
        (Some (match acc with Some (f, _) => f | None => posB end, e))
  end.

(** Modelled from the spec: the edited region of a change set, for
    [chunk.ts]; [None] when nothing is replaced. *)
Definition changedRange (cs : ChangeSet.t) : option (Z * Z) :=
  changedRangeFrom cs 0 None.

(** Modelled from the spec: the last element of a list, a list helper of
    the model of [chunk.ts]. *)
Definition lastOf {A : Type} (l : list A) : option A :=
  match rev l with [] => None | x :: _ => Some x end.

(** Modelled from the spec: [Chunk.updateA] of [chunk.ts], steps 1 to 4 of
    the contract.  The window is the
    edited region, widened to whole lines and to the chunks it touches;
    only the window is diffed again, the chunks on either side pass
    through, and chunks that have become adjacent are merged.  Chunks
    whose two sides have become identical disappear with the window's old
    chunks. *)
Definition updateA (chunks : list Chunk.t) (a b : Text.t)
    (cs : ChangeSet.t) (config : DiffConfig) : list Chunk.t :=
  let mapped := List.map (mapChunkA cs) chunks in
  match changedRange cs with
  | None => mapped
  | Some (eFrom, eTo) =>
      let wFrom0 := lineStart a eFrom in
      let wTo0 := lineEnd a eTo + 1 in
      let before := takeWhile (fun c => Chunk.toA c <? wFrom0) mapped in
      let rest := dropWhile (fun c => Chunk.toA c <? wFrom0) mapped in
      let window := takeWhile (fun c => Chunk.fromA c <=? wTo0) rest in
      let after := dropWhile (fun c => Chunk.fromA c <=? wTo0) rest in
      let wFromA := fold_right (fun c m => Z.min (Chunk.fromA c) m)
                      wFrom0 window in
      let wToA := fold_right (fun c m => Z.max (Chunk.toA c) m)
                    wTo0 window in
      let wFromB := wFromA + match lastOf before with
                             | Some c => Chunk.toB c - Chunk.toA c
                             | None => 0
                             end in
      let wToB := wToA + match after with
                         | n :: _ => Chunk.fromB n - Chunk.fromA n
                         | [] => Text.length b - Text.length a
                         end in
      let '(fA, _) := Text.clip a wFromA wToA in
      let '(fB, _) := Text.clip b wFromB wToB in
      let changes :=
        List.map (offsetChange fA fB)
          (DiffEngine.diff (Text.sliceString a wFromA wToA)
             (Text.sliceString b wFromB wToB) config) in
      mergeAdjacent (before ++ List.map (lineChunk a b) changes ++ after)
  end.

(** Modelled from the spec: a change with its sides exchanged, for the
    mirror operation of [chunk.ts]. *)
Definition swapChange (c : Change.t) : Change.t :=
  Change.mk (Change.fromB c) (Change.toB c) (Change.fromA c) (Change.toA c).

(** Modelled from the spec: a chunk with its sides exchanged, for the
    mirror operation of [chunk.ts]. *)
Definition swapSides (c : Chunk.t) : Chunk.t :=
  Chunk.mk (List.map swapChange (Chunk.changes c))
    (Chunk.fromB c) (Chunk.toB c) (Chunk.endB c)
    (Chunk.fromA c) (Chunk.toA c) (Chunk.endA c).

(** Modelled from the spec: [Chunk.updateB] of [chunk.ts], "the mirror
    operation". *)
Definition updateB (chunks : list Chunk.t) (a b : Text.t)
    (cs : ChangeSet.t) (config : DiffConfig) : list Chunk.t :=
  List.map swapSides
    (updateA (List.map swapSides chunks) b a cs config).

(** Modelled from the spec: the three operations of [chunk.ts] together. *)
Definition ops : Chunk.Ops :=
  {| Chunk.build := build; Chunk.updateA := updateA;
     Chunk.updateB := updateB |}.

End ChunkStore.

(** ** The coordinates of a chunk list

    [ChunkInvariant] speaks of coordinates only: every chunk is a range on
    both sides, and of any two chunks of the list the earlier one ends
    before the later one starts, in A and in B, so the list is sorted and
    no two chunks overlap or touch.  It says nothing about the text that
    lies between two chunks; that is [separated], below. *)

Definition changeOrdered (c : Change.t) : Prop :=
  Change.fromA c <= Change.toA c /\ Change.fromB c <= Change.toB c.

Definition ordered (c : Chunk.t) : Prop :=
  Chunk.fromA c <= Chunk.toA c /\ Chunk.fromB c <= Chunk.toB c.

Definition apart (c n : Chunk.t) : Prop :=
  Chunk.toA c < Chunk.fromA n /\ Chunk.toB c < Chunk.fromB n.

Definition ChunkInvariant (l : list Chunk.t) : Prop :=
  Forall ordered l /\ StronglySorted apart l.

(** ** Chunks separated by an unchanged line

    The chunk [n] comes after the chunk [c] and an unchanged line of the
    documents [a] and [b] separates the two: there is text between them on
    both sides, it is the same text in [a] and in [b], and a line ends in
    it. *)
Definition separated (a b : Text.t) (c n : Chunk.t) : Prop :=
  Chunk.toA c < Chunk.fromA n /\ Chunk.toB c < Chunk.fromB n
  /\ Text.sliceString a (Chunk.toA c) (Chunk.fromA n)
     = Text.sliceString b (Chunk.toB c) (Chunk.fromB n)
  /\ In Text.nl (Text.sliceString a (Chunk.toA c) (Chunk.fromA n)).

(** Every chunk of the list is separated from the next one. *)
Fixpoint allSeparated (a b : Text.t) (l : list Chunk.t) : Prop :=
  match l with
  | [] => True
  | c :: rest =>
      match rest with
      | [] => True
      | n :: _ => separated a b c n /\ allSeparated a b rest
      end
  end.

(** A chunk lies inside the documents: it ends at most one position past
    the end (on the final line) on either side. *)
Definition insideDocuments (a b : Text.t) (c : Chunk.t) : Prop :=
  0 <= Chunk.fromA c <= Chunk.toA c /\ Chunk.toA c <= Text.length a + 1
  /\ 0 <= Chunk.fromB c <= Chunk.toB c /\ Chunk.toB c <= Text.length b + 1.

(** * Statements to compare the code with, and example states *)

(** The edit of [acceptChunk] as the specification words it: the range
    [[chunk.fromA, chunk.toA)] of A is replaced by B's content for the
    chunk, and a line terminator is appended exactly when the chunk is not
    at the end of A.  (B's content is read up to the chunk's last line
    terminator, the reading under which the sentence holds most often.) *)
Definition acceptEdit_asSpecified (state : EditorState) (chunk : Chunk.t)
  : Z * Z * Text.t :=
  (Chunk.fromA chunk, Chunk.toA chunk,
   sliceDoc state (Chunk.fromB chunk)
     (Z.max (Chunk.fromB chunk) (Chunk.toB chunk - 1))
   ++ (if Chunk.toA chunk <=? Text.length (originalDoc state)
       then lineBreak else [])).

(** The edit [acceptChunk] builds (lines 482-492). *)
Definition acceptEdit (state : EditorState) (chunk : Chunk.t)
  : Z * Z * Text.t :=
  (Chunk.fromA chunk,
   Z.min (Text.length (originalDoc state)) (Chunk.toA chunk),
   acceptInsert state chunk).

(** The same for [rejectChunk]: the specification's wording, and the edit
    built at lines 519-539. *)
Definition rejectEdit_asSpecified (state : EditorState) (chunk : Chunk.t)
  : Z * Z * Text.t :=
  (Chunk.fromB chunk, Chunk.toB chunk,
   Text.sliceString (originalDoc state) (Chunk.fromA chunk)
     (Z.max (Chunk.fromA chunk) (Chunk.toA chunk - 1))
   ++ (if Chunk.toB chunk <=? Text.length (doc state)
       then lineBreak else [])).

Definition rejectEdit (state : EditorState) (chunk : Chunk.t)
  : Z * Z * Text.t :=
  (Chunk.fromB chunk,
   Z.min (Text.length (doc state)) (Chunk.toB chunk),
   rejectInsert state chunk).

(** A transaction whose change replaces the whole of the editor's
    document. *)
Definition wholesale (tr : Transaction) : bool :=
  match changes tr with
  | [ChangeSet.Replace n _] => Z.of_nat n =? Text.length (doc (startState tr))
  | _ => false
  end.

Module Examples.

Definition readmeA : Text.t :=
  Text.of_lines ["one"%string; "two"%string; "three"%string;
                 "four"%string; "five"%string].

Definition readmeB : Text.t :=
  Text.of_lines ["one"%string; "Two"%string; "Three"%string;
                 "four"%string; "five"%string; "Six"%string].

(** The README's documents: a chunk on lines 2 and 3, and a chunk on the
    final line, which ends one past the end of both documents. *)
Definition readme : EditorState :=
  initialState ChunkStore.ops defaultDiffConfig readmeA readmeB 0.

(** A line that is in A only: the chunk is empty on the B side. *)
Definition lineDeleted : EditorState :=
  initialState ChunkStore.ops defaultDiffConfig
    (Text.of_lines ["a"%string; "b"%string; "c"%string])
    (Text.of_lines ["a"%string; "c"%string]) 0.

(** A line that is in B only: the chunk is empty on the A side. *)
Definition lineInserted : EditorState :=
  initialState ChunkStore.ops defaultDiffConfig
    (Text.of_lines ["a"%string; "c"%string])
    (Text.of_lines ["a"%string; "b"%string; "c"%string]) 0.

(** The README's two chunks. *)
Definition firstChunk : Chunk.t :=
  Chunk.mk [Change.mk 0 10 0 10] 4 14 14 4 14 14.

Definition lastChunk : Chunk.t :=
  Chunk.mk [Change.mk 0 4 0 8] 19 24 23 19 28 27.

(** The README's state after the first chunk is accepted, and after the
    last chunk is rejected. *)
Definition accepted : EditorState :=
  match acceptChunk ChunkStore.ops defaultDiffConfig readme (Some 4) with
  | Some ((_, st), _) => st
  | None => readme
  end.

Definition rejected : EditorState :=
  match rejectChunk ChunkStore.ops defaultDiffConfig readme (Some 25) with
  | Some ((_, st), _) => st
  | None => readme
  end.

(** Generated code inserted at the start of the README's document B
    ([applyGeneratedCode] with [replaceAll: false, insertAt: 0]). *)
Definition generatedLine : Text.t :=
  Text.of_lines ["zero"%string; ""%string].

Definition insertion : Transaction :=
  {| startState := readme;
     changes := [ChangeSet.Replace 0 generatedLine; ChangeSet.Keep 27];
     selection := 0;
     effects := [generateCodeEffect generatedLine (Some false) (Some 0)];
     userEvent := "generate.code" |}.

(** Two documents with two changed lines, a line apart, and a
    configuration under which the line diff of the two gives up. *)
Definition fiveA : Text.t :=
  Text.of_lines ["a"%string; "b"%string; "c"%string; "d"%string; "e"%string].

Definition fiveB : Text.t :=
  Text.of_lines ["a"%string; "X"%string; "c"%string; "Y"%string; "e"%string].

Definition tight : DiffConfig := {| scanLimit := 1 |}.

(** Two documents that agree: the chunk list is empty. *)
Definition agreeing : EditorState :=
  initialState ChunkStore.ops defaultDiffConfig
    (Text.of_lines ["a"%string; "b"%string])
    (Text.of_lines ["a"%string; "b"%string]) 0.

End Examples.

(** * The original document set from outside *)

(** [getOriginalDoc(state)] (lines 295-297). *)
Definition getOriginalDoc (state : EditorState) : Text.t := originalDoc state.

(** [originalDocChangeEffect(state, changes)] (lines 223-231):
    [changes.apply] raises when the set was made for another length. *)
Definition originalDocChangeEffect (state : EditorState)
    (changes : ChangeSet.t) : option StateEffect :=
  match ChangeSet.apply changes (getOriginalDoc state) with
  | Some d => Some (updateOriginalDoc d changes)
  | None => None
  end.

(** A transaction that carries effects only, as in
    [view.dispatch({effects: originalDocChangeEffect(state, changes)})]. *)
Definition effectsSpec (effs : list StateEffect) : TransactionSpec :=
  {| spec_changes := NoChanges; spec_selection := None;
     spec_effects := effs; spec_userEvent := "" |}.

(** The effects that change document A in [originalDoc.update]
    (lines 281-284). *)
Definition changesOriginal (e : StateEffect) : bool :=
  match e with
  | updateOriginalDoc _ _ | acceptChunkEffect _ => true
  | _ => false
  end.

(** The documents a call hands to the chunk store. *)
Definition callA (c : ChunkCall) : Text.t :=
  match c with
  | CallBuild a _ | CallUpdateA _ a _ _ | CallUpdateB _ a _ _ => a
  end.

Definition callB (c : ChunkCall) : Text.t :=
  match c with
  | CallBuild _ b | CallUpdateA _ _ b _ | CallUpdateB _ _ b _ => b
  end.

(** * The configuration of the view (lines 30-71, 90-159) *)

(** [String.prototype.split] with the pattern [/\r?\n/]: the string is cut
    at every line feed, and a carriage return right before a line feed is
    part of the cut. *)
Definition consHead (c : ascii) (lines : list string) : list string :=
  match lines with
  | l :: rest => String c l :: rest
  | [] => [String c EmptyString]
  end.

Fixpoint String_split (s : string) : list string :=
  match s with
  | EmptyString => [EmptyString]
  | String c rest =>
      if Ascii.eqb c "010" then EmptyString :: String_split rest
      else
        match rest with
        | String c' rest' =>
            if Ascii.eqb c "013" && Ascii.eqb c' "010"
            then EmptyString :: String_split rest'
            else consHead c (String_split rest)
        | EmptyString => consHead c (String_split rest)
        end
  end.

(** The value of [mergeControls]: a boolean, or a function that renders
    the two buttons. *)
Inductive MergeControls : Type :=
| ControlsFlag (b : bool)
| ControlsRender.

Module UnifiedMergeConfig.

Inductive Original : Type :=
| OfText (t : Text.t)
| OfString (s : string).

(** The options of [unifiedMergeView] (lines 30-71), an option that is not
    given being [None].  [collapseUnchanged] and [invertedEffects], which
    only choose extensions of the host editor, are left out. *)
Record t : Type := {
  original : Original;
  highlightChanges : option bool;
  gutter : option bool;
  syntaxHighlightDeletions : option bool;
  allowInlineDiffs : option bool;
  syntaxHighlightDeletionsMaxLength : option Z;
  mergeControls : option MergeControls;
  diffConfig : option DiffConfig
}.

End UnifiedMergeConfig.

Module MergeConfig.

(** The value given to the [mergeConfig] facet at lines 145-153;
    [overrideChunk] says whether [overrideChunkInline] is installed. *)
Record t : Type := {
  highlightChanges : bool;
  markGutter : bool;
  syntaxHighlightDeletions : bool;
  syntaxHighlightDeletionsMaxLength : Z;
  mergeControls : MergeControls;
  overrideChunk : bool;
  side : string
}.

End MergeConfig.

(** [x !== false] for an optional boolean. *)
Definition notFalse (o : option bool) : bool :=
  match o with Some false => false | _ => true end.

(** [orig] (lines 91-94). *)
Definition unifiedMergeView_orig (config : UnifiedMergeConfig.t) : Text.t :=
  match UnifiedMergeConfig.original config with
  | UnifiedMergeConfig.OfString s => Text.of_lines (String_split s)
  | UnifiedMergeConfig.OfText t => t
  end.

(** [diffConf] (line 95). *)
Definition unifiedMergeView_diffConf (config : UnifiedMergeConfig.t)
  : DiffConfig :=
  match UnifiedMergeConfig.diffConfig config with
  | Some c => c
  | None => defaultDiffConfig
  end.

(** The merge configuration (lines 145-153). *)
Definition unifiedMergeView_mergeConfig (config : UnifiedMergeConfig.t)
  : MergeConfig.t :=
  {| MergeConfig.highlightChanges :=
       notFalse (UnifiedMergeConfig.highlightChanges config);
     MergeConfig.markGutter := notFalse (UnifiedMergeConfig.gutter config);
     MergeConfig.syntaxHighlightDeletions :=
       notFalse (UnifiedMergeConfig.syntaxHighlightDeletions config);
     MergeConfig.syntaxHighlightDeletionsMaxLength := 3000;
     MergeConfig.mergeControls :=
       match UnifiedMergeConfig.mergeControls config with
       | Some c => c
       | None => ControlsFlag true
       end;
     MergeConfig.overrideChunk :=
       match UnifiedMergeConfig.allowInlineDiffs config with
       | Some true => true
       | _ => false
       end;
     MergeConfig.side := "b" |}.

(** The state of an editor created with the extension on the document
    [b]: [originalDoc.init] and [ChunkField.init] (lines 154 and 157). *)
Definition unifiedMergeView_state (ops : Chunk.Ops)
    (config : UnifiedMergeConfig.t) (b : Text.t) (sel : Z) : EditorState :=
  initialState ops (unifiedMergeView_diffConf config)
    (unifiedMergeView_orig config) b sel.

(** A string with every carriage return that stands right before a line
    feed taken out. *)
Fixpoint dropCR (s : string) : string :=
  match s with
  | EmptyString => EmptyString
  | String c rest =>
      match rest with
      | String c' rest' =>
          if Ascii.eqb c "013" && Ascii.eqb c' "010"
          then String c' (dropCR rest')
          else String c (dropCR rest)
      | EmptyString => String c EmptyString
      end
  end.

Fixpoint hasCR (s : string) : bool :=
  match s with
  | EmptyString => false
  | String c rest => Ascii.eqb c "013" || hasCR rest
  end.

(** * The widget of a deleted chunk (lines 333-470) *)

(** The string methods [buildDOM] uses, on flat texts. *)
Module JsString.

(** [s.charAt(i)]: [None] stands for the empty string. *)
Definition charAt (s : Text.t) (i : Z) : option ascii :=
  if i <? 0 then None else nth_error s (Z.to_nat i).

(** The first [c] in [s], whose first character stands at position [i]. *)
Fixpoint indexFrom (s : Text.t) (c : ascii) (i : Z) : Z :=
  match s with
  | [] => -1
  | x :: rest => if Ascii.eqb x c then i else indexFrom rest c (i + 1)
  end.

(** [s.indexOf(c, from)]. *)
Definition indexOf (s : Text.t) (c : ascii) (from : Z) : Z :=
  let k := Z.min (Z.max from 0) (Text.length s) in
  indexFrom (skipn (Z.to_nat k) s) c k.

(** [s.slice(start, end)]: a negative index counts from the end. *)
Definition slice (s : Text.t) (start end_ : Z) : Text.t :=
  let len := Text.length s in
  let from := if start <? 0 then Z.max (len + start) 0 else Z.min start len in
  let to := if end_ <? 0 then Z.max (len + end_) 0 else Z.min end_ len in
  firstn (Z.to_nat (to - from)) (skipn (Z.to_nat from) s).

End JsString.

Module Dom.

(** The nodes [buildDOM] creates: elements with their class name and
    children, text nodes, and the two controls, which are either the
    view's own buttons or what the configured function renders. *)
#[warnings="-register-all"] Inductive Node : Type :=
| Element (tag className : string) (children : list Node)
| TextNode (data : Text.t)
| Button (name : string) (label : string)
| Rendered (type : string).

(** [node.textContent]. *)
Fixpoint textContent (n : Node) : Text.t :=
  match n with
  | Element _ _ children => flat_map textContent children
  | TextNode data => data
  | Button _ label => Text.of_string label
  | Rendered _ => []
  end.

Definition className (n : Node) : string :=
  match n with
  | Element _ c _ => c
  | _ => EmptyString
  end.

Definition children (n : Node) : list Node :=
  match n with
  | Element _ _ l => l
  | _ => []
  end.

End Dom.

Module DeletionWidget.

(** The variables the closure [add] works on (lines 396-399): the lines
    that are complete, the children of the current [del] element, and the
    place in the chunk's changes. *)
Record Lines : Type := {
  closed : list (list Dom.Node);
  line : list Dom.Node;
  changeI : nat;
  inside : bool
}.

Definition start : Lines :=
  {| closed := []; line := []; changeI := 0; inside := false |}.

Definition br : Dom.Node := Dom.Element "br" "" [].

(** [if (!line.firstChild) line.appendChild(document.createElement("br"))]. *)
Definition orBr (l : list Dom.Node) : list Dom.Node :=
  match l with [] => [br] | _ :: _ => l end.

(** Lines 408-409: the current line is complete, a new one begins. *)
Definition newLine (st : Lines) : Lines :=
  {| closed := closed st ++ [orBr (line st)]; line := [];
     changeI := changeI st; inside := inside st |}.

(** Lines 430-437: a text node, inside a [span] when it has a class. *)
Definition textNode (nodeCls : string) (data : Text.t) : Dom.Node :=
  if String.eqb nodeCls "" then Dom.TextNode data
  else Dom.Element "span" nodeCls [Dom.TextNode data].

(** The loop of [add] (lines 406-441), with [at_] the loop variable.  The
    loop ends by itself; [fuel] bounds the number of rounds. *)
Fixpoint addFrom (text : Text.t) (changes : list Change.t)
    (highlightChanges : bool) (fuel : nat) (st : Lines) (at_ to : Z)
    (cls : string) : option Lines :=
  if at_ <? to then
    match fuel with
    | O => None
    | S fuel =>
        if match JsString.charAt text at_ with
           | Some c => Ascii.eqb c "010"
           | None => false
           end
        then addFrom text changes highlightChanges fuel (newLine st)
               (at_ + 1) to cls
        else
          let nodeCls :=
            (cls ++ (if inside st then " cm-deletedText" else ""))%string in
          let newline := JsString.indexOf text "010" at_ in
          let nextStop :=
            if (newline >? -1) && (newline <? to) then newline else to in
          let '(nextStop, changeI', flip) :=
            match (if highlightChanges
                   then nth_error changes (changeI st) else None) with
            | Some ch =>
                let nextBound :=
                  Z.max 0 (if inside st then Change.toA ch
                           else Change.fromA ch) in
                if nextBound <=? nextStop
                then (nextBound,
                      if inside st then S (changeI st) else changeI st,
                      true)
                else (nextStop, changeI st, false)
            | None => (nextStop, changeI st, false)
            end in
          let line' :=
            if nextStop >? at_
            then line st
                 ++ [textNode nodeCls (JsString.slice text at_ nextStop)]
            else line st in
          let at' := if nextStop >? at_ then nextStop else at_ in
          addFrom text changes highlightChanges fuel
            {| closed := closed st; line := line';
               changeI := changeI';
               inside := if flip then negb (inside st) else inside st |}
            at' to cls
    end
  else Some st.

(** The number of boundaries of changes that are still to come. *)
Definition boundsLeft (changes : list Change.t) (st : Lines) : nat :=
  2 * (List.length changes - changeI st) + (if inside st then 0 else 1).

(** [add(from, to, cls)] (lines 405-442). *)
Definition add (text : Text.t) (changes : list Change.t)
    (highlightChanges : bool) (st : Lines) (from to : Z) (cls : string)
  : option Lines :=
  addFrom text changes highlightChanges
    (Z.to_nat (to - from) + boundsLeft changes st + 1) st from to cls.

(** The callback given to [highlightTree] (lines 450-454), run over the
    styled ranges [(from, to, cls)] the highlighter reports. *)
Fixpoint addSpans (text : Text.t) (changes : list Change.t)
    (highlightChanges : bool) (spans : list (Z * Z * string)) (st : Lines)
    (pos : Z) : option (Lines * Z) :=
  match spans with
  | [] => Some (st, pos)
  | (from, to, cls) :: rest =>
      match (if from >? pos
             then add text changes highlightChanges st pos from ""
             else Some st) with
      | None => None
      | Some st1 =>
          match add text changes highlightChanges st1 from to cls with
          | None => None
          | Some st2 => addSpans text changes highlightChanges rest st2 to
          end
      end
  end.

(** The buttons (lines 365-389); the phrases are not translated. *)
Definition controls (mergeControls : MergeControls) : list Dom.Node :=
  match mergeControls with
  | ControlsFlag false => []
  | ControlsFlag true =>
      [Dom.Element "div" "cm-chunkButtons"
         [Dom.Button "accept" "Accept"; Dom.Button "reject" "Reject"]]
  | ControlsRender =>
      [Dom.Element "div" "cm-chunkButtons"
         [Dom.Rendered "accept"; Dom.Rendered "reject"]]
  end.

(** [makeLine] (lines 400-404), with the children of the [del] element. *)
Definition lineDiv (l : list Dom.Node) : Dom.Node :=
  Dom.Element "div" "cm-deletedLine" [Dom.Element "del" "" l].

(** [buildDOM] (lines 356-462).  [conf] is the merge configuration of the
    state the widget was made in, [orig] the original document of the
    view's state; [lang], when the editor has a language, gives the styled
    ranges its highlighter reports for a text. *)
Definition buildDOM (conf : MergeConfig.t)
    (lang : option (Text.t -> list (Z * Z * string))) (chunk : Chunk.t)
    (hideContent : bool) (orig : Text.t) : option Dom.Node :=
  let highlightChanges := MergeConfig.highlightChanges conf in
  let buttons := controls (MergeConfig.mergeControls conf) in
  if hideContent || (Chunk.fromA chunk >=? Chunk.toA chunk)
  then Some (Dom.Element "div" "cm-deletedChunk" buttons)
  else
    let text := Text.sliceString orig (Chunk.fromA chunk) (Chunk.endA chunk) in
    let lang := if MergeConfig.syntaxHighlightDeletions conf
                then lang else None in
    let changes := Chunk.changes chunk in
    let plain := add text changes highlightChanges start 0
                   (Text.length text) "" in
    let filled :=
      match lang with
      | Some highlight =>
          if Chunk.toA chunk - Chunk.fromA chunk
             <=? MergeConfig.syntaxHighlightDeletionsMaxLength conf
          then
            match addSpans text changes highlightChanges (highlight text)
                    start 0 with
            | Some (st, pos) =>
                add text changes highlightChanges st pos (Text.length text) ""
            | None => None
            end
          else plain
      | None => plain
      end in
    match filled with
    | None => None
    | Some st =>
        Some (Dom.Element "div" "cm-deletedChunk"
                (buttons ++ map lineDiv (closed st ++ [orBr (line st)])))
    end.

(** The lines of the widget as text: what every [cm-deletedLine] element
    holds, one line per element. *)
Definition deletedLines (dom : Dom.Node) : list Text.t :=
  map Dom.textContent
    (filter (fun n => String.eqb (Dom.className n) "cm-deletedLine")
       (Dom.children dom)).

Fixpoint joinLines (lines : list Text.t) : Text.t :=
  match lines with
  | [] => []
  | l :: rest =>
      match rest with
      | [] => l
      | _ :: _ => l ++ Text.nl :: joinLines rest
      end
  end.

(** The lines of a text. *)
Fixpoint textLines (t : Text.t) : list Text.t :=
  match t with
  | [] => [[]]
  | c :: rest =>
      if Ascii.eqb c Text.nl then [] :: textLines rest
      else match textLines rest with
           | l :: ls => (c :: l) :: ls
           | [] => [[c]]
           end
  end.

(** What a line holds and what the lines built so far show. *)
Definition lineText (l : list Dom.Node) : Text.t :=
  flat_map Dom.textContent l.

Definition shown (st : Lines) : Text.t :=
  joinLines (map lineText (closed st ++ [line st])).

(** No line holds a line feed. *)
Definition noLineFeed (st : Lines) : Prop :=
  Forall (fun l => ~ In Text.nl l) (map lineText (closed st ++ [line st])).

(** One round of the loop of [add], for [at_ < to]: the variables and the
    loop variable after it. *)
Definition round (text : Text.t) (changes : list Change.t)
    (highlightChanges : bool) (st : Lines) (at_ to : Z) (cls : string)
  : Lines * Z :=
  if match JsString.charAt text at_ with
     | Some c => Ascii.eqb c "010"
     | None => false
     end
  then (newLine st, at_ + 1)
  else
    let nodeCls :=
      (cls ++ (if inside st then " cm-deletedText" else ""))%string in
    let newline := JsString.indexOf text "010" at_ in
    let nextStop :=
      if (newline >? -1) && (newline <? to) then newline else to in
    let '(nextStop, changeI', flip) :=
      match (if highlightChanges
             then nth_error changes (changeI st) else None) with
      | Some ch =>
          let nextBound :=
            Z.max 0 (if inside st then Change.toA ch
                     else Change.fromA ch) in
          if nextBound <=? nextStop
          then (nextBound,
                if inside st then S (changeI st) else changeI st,
                true)
          else (nextStop, changeI st, false)
      | None => (nextStop, changeI st, false)
      end in
    let line' :=
      if nextStop >? at_
      then line st ++ [textNode nodeCls (JsString.slice text at_ nextStop)]
      else line st in
    let at' := if nextStop >? at_ then nextStop else at_ in
    ({| closed := closed st; line := line'; changeI := changeI';
        inside := if flip then negb (inside st) else inside st |}, at').

(** Whether a node is marked as deleted text, where no syntax highlighting
    adds classes of its own; the characters of a line, and of the widget,
    with their marks. *)
Definition marked (n : Dom.Node) : bool :=
  String.eqb (Dom.className n) " cm-deletedText".

Definition lineMarks (l : list Dom.Node) : list (ascii * bool) :=
  flat_map (fun n => map (fun c => (c, marked n)) (Dom.textContent n)) l.

Definition deletedMarks (dom : Dom.Node) : list (ascii * bool) :=
  flat_map (fun div => lineMarks (flat_map Dom.children (Dom.children div)))
    (filter (fun n => String.eqb (Dom.className n) "cm-deletedLine")
       (Dom.children dom)).

Definition allMarks (st : Lines) : list (ascii * bool) :=
  flat_map lineMarks (closed st ++ [line st]).

(** Whether a position of the chunk's text in A lies in one of the chunk's
    changes, and the characters of a text other than line feeds, each with
    that answer for its position. *)
Definition inChange (changes : list Change.t) (p : Z) : bool :=
  existsb (fun ch => (Change.fromA ch <=? p) && (p <? Change.toA ch)) changes.

Fixpoint marksFrom (changes : list Change.t) (text : Text.t) (p : Z)
  : list (ascii * bool) :=
  match text with
  | [] => []
  | c :: rest =>
      if Ascii.eqb c Text.nl then marksFrom changes rest (p + 1)
      else (c, inChange changes p) :: marksFrom changes rest (p + 1)
  end.

(** Changes that are ranges of A and follow one another. *)
Definition changesInOrder (changes : list Change.t) : Prop :=
  Forall (fun c => Change.fromA c <= Change.toA c) changes
  /\ StronglySorted (fun c d => Change.toA c <= Change.fromA d) changes.

(** The place in the changes agrees with the position [at_]: the changes
    that are done end at or before it, and the change that is open starts
    at or before it. *)
Definition caughtUp (changes : list Change.t) (st : Lines) (at_ : Z) : Prop :=
  (forall i ch,
      (i < changeI st)%nat -> nth_error changes i = Some ch ->
      Z.max 0 (Change.toA ch) <= at_)
  /\ (inside st = true ->
      exists ch,
        nth_error changes (changeI st) = Some ch
        /\ Z.max 0 (Change.fromA ch) <= at_).

(** Styled ranges as a highlighter reports them: in order, one after the
    other, inside the text. *)
Fixpoint spansInOrder (spans : list (Z * Z * string)) (pos len : Z) : Prop :=
  match spans with
  | [] => pos <= len
  | (from, to, _) :: rest =>
      pos <= from /\ from <= to /\ spansInOrder rest to len
  end.

End DeletionWidget.

(** * Chunks displayed inline (lines 561-671) *)

Module Line.
(** A line as [Text.lineAt] describes it: where it starts and ends (the
    line break not included) and its number, counted from 1. *)
Record t : Type := mk { from : Z; to : Z; number : Z }.
End Line.

(** The number of characters up to the next line break. *)
Fixpoint lineLength (d : Text.t) : Z :=
  match d with
  | [] => 0
  | c :: rest => if Ascii.eqb c Text.nl then 0 else 1 + lineLength rest
  end.

(** The line around the position [k] characters into [d], where [d] starts
    at position [off] of the document, in the line that starts at [start]
    and has the number [n]. *)
Fixpoint lineScan (d : Text.t) (k : nat) (off start n : Z) : Line.t :=
  match k with
  | O => Line.mk start (off + lineLength d) n
  | S k' =>
      match d with
      | [] => Line.mk start off n
      | c :: rest =>
          if Ascii.eqb c Text.nl
          then lineScan rest k' (off + 1) (off + 1) (n + 1)
          else lineScan rest k' (off + 1) start n
      end
  end.

(** [doc.lineAt(pos)] of @codemirror/state: a position outside the
    document raises. *)
Definition lineAt (d : Text.t) (pos : Z) : option Line.t :=
  if (pos <? 0) || (pos >? Text.length d) then None
  else Some (lineScan d (Z.to_nat pos) 0 0 1).

Module Deco.

(** The decorations of this file: the widget of a deleted piece of text
    (lines 610-614), the mark [changedText] of [deco.ts], and the line
    decoration [inlineChangedLine] (line 648). *)
Inductive Decoration : Type :=
| InlineDeletion (text : Text.t)
| changedText
| inlineChangedLine.

(** [Range<Decoration>]. *)
Record range : Type := mk { from : Z; to : Z; value : Decoration }.

End Deco.

(** The loop over [chunk.changes] (lines 605-620); [None] is
    [break abort]. *)
Fixpoint inlineRanges (a : Text.t) (bA bB : Z) (changes : list Change.t)
    (deco : list Deco.range) (deleteCount : Z)
  : option (list Deco.range * Z) :=
  match changes with
  | [] => Some (deco, deleteCount)
  | ch :: rest =>
      let marked (deco : list Deco.range) :=
        if Change.fromB ch <? Change.toB ch
        then deco ++ [Deco.mk (bB + Change.fromB ch) (bB + Change.toB ch)
                        Deco.changedText]
        else deco in
      if Change.fromA ch <? Change.toA ch then
        let deleteCount := deleteCount + (Change.toA ch - Change.fromA ch) in
        let deleted :=
          Text.sliceString a (bA + Change.fromA ch) (bA + Change.toA ch) in
        if existsb (Ascii.eqb Text.nl) deleted then None
        else
          inlineRanges a bA bB rest
            (marked (deco ++ [Deco.mk (bB + Change.fromB ch)
                                (bB + Change.fromB ch)
                                (Deco.InlineDeletion deleted)]))
            deleteCount
      else inlineRanges a bA bB rest (marked deco) deleteCount
  end.

(** [chunkCanDisplayInline(state, chunk)] (lines 588-626): the value that
    is computed for a chunk, and then kept for that chunk object in
    [InlineChunkCache].  The outer [None] is a raised error, the inner one
    is [null]. *)
Definition chunkCanDisplayInline (state : EditorState) (chunk : Chunk.t)
  : option (option (list Deco.range)) :=
  let a := originalDoc state in
  let b := doc state in
  match lineAt a (Chunk.endA chunk), lineAt a (Chunk.fromA chunk),
        lineAt b (Chunk.endB chunk), lineAt b (Chunk.fromB chunk) with
  | Some endLineA, Some fromLineA, Some endLineB, Some fromLineB =>
      let linesA := Line.number endLineA - Line.number fromLineA + 1 in
      let linesB := Line.number endLineB - Line.number fromLineB + 1 in
      Some
        (if (linesA =? linesB) && (linesA <? 10) then
           match inlineRanges a (Chunk.fromA chunk) (Chunk.fromB chunk)
                   (Chunk.changes chunk) [] 0 with
           | Some (deco, deleteCount) =>
               if deleteCount
                  <? Chunk.endA chunk - Chunk.fromA chunk - linesA * 2
               then Some deco else None
           | None => None
           end
         else None)
  | _, _, _, _ => None
  end.

(** What [overrideChunkInline] adds: the ranges given to [builder], in
    order, and the positions given to [gutterBuilder]. *)
Record Added : Type := {
  ranges : list Deco.range;
  gutterMarks : list Z
}.

(** The [while] loop at lines 663-666: the ranges that end in the line
    are added; the others wait. *)
Fixpoint takeInLine (inline : list Deco.range) (lineTo : Z)
  : list Deco.range * list Deco.range :=
  match inline with
  | [] => ([], [])
  | r :: rest =>
      if Deco.to r <=? lineTo
      then let '(taken, waiting) := takeInLine rest lineTo in
           (r :: taken, waiting)
      else ([], inline)
  end.

(** The loop over the lines of the chunk (lines 659-669), which ends by
    itself; [fuel] bounds the number of rounds.  [None] is a raised
    error. *)
Fixpoint inlineLines (fuel : nat) (b : Text.t) (endB : Z) (gutter : bool)
    (inline : list Deco.range) (line : Line.t) (added : Added)
  : option Added :=
  match fuel with
  | O => None
  | S fuel =>
      let gutterMarks :=
        if gutter then gutterMarks added ++ [Line.from line]
        else gutterMarks added in
      let '(taken, waiting) := takeInLine inline (Line.to line) in
      let ranges :=
        ranges added
        ++ [Deco.mk (Line.from line) (Line.from line) Deco.inlineChangedLine]
        ++ taken in
      let added := {| ranges := ranges; gutterMarks := gutterMarks |} in
      if Line.to line >=? endB then Some added
      else match lineAt b (Line.to line + 1) with
           | Some next => inlineLines fuel b endB gutter waiting next added
           | None => None
           end
  end.

(** [overrideChunkInline(state, chunk, builder, gutterBuilder)]
    (lines 650-671): the returned boolean and what was added;
    [gutter] says whether a gutter builder was given. *)
Definition overrideChunkInline (state : EditorState) (chunk : Chunk.t)
    (gutter : bool) : option (bool * Added) :=
  match chunkCanDisplayInline state chunk with
  | None => None
  | Some None => Some (false, {| ranges := []; gutterMarks := [] |})
  | Some (Some inline) =>
      match lineAt (doc state) (Chunk.fromB chunk) with
      | None => None
      | Some line =>
          match inlineLines (S (List.length (doc state))) (doc state)
                  (Chunk.endB chunk) gutter inline line
                  {| ranges := []; gutterMarks := [] |} with
          | Some added => Some (true, added)
          | None => None
          end
      end
  end.

(** [buildDeletedChunks(state)] (lines 561-570): for every chunk, where its
    widget is put and whether the widget hides the deleted text;
    [overrideChunk] is the option of the merge configuration.  (A widget
    made before for the same array of changes is used again, line 353.) *)
Definition buildDeletedChunks (overrideChunk : bool) (state : EditorState)
  : option (list (Z * Chunk.t * bool)) :=
  fold_right
    (fun ch rest =>
       match (if overrideChunk
              then match chunkCanDisplayInline state ch with
                   | Some (Some _) => Some true
                   | Some None => Some false
                   | None => None
                   end
              else Some false), rest with
       | Some hide, Some l => Some ((Chunk.fromB ch, ch, hide) :: l)
       | _, _ => None
       end)
    (Some []) (ChunkField state).

(** The ranges one change of a chunk is shown with, inline. *)
Definition rangesOf (a : Text.t) (bA bB : Z) (ch : Change.t)
  : list Deco.range :=
  (if Change.fromA ch <? Change.toA ch
   then [Deco.mk (bB + Change.fromB ch) (bB + Change.fromB ch)
           (Deco.InlineDeletion
              (Text.sliceString a (bA + Change.fromA ch)
                 (bA + Change.toA ch)))]
   else [])
  ++ (if Change.fromB ch <? Change.toB ch
      then [Deco.mk (bB + Change.fromB ch) (bB + Change.toB ch)
              Deco.changedText]
      else []).

(** Whether a range that was added is the decoration of a line. *)
Definition isLineDeco (r : Deco.range) : bool :=
  match Deco.value r with
  | Deco.inlineChangedLine => true
  | _ => false
  end.

(** The number of characters a chunk's changes delete. *)
Definition deletedCount (changes : list Change.t) : Z :=
  fold_right
    (fun ch n =>
       (if Change.fromA ch <? Change.toA ch
        then Change.toA ch - Change.fromA ch else 0) + n)
    0 changes.

(** Whether a line starts at position [s] of [b]. *)
Definition startsLine (b : Text.t) (s : Z) : Prop :=
  exists l, lineAt b s = Some l /\ Line.from l = s.

(** What a line of [b] is: it lies inside [b], holds no line break, a line
    break or the end of [b] follows it, and a line break or the start of
    [b] is before it. *)
Definition isLineOf (b : Text.t) (l : Line.t) : Prop :=
  0 <= Line.from l <= Line.to l /\ Line.to l <= Text.length b
  /\ (forall j : nat, Line.from l <= Z.of_nat j < Line.to l ->
                      nth_error b j <> Some Text.nl)
  /\ (Line.to l < Text.length b ->
      nth_error b (Z.to_nat (Line.to l)) = Some Text.nl)
  /\ (0 < Line.from l ->
      nth_error b (Z.to_nat (Line.from l - 1)) = Some Text.nl).

(** Where the line decorations were added, and the other ranges that were
    added. *)
Definition lineDecos (added : Added) : list Z :=
  map Deco.from (filter isLineDeco (ranges added)).

Definition shownRanges (added : Added) : list Deco.range :=
  filter (fun r => negb (isLineDeco r)) (ranges added).

(** * Facts about documents and change sets *)

Lemma Text_length_nonneg (d : Text.t) : 0 <= Text.length d.
Proof. unfold Text.length. lia. Qed.

Lemma Text_length_app (d e : Text.t) :
  Text.length (d ++ e) = Text.length d + Text.length e.
Proof. unfold Text.length. rewrite length_app. lia. Qed.

Lemma ChangeSet_length_keep (n : Z) :
  0 <= n -> ChangeSet.length (ChangeSet.keep n) = n.
Proof.
  intro H. unfold ChangeSet.keep. destruct (n =? 0) eqn:E.
  - apply Z.eqb_eq in E. subst. reflexivity.
  - unfold ChangeSet.length. simpl. lia.
Qed.

Lemma ChangeSet_length_app (cs cs' : ChangeSet.t) :
  ChangeSet.length (cs ++ cs') = ChangeSet.length cs + ChangeSet.length cs'.
Proof.
  unfold ChangeSet.length. induction cs as [|s cs IH]; simpl.
  - reflexivity.
  - lia.
Qed.

Lemma ChangeSet_length_cons (s : ChangeSet.section) (cs : ChangeSet.t) :
  ChangeSet.length (s :: cs)
  = Z.of_nat (ChangeSet.sectionLen s) + ChangeSet.length cs.
Proof. unfold ChangeSet.length. simpl. lia. Qed.

Lemma ChangeSet_length_nonneg (cs : ChangeSet.t) : 0 <= ChangeSet.length cs.
Proof. unfold ChangeSet.length. lia. Qed.

Lemma ChangeSet_applySections_keep (n : Z) (d : Text.t) :
  ChangeSet.applySections (ChangeSet.keep n) d = firstn (Z.to_nat n) d.
Proof.
  unfold ChangeSet.keep. destruct (n =? 0) eqn:E.
  - apply Z.eqb_eq in E. subst. reflexivity.
  - simpl. apply app_nil_r.
Qed.

Lemma ChangeSet_applySections_app (cs cs' : ChangeSet.t) (d : Text.t) :
  ChangeSet.applySections (cs ++ cs') d
  = ChangeSet.applySections cs d
    ++ ChangeSet.applySections cs' (skipn (Z.to_nat (ChangeSet.length cs)) d).
Proof.
  revert d. induction cs as [|s cs IH]; intro d.
  - reflexivity.
  - rewrite ChangeSet_length_cons.
    pose proof (ChangeSet_length_nonneg cs) as Hn.
    replace (Z.to_nat (Z.of_nat (ChangeSet.sectionLen s) + ChangeSet.length cs))
      with (Z.to_nat (ChangeSet.length cs) + ChangeSet.sectionLen s)%nat by lia.
    rewrite <- skipn_skipn.
    destruct s as [n|n ins]; simpl; rewrite IH, <- app_assoc; reflexivity.
Qed.

(** Inverting keeps the shape: the inverse applies to the new document. *)
Lemma ChangeSet_length_invert (cs : ChangeSet.t) (d : Text.t) :
  ChangeSet.length (ChangeSet.invert cs d) = ChangeSet.newLength cs.
Proof.
  unfold ChangeSet.length, ChangeSet.newLength. revert d.
  induction cs as [|s cs IH]; intro d; [reflexivity|].
  destruct s as [n|n ins]; simpl; specialize (IH (skipn n d)); lia.
Qed.

Lemma ChangeSet_applySections_length (cs : ChangeSet.t) (d : Text.t) :
  ChangeSet.length cs = Text.length d ->
  Text.length (ChangeSet.applySections cs d) = ChangeSet.newLength cs.
Proof.
  revert d. induction cs as [|s cs IH]; intros d H; [reflexivity|].
  rewrite ChangeSet_length_cons in H.
  assert (Hs : ChangeSet.length cs
               = Text.length (skipn (ChangeSet.sectionLen s) d)).
  { pose proof (ChangeSet_length_nonneg cs). unfold Text.length in *.
    rewrite length_skipn. lia. }
  specialize (IH _ Hs). unfold ChangeSet.newLength in *.
  pose proof (ChangeSet_length_nonneg cs).
  destruct s as [n|n ins]; simpl in *; rewrite Text_length_app, IH.
  - unfold Text.length in *. rewrite length_firstn. lia.
  - unfold Text.length. lia.
Qed.

Lemma firstn_length_app {A : Type} (l r : list A) (n : nat) :
  List.length l = n -> firstn n (l ++ r) = l.
Proof.
  intros <-. induction l as [|x l IH]; simpl; [destruct r|rewrite IH];
    reflexivity.
Qed.

Lemma skipn_length_app {A : Type} (l r : list A) (n : nat) :
  List.length l = n -> skipn n (l ++ r) = r.
Proof. intros <-. induction l as [|x l IH]; simpl; [reflexivity|exact IH]. Qed.

Lemma firstn_exact_length (n : nat) (d : Text.t) :
  Z.of_nat n <= Text.length d -> List.length (firstn n d) = n.
Proof. unfold Text.length. intro H. rewrite length_firstn. lia. Qed.

Lemma ChangeSet_tail_length (s : ChangeSet.section) (cs : ChangeSet.t)
    (d : Text.t) :
  ChangeSet.length (s :: cs) = Text.length d ->
  Z.of_nat (ChangeSet.sectionLen s) <= Text.length d
  /\ ChangeSet.length cs = Text.length (skipn (ChangeSet.sectionLen s) d).
Proof.
  rewrite ChangeSet_length_cons. intro H.
  pose proof (ChangeSet_length_nonneg cs). unfold Text.length in *.
  rewrite length_skipn. lia.
Qed.

(** Applying a change set and then its inverse gives back the document. *)
Lemma ChangeSet_applySections_invert (cs : ChangeSet.t) (d : Text.t) :
  ChangeSet.length cs = Text.length d ->
  ChangeSet.applySections (ChangeSet.invert cs d) (ChangeSet.applySections cs d)
  = d.
Proof.
  revert d. induction cs as [|s cs IH]; intros d H.
  - destruct d; [reflexivity|]. unfold ChangeSet.length, Text.length in H.
    simpl in H. lia.
  - destruct (ChangeSet_tail_length _ _ _ H) as [Hn Hs].
    specialize (IH _ Hs).
    destruct s as [n|n ins]; simpl in *.
    + pose proof (firstn_exact_length n d Hn) as Hl.
      rewrite (firstn_length_app _ _ _ Hl), (skipn_length_app _ _ _ Hl), IH.
      apply firstn_skipn.
    + rewrite (skipn_length_app _ _ _ eq_refl), IH. apply firstn_skipn.
Qed.

(** Inverting twice, each time against the document the set applies to,
    gives back the change set. *)
Lemma ChangeSet_invert_invert (cs : ChangeSet.t) (d : Text.t) :
  ChangeSet.length cs = Text.length d ->
  ChangeSet.invert (ChangeSet.invert cs d) (ChangeSet.applySections cs d) = cs.
Proof.
  revert d. induction cs as [|s cs IH]; intros d H; [reflexivity|].
  destruct (ChangeSet_tail_length _ _ _ H) as [Hn Hs].
  specialize (IH _ Hs).
  destruct s as [n|n ins]; simpl in *.
  - pose proof (firstn_exact_length n d Hn) as Hl.
    rewrite (skipn_length_app _ _ _ Hl), IH. reflexivity.
  - rewrite (skipn_length_app _ _ _ eq_refl), IH.
    rewrite (firstn_length_app _ _ _ eq_refl).
    rewrite (firstn_exact_length n d Hn). reflexivity.
Qed.

Lemma ChangeSet_of_inv (from to : Z) (ins : Text.t) (len : Z)
    (cs : ChangeSet.t) :
  ChangeSet.of_ from to ins len = Some cs ->
  0 <= from /\ from <= to /\ to <= len.
Proof.
  unfold ChangeSet.of_. intro H.
  destruct (from >? to) eqn:E1; [discriminate|].
  destruct (from <? 0) eqn:E2; [discriminate|].
  destruct (to >? len) eqn:E3; [discriminate|]. lia.
Qed.

Lemma ChangeSet_of_defined (from to : Z) (ins : Text.t) (len : Z) :
  0 <= from -> from <= to -> to <= len ->
  exists cs, ChangeSet.of_ from to ins len = Some cs.
Proof.
  intros H0 H1 H2. unfold ChangeSet.of_.
  replace (from >? to) with false by lia.
  replace (from <? 0) with false by lia.
  replace (to >? len) with false by lia. simpl.
  destruct ((from =? to) && (Text.length ins =? 0)); eexists; reflexivity.
Qed.

Lemma ChangeSet_of_length (from to : Z) (ins : Text.t) (len : Z)
    (cs : ChangeSet.t) :
  ChangeSet.of_ from to ins len = Some cs -> ChangeSet.length cs = len.
Proof.
  intro H. destruct (ChangeSet_of_inv _ _ _ _ _ H) as (H0 & H1 & H2).
  unfold ChangeSet.of_ in H.
  replace (from >? to) with false in H by lia.
  replace (from <? 0) with false in H by lia.
  replace (to >? len) with false in H by lia. simpl in H.
  destruct ((from =? to) && (Text.length ins =? 0)); inversion H; subst.
  - apply ChangeSet_length_keep. lia.
  - rewrite ChangeSet_length_app, ChangeSet_length_cons.
    rewrite !ChangeSet_length_keep by lia. cbn [ChangeSet.sectionLen]. lia.
Qed.

(** What a single replacement does to a document of the right length. *)
Lemma ChangeSet_of_applySections (from to : Z) (ins : Text.t) (d : Text.t)
    (cs : ChangeSet.t) :
  ChangeSet.of_ from to ins (Text.length d) = Some cs ->
  ChangeSet.applySections cs d
  = firstn (Z.to_nat from) d ++ ins ++ skipn (Z.to_nat to) d.
Proof.
  intro H. destruct (ChangeSet_of_inv _ _ _ _ _ H) as (H0 & H1 & H2).
  unfold ChangeSet.of_ in H.
  replace (from >? to) with false in H by lia.
  replace (from <? 0) with false in H by lia.
  replace (to >? Text.length d) with false in H by lia. simpl in H.
  destruct ((from =? to) && (Text.length ins =? 0)) eqn:E; inversion H; subst.
  - apply andb_true_iff in E. destruct E as [E1 E2].
    apply Z.eqb_eq in E1. apply Z.eqb_eq in E2. subst to.
    destruct ins; [|unfold Text.length in E2; simpl in E2; lia].
    rewrite ChangeSet_applySections_keep. simpl.
    rewrite firstn_skipn. apply firstn_all2. unfold Text.length. lia.
  - rewrite ChangeSet_applySections_app, ChangeSet_applySections_keep.
    rewrite ChangeSet_length_keep by lia. f_equal.
    simpl. f_equal. rewrite ChangeSet_applySections_keep.
    rewrite skipn_skipn.
    replace (Z.to_nat (to - from) + Z.to_nat from)%nat with (Z.to_nat to)
      by lia.
    apply firstn_all2. rewrite length_skipn. unfold Text.length. lia.
Qed.

(** A string without carriage returns is inserted as it is. *)
Lemma insertText_no_CR (s : Text.t) :
  ~ In ChangeSet.CR s -> ChangeSet.insertText s = s.
Proof.
  induction s as [|c rest IH]; intro H; [reflexivity|].
  cbn [ChangeSet.insertText].
  destruct (Ascii.eqb c ChangeSet.CR) eqn:E.
  - apply Ascii.eqb_eq in E. exfalso. apply H. left. exact E.
  - f_equal. apply IH. intro Hin. apply H. right. exact Hin.
Qed.

Lemma ChangeSet_empty_keep (n : Z) : ChangeSet.empty (ChangeSet.keep n) = true.
Proof. unfold ChangeSet.keep. destruct (n =? 0); reflexivity. Qed.

Lemma ChangeSet_apply_none (d : Text.t) :
  ChangeSet.apply (ChangeSet.none (Text.length d)) d = Some d.
Proof.
  unfold ChangeSet.apply, ChangeSet.none.
  rewrite ChangeSet_length_keep by apply Text_length_nonneg.
  rewrite Z.eqb_refl, ChangeSet_applySections_keep.
  f_equal. apply firstn_all2. unfold Text.length. lia.
Qed.

Lemma ChangeSet_apply_of (from to : Z) (ins : Text.t) (d : Text.t)
    (cs : ChangeSet.t) :
  ChangeSet.of_ from to ins (Text.length d) = Some cs ->
  ChangeSet.apply cs d = Some (ChangeSet.applySections cs d).
Proof.
  intro H. unfold ChangeSet.apply.
  rewrite (ChangeSet_of_length _ _ _ _ _ H), Z.eqb_refl. reflexivity.
Qed.

(** [mapPos] is defined on every position of the old document. *)
Lemma ChangeSet_mapPosFrom_defined (cs : ChangeSet.t) (posA posB pos : Z) :
  pos <= posA + ChangeSet.length cs ->
  exists r, ChangeSet.mapPosFrom cs posA posB pos = Some r.
Proof.
  revert posA posB. induction cs as [|s cs IH]; intros posA posB H.
  - simpl. unfold ChangeSet.length in H. simpl in H.
    replace (pos >? posA) with false by lia. eexists; reflexivity.
  - rewrite ChangeSet_length_cons in H. destruct s as [n|n ins]; simpl in *.
    + destruct (posA + Z.of_nat n >? pos); [eexists; reflexivity|].
      apply IH. lia.
    + destruct ((posA + Z.of_nat n >? pos)
                || ((posA + Z.of_nat n =? pos) && (Z.of_nat n =? 0)));
        [eexists; reflexivity|].
      apply IH. lia.
Qed.

Lemma ChangeSet_mapPos_defined (cs : ChangeSet.t) (pos : Z) :
  pos <= ChangeSet.length cs -> exists r, ChangeSet.mapPos cs pos = Some r.
Proof. intro H. apply ChangeSet_mapPosFrom_defined. lia. Qed.

Lemma find_none_iff {A : Type} (f : A -> bool) (l : list A) :
  find f l = None <-> (forall x, In x l -> f x = false).
Proof.
  split; [apply find_none|].
  induction l as [|x l IH]; intro H; [reflexivity|]. simpl.
  rewrite (H x (or_introl eq_refl)). apply IH.
  intros y Hy. apply H. right. exact Hy.
Qed.

(** * The merge view *)

Section ViewFacts.

Variable ops : Chunk.Ops.
Variable diffConf : DiffConfig.

(** What [acceptChunk] does on a chunk whose edit the change set
    constructor takes: the transaction changes no text of B, puts the
    edited A into the [originalDoc] field and passes the chunk list
    through [Chunk.updateA], once. *)
Lemma acceptChunk_found (state : EditorState) (pos : option Z)
    (chunk : Chunk.t) (cs : ChangeSet.t) :
  chunkAt state (posOrHead state pos) = Some chunk ->
  ChangeSet.ofString (Chunk.fromA chunk)
    (Z.min (Text.length (originalDoc state)) (Chunk.toA chunk))
    (acceptInsert state chunk) (Text.length (originalDoc state)) = Some cs ->
  let a' := ChangeSet.applySections cs (originalDoc state) in
  acceptChunk ops diffConf state pos
  = Some ((true,
           {| doc := doc state; head := head state; originalDoc := a';
              ChunkField := Chunk.updateA ops (ChunkField state) a'
                              (doc state) cs diffConf |}),
          [CallUpdateA (ChunkField state) a' (doc state) cs]).
Proof.
  intros Hfind Hof a'. unfold acceptChunk. rewrite Hfind.
  unfold acceptSpec, acceptEffectFor. rewrite Hof. cbn [lift bind ret].
  unfold dispatch, update, resolveChanges. cbn [spec_changes spec_selection].
  unfold mappedHead, ChangeSet.none. rewrite ChangeSet_empty_keep.
  cbn [lift bind ret spec_effects spec_userEvent].
  unfold applyTransaction, newDoc, newOriginalDoc, computeChunks, docChanged.
  cbn [startState changes effects selection].
  fold (ChangeSet.none (Text.length (doc state))).
  rewrite ChangeSet_apply_none. unfold ChangeSet.none.
  rewrite ChangeSet_empty_keep.
  cbn [originalDoc_update findUpdateDoc findAccept findReject findGenerate
         AcceptChunk.changes].
  rewrite (ChangeSet_apply_of _ _ _ _ _ Hof).
  cbn [lift bind ret Chunk_updateA app negb andb orb].
  rewrite andb_false_r. reflexivity.
Qed.

Lemma mappedHead_defined (state : EditorState) (cs : ChangeSet.t) :
  ChangeSet.length cs = Text.length (doc state) ->
  head state <= Text.length (doc state) ->
  exists sel, mappedHead state cs = Some sel.
Proof.
  intros Hlen Hhead. unfold mappedHead.
  destruct (ChangeSet.empty cs); [eexists; reflexivity|].
  apply ChangeSet_mapPos_defined. rewrite Hlen. exact Hhead.
Qed.

(** What [rejectChunk] does on a chunk whose edit the change set
    constructor takes: the edit is applied to B, A stays, and the chunk
    list is passed through [Chunk.updateB], once. *)
Lemma rejectChunk_found_sel (state : EditorState) (pos : option Z)
    (chunk : Chunk.t) (cs : ChangeSet.t) :
  chunkAt state (posOrHead state pos) = Some chunk ->
  ChangeSet.ofString (Chunk.fromB chunk)
    (Z.min (Text.length (doc state)) (Chunk.toB chunk))
    (rejectInsert state chunk) (Text.length (doc state)) = Some cs ->
  let b' := ChangeSet.applySections cs (doc state) in
  rejectChunk ops diffConf state pos
  = match mappedHead state cs with
    | None => None
    | Some sel =>
        Some ((true,
               {| doc := b'; head := sel; originalDoc := originalDoc state;
                  ChunkField := Chunk.updateB ops (ChunkField state)
                                  (originalDoc state) b' cs diffConf |}),
              [CallUpdateB (ChunkField state) (originalDoc state) b' cs])
    end.
Proof.
  intros Hfind Hof b'. unfold rejectChunk. rewrite Hfind.
  unfold rejectSpec, rejectEffectFor. rewrite Hof. cbn [lift bind ret].
  unfold dispatch, update, resolveChanges. cbn [spec_changes spec_selection].
  rewrite Hof.
  destruct (mappedHead state cs) as [sel|]; [|reflexivity].
  cbn [lift bind ret spec_effects spec_userEvent].
  unfold applyTransaction, newDoc, newOriginalDoc, computeChunks.
  cbn [startState changes effects selection].
  rewrite (ChangeSet_apply_of _ _ _ _ _ Hof).
  cbn [originalDoc_update findUpdateDoc findAccept findReject findGenerate
         lift bind ret app orb].
  unfold newDoc, newOriginalDoc. cbn [startState changes effects].
  rewrite (ChangeSet_apply_of _ _ _ _ _ Hof).
  cbn [originalDoc_update lift bind ret Chunk_updateB app].
  reflexivity.
Qed.

Lemma rejectChunk_found (state : EditorState) (pos : option Z)
    (chunk : Chunk.t) (cs : ChangeSet.t) :
  chunkAt state (posOrHead state pos) = Some chunk ->
  ChangeSet.ofString (Chunk.fromB chunk)
    (Z.min (Text.length (doc state)) (Chunk.toB chunk))
    (rejectInsert state chunk) (Text.length (doc state)) = Some cs ->
  head state <= Text.length (doc state) ->
  let b' := ChangeSet.applySections cs (doc state) in
  exists sel,
    rejectChunk ops diffConf state pos
    = Some ((true,
             {| doc := b'; head := sel; originalDoc := originalDoc state;
                ChunkField := Chunk.updateB ops (ChunkField state)
                                (originalDoc state) b' cs diffConf |}),
            [CallUpdateB (ChunkField state) (originalDoc state) b' cs]).
Proof.
  intros Hfind Hof Hhead b'.
  destruct (mappedHead_defined state cs
              (ChangeSet_of_length _ _ _ _ _ Hof) Hhead) as [sel Hsel].
  exists sel. rewrite (rejectChunk_found_sel state pos chunk cs Hfind Hof).
  rewrite Hsel. reflexivity.
Qed.

(** A chunk whose edit the change set constructor refuses: the call
    raises. *)
Lemma acceptChunk_raises (state : EditorState) (pos : option Z)
    (chunk : Chunk.t) :
  chunkAt state (posOrHead state pos) = Some chunk ->
  ChangeSet.ofString (Chunk.fromA chunk)
    (Z.min (Text.length (originalDoc state)) (Chunk.toA chunk))
    (acceptInsert state chunk) (Text.length (originalDoc state)) = None ->
  acceptChunk ops diffConf state pos = None.
Proof.
  intros Hfind Hof. unfold acceptChunk. rewrite Hfind.
  unfold acceptSpec, acceptEffectFor. rewrite Hof. reflexivity.
Qed.

Lemma rejectChunk_raises (state : EditorState) (pos : option Z)
    (chunk : Chunk.t) :
  chunkAt state (posOrHead state pos) = Some chunk ->
  ChangeSet.ofString (Chunk.fromB chunk)
    (Z.min (Text.length (doc state)) (Chunk.toB chunk))
    (rejectInsert state chunk) (Text.length (doc state)) = None ->
  rejectChunk ops diffConf state pos = None.
Proof.
  intros Hfind Hof. unfold rejectChunk. rewrite Hfind.
  unfold rejectSpec, rejectEffectFor. rewrite Hof. reflexivity.
Qed.

(** C4.  For a chunk found at the position that starts inside A (and not
    after its own end), [acceptChunk] returns true, leaves B as it was and
    changes A by one edit; for a chunk found at the position that starts
    inside B, [rejectChunk] returns true, leaves A as it was and changes B
    by one edit.  In both, and whenever the call returns true at all, the
    state that holds the edited document also holds the chunk list
    recomputed for it ([Chunk.updateA] on the edit of A, [Chunk.updateB] on
    the edit of B): one transaction, one call to the chunk store. *)
Theorem accept_reject_frame (state : EditorState) (pos : option Z) :
  (forall chunk,
      chunkAt state (posOrHead state pos) = Some chunk ->
      0 <= Chunk.fromA chunk <= Chunk.toA chunk ->
      Chunk.fromA chunk <= Text.length (originalDoc state) ->
      exists state' cs,
        acceptChunk ops diffConf state pos
        = Some ((true, state'),
                [CallUpdateA (ChunkField state) (originalDoc state')
                   (doc state) cs])
        /\ doc state' = doc state
        /\ ChangeSet.apply cs (originalDoc state) = Some (originalDoc state')
        /\ ChunkField state'
           = Chunk.updateA ops (ChunkField state) (originalDoc state')
               (doc state) cs diffConf)
  /\ (forall chunk,
         chunkAt state (posOrHead state pos) = Some chunk ->
         0 <= Chunk.fromB chunk <= Chunk.toB chunk ->
         Chunk.fromB chunk <= Text.length (doc state) ->
         head state <= Text.length (doc state) ->
         exists state' cs,
           rejectChunk ops diffConf state pos
           = Some ((true, state'),
                   [CallUpdateB (ChunkField state) (originalDoc state)
                      (doc state') cs])
           /\ originalDoc state' = originalDoc state
           /\ ChangeSet.apply cs (doc state) = Some (doc state')
           /\ ChunkField state'
              = Chunk.updateB ops (ChunkField state) (originalDoc state)
                  (doc state') cs diffConf)
  /\ (forall state' calls,
         acceptChunk ops diffConf state pos = Some ((true, state'), calls) ->
         doc state' = doc state
         /\ exists cs,
              ChangeSet.apply cs (originalDoc state) = Some (originalDoc state')
              /\ ChunkField state'
                 = Chunk.updateA ops (ChunkField state) (originalDoc state')
                     (doc state) cs diffConf
              /\ calls = [CallUpdateA (ChunkField state) (originalDoc state')
                            (doc state) cs])
  /\ (forall state' calls,
         rejectChunk ops diffConf state pos = Some ((true, state'), calls) ->
         originalDoc state' = originalDoc state
         /\ exists cs,
              ChangeSet.apply cs (doc state) = Some (doc state')
              /\ ChunkField state'
                 = Chunk.updateB ops (ChunkField state) (originalDoc state)
                     (doc state') cs diffConf
              /\ calls = [CallUpdateB (ChunkField state) (originalDoc state)
                            (doc state') cs]).
Proof.
  pose proof (Text_length_nonneg (originalDoc state)) as HnA.
  pose proof (Text_length_nonneg (doc state)) as HnB.
  split; [|split; [|split]].
  - intros chunk Hfind Hord Hin.
    destruct (ChangeSet_of_defined (Chunk.fromA chunk)
                (Z.min (Text.length (originalDoc state)) (Chunk.toA chunk))
                (ChangeSet.insertText (acceptInsert state chunk))
                (Text.length (originalDoc state))) as [cs Hof]; try lia.
    rewrite (acceptChunk_found state pos chunk cs Hfind Hof).
    match goal with
    | |- exists _ _, Some (_, ?s, _) = _ /\ _ => exists s, cs
    end.
    cbn [doc originalDoc ChunkField].
    split; [reflexivity|]. split; [reflexivity|].
    rewrite (ChangeSet_apply_of _ _ _ _ _ Hof). split; reflexivity.
  - intros chunk Hfind Hord Hin Hhead.
    destruct (ChangeSet_of_defined (Chunk.fromB chunk)
                (Z.min (Text.length (doc state)) (Chunk.toB chunk))
                (ChangeSet.insertText (rejectInsert state chunk))
                (Text.length (doc state))) as [cs Hof]; try lia.
    destruct (rejectChunk_found state pos chunk cs Hfind Hof Hhead)
      as [sel Hrej].
    rewrite Hrej.
    match goal with
    | |- exists _ _, Some (_, ?s, _) = _ /\ _ => exists s, cs
    end.
    cbn [doc originalDoc ChunkField].
    split; [reflexivity|]. split; [reflexivity|].
    rewrite (ChangeSet_apply_of _ _ _ _ _ Hof). split; reflexivity.
  - intros state' calls H.
    destruct (chunkAt state (posOrHead state pos)) as [chunk|] eqn:Hfind.
    + destruct (ChangeSet.ofString (Chunk.fromA chunk)
                  (Z.min (Text.length (originalDoc state)) (Chunk.toA chunk))
                  (acceptInsert state chunk)
                  (Text.length (originalDoc state))) as [cs|] eqn:Hof.
      * rewrite (acceptChunk_found state pos chunk cs Hfind Hof) in H.
        inversion H; subst; clear H. cbn [doc originalDoc ChunkField].
        split; [reflexivity|]. exists cs.
        rewrite (ChangeSet_apply_of _ _ _ _ _ Hof). repeat split.
      * rewrite (acceptChunk_raises state pos chunk Hfind Hof) in H.
        discriminate.
    + unfold acceptChunk in H. rewrite Hfind in H. discriminate.
  - intros state' calls H.
    destruct (chunkAt state (posOrHead state pos)) as [chunk|] eqn:Hfind.
    + destruct (ChangeSet.ofString (Chunk.fromB chunk)
                  (Z.min (Text.length (doc state)) (Chunk.toB chunk))
                  (rejectInsert state chunk)
                  (Text.length (doc state))) as [cs|] eqn:Hof.
      * rewrite (rejectChunk_found_sel state pos chunk cs Hfind Hof) in H.
        destruct (mappedHead state cs) as [sel|]; [|discriminate].
        inversion H; subst; clear H. cbn [doc originalDoc ChunkField].
        split; [reflexivity|]. exists cs.
        rewrite (ChangeSet_apply_of _ _ _ _ _ Hof). repeat split.
      * rewrite (rejectChunk_raises state pos chunk Hfind Hof) in H.
        discriminate.
    + unfold rejectChunk in H. rewrite Hfind in H. discriminate.
Qed.

Lemma chunkAt_none (state : EditorState) (at_ : Z) :
  (forall ch, In ch (ChunkField state) ->
              ~ (Chunk.fromB ch <= at_ <= Chunk.endB ch)) ->
  chunkAt state at_ = None.
Proof.
  intro H. unfold chunkAt. apply find_none_iff. intros ch Hin.
  specialize (H ch Hin). apply andb_false_iff.
  destruct (Chunk.fromB ch <=? at_) eqn:E1; [right|left; reflexivity].
  destruct (Chunk.endB ch >=? at_) eqn:E2; [|reflexivity].
  exfalso. apply H. lia.
Qed.

(** C5.  When no chunk [ch] of the store has
    [ch.fromB <= pos <= ch.endB], [acceptChunk] and [rejectChunk] both
    return false; the state afterwards (A, B and the chunk list) is the
    state before, and the chunk store was not called. *)
Theorem no_chunk_no_mutation (state : EditorState) (pos : option Z) :
  (forall ch, In ch (ChunkField state) ->
              ~ (Chunk.fromB ch <= posOrHead state pos <= Chunk.endB ch)) ->
  acceptChunk ops diffConf state pos = Some ((false, state), [])
  /\ rejectChunk ops diffConf state pos = Some ((false, state), []).
Proof.
  intro H. apply chunkAt_none in H. unfold acceptChunk, rejectChunk.
  rewrite H. split; reflexivity.
Qed.

End ViewFacts.

Lemma no_chunk_no_mutation_witness :
  acceptChunk ChunkStore.ops defaultDiffConfig Examples.readme (Some 16)
  = Some ((false, Examples.readme), [])
  /\ rejectChunk ChunkStore.ops defaultDiffConfig Examples.readme (Some 16)
     = Some ((false, Examples.readme), []).
Proof.
  apply (no_chunk_no_mutation ChunkStore.ops defaultDiffConfig
           Examples.readme (Some 16)).
  intros ch Hin. vm_compute in Hin.
  destruct Hin as [<-|[<-|[]]]; simpl; lia.
Defined.



Lemma Text_clip_bounds (d : Text.t) (from to : Z) :
  0 <= fst (Text.clip d from to)
  /\ fst (Text.clip d from to) <= snd (Text.clip d from to)
  /\ snd (Text.clip d from to) <= Text.length d.
Proof.
  pose proof (Text_length_nonneg d). unfold Text.clip. simpl. lia.
Qed.

Lemma ChangeSet_of_none_iff (from to : Z) (ins : Text.t) (len : Z) :
  ChangeSet.of_ from to ins len = None <-> ~ (0 <= from <= to /\ to <= len).
Proof.
  unfold ChangeSet.of_.
  destruct (Z.gtb_spec from to); cbn [orb]; [split; [lia|reflexivity]|].
  destruct (Z.ltb_spec from 0); cbn [orb]; [split; [lia|reflexivity]|].
  destruct (Z.gtb_spec to len); cbn [orb]; [split; [lia|reflexivity]|].
  destruct ((from =? to) && (Text.length ins =? 0));
    (split; [discriminate|lia]).
Qed.

(** C9, as the code has it.  For a chunk that starts inside the target
    document and not after its own end, [acceptChunk] and [rejectChunk]
    build an edit whose range starts at the chunk's start, ends at the
    minimum of the target document's length and the chunk's end, and lies
    inside the target document, however far the chunk's end lies past the
    document's length; the string it carries is read from a slice that ends
    at the maximum of the chunk's start and its end minus one, and a slice
    is clipped to the document it is read from.  Only the end is brought
    into the document: the edit is refused, and nothing is built, exactly
    when the chunk's start is negative, lies past the end of the target
    document or lies after the chunk's end, and the call then raises. *)
Theorem edit_range_inside_document (state : EditorState) (chunk : Chunk.t) :
  let lenA := Text.length (originalDoc state) in
  let lenB := Text.length (doc state) in
  (0 <= Chunk.fromA chunk <= Chunk.toA chunk -> Chunk.fromA chunk <= lenA ->
   exists cs,
     acceptEffectFor state chunk
     = Some (acceptChunkEffect
               (AcceptChunk.mk (Chunk.fromA chunk) (Chunk.toA chunk)
                  (Chunk.fromB chunk) (Chunk.toB chunk) (originalDoc state)
                  (acceptInsert state chunk) cs))
     /\ ChangeSet.ofString (Chunk.fromA chunk) (Z.min lenA (Chunk.toA chunk))
          (acceptInsert state chunk) lenA = Some cs
     /\ 0 <= Chunk.fromA chunk <= Z.min lenA (Chunk.toA chunk)
     /\ Z.min lenA (Chunk.toA chunk) <= lenA
     /\ ChangeSet.length cs = lenA)
  /\ (acceptEffectFor state chunk = None <->
      ~ (0 <= Chunk.fromA chunk <= Chunk.toA chunk
         /\ Chunk.fromA chunk <= lenA))
  /\ (forall ops diffConf pos,
         chunkAt state (posOrHead state pos) = Some chunk ->
         ~ (0 <= Chunk.fromA chunk <= Chunk.toA chunk
            /\ Chunk.fromA chunk <= lenA) ->
         acceptChunk ops diffConf state pos = None)
  /\ (exists tail,
         acceptInsert state chunk
         = Text.sliceString (doc state) (Chunk.fromB chunk)
             (Z.max (Chunk.fromB chunk) (Chunk.toB chunk - 1)) ++ tail)
  /\ (0 <= Chunk.fromB chunk <= Chunk.toB chunk -> Chunk.fromB chunk <= lenB ->
      exists cs,
        rejectSpec state chunk
        = Some {| spec_changes :=
                    Range (Chunk.fromB chunk) (Z.min lenB (Chunk.toB chunk))
                      (rejectInsert state chunk);
                  spec_selection := None;
                  spec_effects :=
                    [rejectChunkEffect
                       (RejectChunk.mk (Chunk.fromA chunk) (Chunk.toA chunk)
                          (Chunk.fromB chunk) (Chunk.toB chunk)
                          (rejectInsert state chunk)
                          (sliceDoc state (Chunk.fromB chunk)
                             (Z.max (Chunk.fromB chunk) (Chunk.toB chunk - 1)))
                          cs)];
                  spec_userEvent := "revert" |}
        /\ ChangeSet.ofString (Chunk.fromB chunk)
             (Z.min lenB (Chunk.toB chunk)) (rejectInsert state chunk) lenB
           = Some cs
        /\ 0 <= Chunk.fromB chunk <= Z.min lenB (Chunk.toB chunk)
        /\ Z.min lenB (Chunk.toB chunk) <= lenB
        /\ ChangeSet.length cs = lenB)
  /\ (rejectSpec state chunk = None <->
      ~ (0 <= Chunk.fromB chunk <= Chunk.toB chunk
         /\ Chunk.fromB chunk <= lenB))
  /\ (forall ops diffConf pos,
         chunkAt state (posOrHead state pos) = Some chunk ->
         ~ (0 <= Chunk.fromB chunk <= Chunk.toB chunk
            /\ Chunk.fromB chunk <= lenB) ->
         rejectChunk ops diffConf state pos = None)
  /\ (exists tail,
         rejectInsert state chunk
         = Text.sliceString (originalDoc state) (Chunk.fromA chunk)
             (Z.max (Chunk.fromA chunk) (Chunk.toA chunk - 1)) ++ tail)
  /\ (forall d from to,
         Text.sliceString d from to
         = firstn (Z.to_nat (snd (Text.clip d from to)
                             - fst (Text.clip d from to)))
             (skipn (Z.to_nat (fst (Text.clip d from to))) d)
         /\ 0 <= fst (Text.clip d from to)
         /\ fst (Text.clip d from to) <= snd (Text.clip d from to)
         /\ snd (Text.clip d from to) <= Text.length d).
Proof.
  intros lenA lenB.
  pose proof (Text_length_nonneg (originalDoc state)) as HnA.
  pose proof (Text_length_nonneg (doc state)) as HnB.
  assert (HnoneA : acceptEffectFor state chunk = None <->
                   ~ (0 <= Chunk.fromA chunk <= Chunk.toA chunk
                      /\ Chunk.fromA chunk <= lenA)).
  { unfold acceptEffectFor, ChangeSet.ofString. fold lenA.
    destruct (ChangeSet.of_ (Chunk.fromA chunk) (Z.min lenA (Chunk.toA chunk))
                (ChangeSet.insertText (acceptInsert state chunk)) lenA)
      as [cs|] eqn:Hcs.
    + split; [discriminate|]. intro H. exfalso. apply H.
      destruct (ChangeSet_of_inv _ _ _ _ _ Hcs) as (H0 & H1 & H2). lia.
    + split; [|reflexivity]. intros _.
      apply ChangeSet_of_none_iff in Hcs. lia. }
  assert (HnoneB : rejectSpec state chunk = None <->
                   ~ (0 <= Chunk.fromB chunk <= Chunk.toB chunk
                      /\ Chunk.fromB chunk <= lenB)).
  { unfold rejectSpec, rejectEffectFor, ChangeSet.ofString. fold lenB.
    destruct (ChangeSet.of_ (Chunk.fromB chunk) (Z.min lenB (Chunk.toB chunk))
                (ChangeSet.insertText (rejectInsert state chunk)) lenB)
      as [cs|] eqn:Hcs.
    + split; [discriminate|]. intro H. exfalso. apply H.
      destruct (ChangeSet_of_inv _ _ _ _ _ Hcs) as (H0 & H1 & H2). lia.
    + split; [|reflexivity]. intros _.
      apply ChangeSet_of_none_iff in Hcs. lia. }
  split; [|split; [exact HnoneA|split; [|split; [|split;
    [|split; [exact HnoneB|split; [|split]]]]]]].
  - intros Hord Hin.
    destruct (ChangeSet_of_defined (Chunk.fromA chunk)
                (Z.min lenA (Chunk.toA chunk))
                (ChangeSet.insertText (acceptInsert state chunk)) lenA)
      as [cs Hcs]; try lia.
    exists cs. unfold acceptEffectFor, ChangeSet.ofString. fold lenA.
    rewrite Hcs. split; [reflexivity|]. split; [reflexivity|].
    split; [lia|]. split; [lia|].
    exact (ChangeSet_of_length _ _ _ _ _ Hcs).
  - intros ops diffConf pos Hfind Hnot. apply HnoneA in Hnot.
    unfold acceptChunk, acceptSpec. rewrite Hfind, Hnot. reflexivity.
  - unfold acceptInsert.
    destruct (negb (Chunk.fromB chunk =? Chunk.toB chunk)
              && (Chunk.toA chunk <=? Text.length (originalDoc state))).
    + exists lineBreak. reflexivity.
    + exists []. symmetry. apply app_nil_r.
  - intros Hord Hin.
    destruct (ChangeSet_of_defined (Chunk.fromB chunk)
                (Z.min lenB (Chunk.toB chunk))
                (ChangeSet.insertText (rejectInsert state chunk)) lenB)
      as [cs Hcs]; try lia.
    exists cs. unfold rejectSpec, rejectEffectFor, ChangeSet.ofString.
    fold lenB. rewrite Hcs. split; [reflexivity|]. split; [reflexivity|].
    split; [lia|]. split; [lia|].
    exact (ChangeSet_of_length _ _ _ _ _ Hcs).
  - intros ops diffConf pos Hfind Hnot. apply HnoneB in Hnot.
    unfold rejectChunk. rewrite Hfind, Hnot. reflexivity.
  - unfold rejectInsert.
    destruct (negb (Chunk.fromA chunk =? Chunk.toA chunk)
              && (Chunk.toB chunk <=? Text.length (doc state))).
    + exists lineBreak. reflexivity.
    + exists []. symmetry. apply app_nil_r.
  - intros d from to. split; [reflexivity|apply Text_clip_bounds].
Qed.

Lemma edit_range_inside_document_witness :
  Text.length (originalDoc Examples.readme) < Chunk.toA Examples.lastChunk
  /\ exists cs,
       ChangeSet.ofString 19 23
         (acceptInsert Examples.readme Examples.lastChunk) 23 = Some cs
       /\ ChangeSet.length cs = 23.
Proof.
  split; [reflexivity|].
  assert (Hord : 0 <= Chunk.fromA Examples.lastChunk
                 <= Chunk.toA Examples.lastChunk) by (simpl; lia).
  assert (Hin : Chunk.fromA Examples.lastChunk
                <= Text.length (originalDoc Examples.readme))
    by (vm_compute; discriminate).
  pose proof (edit_range_inside_document Examples.readme Examples.lastChunk)
    as (Hbuilt & _).
  destruct (Hbuilt Hord Hin) as (cs & _ & Hof & _ & _ & Hlen).
  exists cs. split; [exact Hof|exact Hlen].
Defined.

(** C9 as stated fails on a chunk that starts past the end of the target
    document: the end of the edit's range is brought down to the document's
    length, the start is not, so the range runs from 3 back to 1 in a
    document of one character, the change set constructor refuses it, and
    the call raises.  The same holds for [rejectChunk] on the B side. *)
Lemma start_past_end_counterexample :
  let chunk := Chunk.mk [] 3 4 4 0 2 2 in
  let state := {| doc := Text.of_string "ab"; head := 0;
                  originalDoc := Text.of_string "a";
                  ChunkField := [chunk] |} in
  let chunk' := Chunk.mk [] 0 1 1 5 6 6 in
  let state' := {| doc := Text.of_string "ab"; head := 0;
                   originalDoc := Text.of_string "a";
                   ChunkField := [chunk'] |} in
  chunkAt state 0 = Some chunk
  /\ Text.length (originalDoc state) = 1
  /\ acceptEdit state chunk = (3, 1, Text.of_string "a")
  /\ acceptEffectFor state chunk = None
  /\ acceptChunk ChunkStore.ops defaultDiffConfig state (Some 0) = None
  /\ chunkAt state' 5 = Some chunk'
  /\ Text.length (doc state') = 2
  /\ rejectEdit state' chunk' = (5, 2, [])
  /\ rejectSpec state' chunk' = None
  /\ rejectChunk ChunkStore.ops defaultDiffConfig state' (Some 5) = None.
Proof. repeat split; vm_compute; reflexivity. Qed.

(** C2, as the code has it.  For a chunk found at the position (and
    starting inside A), [acceptChunk] replaces the range from [chunk.fromA]
    to the minimum of A's length and [chunk.toA] by the text of a string:
    B's text from [chunk.fromB] to the maximum of [chunk.fromB] and
    [chunk.toB - 1], followed by a line terminator exactly when the chunk
    is not empty in B and [chunk.toA] does not exceed A's length.  The
    string is inserted as every string is: a carriage return in it, alone
    or with the line feed that follows it, is one line break of the text,
    and a string without carriage returns is inserted as it is.  The edited
    A becomes the original document, B is as before, and the chunk list is
    the result of [Chunk.updateA] on that edit, the only call to the chunk
    store. *)
Theorem acceptChunk_edit (ops : Chunk.Ops) (diffConf : DiffConfig)
    (state : EditorState) (pos : option Z) (chunk : Chunk.t) :
  chunkAt state (posOrHead state pos) = Some chunk ->
  0 <= Chunk.fromA chunk <= Chunk.toA chunk ->
  Chunk.fromA chunk <= Text.length (originalDoc state) ->
  let A := originalDoc state in
  let to := Z.min (Text.length A) (Chunk.toA chunk) in
  let content := Text.sliceString (doc state) (Chunk.fromB chunk)
                   (Z.max (Chunk.fromB chunk) (Chunk.toB chunk - 1)) in
  let insert := if negb (Chunk.fromB chunk =? Chunk.toB chunk)
                   && (Chunk.toA chunk <=? Text.length A)
                then content ++ [Text.nl] else content in
  let inserted := ChangeSet.insertText insert in
  let A' := firstn (Z.to_nat (Chunk.fromA chunk)) A ++ inserted
            ++ skipn (Z.to_nat to) A in
  exists cs,
    ChangeSet.ofString (Chunk.fromA chunk) to insert (Text.length A) = Some cs
    /\ ChangeSet.apply cs A = Some A'
    /\ (~ In ChangeSet.CR insert -> inserted = insert)
    /\ acceptChunk ops diffConf state pos
       = Some ((true,
                {| doc := doc state; head := head state; originalDoc := A';
                   ChunkField := Chunk.updateA ops (ChunkField state) A'
                                   (doc state) cs diffConf |}),
               [CallUpdateA (ChunkField state) A' (doc state) cs]).
Proof.
  intros Hfind Hord Hin A to content insert inserted A'.
  assert (Hins : insert = acceptInsert state chunk) by reflexivity.
  assert (H1 : Chunk.fromA chunk <= to) by (unfold to, A; lia).
  assert (H2 : to <= Text.length A) by (unfold to; lia).
  destruct (ChangeSet_of_defined (Chunk.fromA chunk) to inserted
              (Text.length A) (proj1 Hord) H1 H2) as [cs Hcs].
  exists cs. split; [exact Hcs|].
  assert (HA' : ChangeSet.applySections cs A = A').
  { apply (ChangeSet_of_applySections _ _ _ _ _ Hcs). }
  split; [|split].
  - rewrite (ChangeSet_apply_of _ _ _ _ _ Hcs), HA'. reflexivity.
  - apply insertText_no_CR.
  - unfold inserted in Hcs. rewrite Hins in Hcs.
    rewrite (acceptChunk_found ops diffConf state pos chunk cs Hfind Hcs).
    fold A. rewrite HA'. reflexivity.
Qed.

(** C3, as the code has it.  For a chunk found at the position (and
    starting inside B), [rejectChunk] replaces the range from [chunk.fromB]
    to the minimum of B's length and [chunk.toB] by the text of a string:
    A's text from [chunk.fromA] to the maximum of [chunk.fromA] and
    [chunk.toA - 1], followed by a line terminator exactly when the chunk
    is not empty in A and [chunk.toB] does not exceed B's length.  The
    string is inserted as every string is: a carriage return in it, alone
    or with the line feed that follows it, is one line break of the text,
    and a string without carriage returns is inserted as it is.  The edited
    B becomes the editor's document, A is as before, and the chunk list is
    the result of [Chunk.updateB] on that edit, the only call to the chunk
    store. *)
Theorem rejectChunk_edit (ops : Chunk.Ops) (diffConf : DiffConfig)
    (state : EditorState) (pos : option Z) (chunk : Chunk.t) :
  chunkAt state (posOrHead state pos) = Some chunk ->
  0 <= Chunk.fromB chunk <= Chunk.toB chunk ->
  Chunk.fromB chunk <= Text.length (doc state) ->
  head state <= Text.length (doc state) ->
  let B := doc state in
  let to := Z.min (Text.length B) (Chunk.toB chunk) in
  let content := Text.sliceString (originalDoc state) (Chunk.fromA chunk)
                   (Z.max (Chunk.fromA chunk) (Chunk.toA chunk - 1)) in
  let insert := if negb (Chunk.fromA chunk =? Chunk.toA chunk)
                   && (Chunk.toB chunk <=? Text.length B)
                then content ++ [Text.nl] else content in
  let inserted := ChangeSet.insertText insert in
  let B' := firstn (Z.to_nat (Chunk.fromB chunk)) B ++ inserted
            ++ skipn (Z.to_nat to) B in
  exists cs sel,
    ChangeSet.ofString (Chunk.fromB chunk) to insert (Text.length B) = Some cs
    /\ ChangeSet.apply cs B = Some B'
    /\ (~ In ChangeSet.CR insert -> inserted = insert)
    /\ rejectChunk ops diffConf state pos
       = Some ((true,
                {| doc := B'; head := sel; originalDoc := originalDoc state;
                   ChunkField := Chunk.updateB ops (ChunkField state)
                                   (originalDoc state) B' cs diffConf |}),
               [CallUpdateB (ChunkField state) (originalDoc state) B' cs]).
Proof.
  intros Hfind Hord Hin Hhead B to content insert inserted B'.
  assert (Hins : insert = rejectInsert state chunk) by reflexivity.
  assert (H1 : Chunk.fromB chunk <= to) by (unfold to, B; lia).
  assert (H2 : to <= Text.length B) by (unfold to; lia).
  destruct (ChangeSet_of_defined (Chunk.fromB chunk) to inserted
              (Text.length B) (proj1 Hord) H1 H2) as [cs Hcs].
  assert (HB' : ChangeSet.applySections cs B = B').
  { apply (ChangeSet_of_applySections _ _ _ _ _ Hcs). }
  pose proof Hcs as Hcs'. unfold inserted in Hcs'. rewrite Hins in Hcs'.
  destruct (rejectChunk_found ops diffConf state pos chunk cs Hfind Hcs' Hhead)
    as [sel Hrej].
  exists cs, sel. split; [exact Hcs|]. split; [|split].
  - rewrite (ChangeSet_apply_of _ _ _ _ _ Hcs), HB'. reflexivity.
  - apply insertText_no_CR.
  - rewrite Hrej. fold B. rewrite HB'. reflexivity.
Qed.

Lemma acceptChunk_edit_witness :
  exists cs st',
    acceptChunk ChunkStore.ops defaultDiffConfig Examples.readme (Some 4)
    = Some ((true, st'),
            [CallUpdateA (ChunkField Examples.readme) (originalDoc st')
               Examples.readmeB cs])
    /\ originalDoc st'
       = Text.of_lines ["one"%string; "Two"%string; "Three"%string;
                        "four"%string; "five"%string]
    /\ doc st' = Examples.readmeB.
Proof.
  assert (Hfind : chunkAt Examples.readme (posOrHead Examples.readme (Some 4))
                  = Some Examples.firstChunk) by (vm_compute; reflexivity).
  assert (Hord : 0 <= Chunk.fromA Examples.firstChunk
                 <= Chunk.toA Examples.firstChunk) by (simpl; lia).
  assert (Hin : Chunk.fromA Examples.firstChunk
                <= Text.length (originalDoc Examples.readme))
    by (vm_compute; discriminate).
  destruct (acceptChunk_edit ChunkStore.ops defaultDiffConfig Examples.readme
              (Some 4) Examples.firstChunk Hfind Hord Hin)
    as (cs & _ & _ & _ & Hacc).
  exists cs. eexists. split; [exact Hacc|]. split; reflexivity.
Defined.

(** A carriage return in the text that is copied: document B was given as
    a [Text] whose second line holds one, the chunk is accepted, and in
    document A the carriage return has become a line break, so A has three
    lines where B has two.  The effect keeps the string as it was read. *)
Lemma accept_carriage_return_example :
  let b := Text.of_string "a" ++ [Text.nl]
           ++ Text.of_string "c" ++ [ChangeSet.CR] ++ Text.of_string "d" in
  let state := initialState ChunkStore.ops defaultDiffConfig
                 (Text.of_lines ["a"%string; "b"%string]) b 0 in
  exists st' calls,
    acceptChunk ChunkStore.ops defaultDiffConfig state (Some 2)
    = Some ((true, st'), calls)
    /\ acceptInsert state (Chunk.mk [Change.mk 0 1 0 3] 2 4 3 2 6 5)
       = Text.of_string "c" ++ [ChangeSet.CR] ++ Text.of_string "d"
    /\ originalDoc st' = Text.of_lines ["a"%string; "c"%string; "d"%string]
    /\ doc st' = b
    /\ originalDoc st' <> doc st'.
Proof.
  intros b state. eexists. eexists.
  split; [vm_compute; reflexivity|].
  split; [vm_compute; reflexivity|].
  split; [vm_compute; reflexivity|].
  split; [vm_compute; reflexivity|].
  vm_compute. discriminate.
Qed.

(** The same for a reject: the original was configured as a string in
    which a carriage return stands alone, so it is part of a line of A
    (line 93), and rejecting the chunk writes a line break into B where A
    has the carriage return. *)
Lemma reject_carriage_return_example :
  let a := Text.of_string "a" ++ [Text.nl]
           ++ Text.of_string "c" ++ [ChangeSet.CR] ++ Text.of_string "d" in
  let state := initialState ChunkStore.ops defaultDiffConfig a
                 (Text.of_lines ["a"%string; "b"%string]) 0 in
  exists st' calls,
    rejectChunk ChunkStore.ops defaultDiffConfig state (Some 2)
    = Some ((true, st'), calls)
    /\ rejectInsert state (Chunk.mk [Change.mk 0 3 0 1] 2 6 5 2 4 3)
       = Text.of_string "c" ++ [ChangeSet.CR] ++ Text.of_string "d"
    /\ doc st' = Text.of_lines ["a"%string; "c"%string; "d"%string]
    /\ originalDoc st' = a
    /\ doc st' <> originalDoc st'.
Proof.
  intros a state. eexists. eexists.
  split; [vm_compute; reflexivity|].
  split; [vm_compute; reflexivity|].
  split; [vm_compute; reflexivity|].
  split; [vm_compute; reflexivity|].
  vm_compute. discriminate.
Qed.

(** C2 as stated fails on a chunk that is empty on the B side (a line of A
    that B does not have) and lies before the end of A: the chunk is not at
    the end of A, yet no line terminator is appended, since there is no
    text of B to terminate.  The edit deletes the line. *)
Lemma accept_terminator_counterexample :
  exists chunk,
    chunkAt Examples.lineDeleted 2 = Some chunk
    /\ Chunk.toA chunk <= Text.length (originalDoc Examples.lineDeleted)
    /\ acceptEdit Examples.lineDeleted chunk = (2, 4, [])
    /\ acceptEdit_asSpecified Examples.lineDeleted chunk = (2, 4, [Text.nl])
    /\ acceptEffectFor Examples.lineDeleted chunk
       = Some (acceptChunkEffect
                 (AcceptChunk.mk 2 4 2 2 (originalDoc Examples.lineDeleted) []
                    [ChangeSet.Keep 2; ChangeSet.Replace 2 [];
                     ChangeSet.Keep 1]))
    /\ acceptEdit Examples.lineDeleted chunk
       <> acceptEdit_asSpecified Examples.lineDeleted chunk.
Proof.
  eexists. split; [vm_compute; reflexivity|].
  split; [vm_compute; discriminate|].
  split; [vm_compute; reflexivity|].
  split; [vm_compute; reflexivity|].
  split; [vm_compute; reflexivity|].
  vm_compute. discriminate.
Qed.

Lemma rejectChunk_edit_witness :
  exists cs sel st',
    rejectChunk ChunkStore.ops defaultDiffConfig Examples.readme (Some 25)
    = Some ((true, st'),
            [CallUpdateB (ChunkField Examples.readme) Examples.readmeA
               (doc st') cs])
    /\ head st' = sel
    /\ doc st'
       = Text.of_lines ["one"%string; "Two"%string; "Three"%string;
                        "four"%string; "five"%string]
    /\ originalDoc st' = Examples.readmeA.
Proof.
  assert (Hfind : chunkAt Examples.readme (posOrHead Examples.readme (Some 25))
                  = Some Examples.lastChunk) by (vm_compute; reflexivity).
  assert (Hord : 0 <= Chunk.fromB Examples.lastChunk
                 <= Chunk.toB Examples.lastChunk) by (simpl; lia).
  assert (Hin : Chunk.fromB Examples.lastChunk
                <= Text.length (doc Examples.readme))
    by (vm_compute; discriminate).
  assert (Hhead : head Examples.readme <= Text.length (doc Examples.readme))
    by (vm_compute; discriminate).
  destruct (rejectChunk_edit ChunkStore.ops defaultDiffConfig Examples.readme
              (Some 25) Examples.lastChunk Hfind Hord Hin Hhead)
    as (cs & sel & _ & _ & _ & Hrej).
  exists cs, sel. eexists. split; [exact Hrej|]. repeat split; reflexivity.
Defined.

(** C3 as stated fails on a chunk that is empty on the A side (a line of B
    that A does not have) and lies before the end of B: the chunk is not at
    the end of B, yet no line terminator is appended.  The edit deletes the
    line from B. *)
Lemma reject_terminator_counterexample :
  exists chunk,
    chunkAt Examples.lineInserted 2 = Some chunk
    /\ Chunk.toB chunk <= Text.length (doc Examples.lineInserted)
    /\ rejectEdit Examples.lineInserted chunk = (2, 4, [])
    /\ rejectEdit_asSpecified Examples.lineInserted chunk = (2, 4, [Text.nl])
    /\ rejectEffectFor Examples.lineInserted chunk
       = Some (rejectChunkEffect
                 (RejectChunk.mk 2 2 2 4 []
                    (Text.of_lines ["b"%string])
                    [ChangeSet.Keep 2; ChangeSet.Replace 2 [];
                     ChangeSet.Keep 1]))
    /\ rejectEdit Examples.lineInserted chunk
       <> rejectEdit_asSpecified Examples.lineInserted chunk.
Proof.
  eexists. split; [vm_compute; reflexivity|].
  split; [vm_compute; discriminate|].
  split; [vm_compute; reflexivity|].
  split; [vm_compute; reflexivity|].
  split; [vm_compute; reflexivity|].
  vm_compute. discriminate.
Qed.

Lemma accept_reject_frame_witness :
  (exists st' calls,
      acceptChunk ChunkStore.ops defaultDiffConfig Examples.readme (Some 4)
      = Some ((true, st'), calls)
      /\ doc st' = doc Examples.readme
      /\ originalDoc st' <> originalDoc Examples.readme)
  /\ (exists st' calls,
         rejectChunk ChunkStore.ops defaultDiffConfig Examples.readme (Some 25)
         = Some ((true, st'), calls)
         /\ originalDoc st' = originalDoc Examples.readme
         /\ doc st' <> doc Examples.readme).
Proof.
  pose proof (accept_reject_frame ChunkStore.ops defaultDiffConfig
                Examples.readme (Some 4)) as (Hacc & _).
  pose proof (accept_reject_frame ChunkStore.ops defaultDiffConfig
                Examples.readme (Some 25)) as (_ & Hrej & _).
  split.
  - destruct (Hacc Examples.firstChunk) as (st' & cs & Hcall & HB & HA & _).
    + vm_compute. reflexivity.
    + cbn. lia.
    + vm_compute. intro E. discriminate E.
    + exists st'. eexists. split; [exact Hcall|]. split; [exact HB|].
      intro E. rewrite E in Hcall. vm_compute in Hcall. discriminate Hcall.
  - destruct (Hrej Examples.lastChunk) as (st' & cs & Hcall & HA & HB & _).
    + vm_compute. reflexivity.
    + cbn. lia.
    + vm_compute. intro E. discriminate E.
    + vm_compute. intro E. discriminate E.
    + exists st'. eexists. split; [exact Hcall|]. split; [exact HA|].
      intro E. rewrite E in Hcall. vm_compute in Hcall. discriminate Hcall.
Defined.

(** C6, as the code has it.  In one run of the [computeChunks] callback,
    [Chunk.build] is called exactly when the transaction carries a
    [generateCodeEffect], whatever the transaction's change is; without
    that effect every call is a [Chunk.updateA] or a [Chunk.updateB]; and
    the chunk store is not called at all exactly when the transaction
    carries none of the four effects and either the chunk list is empty or
    the document did not change. *)
Theorem rebuild_exactly_on_generate (ops : Chunk.Ops) (diffConf : DiffConfig)
    (chunks : list Chunk.t) (tr : Transaction)
    (chunks' : list Chunk.t) (calls : list ChunkCall) :
  computeChunks ops diffConf chunks tr = Some (chunks', calls) ->
  existsb isCallBuild calls = findGenerate (effects tr)
  /\ (findGenerate (effects tr) = false -> forallb isUpdateCall calls = true)
  /\ (calls = [] <->
      findUpdateDoc (effects tr) = None
      /\ findAccept (effects tr) = None
      /\ findGenerate (effects tr) = false
      /\ findReject (effects tr) = None
      /\ (chunks = [] \/ docChanged tr = false)).
Proof.
  unfold computeChunks, Chunk_updateA, Chunk_updateB, Chunk_build.
  intro H.
  destruct (findUpdateDoc (effects tr)) as [[d cs]|];
    destruct (findAccept (effects tr)) as [v|];
    try destruct (ChangeSet.apply (AcceptChunk.changes v)
                    (originalDoc (startState tr)));
    destruct (findGenerate (effects tr));
    destruct (newOriginalDoc tr); destruct (newDoc tr);
    destruct (findReject (effects tr));
    cbn [lift bind ret raise orb app] in H; try discriminate;
    try (match type of H with
         | context [docChanged tr] => destruct (docChanged tr)
         end);
    try (match type of H with
         | context [Z.of_nat (List.length ?l) =? 0] =>
             destruct l eqn:?
         end);
    cbn [lift bind ret raise orb andb negb app List.length Z.of_nat Z.eqb] in H;
    try discriminate;
    inversion H; subst; clear H;
    (split; [reflexivity|]);
    (split; [try discriminate; intros _; reflexivity|]);
    (split; [try discriminate; intros _; repeat split; auto
            |try reflexivity;
             intros (H1 & H2 & H3 & H4 & [H5|H5]); discriminate]).
Qed.

Lemma rebuild_exactly_on_generate_witness :
  let b' := Examples.generatedLine ++ Examples.readmeB in
  let built := ChunkStore.build Examples.readmeA b' defaultDiffConfig in
  existsb isCallBuild
    [CallBuild Examples.readmeA b';
     CallUpdateB built Examples.readmeA b' (changes Examples.insertion)]
  = findGenerate (effects Examples.insertion).
Proof.
  intros b' built.
  refine (proj1 (rebuild_exactly_on_generate ChunkStore.ops defaultDiffConfig
                   (ChunkField Examples.readme) Examples.insertion
                   (ChunkStore.updateB built Examples.readmeA b'
                      (changes Examples.insertion) defaultDiffConfig)
                   _ _)).
  vm_compute. reflexivity.
Defined.

(** C6 as stated fails on generated code that is inserted, not substituted
    for the document: [applyGeneratedCode] with [replaceAll: false] and
    [insertAt: 0] dispatches an insertion that keeps all 27 characters of
    B, and the chunk list is rebuilt with [Chunk.build] all the same. *)
Lemma generated_insertion_counterexample :
  exists st' calls,
    update Examples.readme
      (generateSpec Examples.readme Examples.generatedLine (Some false)
         (Some 0)) = Some Examples.insertion
    /\ applyGeneratedCode ChunkStore.ops defaultDiffConfig Examples.readme
         Examples.generatedLine (Some false) (Some 0) = Some (st', calls)
    /\ existsb isCallBuild calls = true
    /\ wholesale Examples.insertion = false.
Proof.
  eexists. eexists. split; [vm_compute; reflexivity|].
  split; [vm_compute; reflexivity|].
  split; vm_compute; reflexivity.
Qed.

(** The other half of the same sentence: an edit of B while the chunk list
    is empty reaches neither [Chunk.updateB] nor [Chunk.build]; the list
    stays empty. *)
Lemma edit_with_empty_chunk_list :
  exists st',
    ChunkField Examples.agreeing = []
    /\ dispatch ChunkStore.ops defaultDiffConfig Examples.agreeing
         {| spec_changes := Range 0 0 (Text.of_string "x");
            spec_selection := None; spec_effects := [];
            spec_userEvent := "input.type" |} = Some (st', [])
    /\ ChunkField st' = []
    /\ doc st' <> originalDoc st'.
Proof.
  eexists. split; [vm_compute; reflexivity|].
  split; [vm_compute; reflexivity|].
  split; [reflexivity|]. vm_compute. discriminate.
Qed.

(** * Undo *)

Lemma ChangeSet_invert_keep (n : Z) (d : Text.t) :
  ChangeSet.invert (ChangeSet.keep n) d = ChangeSet.keep n.
Proof. unfold ChangeSet.keep. destruct (n =? 0); reflexivity. Qed.

Lemma ChangeSet_apply_invert (cs : ChangeSet.t) (d : Text.t) :
  ChangeSet.length cs = Text.length d ->
  ChangeSet.apply (ChangeSet.invert cs d) (ChangeSet.applySections cs d)
  = Some d.
Proof.
  intro H. unfold ChangeSet.apply.
  rewrite ChangeSet_length_invert, (ChangeSet_applySections_length _ _ H).
  rewrite Z.eqb_refl, (ChangeSet_applySections_invert _ _ H). reflexivity.
Qed.

(** The effect recorded to undo an accept is an [updateOriginalDoc], and
    for that kind of effect the callback returns nothing: the inverse of an
    accept has no inverse. *)
Lemma accept_inverse_has_no_inverse (start start' : EditorState)
    (v : AcceptChunk.value) :
  invertEffects start' (invertEffects start [acceptChunkEffect v]) = [].
Proof. reflexivity. Qed.

(** The effect recorded to undo a reject is a reject again, and its own
    inverse, taken in the state the reject leads to, is the reject the
    transaction started from. *)
Lemma reject_inverse_involutive (start start' : EditorState)
    (v : RejectChunk.value) :
  ChangeSet.length (RejectChunk.changes v) = Text.length (doc start) ->
  doc start' = ChangeSet.applySections (RejectChunk.changes v) (doc start) ->
  invertEffects start' (invertEffects start [rejectChunkEffect v])
  = [rejectChunkEffect v].
Proof.
  intros Hlen Hdoc. destruct v as [fa ta fb tb oc cc cs]. simpl in *.
  rewrite Hdoc, (ChangeSet_invert_invert _ _ Hlen). reflexivity.
Qed.

(** Undoing an accept right after it: the record taken at apply time,
    dispatched on the state the accept led to, gives back both documents;
    the chunk list goes through [Chunk.updateA] with the inverted edit. *)
Lemma accept_undo_restores_documents (ops : Chunk.Ops) (diffConf : DiffConfig)
    (state : EditorState) (chunk : Chunk.t) (spec : TransactionSpec)
    (tr : Transaction) (st1 : EditorState) (calls : list ChunkCall) :
  acceptSpec state chunk = Some spec ->
  update state spec = Some tr ->
  applyTransaction ops diffConf tr = Some (st1, calls) ->
  exists ev cs,
    HistEvent_fromTransaction tr = Some ev
    /\ dispatch ops diffConf st1 (historySpec ev)
       = Some ({| doc := doc state; head := head state;
                  originalDoc := originalDoc state;
                  ChunkField :=
                    Chunk.updateA ops (ChunkField st1) (originalDoc state)
                      (doc state) cs diffConf |},
               [CallUpdateA (ChunkField st1) (originalDoc state) (doc state)
                  cs]).
Proof.
  unfold acceptSpec, acceptEffectFor.
  destruct (ChangeSet.ofString (Chunk.fromA chunk)
              (Z.min (Text.length (originalDoc state)) (Chunk.toA chunk))
              (acceptInsert state chunk) (Text.length (originalDoc state)))
    as [cs|] eqn:Hof; [|discriminate].
  intros Hspec Hupd Happ. inversion Hspec; subst spec; clear Hspec.
  unfold update, resolveChanges, mappedHead, ChangeSet.none in Hupd.
  cbn [spec_changes spec_selection spec_effects spec_userEvent] in Hupd.
  rewrite ChangeSet_empty_keep in Hupd. inversion Hupd; subst tr; clear Hupd.
  unfold applyTransaction, newDoc, newOriginalDoc, computeChunks, docChanged
    in Happ.
  cbn [startState changes effects selection] in Happ.
  fold (ChangeSet.none (Text.length (doc state))) in Happ.
  rewrite ChangeSet_apply_none in Happ. unfold ChangeSet.none in Happ.
  rewrite ChangeSet_empty_keep in Happ.
  cbn [originalDoc_update findUpdateDoc findAccept findReject findGenerate
         AcceptChunk.changes] in Happ.
  rewrite (ChangeSet_apply_of _ _ _ _ _ Hof) in Happ.
  cbn [lift bind ret Chunk_updateA app negb andb orb] in Happ.
  rewrite andb_false_r in Happ. cbn [lift bind ret app] in Happ.
  inversion Happ; subst st1 calls; clear Happ.
  eexists. exists (ChangeSet.invert cs (originalDoc state)).
  split.
  - unfold HistEvent_fromTransaction, HistEvent_from, undoableChunkOperations.
    cbn [startState changes effects invertEffects andb]. reflexivity.
  - unfold historySpec, dispatch, update, resolveChanges.
    cbn [h_changes h_effects h_selection spec_changes spec_selection
           spec_effects spec_userEvent doc startState changes
           AcceptChunk.originalDoc AcceptChunk.changes].
    rewrite ChangeSet_invert_keep.
    rewrite ChangeSet_length_keep by apply Text_length_nonneg.
    rewrite Z.eqb_refl. cbn [lift bind ret].
    unfold applyTransaction, newDoc, newOriginalDoc, computeChunks, docChanged.
    cbn [startState changes effects selection doc originalDoc ChunkField].
    fold (ChangeSet.none (Text.length (doc state))).
    rewrite ChangeSet_apply_none. unfold ChangeSet.none.
    rewrite ChangeSet_empty_keep.
    cbn [originalDoc_update findUpdateDoc findAccept findReject findGenerate
           lift bind ret Chunk_updateA app negb andb orb].
    rewrite andb_false_r. reflexivity.
Qed.

(** Undoing a reject right after it: the record holds the inverted edit of
    B and the reject effect turned around; dispatched on the state the
    reject led to, it gives back both documents, and the chunk list goes
    through [Chunk.updateB] with the inverted edit. *)
Lemma reject_undo_restores_documents (ops : Chunk.Ops) (diffConf : DiffConfig)
    (state : EditorState) (chunk : Chunk.t) (spec : TransactionSpec)
    (tr : Transaction) (st1 : EditorState) (calls : list ChunkCall) :
  rejectSpec state chunk = Some spec ->
  update state spec = Some tr ->
  applyTransaction ops diffConf tr = Some (st1, calls) ->
  exists ev cs,
    HistEvent_fromTransaction tr = Some ev
    /\ undoableChunkOperations
         {| startState := st1; changes := h_changes ev;
            selection := h_selection ev; effects := h_effects ev;
            userEvent := "undo" |} = effects tr
    /\ dispatch ops diffConf st1 (historySpec ev)
       = Some ({| doc := doc state; head := head state;
                  originalDoc := originalDoc state;
                  ChunkField :=
                    Chunk.updateB ops (ChunkField st1) (originalDoc state)
                      (doc state) cs diffConf |},
               [CallUpdateB (ChunkField st1) (originalDoc state) (doc state)
                  cs]).
Proof.
  unfold rejectSpec, rejectEffectFor.
  destruct (ChangeSet.ofString (Chunk.fromB chunk)
              (Z.min (Text.length (doc state)) (Chunk.toB chunk))
              (rejectInsert state chunk) (Text.length (doc state)))
    as [cs|] eqn:Hof; [|discriminate].
  pose proof (ChangeSet_of_length _ _ _ _ _ Hof) as Hlen.
  intros Hspec Hupd Happ. inversion Hspec; subst spec; clear Hspec.
  unfold update, resolveChanges in Hupd.
  cbn [spec_changes spec_selection spec_effects spec_userEvent] in Hupd.
  rewrite Hof in Hupd.
  destruct (mappedHead state cs) as [sel|]; [|discriminate].
  inversion Hupd; subst tr; clear Hupd.
  unfold applyTransaction, newDoc, newOriginalDoc, computeChunks in Happ.
  cbn [startState changes effects selection] in Happ.
  rewrite (ChangeSet_apply_of _ _ _ _ _ Hof) in Happ.
  cbn [originalDoc_update findUpdateDoc findAccept findReject findGenerate
         lift bind ret app orb] in Happ.
  unfold newDoc, newOriginalDoc in Happ.
  cbn [startState changes effects] in Happ.
  rewrite (ChangeSet_apply_of _ _ _ _ _ Hof) in Happ.
  cbn [originalDoc_update lift bind ret Chunk_updateB app] in Happ.
  inversion Happ; subst st1 calls; clear Happ.
  eexists. exists (ChangeSet.invert cs (doc state)).
  split; [|split].
  - unfold HistEvent_fromTransaction, HistEvent_from, undoableChunkOperations.
    cbn [startState changes effects invertEffects andb]. reflexivity.
  - cbn [h_effects h_changes h_selection]. unfold undoableChunkOperations.
    cbn [startState effects].
    apply reject_inverse_involutive; [exact Hlen|reflexivity].
  - unfold historySpec, dispatch, update, resolveChanges.
    cbn [h_changes h_effects h_selection spec_changes spec_selection
           spec_effects spec_userEvent doc startState changes
           RejectChunk.changes].
    rewrite ChangeSet_length_invert.
    rewrite (ChangeSet_applySections_length _ _ Hlen), Z.eqb_refl.
    cbn [lift bind ret].
    unfold applyTransaction, newDoc, newOriginalDoc, computeChunks.
    cbn [startState changes effects selection doc originalDoc ChunkField].
    rewrite (ChangeSet_apply_invert _ _ Hlen).
    cbn [originalDoc_update findUpdateDoc findAccept findReject findGenerate
           lift bind ret app orb].
    unfold newDoc, newOriginalDoc.
    cbn [startState changes effects doc originalDoc].
    rewrite (ChangeSet_apply_invert _ _ Hlen).
    cbn [originalDoc_update lift bind ret Chunk_updateB app].
    reflexivity.
Qed.

(** C1, on the README's documents.  The first chunk is accepted and the
    accept is undone with the record taken at apply time: both documents
    are as before (and so is, with the specification's chunk store, the
    chunk list).  But the transaction that undoes the accept carries an
    [updateOriginalDoc] effect, for which the inverted-effect callback
    returns nothing, and it changes no text: the history takes no record of
    it, whatever selection it gives to the record, so the inverse of the
    inverse is not the accept (there is nothing to redo), while for a
    reject the inverse of the inverse is the reject again. *)
Theorem accept_undo_has_no_inverse :
  exists chunk spec tr ev undo st2 calls2 v,
    chunkAt Examples.readme 4 = Some chunk
    /\ acceptSpec Examples.readme chunk = Some spec
    /\ spec_effects spec = [acceptChunkEffect v]
    /\ update Examples.readme spec = Some tr
    /\ applyTransaction ChunkStore.ops defaultDiffConfig tr
       = Some (Examples.accepted,
               [CallUpdateA (ChunkField Examples.readme)
                  (originalDoc Examples.accepted) (doc Examples.readme)
                  (AcceptChunk.changes v)])
    /\ HistEvent_fromTransaction tr = Some ev
    /\ update Examples.accepted (historySpec ev) = Some undo
    /\ applyTransaction ChunkStore.ops defaultDiffConfig undo
       = Some (st2, calls2)
    /\ doc st2 = doc Examples.readme
    /\ originalDoc st2 = originalDoc Examples.readme
    /\ ChunkField st2 = ChunkField Examples.readme
    /\ undoableChunkOperations undo = []
    /\ HistEvent_fromTransaction undo = None
    /\ undoableChunkOperations undo <> effects tr
    /\ historySelection ev = Some 0
    /\ forall selection, HistEvent_from undo selection = None.
Proof.
  do 8 eexists.
  split; [vm_compute; reflexivity|].
  split; [vm_compute; reflexivity|].
  split; [vm_compute; reflexivity|].
  split; [vm_compute; reflexivity|].
  split; [vm_compute; reflexivity|].
  split; [vm_compute; reflexivity|].
  split; [vm_compute; reflexivity|].
  split; [vm_compute; reflexivity|].
  split; [vm_compute; reflexivity|].
  split; [vm_compute; reflexivity|].
  split; [vm_compute; reflexivity|].
  split; [vm_compute; reflexivity|].
  split; [vm_compute; reflexivity|].
  split; [vm_compute; discriminate|].
  split; [vm_compute; reflexivity|].
  intro selection. vm_compute. reflexivity.
Qed.

(** * The diff engine *)

Lemma text_eqb_eq (x y : Text.t) : DiffEngine.text_eqb x y = true <-> x = y.
Proof.
  revert y. induction x as [|c x IH]; intros [|d y]; simpl;
    try (split; [discriminate|discriminate]); [tauto|].
  rewrite andb_true_iff, Ascii.eqb_eq, IH. split.
  - intros [-> ->]. reflexivity.
  - intro H. inversion H. auto.
Qed.

Lemma scriptWithin_nil (d : nat) : DiffEngine.scriptWithin d [] [] = Some [].
Proof. destruct d; reflexivity. Qed.

Lemma scriptWithin_zero_cons (x y : Text.t) (la lb : list Text.t) :
  DiffEngine.scriptWithin 0 (x :: la) (y :: lb)
  = DiffEngine.orElse
      (if DiffEngine.text_eqb x y
       then option_map (cons (DiffEngine.Same x))
              (DiffEngine.scriptWithin 0 la lb)
       else None)
      None.
Proof. reflexivity. Qed.

Lemma scriptWithin_succ_cons (d : nat) (x y : Text.t) (la lb : list Text.t) :
  DiffEngine.scriptWithin (S d) (x :: la) (y :: lb)
  = DiffEngine.orElse
      (if DiffEngine.text_eqb x y
       then option_map (cons (DiffEngine.Same x))
              (DiffEngine.scriptWithin (S d) la lb)
       else None)
      (DiffEngine.orElse
         (option_map (cons (DiffEngine.Del x))
            (DiffEngine.scriptWithin d la (y :: lb)))
         (option_map (cons (DiffEngine.Ins y))
            (DiffEngine.scriptWithin d (x :: la) lb))).
Proof. reflexivity. Qed.

Lemma scriptWithin_succ_left (d : nat) (x : Text.t) (la : list Text.t) :
  DiffEngine.scriptWithin (S d) (x :: la) []
  = option_map (cons (DiffEngine.Del x)) (DiffEngine.scriptWithin d la []).
Proof. reflexivity. Qed.

Lemma scriptWithin_succ_right (d : nat) (y : Text.t) (lb : list Text.t) :
  DiffEngine.scriptWithin (S d) [] (y :: lb)
  = option_map (cons (DiffEngine.Ins y)) (DiffEngine.scriptWithin d [] lb).
Proof. reflexivity. Qed.

Lemma scriptWithin_zero_left (x : Text.t) (la : list Text.t) :
  DiffEngine.scriptWithin 0 (x :: la) [] = None.
Proof. reflexivity. Qed.

Lemma scriptWithin_zero_right (y : Text.t) (lb : list Text.t) :
  DiffEngine.scriptWithin 0 [] (y :: lb) = None.
Proof. reflexivity. Qed.

(** One step of the soundness proof: the script is an edit in front of a
    script that came from a smaller search, about which [pf] speaks. *)
Ltac script_step H pf :=
  simpl in H; inversion H; subst;
  let HA := fresh "HA" in
  let HB := fresh "HB" in
  let HC := fresh "HC" in
  destruct pf as (HA & HB & HC);
  simpl; rewrite HA, HB;
  split; [reflexivity|split; [reflexivity|lia]].

(** A script that the search returns turns the one list of lines into the
    other and costs no more than the bound it was searched with. *)
Lemma scriptWithin_sound (d : nat) :
  forall (la lb : list Text.t) (s : list DiffEngine.edit),
    DiffEngine.scriptWithin d la lb = Some s ->
    DiffEngine.scriptA s = la /\ DiffEngine.scriptB s = lb
    /\ (DiffEngine.scriptCost s <= d)%nat.
Proof.
  induction d as [|d IHd].
  - induction la as [|x la IHla]; intros [|y lb] s H.
    + rewrite scriptWithin_nil in H. inversion H. simpl. auto.
    + rewrite scriptWithin_zero_right in H. discriminate.
    + rewrite scriptWithin_zero_left in H. discriminate.
    + rewrite scriptWithin_zero_cons in H.
      destruct (DiffEngine.text_eqb x y) eqn:E; [|discriminate].
      apply text_eqb_eq in E. subst y.
      destruct (DiffEngine.scriptWithin 0 la lb) as [s'|] eqn:E';
        [|discriminate].
      script_step H (IHla _ _ E').
  - induction la as [|x la IHla]; intros [|y lb] s H.
    + rewrite scriptWithin_nil in H. inversion H. simpl.
      split; [reflexivity|split; [reflexivity|lia]].
    + rewrite scriptWithin_succ_right in H.
      destruct (DiffEngine.scriptWithin d [] lb) as [s'|] eqn:E';
        [|discriminate].
      script_step H (IHd _ _ _ E').
    + rewrite scriptWithin_succ_left in H.
      destruct (DiffEngine.scriptWithin d la []) as [s'|] eqn:E';
        [|discriminate].
      script_step H (IHd _ _ _ E').
    + rewrite scriptWithin_succ_cons in H.
      destruct (DiffEngine.text_eqb x y) eqn:E.
      * apply text_eqb_eq in E. subst y.
        destruct (DiffEngine.scriptWithin (S d) la lb) as [s'|] eqn:E';
          [script_step H (IHla _ _ E')|].
        simpl in H.
        destruct (DiffEngine.scriptWithin d la (x :: lb)) as [s'|] eqn:E1;
          [script_step H (IHd _ _ _ E1)|].
        destruct (DiffEngine.scriptWithin d (x :: la) lb) as [s'|] eqn:E2;
          [script_step H (IHd _ _ _ E2)|discriminate].
      * simpl in H.
        destruct (DiffEngine.scriptWithin d la (y :: lb)) as [s'|] eqn:E1;
          [script_step H (IHd _ _ _ E1)|].
        destruct (DiffEngine.scriptWithin d (x :: la) lb) as [s'|] eqn:E2;
          [script_step H (IHd _ _ _ E2)|discriminate].
Qed.

(** Where a script of cost at most [d] exists, the search with bound [d]
    returns one. *)
Lemma scriptWithin_complete (s : list DiffEngine.edit) :
  forall d : nat,
    (DiffEngine.scriptCost s <= d)%nat ->
    DiffEngine.scriptWithin d (DiffEngine.scriptA s) (DiffEngine.scriptB s)
    <> None.
Proof.
  induction s as [|e s IH]; intros d Hc.
  - simpl. rewrite scriptWithin_nil. discriminate.
  - destruct e as [l|l|l]; simpl in *.
    + specialize (IH d Hc).
      destruct (DiffEngine.scriptWithin d (DiffEngine.scriptA s)
                  (DiffEngine.scriptB s)) as [s'|] eqn:E; [|congruence].
      destruct d as [|d].
      * rewrite scriptWithin_zero_cons.
        rewrite (proj2 (text_eqb_eq l l) eq_refl), E. discriminate.
      * rewrite scriptWithin_succ_cons.
        rewrite (proj2 (text_eqb_eq l l) eq_refl), E. discriminate.
    + destruct d as [|d]; [lia|].
      assert (Hc' : (DiffEngine.scriptCost s <= d)%nat) by lia.
      specialize (IH d Hc').
      destruct (DiffEngine.scriptWithin d (DiffEngine.scriptA s)
                  (DiffEngine.scriptB s)) as [s'|] eqn:E; [|congruence].
      destruct (DiffEngine.scriptB s) as [|y lb].
      * rewrite scriptWithin_succ_left, E. discriminate.
      * rewrite scriptWithin_succ_cons.
        destruct (if DiffEngine.text_eqb l y
                  then option_map (cons (DiffEngine.Same l))
                         (DiffEngine.scriptWithin (S d) (DiffEngine.scriptA s)
                            lb)
                  else None); [discriminate|].
        rewrite E. discriminate.
    + destruct d as [|d]; [lia|].
      assert (Hc' : (DiffEngine.scriptCost s <= d)%nat) by lia.
      specialize (IH d Hc').
      destruct (DiffEngine.scriptWithin d (DiffEngine.scriptA s)
                  (DiffEngine.scriptB s)) as [s'|] eqn:E; [|congruence].
      destruct (DiffEngine.scriptA s) as [|x la].
      * rewrite scriptWithin_succ_right, E. discriminate.
      * rewrite scriptWithin_succ_cons.
        destruct (if DiffEngine.text_eqb x l
                  then option_map (cons (DiffEngine.Same x))
                         (DiffEngine.scriptWithin (S d) la
                            (DiffEngine.scriptB s))
                  else None); [discriminate|].
        simpl.
        destruct (option_map (cons (DiffEngine.Del x))
                    (DiffEngine.scriptWithin d la (l :: DiffEngine.scriptB s)));
          [discriminate|].
        rewrite E. discriminate.
Qed.

(** The search by increasing cost: what it returns was found at one of the
    costs it tried, and it gives up only when every one of them failed. *)
Lemma searchFrom_some (rounds : nat) :
  forall (d : nat) (la lb : list Text.t) (s : list DiffEngine.edit),
    DiffEngine.searchFrom rounds d la lb = Some s ->
    exists k, (d <= k <= d + rounds)%nat
              /\ DiffEngine.scriptWithin k la lb = Some s.
Proof.
  induction rounds as [|r IH]; intros d la lb s H; simpl in H.
  - destruct (DiffEngine.scriptWithin d la lb) eqn:E; [|discriminate].
    exists d. split; [lia|congruence].
  - destruct (DiffEngine.scriptWithin d la lb) eqn:E.
    + exists d. split; [lia|congruence].
    + destruct (IH _ _ _ _ H) as (k & Hk & Hs). exists k. split; [lia|exact Hs].
Qed.

Lemma searchFrom_none (rounds : nat) :
  forall (d : nat) (la lb : list Text.t),
    DiffEngine.searchFrom rounds d la lb = None ->
    forall k, (d <= k <= d + rounds)%nat ->
              DiffEngine.scriptWithin k la lb = None.
Proof.
  induction rounds as [|r IH]; intros d la lb H k Hk; simpl in H.
  - destruct (DiffEngine.scriptWithin d la lb) eqn:E; [discriminate|].
    replace k with d by lia. exact E.
  - destruct (DiffEngine.scriptWithin d la lb) eqn:E; [discriminate|].
    destruct (Nat.eq_dec k d) as [->|Hne]; [exact E|].
    apply (IH _ _ _ H). lia.
Qed.

Lemma commonPrefix_firstn (a b : Text.t) :
  firstn (DiffEngine.commonPrefix a b) a
  = firstn (DiffEngine.commonPrefix a b) b.
Proof.
  revert b. induction a as [|c a IH]; intros [|d b]; simpl; try reflexivity.
  destruct (Ascii.eqb c d) eqn:E; [|reflexivity].
  apply Ascii.eqb_eq in E. subst d. simpl. rewrite IH. reflexivity.
Qed.

Lemma commonPrefix_le (a b : Text.t) :
  (DiffEngine.commonPrefix a b <= List.length a)%nat.
Proof.
  revert b. induction a as [|c a IH]; intros [|d b]; simpl; try lia.
  destruct (Ascii.eqb c d); [|lia]. specialize (IH b). lia.
Qed.

Lemma commonSuffix_skipn (a b : Text.t) :
  skipn (List.length a - DiffEngine.commonSuffix a b) a
  = skipn (List.length b - DiffEngine.commonSuffix a b) b.
Proof.
  unfold DiffEngine.commonSuffix.
  rewrite <- (rev_involutive (skipn _ a)), <- (rev_involutive (skipn _ b)).
  rewrite <- !firstn_rev. rewrite commonPrefix_firstn. reflexivity.
Qed.

(** Outside the two regions the documents agree: they are the regions
    between a common prefix and a common suffix. *)
Lemma regions_cover (a b : Text.t) :
  let '(p, ra, rb) := DiffEngine.regions a b in
  exists pre suf,
    a = pre ++ ra ++ suf /\ b = pre ++ rb ++ suf /\ List.length pre = p.
Proof.
  unfold DiffEngine.regions.
  set (p := DiffEngine.commonPrefix a b).
  set (a1 := skipn p a). set (b1 := skipn p b).
  set (s := DiffEngine.commonSuffix a1 b1).
  exists (firstn p a), (skipn (List.length a1 - s) a1).
  split; [|split].
  - rewrite (firstn_skipn (List.length a1 - s) a1). unfold a1.
    symmetry. apply firstn_skipn.
  - unfold s at 2. rewrite commonSuffix_skipn. fold s.
    rewrite (firstn_skipn (List.length b1 - s) b1). unfold b1, p.
    rewrite commonPrefix_firstn. symmetry. apply firstn_skipn.
  - rewrite length_firstn. pose proof (commonPrefix_le a b). fold p in H. lia.
Qed.

(** C8.  The diff is a total function of the two documents and the
    configuration, and its result is one of three: nothing, when trimming
    leaves nothing; the changes of a script found at a cost of at most
    [scanLimit]; or, when the search has tried every cost up to [scanLimit]
    without success, which happens exactly when every script costs more
    than [scanLimit], the single change that spans the whole region left
    after trimming, outside of which the two documents agree; the chunk
    list built from it is a single chunk. *)
Theorem diff_bounded_by_scanLimit (a b : Text.t) (config : DiffConfig) :
  0 < scanLimit config ->
  let '(p, ra, rb) := DiffEngine.regions a b in
  let la := DiffEngine.splitLines ra in
  let lb := DiffEngine.splitLines rb in
  let found := DiffEngine.shortestScript (scanLimit config) la lb in
  (exists pre suf,
      a = pre ++ ra ++ suf /\ b = pre ++ rb ++ suf /\ List.length pre = p)
  /\ ((ra = [] /\ rb = [] /\ DiffEngine.diff a b config = [])
      \/ (exists s,
             found = Some s
             /\ DiffEngine.diff a b config
                = DiffEngine.toChanges s (Z.of_nat p) (Z.of_nat p) None)
      \/ (found = None
          /\ DiffEngine.diff a b config = [DiffEngine.wholeRegion p ra rb]))
  /\ (forall s,
         found = Some s ->
         DiffEngine.scriptA s = la /\ DiffEngine.scriptB s = lb
         /\ Z.of_nat (DiffEngine.scriptCost s) <= scanLimit config)
  /\ (found = None <->
      (forall s,
          DiffEngine.scriptA s = la -> DiffEngine.scriptB s = lb ->
          scanLimit config < Z.of_nat (DiffEngine.scriptCost s)))
  /\ (found = None ->
      DiffEngine.diff a b config
      = [Change.mk (Z.of_nat p) (Z.of_nat p + Text.length ra)
           (Z.of_nat p) (Z.of_nat p + Text.length rb)]
      /\ ChunkStore.build a b config
         = [ChunkBuilder.lineChunk a b (DiffEngine.wholeRegion p ra rb)]).
Proof.
  intro Hpos. pose proof (regions_cover a b) as Hcover.
  unfold DiffEngine.diff.
  destruct (DiffEngine.regions a b) as [[p ra] rb] eqn:Hreg.
  set (la := DiffEngine.splitLines ra). set (lb := DiffEngine.splitLines rb).
  set (found := DiffEngine.shortestScript (scanLimit config) la lb).
  split; [exact Hcover|].
  assert (Hsome : forall s,
             found = Some s ->
             DiffEngine.scriptA s = la /\ DiffEngine.scriptB s = lb
             /\ Z.of_nat (DiffEngine.scriptCost s) <= scanLimit config).
  { intros s Hs. unfold found, DiffEngine.shortestScript in Hs.
    destruct (searchFrom_some _ _ _ _ _ Hs) as (k & Hk & Hw).
    destruct (scriptWithin_sound _ _ _ _ Hw) as (HA & HB & HC).
    split; [exact HA|]. split; [exact HB|]. lia. }
  assert (Hnone : found = None ->
                  forall s,
                    DiffEngine.scriptA s = la -> DiffEngine.scriptB s = lb ->
                    scanLimit config < Z.of_nat (DiffEngine.scriptCost s)).
  { intros Hn s HA HB.
    destruct (Z.ltb_spec (scanLimit config)
                (Z.of_nat (DiffEngine.scriptCost s))) as [Hlt|Hge];
      [exact Hlt|].
    exfalso. unfold found, DiffEngine.shortestScript in Hn.
    apply (scriptWithin_complete s (DiffEngine.scriptCost s) (le_n _)).
    rewrite HA, HB. apply (searchFrom_none _ _ _ _ Hn). lia. }
  assert (Hempty : ra = [] -> rb = [] -> found = Some []).
  { intros -> ->. unfold found, la, lb, DiffEngine.shortestScript.
    simpl. destruct (Z.to_nat (scanLimit config)); reflexivity. }
  assert (Hdiff : found = None ->
                  match ra with
                  | [] =>
                      match rb with
                      | [] => []
                      | _ :: _ =>
                          match found with
                          | Some script =>
                              DiffEngine.toChanges script (Z.of_nat p)
                                (Z.of_nat p) None
                          | None => [DiffEngine.wholeRegion p ra rb]
                          end
                      end
                  | _ :: _ =>
                      match found with
                      | Some script =>
                          DiffEngine.toChanges script (Z.of_nat p)
                            (Z.of_nat p) None
                      | None => [DiffEngine.wholeRegion p ra rb]
                      end
                  end = [DiffEngine.wholeRegion p ra rb]).
  { intro Hn. destruct ra as [|c ra'].
    - destruct rb as [|c rb'].
      + rewrite (Hempty eq_refl eq_refl) in Hn. discriminate.
      + rewrite Hn. reflexivity.
    - rewrite Hn. reflexivity. }
  split; [|split; [exact Hsome|split]].
  - destruct ra as [|c ra'].
    + destruct rb as [|c rb'].
      * left. auto.
      * destruct found as [s|].
        -- right. left. exists s. auto.
        -- right. right. auto.
    + destruct found as [s|].
      * right. left. exists s. auto.
      * right. right. auto.
  - split; [exact Hnone|].
    intro Hall. destruct found as [s|] eqn:Hf; [|reflexivity].
    destruct (Hsome s eq_refl) as (HA & HB & HC).
    specialize (Hall s HA HB). lia.
  - intro Hn. split; [exact (Hdiff Hn)|].
    pose proof (Hdiff Hn) as Hd. unfold ChunkStore.build, ChunkBuilder.group.
    unfold DiffEngine.diff.
    replace (DiffEngine.regions a b) with (p, ra, rb).
    fold la lb found. rewrite Hd. reflexivity.
Qed.

Lemma diff_bounded_by_scanLimit_witness :
  DiffEngine.diff Examples.fiveA Examples.fiveB Examples.tight
  = [Change.mk 2 7 2 7]
  /\ DiffEngine.diff Examples.fiveA Examples.fiveB defaultDiffConfig
     = [Change.mk 2 4 2 4; Change.mk 6 7 6 7].
Proof.
  assert (Hpos : 0 < scanLimit Examples.tight) by reflexivity.
  pose proof (diff_bounded_by_scanLimit Examples.fiveA Examples.fiveB
                Examples.tight Hpos) as H.
  vm_compute in H. destruct H as (_ & _ & _ & _ & H).
  split; [exact (proj1 (H eq_refl))|]. vm_compute. reflexivity.
Defined.

(** * The chunk list *)

Lemma ordered_join (c n : Chunk.t) :
  ordered c -> ordered (ChunkBuilder.join c n).
Proof. unfold ordered, ChunkBuilder.join. simpl. lia. Qed.

Lemma mergeFrom_head (rest : list Chunk.t) :
  forall c, exists e tl,
    ChunkBuilder.mergeFrom c rest = e :: tl
    /\ Chunk.fromA e = Chunk.fromA c /\ Chunk.fromB e = Chunk.fromB c.
Proof.
  induction rest as [|n rest IH]; intro c; simpl.
  - exists c, []. auto.
  - destruct (ChunkBuilder.touches c n).
    + destruct (IH (ChunkBuilder.join c n)) as (e & tl & He & HA & HB).
      exists e, tl. auto.
    + exists c, (ChunkBuilder.mergeFrom n rest). auto.
Qed.

Lemma mergeFrom_ordered (rest : list Chunk.t) :
  forall c, ordered c -> Forall ordered rest ->
            Forall ordered (ChunkBuilder.mergeFrom c rest).
Proof.
  induction rest as [|n rest IH]; intros c Hc Hrest; simpl.
  - constructor; [exact Hc|constructor].
  - inversion Hrest; subst. destruct (ChunkBuilder.touches c n).
    + apply IH; [apply ordered_join; exact Hc|assumption].
    + constructor; [exact Hc|]. apply IH; assumption.
Qed.

(** Merging leaves no two neighbours that touch. *)
Lemma mergeFrom_sorted (rest : list Chunk.t) :
  forall c, Sorted apart (ChunkBuilder.mergeFrom c rest).
Proof.
  induction rest as [|n rest IH]; intro c; simpl.
  - constructor; constructor.
  - destruct (ChunkBuilder.touches c n) eqn:E; [apply IH|].
    constructor; [apply IH|].
    destruct (mergeFrom_head rest n) as (e & tl & He & HA & HB).
    rewrite He. constructor. unfold apart. rewrite HA, HB.
    unfold ChunkBuilder.touches in E. apply orb_false_iff in E. lia.
Qed.

Lemma apart_trans (c n m : Chunk.t) :
  apart c n -> ordered n -> apart n m -> apart c m.
Proof. unfold apart, ordered. lia. Qed.

Lemma Sorted_apart_strong (l : list Chunk.t) :
  Forall ordered l -> Sorted apart l -> StronglySorted apart l.
Proof.
  induction l as [|c l IH]; intros Ho Hs; [constructor|].
  apply Forall_cons_iff in Ho. destruct Ho as [Hc Hl].
  apply Sorted_inv in Hs. destruct Hs as [Hs Hhd].
  specialize (IH Hl Hs). constructor; [exact IH|].
  destruct l as [|n l]; [constructor|].
  apply HdRel_inv in Hhd. apply StronglySorted_inv in IH.
  destruct IH as [_ Hn]. apply Forall_cons_iff in Hl. destruct Hl as [Hon _].
  constructor; [exact Hhd|].
  eapply Forall_impl; [|exact Hn].
  intros m Hm. exact (apart_trans c n m Hhd Hon Hm).
Qed.

Lemma mergeAdjacent_invariant (l : list Chunk.t) :
  Forall ordered l -> ChunkInvariant (ChunkBuilder.mergeAdjacent l).
Proof.
  intro Ho. destruct l as [|c rest]; simpl.
  - split; constructor.
  - inversion Ho; subst.
    assert (H : Forall ordered (ChunkBuilder.mergeFrom c rest))
      by (apply mergeFrom_ordered; assumption).
    split; [exact H|]. apply Sorted_apart_strong; [exact H|].
    apply mergeFrom_sorted.
Qed.

Lemma lineStart_le (d : Text.t) (pos : Z) : ChunkBuilder.lineStart d pos <= pos.
Proof. unfold ChunkBuilder.lineStart. lia. Qed.

Lemma lineEnd_ge (d : Text.t) (pos : Z) : pos <= ChunkBuilder.lineEnd d pos.
Proof. unfold ChunkBuilder.lineEnd. lia. Qed.

Lemma lineChunk_ordered (a b : Text.t) (c : Change.t) :
  changeOrdered c -> ordered (ChunkBuilder.lineChunk a b c).
Proof.
  unfold changeOrdered, ordered, ChunkBuilder.lineChunk. intros [HA HB].
  pose proof (lineStart_le a (Change.fromA c)).
  pose proof (lineStart_le b (Change.fromB c)).
  pose proof (lineEnd_ge a (Change.toA c)).
  pose proof (lineEnd_ge b (Change.toB c)).
  destruct (ChunkBuilder.atLineStart a (Change.toA c)
            && ChunkBuilder.atLineStart b (Change.toB c)); simpl; lia.
Qed.

Lemma offsetChange_ordered (dA dB : Z) (c : Change.t) :
  changeOrdered c -> changeOrdered (ChunkBuilder.offsetChange dA dB c).
Proof. unfold changeOrdered, ChunkBuilder.offsetChange. simpl. lia. Qed.

Lemma toChanges_ordered (s : list DiffEngine.edit) :
  forall (posA posB : Z) (cur : option Change.t),
    (forall c, cur = Some c ->
               changeOrdered c /\ Change.fromA c <= posA
               /\ Change.fromB c <= posB) ->
    Forall changeOrdered (DiffEngine.toChanges s posA posB cur).
Proof.
  induction s as [|e s IH]; intros posA posB cur Hcur; simpl.
  - destruct cur as [c|]; simpl; [|constructor].
    constructor; [apply (Hcur c eq_refl)|constructor].
  - destruct e as [l|l|l].
    + apply Forall_app. split.
      * destruct cur as [c|]; simpl; [|constructor].
        constructor; [apply (Hcur c eq_refl)|constructor].
      * apply IH. intros c Hc. discriminate.
    + apply IH. intros c' Hc'. inversion Hc'; subst c'; clear Hc'.
      pose proof (Text_length_nonneg l).
      destruct cur as [c|].
      * destruct (Hcur c eq_refl) as ((HA & HB) & HpA & HpB).
        unfold changeOrdered. simpl. lia.
      * unfold changeOrdered. simpl. lia.
    + apply IH. intros c' Hc'. inversion Hc'; subst c'; clear Hc'.
      pose proof (Text_length_nonneg l).
      destruct cur as [c|].
      * destruct (Hcur c eq_refl) as ((HA & HB) & HpA & HpB).
        unfold changeOrdered. simpl. lia.
      * unfold changeOrdered. simpl. lia.
Qed.

Lemma diff_ordered (a b : Text.t) (config : DiffConfig) :
  Forall changeOrdered (DiffEngine.diff a b config).
Proof.
  unfold DiffEngine.diff. destruct (DiffEngine.regions a b) as [[p ra] rb].
  assert (H : Forall changeOrdered
                match DiffEngine.shortestScript (scanLimit config)
                        (DiffEngine.splitLines ra) (DiffEngine.splitLines rb)
                with
                | Some script =>
                    DiffEngine.toChanges script (Z.of_nat p) (Z.of_nat p) None
                | None => [DiffEngine.wholeRegion p ra rb]
                end).
  { destruct (DiffEngine.shortestScript (scanLimit config)
                (DiffEngine.splitLines ra) (DiffEngine.splitLines rb)).
    - apply toChanges_ordered. intros c Hc. discriminate.
    - constructor; [|constructor].
      pose proof (Text_length_nonneg ra). pose proof (Text_length_nonneg rb).
      unfold changeOrdered, DiffEngine.wholeRegion. simpl. lia. }
  destruct ra; [destruct rb; [constructor|exact H]|exact H].
Qed.

Lemma group_invariant (changes : list Change.t) (a b : Text.t) :
  Forall changeOrdered changes ->
  ChunkInvariant (ChunkBuilder.group changes a b).
Proof.
  intro H. unfold ChunkBuilder.group. apply mergeAdjacent_invariant.
  apply Forall_map. eapply Forall_impl; [|exact H].
  intros c Hc. apply lineChunk_ordered. exact Hc.
Qed.

Lemma build_invariant (a b : Text.t) (config : DiffConfig) :
  ChunkInvariant (ChunkStore.build a b config).
Proof. apply group_invariant. apply diff_ordered. Qed.

Lemma mapThroughFrom_lower (cs : ChangeSet.t) :
  forall posA posB pos : Z,
    posA <= pos -> posB <= ChunkStore.mapThroughFrom cs posA posB pos.
Proof.
  induction cs as [|s cs IH]; intros posA posB pos H; simpl.
  - lia.
  - destruct s as [n|n ins].
    + destruct (posA + Z.of_nat n >? pos) eqn:E; [lia|].
      specialize (IH (posA + Z.of_nat n) (posB + Z.of_nat n) pos). lia.
    + destruct ((posA + Z.of_nat n >? pos)
                || ((posA + Z.of_nat n =? pos) && (Z.of_nat n =? 0))) eqn:E;
        [lia|].
      apply orb_false_iff in E. destruct E as [E _].
      pose proof (Text_length_nonneg ins).
      specialize (IH (posA + Z.of_nat n) (posB + Text.length ins) pos). lia.
Qed.

(** Mapping positions through a change set keeps their order. *)
Lemma mapThroughFrom_mono (cs : ChangeSet.t) :
  forall posA posB p1 p2 : Z,
    p1 <= p2 ->
    ChunkStore.mapThroughFrom cs posA posB p1
    <= ChunkStore.mapThroughFrom cs posA posB p2.
Proof.
  induction cs as [|s cs IH]; intros posA posB p1 p2 H; simpl.
  - lia.
  - destruct s as [n|n ins].
    + destruct (posA + Z.of_nat n >? p1) eqn:E1;
        destruct (posA + Z.of_nat n >? p2) eqn:E2; try lia.
      * pose proof (mapThroughFrom_lower cs (posA + Z.of_nat n)
                      (posB + Z.of_nat n) p2). lia.
      * apply IH. exact H.
    + pose proof (Text_length_nonneg ins).
      destruct ((posA + Z.of_nat n >? p1)
                || ((posA + Z.of_nat n =? p1) && (Z.of_nat n =? 0))) eqn:E1;
        destruct ((posA + Z.of_nat n >? p2)
                  || ((posA + Z.of_nat n =? p2) && (Z.of_nat n =? 0))) eqn:E2.
      * lia.
      * apply orb_false_iff in E2. destruct E2 as [E2 _].
        pose proof (mapThroughFrom_lower cs (posA + Z.of_nat n)
                      (posB + Text.length ins) p2). lia.
      * apply orb_false_iff in E1. destruct E1 as [E1 E1'].
        apply orb_true_iff in E2. apply andb_false_iff in E1'.
        destruct E2 as [E2|E2]; [lia|].
        apply andb_true_iff in E2. lia.
      * apply IH. exact H.
Qed.

Lemma mapChunkA_ordered (cs : ChangeSet.t) (c : Chunk.t) :
  ordered c -> ordered (ChunkStore.mapChunkA cs c).
Proof.
  unfold ordered, ChunkStore.mapChunkA, ChunkStore.mapThrough. simpl.
  intros [HA HB]. split; [|exact HB]. apply mapThroughFrom_mono. exact HA.
Qed.

Lemma changedRangeFrom_some (cs : ChangeSet.t) :
  forall (posB : Z) (x : Z * Z),
    ChunkStore.changedRangeFrom cs posB (Some x) <> None.
Proof.
  induction cs as [|s cs IH]; intros posB x; simpl; [discriminate|].
  destruct s as [n|n ins]; apply IH.
Qed.

(** A change set that replaces nothing moves no position. *)
Lemma changedRangeFrom_none (cs : ChangeSet.t) :
  forall posB p pos : Z,
    ChunkStore.changedRangeFrom cs posB None = None ->
    ChunkStore.mapThroughFrom cs p p pos = pos.
Proof.
  induction cs as [|s cs IH]; intros posB p pos H; simpl in *.
  - lia.
  - destruct s as [n|n ins].
    + destruct (p + Z.of_nat n >? pos); [lia|].
      apply (IH (posB + Z.of_nat n)). exact H.
    + exfalso. exact (changedRangeFrom_some _ _ _ H).
Qed.

Lemma mapChunkA_unchanged (cs : ChangeSet.t) (chunks : list Chunk.t) :
  ChunkStore.changedRange cs = None ->
  List.map (ChunkStore.mapChunkA cs) chunks = chunks.
Proof.
  intro H. induction chunks as [|c chunks IH]; [reflexivity|].
  simpl. rewrite IH. f_equal.
  unfold ChunkStore.mapChunkA, ChunkStore.mapThrough.
  rewrite !(changedRangeFrom_none cs 0 0 _ H). destruct c. reflexivity.
Qed.

Lemma takeWhile_Forall {A : Type} (P : A -> Prop) (f : A -> bool)
    (l : list A) :
  Forall P l -> Forall P (ChunkBuilder.takeWhile f l).
Proof.
  induction 1 as [|x l Hx Hl IH]; simpl; [constructor|].
  destruct (f x); [constructor; assumption|constructor].
Qed.

Lemma dropWhile_Forall {A : Type} (P : A -> Prop) (f : A -> bool)
    (l : list A) :
  Forall P l -> Forall P (ChunkBuilder.dropWhile f l).
Proof.
  induction 1 as [|x l Hx Hl IH]; simpl; [constructor|].
  destruct (f x); [exact IH|constructor; assumption].
Qed.

Lemma updateA_invariant (chunks : list Chunk.t) (a b : Text.t)
    (cs : ChangeSet.t) (config : DiffConfig) :
  ChunkInvariant chunks ->
  ChunkInvariant (ChunkStore.updateA chunks a b cs config).
Proof.
  intros [Ho Hs]. unfold ChunkStore.updateA.
  destruct (ChunkStore.changedRange cs) as [[eFrom eTo]|] eqn:E.
  - assert (Hm : Forall ordered (List.map (ChunkStore.mapChunkA cs) chunks)).
    { apply Forall_map. eapply Forall_impl; [|exact Ho].
      intros c Hc. apply mapChunkA_ordered. exact Hc. }
    cbv zeta.
    destruct (Text.clip a _ _) as [fA eA].
    destruct (Text.clip b _ _) as [fB eB].
    apply mergeAdjacent_invariant.
    apply Forall_app. split; [apply takeWhile_Forall; exact Hm|].
    apply Forall_app. split.
    + apply Forall_map, Forall_map.
      eapply Forall_impl; [|apply diff_ordered].
      intros c Hc. apply lineChunk_ordered, offsetChange_ordered. exact Hc.
    + apply dropWhile_Forall, dropWhile_Forall. exact Hm.
  - rewrite (mapChunkA_unchanged cs chunks E). split; assumption.
Qed.

Lemma swapSides_ordered (c : Chunk.t) :
  ordered (ChunkStore.swapSides c) <-> ordered c.
Proof. unfold ordered, ChunkStore.swapSides. simpl. tauto. Qed.

Lemma swapSides_apart (c n : Chunk.t) :
  apart (ChunkStore.swapSides c) (ChunkStore.swapSides n) <-> apart c n.
Proof. unfold apart, ChunkStore.swapSides. simpl. tauto. Qed.

Lemma swapSides_invariant (l : list Chunk.t) :
  ChunkInvariant l -> ChunkInvariant (List.map ChunkStore.swapSides l).
Proof.
  intros [Ho Hs]. split.
  - apply Forall_map. eapply Forall_impl; [|exact Ho].
    intros c Hc. apply swapSides_ordered. exact Hc.
  - clear Ho. induction Hs as [|c l Hs IH Hc]; simpl; constructor.
    + exact IH.
    + apply Forall_map. eapply Forall_impl; [|exact Hc].
      intros n Hn. apply swapSides_apart. exact Hn.
Qed.

Lemma updateB_invariant (chunks : list Chunk.t) (a b : Text.t)
    (cs : ChangeSet.t) (config : DiffConfig) :
  ChunkInvariant chunks ->
  ChunkInvariant (ChunkStore.updateB chunks a b cs config).
Proof.
  intro H. unfold ChunkStore.updateB.
  apply swapSides_invariant, updateA_invariant, swapSides_invariant. exact H.
Qed.

Lemma computeChunks_invariant (config : DiffConfig) (chunks : list Chunk.t)
    (tr : Transaction) (chunks' : list Chunk.t) (calls : list ChunkCall) :
  ChunkInvariant chunks ->
  computeChunks ChunkStore.ops config chunks tr = Some (chunks', calls) ->
  ChunkInvariant chunks'.
Proof.
  intros Hinv H.
  unfold computeChunks, Chunk_updateA, Chunk_updateB, Chunk_build in H.
  cbn [Chunk.build Chunk.updateA Chunk.updateB ChunkStore.ops] in H.
  destruct (findUpdateDoc (effects tr)) as [[d cs]|];
    destruct (findAccept (effects tr)) as [v|];
    try destruct (ChangeSet.apply (AcceptChunk.changes v)
                    (originalDoc (startState tr)));
    destruct (findGenerate (effects tr));
    destruct (newOriginalDoc tr); destruct (newDoc tr);
    destruct (findReject (effects tr));
    cbn [lift bind ret raise orb app] in H; try discriminate;
    try (match type of H with
         | context [(?x && docChanged tr)%bool] =>
             destruct (x && docChanged tr)%bool
         end);
    cbn [lift bind ret raise app] in H; try discriminate;
    inversion H; subst; clear H;
    repeat first [ exact Hinv
                 | apply updateB_invariant
                 | apply updateA_invariant
                 | apply build_invariant ].
Qed.

Lemma update_startState (state : EditorState) (spec : TransactionSpec)
    (tr : Transaction) :
  update state spec = Some tr -> startState tr = state.
Proof.
  unfold update. intro H.
  destruct (resolveChanges state (spec_changes spec)); [|discriminate].
  destruct (match spec_selection spec with
            | Some s => Some s
            | None => mappedHead state t
            end); [|discriminate].
  inversion H. reflexivity.
Qed.

Lemma applyTransaction_invariant (config : DiffConfig) (tr : Transaction)
    (state' : EditorState) (calls : list ChunkCall) :
  ChunkInvariant (ChunkField (startState tr)) ->
  applyTransaction ChunkStore.ops config tr = Some (state', calls) ->
  ChunkInvariant (ChunkField state').
Proof.
  intros Hinv H. unfold applyTransaction in H.
  destruct (newDoc tr); [|discriminate].
  destruct (newOriginalDoc tr); [|discriminate].
  cbn [lift bind ret] in H.
  destruct (computeChunks ChunkStore.ops config (ChunkField (startState tr)) tr)
    as [[chunks' calls']|] eqn:E; [|discriminate].
  cbn [ret] in H. inversion H; subst; clear H. cbn [ChunkField].
  exact (computeChunks_invariant _ _ _ _ _ Hinv E).
Qed.

Lemma dispatch_invariant (config : DiffConfig) (state : EditorState)
    (spec : TransactionSpec) (state' : EditorState) (calls : list ChunkCall) :
  ChunkInvariant (ChunkField state) ->
  dispatch ChunkStore.ops config state spec = Some (state', calls) ->
  ChunkInvariant (ChunkField state').
Proof.
  intros Hinv H. unfold dispatch in H.
  destruct (update state spec) as [tr|] eqn:E; [|discriminate].
  cbn [lift bind ret] in H.
  destruct (applyTransaction ChunkStore.ops config tr) as [[st c]|] eqn:E';
    [|discriminate].
  inversion H; subst; clear H.
  apply (applyTransaction_invariant config tr state' calls); [|exact E'].
  rewrite (update_startState _ _ _ E). exact Hinv.
Qed.

(** The invariant read off pairwise: of two chunks of the list, the
    earlier one ends before the later one starts, on both sides. *)
Lemma ChunkInvariant_pairwise (l : list Chunk.t) (i j : nat) (c n : Chunk.t) :
  ChunkInvariant l -> (i < j)%nat ->
  nth_error l i = Some c -> nth_error l j = Some n ->
  Chunk.fromA c <= Chunk.toA c /\ Chunk.toA c < Chunk.fromA n
  /\ Chunk.fromB c <= Chunk.toB c /\ Chunk.toB c < Chunk.fromB n.
Proof.
  intros [Ho Hs]. revert i j.
  induction Hs as [|x l Hs IH Hx]; intros i j Hij Hi Hj.
  - destruct i; discriminate.
  - apply Forall_cons_iff in Ho. destruct Ho as [Hox Hol].
    destruct j as [|j]; [lia|]. simpl in Hj. destruct i as [|i].
    + simpl in Hi. inversion Hi; subst x.
      apply nth_error_In in Hj.
      pose proof (proj1 (Forall_forall _ _) Hx n Hj) as Hap.
      unfold ordered in Hox. unfold apart in Hap. lia.
    + simpl in Hi. apply (IH Hol i j); [lia|assumption|assumption].
Qed.

(** The position where a chunk ends, the start of the line after it, lies
    in no chunk of the list: the line that follows a chunk is unchanged. *)
Lemma ChunkInvariant_gap (l : list Chunk.t) (c x : Chunk.t) :
  ChunkInvariant l -> In c l -> In x l ->
  ~ (Chunk.fromA x <= Chunk.toA c < Chunk.toA x)
  /\ ~ (Chunk.fromB x <= Chunk.toB c < Chunk.toB x).
Proof.
  intros Hinv Hc Hx.
  pose proof (proj1 (Forall_forall _ _) (proj1 Hinv) c Hc) as Hoc.
  unfold ordered in Hoc.
  destruct (In_nth_error _ _ Hc) as [i Hi].
  destruct (In_nth_error _ _ Hx) as [k Hk].
  destruct (Nat.lt_trichotomy i k) as [Hlt|[Heq|Hgt]].
  - pose proof (ChunkInvariant_pairwise l i k c x Hinv Hlt Hi Hk). lia.
  - subst k. rewrite Hi in Hk. inversion Hk; subst x. lia.
  - pose proof (ChunkInvariant_pairwise l k i x c Hinv Hgt Hk Hi). lia.
Qed.

(** The coordinates of the chunk lists, with the chunk store of the
    specification: the list that
    [build] returns, the lists that [updateA] and [updateB] return on a
    list with the invariant, the list of the initial state, and the list
    after every transaction on a state whose list has the invariant (an
    accept and a reject among them) have the invariant: of any two chunks
    the earlier one ends before the later one starts, in A and in B, so the
    list is sorted and no two chunks overlap or touch.  (This is about
    coordinates; the text between the chunks is another matter.) *)
Lemma chunk_list_invariant (config : DiffConfig) :
  (forall l,
      ChunkInvariant l ->
      (forall i j c n,
          (i < j)%nat -> nth_error l i = Some c -> nth_error l j = Some n ->
          Chunk.fromA c <= Chunk.toA c /\ Chunk.toA c < Chunk.fromA n
          /\ Chunk.fromB c <= Chunk.toB c /\ Chunk.toB c < Chunk.fromB n)
      /\ (forall c x,
             In c l -> In x l ->
             ~ (Chunk.fromA x <= Chunk.toA c < Chunk.toA x)
             /\ ~ (Chunk.fromB x <= Chunk.toB c < Chunk.toB x)))
  /\ (forall a b, ChunkInvariant (ChunkStore.build a b config))
  /\ (forall chunks a b cs,
         ChunkInvariant chunks ->
         ChunkInvariant (ChunkStore.updateA chunks a b cs config))
  /\ (forall chunks a b cs,
         ChunkInvariant chunks ->
         ChunkInvariant (ChunkStore.updateB chunks a b cs config))
  /\ (forall orig b sel,
         ChunkInvariant
           (ChunkField (initialState ChunkStore.ops config orig b sel)))
  /\ (forall tr state' calls,
         ChunkInvariant (ChunkField (startState tr)) ->
         applyTransaction ChunkStore.ops config tr = Some (state', calls) ->
         ChunkInvariant (ChunkField state'))
  /\ (forall state pos r state' calls,
         ChunkInvariant (ChunkField state) ->
         acceptChunk ChunkStore.ops config state pos
         = Some ((r, state'), calls) ->
         ChunkInvariant (ChunkField state'))
  /\ (forall state pos r state' calls,
         ChunkInvariant (ChunkField state) ->
         rejectChunk ChunkStore.ops config state pos
         = Some ((r, state'), calls) ->
         ChunkInvariant (ChunkField state')).
Proof.
  split.
  { intros l Hinv. split.
    - intros i j c n. apply ChunkInvariant_pairwise. exact Hinv.
    - intros c x. apply ChunkInvariant_gap. exact Hinv. }
  split; [intros; apply build_invariant|].
  split; [intros; apply updateA_invariant; assumption|].
  split; [intros; apply updateB_invariant; assumption|].
  split; [intros; apply build_invariant|].
  split; [intros tr state' calls; apply applyTransaction_invariant|].
  split.
  - intros state pos r state' calls Hinv H. unfold acceptChunk in H.
    destruct (chunkAt state (posOrHead state pos)) as [chunk|].
    + destruct (acceptSpec state chunk) as [spec|]; [|discriminate].
      cbn [lift bind ret] in H.
      destruct (dispatch ChunkStore.ops config state spec) as [[st c]|] eqn:E;
        [|discriminate].
      cbn [ret] in H. inversion H; subst; clear H.
      exact (dispatch_invariant _ _ _ _ _ Hinv E).
    + inversion H; subst. exact Hinv.
  - intros state pos r state' calls Hinv H. unfold rejectChunk in H.
    destruct (chunkAt state (posOrHead state pos)) as [chunk|].
    + destruct (rejectSpec state chunk) as [spec|]; [|discriminate].
      cbn [lift bind ret] in H.
      destruct (dispatch ChunkStore.ops config state spec) as [[st c]|] eqn:E;
        [|discriminate].
      cbn [ret] in H. inversion H; subst; clear H.
      exact (dispatch_invariant _ _ _ _ _ Hinv E).
    + inversion H; subst. exact Hinv.
Qed.

Lemma chunk_list_invariant_example :
  ChunkInvariant (ChunkField Examples.accepted)
  /\ ChunkInvariant (ChunkField Examples.rejected).
Proof.
  pose proof (chunk_list_invariant defaultDiffConfig)
    as (_ & _ & _ & _ & Hinit & _ & Hacc & Hrej).
  split.
  - apply (Hacc Examples.readme (Some 4) true Examples.accepted
             [CallUpdateA (ChunkField Examples.readme)
                (originalDoc Examples.accepted) (doc Examples.readme)
                [ChangeSet.Keep 4;
                 ChangeSet.Replace 10
                   (Text.of_lines ["Two"%string; "Three"%string; ""%string]);
                 ChangeSet.Keep 9]]).
    + apply Hinit.
    + vm_compute. reflexivity.
  - apply (Hrej Examples.readme (Some 25) true Examples.rejected
             [CallUpdateB (ChunkField Examples.readme)
                (originalDoc Examples.readme) (doc Examples.rejected)
                [ChangeSet.Keep 19;
                 ChangeSet.Replace 8 (Text.of_lines ["five"%string])]]).
    + apply Hinit.
    + vm_compute. reflexivity.
Defined.


(** * What accept and reject copy *)

Lemma firstn_snoc_nth {A : Type} (l : list A) (n : nat) (x : A) :
  nth_error l n = Some x -> firstn (S n) l = firstn n l ++ [x].
Proof.
  revert l. induction n as [|n IH]; intros [|y l] H; try discriminate.
  - inversion H. reflexivity.
  - simpl in H. cbn [firstn app]. f_equal. exact (IH _ H).
Qed.

Lemma nth_error_skipn_add {A : Type} (l : list A) (k n : nat) :
  nth_error (skipn k l) n = nth_error l (k + n).
Proof.
  revert l. induction k as [|k IH]; intros [|y l]; try reflexivity.
  - destruct n; reflexivity.
  - apply IH.
Qed.

Lemma Text_sliceString_inside (d : Text.t) (f t : Z) :
  0 <= f <= t -> t <= Text.length d ->
  Text.sliceString d f t = firstn (Z.to_nat (t - f)) (skipn (Z.to_nat f) d).
Proof.
  intros Hf Ht. unfold Text.sliceString, Text.clip.
  replace (Z.max 0 (Z.min (Text.length d) f)) with f by lia.
  replace (Z.max f (Z.min (Text.length d) t)) with t by lia.
  reflexivity.
Qed.

Lemma Text_sliceString_empty (d : Text.t) (f : Z) : Text.sliceString d f f = [].
Proof.
  unfold Text.sliceString, Text.clip.
  replace (Z.max (Z.max 0 (Z.min (Text.length d) f)) (Z.min (Text.length d) f)
           - Z.max 0 (Z.min (Text.length d) f)) with 0 by lia.
  reflexivity.
Qed.

Lemma Text_sliceString_past (d : Text.t) (f t t' : Z) :
  Text.length d <= t -> Text.length d <= t' ->
  Text.sliceString d f t = Text.sliceString d f t'.
Proof.
  intros Ht Ht'. unfold Text.sliceString, Text.clip.
  replace (Z.min (Text.length d) t) with (Text.length d) by lia.
  replace (Z.min (Text.length d) t') with (Text.length d) by lia.
  reflexivity.
Qed.

Lemma Text_sliceString_snoc (d : Text.t) (f t : Z) (c : ascii) :
  0 <= f < t -> t <= Text.length d ->
  nth_error d (Z.to_nat (t - 1)) = Some c ->
  Text.sliceString d f t = Text.sliceString d f (t - 1) ++ [c].
Proof.
  intros Hf Ht Hc.
  rewrite !Text_sliceString_inside by lia.
  replace (Z.to_nat (t - f)) with (S (Z.to_nat (t - 1 - f))) by lia.
  apply firstn_snoc_nth. rewrite nth_error_skipn_add.
  replace (Z.to_nat f + Z.to_nat (t - 1 - f))%nat with (Z.to_nat (t - 1)) by lia.
  exact Hc.
Qed.

Lemma Text_split3 (d : Text.t) (f t : Z) :
  0 <= f <= t ->
  d = firstn (Z.to_nat f) d ++ Text.sliceString d f t ++ skipn (Z.to_nat t) d.
Proof.
  intros Hf. pose proof (Text_length_nonneg d) as Hd.
  destruct (Z_le_gt_dec t (Text.length d)) as [Ht|Ht].
  - rewrite Text_sliceString_inside by lia.
    replace (Z.to_nat t) with (Z.to_nat (t - f) + Z.to_nat f)%nat by lia.
    rewrite <- skipn_skipn, firstn_skipn, firstn_skipn. reflexivity.
  - rewrite (skipn_all2 (n := Z.to_nat t)) by (unfold Text.length in Ht; lia).
    rewrite (Text_sliceString_past d f t (Text.length d)) by lia.
    rewrite app_nil_r.
    destruct (Z_le_gt_dec f (Text.length d)) as [Hf'|Hf'].
    + rewrite Text_sliceString_inside by lia.
      rewrite (firstn_all2 (n := Z.to_nat (Text.length d - f)))
        by (rewrite length_skipn; unfold Text.length; lia).
      rewrite firstn_skipn. reflexivity.
    + unfold Text.sliceString, Text.clip.
      replace (Z.max (Z.max 0 (Z.min (Text.length d) f))
                 (Z.min (Text.length d) (Text.length d))
               - Z.max 0 (Z.min (Text.length d) f)) with 0 by lia.
      cbn [Z.to_nat firstn]. rewrite app_nil_r.
      rewrite firstn_all2 by (unfold Text.length in Hf'; lia). reflexivity.
Qed.

(** The text [acceptChunk] inserts is B's text of the chunk when the chunk
    is empty in B, or ends with a line break inside both documents, or
    reaches past the end of both. *)
Lemma acceptInsert_is_chunk_text (state : EditorState) (chunk : Chunk.t) :
  0 <= Chunk.fromB chunk <= Chunk.toB chunk ->
  (Chunk.fromB chunk = Chunk.toB chunk
   \/ (Chunk.toA chunk <= Text.length (originalDoc state)
       /\ Chunk.toB chunk <= Text.length (doc state)
       /\ nth_error (doc state) (Z.to_nat (Chunk.toB chunk - 1))
          = Some Text.nl)
   \/ (Text.length (originalDoc state) < Chunk.toA chunk
       /\ Text.length (doc state) < Chunk.toB chunk)) ->
  acceptInsert state chunk
  = Text.sliceString (doc state) (Chunk.fromB chunk) (Chunk.toB chunk).
Proof.
  intros Hb H. unfold acceptInsert, sliceDoc, lineBreak.
  destruct H as [E|[(Ha & Hb' & Hnl)|(Ha & Hb')]].
  - rewrite <- E, Z.eqb_refl. cbn [negb andb].
    replace (Z.max (Chunk.fromB chunk) (Chunk.fromB chunk - 1))
      with (Chunk.fromB chunk) by lia.
    reflexivity.
  - destruct (Z.eq_dec (Chunk.fromB chunk) (Chunk.toB chunk)) as [E|NE].
    + rewrite <- E, Z.eqb_refl. cbn [negb andb].
      replace (Z.max (Chunk.fromB chunk) (Chunk.fromB chunk - 1))
        with (Chunk.fromB chunk) by lia.
      reflexivity.
    + apply Z.eqb_neq in NE as NE'. rewrite NE'.
      apply Z.leb_le in Ha as Ha'. rewrite Ha'. cbn [negb andb].
      replace (Z.max (Chunk.fromB chunk) (Chunk.toB chunk - 1))
        with (Chunk.toB chunk - 1) by lia.
      symmetry. apply Text_sliceString_snoc; [lia|lia|exact Hnl].
  - replace (Chunk.toA chunk <=? Text.length (originalDoc state)) with false
      by (symmetry; apply Z.leb_gt; lia).
    rewrite andb_false_r.
    apply Text_sliceString_past; lia.
Qed.

Lemma rejectInsert_is_chunk_text (state : EditorState) (chunk : Chunk.t) :
  0 <= Chunk.fromA chunk <= Chunk.toA chunk ->
  (Chunk.fromA chunk = Chunk.toA chunk
   \/ (Chunk.toB chunk <= Text.length (doc state)
       /\ Chunk.toA chunk <= Text.length (originalDoc state)
       /\ nth_error (originalDoc state) (Z.to_nat (Chunk.toA chunk - 1))
          = Some Text.nl)
   \/ (Text.length (doc state) < Chunk.toB chunk
       /\ Text.length (originalDoc state) < Chunk.toA chunk)) ->
  rejectInsert state chunk
  = Text.sliceString (originalDoc state) (Chunk.fromA chunk)
      (Chunk.toA chunk).
Proof.
  intros Hb H. unfold rejectInsert, lineBreak.
  destruct H as [E|[(Ha & Hb' & Hnl)|(Ha & Hb')]].
  - rewrite <- E, Z.eqb_refl. cbn [negb andb].
    replace (Z.max (Chunk.fromA chunk) (Chunk.fromA chunk - 1))
      with (Chunk.fromA chunk) by lia.
    reflexivity.
  - destruct (Z.eq_dec (Chunk.fromA chunk) (Chunk.toA chunk)) as [E|NE].
    + rewrite <- E, Z.eqb_refl. cbn [negb andb].
      replace (Z.max (Chunk.fromA chunk) (Chunk.fromA chunk - 1))
        with (Chunk.fromA chunk) by lia.
      reflexivity.
    + apply Z.eqb_neq in NE as NE'. rewrite NE'.
      apply Z.leb_le in Ha as Ha'. rewrite Ha'. cbn [negb andb].
      replace (Z.max (Chunk.fromA chunk) (Chunk.toA chunk - 1))
        with (Chunk.toA chunk - 1) by lia.
      symmetry. apply Text_sliceString_snoc; [lia|lia|exact Hnl].
  - replace (Chunk.toB chunk <=? Text.length (doc state)) with false
      by (symmetry; apply Z.leb_gt; lia).
    rewrite andb_false_r.
    apply Text_sliceString_past; lia.
Qed.

Lemma skipn_min_length (d : Text.t) (t : Z) :
  skipn (Z.to_nat (Z.min (Text.length d) t)) d = skipn (Z.to_nat t) d.
Proof.
  destruct (Z_le_gt_dec t (Text.length d)) as [H|H].
  - replace (Z.min (Text.length d) t) with t by lia. reflexivity.
  - replace (Z.min (Text.length d) t) with (Text.length d) by lia.
    rewrite !skipn_all2; unfold Text.length in *; try lia. reflexivity.
Qed.

(** X1.  Accepting a chunk writes B's text of the chunk over A's range of
    the chunk, when the chunk is a range of whole lines on both sides: it
    is empty in B, or ends with a line break inside both documents, or
    reaches past the end of both.  The text is written as a string is
    inserted, a carriage return in it becoming a line break; when B's text
    of the chunk holds no carriage return it is copied as it is, and if the
    two documents agreed outside the chunk they are equal afterwards.
    Document B is not touched. *)
Theorem accept_copies_chunk_text (ops : Chunk.Ops) (diffConf : DiffConfig)
    (state : EditorState) (pos : option Z) (chunk : Chunk.t) :
  chunkAt state (posOrHead state pos) = Some chunk ->
  0 <= Chunk.fromA chunk <= Chunk.toA chunk ->
  Chunk.fromA chunk <= Text.length (originalDoc state) ->
  0 <= Chunk.fromB chunk <= Chunk.toB chunk ->
  (Chunk.fromB chunk = Chunk.toB chunk
   \/ (Chunk.toA chunk <= Text.length (originalDoc state)
       /\ Chunk.toB chunk <= Text.length (doc state)
       /\ nth_error (doc state) (Z.to_nat (Chunk.toB chunk - 1))
          = Some Text.nl)
   \/ (Text.length (originalDoc state) < Chunk.toA chunk
       /\ Text.length (doc state) < Chunk.toB chunk)) ->
  let copied :=
    Text.sliceString (doc state) (Chunk.fromB chunk) (Chunk.toB chunk) in
  exists st' calls,
    acceptChunk ops diffConf state pos = Some ((true, st'), calls)
    /\ doc st' = doc state
    /\ originalDoc st'
       = firstn (Z.to_nat (Chunk.fromA chunk)) (originalDoc state)
         ++ ChangeSet.insertText copied
         ++ skipn (Z.to_nat (Chunk.toA chunk)) (originalDoc state)
    /\ (~ In ChangeSet.CR copied ->
        originalDoc st'
        = firstn (Z.to_nat (Chunk.fromA chunk)) (originalDoc state)
          ++ copied
          ++ skipn (Z.to_nat (Chunk.toA chunk)) (originalDoc state)
        /\ (firstn (Z.to_nat (Chunk.fromA chunk)) (originalDoc state)
            = firstn (Z.to_nat (Chunk.fromB chunk)) (doc state) ->
            skipn (Z.to_nat (Chunk.toA chunk)) (originalDoc state)
            = skipn (Z.to_nat (Chunk.toB chunk)) (doc state) ->
            originalDoc st' = doc st')).
Proof.
  intros Hchunk Ha Hlen Hb Hends copied.
  destruct (ChangeSet_of_defined (Chunk.fromA chunk)
              (Z.min (Text.length (originalDoc state)) (Chunk.toA chunk))
              (ChangeSet.insertText (acceptInsert state chunk))
              (Text.length (originalDoc state)))
    as [cs Hcs]; try lia.
  pose proof (acceptChunk_found ops diffConf state pos chunk cs Hchunk Hcs)
    as Hacc.
  cbv zeta in Hacc. eexists. eexists. split; [exact Hacc|].
  cbn [doc originalDoc].
  rewrite (ChangeSet_of_applySections _ _ _ _ _ Hcs).
  rewrite (acceptInsert_is_chunk_text state chunk Hb Hends).
  rewrite skipn_min_length. fold copied.
  split; [reflexivity|]. split; [reflexivity|].
  intro Hcr. rewrite (insertText_no_CR _ Hcr).
  split; [reflexivity|].
  intros Hpre Hpost. rewrite Hpre, Hpost. symmetry.
  apply Text_split3. exact Hb.
Qed.

(** X2.  Rejecting a chunk writes A's text of the chunk over B's range of
    the chunk, under the mirrored condition, as a string is inserted: a
    carriage return in it becomes a line break.  When A's text of the chunk
    holds no carriage return it is copied as it is, and if the two
    documents agreed outside the chunk they are equal afterwards.  Document
    A is not touched. *)
Theorem reject_copies_chunk_text (ops : Chunk.Ops) (diffConf : DiffConfig)
    (state : EditorState) (pos : option Z) (chunk : Chunk.t) :
  chunkAt state (posOrHead state pos) = Some chunk ->
  0 <= Chunk.fromB chunk <= Chunk.toB chunk ->
  Chunk.fromB chunk <= Text.length (doc state) ->
  head state <= Text.length (doc state) ->
  0 <= Chunk.fromA chunk <= Chunk.toA chunk ->
  (Chunk.fromA chunk = Chunk.toA chunk
   \/ (Chunk.toB chunk <= Text.length (doc state)
       /\ Chunk.toA chunk <= Text.length (originalDoc state)
       /\ nth_error (originalDoc state) (Z.to_nat (Chunk.toA chunk - 1))
          = Some Text.nl)
   \/ (Text.length (doc state) < Chunk.toB chunk
       /\ Text.length (originalDoc state) < Chunk.toA chunk)) ->
  let copied :=
    Text.sliceString (originalDoc state) (Chunk.fromA chunk)
      (Chunk.toA chunk) in
  exists st' calls,
    rejectChunk ops diffConf state pos = Some ((true, st'), calls)
    /\ originalDoc st' = originalDoc state
    /\ doc st'
       = firstn (Z.to_nat (Chunk.fromB chunk)) (doc state)
         ++ ChangeSet.insertText copied
         ++ skipn (Z.to_nat (Chunk.toB chunk)) (doc state)
    /\ (~ In ChangeSet.CR copied ->
        doc st'
        = firstn (Z.to_nat (Chunk.fromB chunk)) (doc state)
          ++ copied
          ++ skipn (Z.to_nat (Chunk.toB chunk)) (doc state)
        /\ (firstn (Z.to_nat (Chunk.fromB chunk)) (doc state)
            = firstn (Z.to_nat (Chunk.fromA chunk)) (originalDoc state) ->
            skipn (Z.to_nat (Chunk.toB chunk)) (doc state)
            = skipn (Z.to_nat (Chunk.toA chunk)) (originalDoc state) ->
            doc st' = originalDoc st')).
Proof.
  intros Hchunk Hb Hlen Hhead Ha Hends copied.
  destruct (ChangeSet_of_defined (Chunk.fromB chunk)
              (Z.min (Text.length (doc state)) (Chunk.toB chunk))
              (ChangeSet.insertText (rejectInsert state chunk))
              (Text.length (doc state)))
    as [cs Hcs]; try lia.
  destruct (rejectChunk_found ops diffConf state pos chunk cs Hchunk Hcs Hhead)
    as [sel Hrej].
  eexists. eexists. split; [exact Hrej|].
  cbn [doc originalDoc].
  rewrite (ChangeSet_of_applySections _ _ _ _ _ Hcs).
  rewrite (rejectInsert_is_chunk_text state chunk Ha Hends).
  rewrite skipn_min_length. fold copied.
  split; [reflexivity|]. split; [reflexivity|].
  intro Hcr. rewrite (insertText_no_CR _ Hcr).
  split; [reflexivity|].
  intros Hpre Hpost. rewrite Hpre, Hpost. symmetry.
  apply Text_split3. exact Ha.
Qed.

Lemma accept_copies_chunk_text_witness :
  exists st' calls,
    acceptChunk ChunkStore.ops defaultDiffConfig Examples.readme (Some 4)
    = Some ((true, st'), calls)
    /\ originalDoc st'
       = Text.of_lines ["one"%string; "Two"%string; "Three"%string;
                        "four"%string; "five"%string].
Proof.
  destruct (accept_copies_chunk_text ChunkStore.ops defaultDiffConfig
              Examples.readme (Some 4) Examples.firstChunk)
    as (st' & calls & Hacc & _ & HA & _).
  - vm_compute. reflexivity.
  - cbn. lia.
  - vm_compute. intro H. discriminate H.
  - cbn. lia.
  - right. left. vm_compute.
    repeat split; try reflexivity; intro H; discriminate H.
  - exists st', calls. split; [exact Hacc|]. rewrite HA. vm_compute.
    reflexivity.
Defined.

Lemma reject_copies_chunk_text_witness :
  exists st' calls,
    rejectChunk ChunkStore.ops defaultDiffConfig Examples.readme (Some 25)
    = Some ((true, st'), calls)
    /\ doc st'
       = Text.of_lines ["one"%string; "Two"%string; "Three"%string;
                        "four"%string; "five"%string].
Proof.
  destruct (reject_copies_chunk_text ChunkStore.ops defaultDiffConfig
              Examples.readme (Some 25) Examples.lastChunk)
    as (st' & calls & Hrej & _ & HB & _).
  - vm_compute. reflexivity.
  - cbn. lia.
  - vm_compute. intro H. discriminate H.
  - vm_compute. intro H. discriminate H.
  - cbn. lia.
  - right. right. vm_compute. split; reflexivity.
  - exists st', calls. split; [exact Hrej|]. rewrite HB. vm_compute.
    reflexivity.
Defined.

(** * Undo and redo of accept and reject, in general *)

(** A transaction that carries an [updateOriginalDoc] effect alone and
    changes no text. *)
Lemma dispatch_updateOriginalDoc (ops : Chunk.Ops) (diffConf : DiffConfig)
    (st : EditorState) (d : Text.t) (cs : ChangeSet.t) (sel : option Z)
    (ue : string) (c : ChangeSpec) :
  c = NoChanges \/ c = OfSet (ChangeSet.keep (Text.length (doc st))) ->
  exists tr,
    update st {| spec_changes := c; spec_selection := sel;
                 spec_effects := [updateOriginalDoc d cs];
                 spec_userEvent := ue |} = Some tr
    /\ effects tr = [updateOriginalDoc d cs]
    /\ ChangeSet.empty (changes tr) = true
    /\ startState tr = st
    /\ applyTransaction ops diffConf tr
       = Some ({| doc := doc st;
                  head := match sel with Some s => s | None => head st end;
                  originalDoc := d;
                  ChunkField := Chunk.updateA ops (ChunkField st) d (doc st)
                                  cs diffConf |},
               [CallUpdateA (ChunkField st) d (doc st) cs]).
Proof.
  intros Hc.
  assert (Hres : resolveChanges st c
                 = Some (ChangeSet.keep (Text.length (doc st)))).
  { destruct Hc as [-> | ->]; unfold resolveChanges, ChangeSet.none.
    - reflexivity.
    - rewrite ChangeSet_length_keep by apply Text_length_nonneg.
      rewrite Z.eqb_refl. reflexivity. }
  exists {| startState := st;
            changes := ChangeSet.keep (Text.length (doc st));
            selection := match sel with Some s => s | None => head st end;
            effects := [updateOriginalDoc d cs]; userEvent := ue |}.
  split.
  - unfold update. cbn [spec_changes spec_selection spec_effects
                         spec_userEvent].
    rewrite Hres. unfold mappedHead. rewrite ChangeSet_empty_keep.
    destruct sel; reflexivity.
  - cbn [effects changes startState].
    split; [reflexivity|]. split; [apply ChangeSet_empty_keep|].
    split; [reflexivity|].
    unfold applyTransaction, newDoc, newOriginalDoc, computeChunks, docChanged.
    cbn [startState changes effects selection].
    fold (ChangeSet.none (Text.length (doc st))).
    rewrite ChangeSet_apply_none. unfold ChangeSet.none.
    rewrite ChangeSet_empty_keep.
    cbn [originalDoc_update findUpdateDoc findAccept findReject findGenerate
           lift bind ret Chunk_updateA app negb andb orb].
    rewrite andb_false_r. reflexivity.
Qed.

(** A transaction that carries a reject effect together with a change set
    made for the editor's document. *)
Lemma dispatch_rejectChunkEffect (ops : Chunk.Ops) (diffConf : DiffConfig)
    (st : EditorState) (cs : ChangeSet.t) (sel : Z) (v : RejectChunk.value)
    (ue : string) :
  ChangeSet.length cs = Text.length (doc st) ->
  let b' := ChangeSet.applySections cs (doc st) in
  let tr := {| startState := st; changes := cs; selection := sel;
               effects := [rejectChunkEffect v]; userEvent := ue |} in
  update st {| spec_changes := OfSet cs; spec_selection := Some sel;
               spec_effects := [rejectChunkEffect v];
               spec_userEvent := ue |} = Some tr
  /\ applyTransaction ops diffConf tr
     = Some ({| doc := b'; head := sel; originalDoc := originalDoc st;
                ChunkField := Chunk.updateB ops (ChunkField st)
                                (originalDoc st) b' cs diffConf |},
             [CallUpdateB (ChunkField st) (originalDoc st) b' cs]).
Proof.
  intros Hlen b' tr. subst tr. split.
  - unfold update, resolveChanges.
    cbn [spec_changes spec_selection spec_effects spec_userEvent].
    rewrite Hlen, Z.eqb_refl. reflexivity.
  - assert (Happly : ChangeSet.apply cs (doc st) = Some b').
    { unfold ChangeSet.apply. rewrite Hlen, Z.eqb_refl. reflexivity. }
    unfold applyTransaction, newDoc, newOriginalDoc, computeChunks.
    cbn [startState changes effects selection].
    rewrite Happly.
    cbn [originalDoc_update findUpdateDoc findAccept findReject findGenerate
           lift bind ret app orb].
    unfold newDoc, newOriginalDoc. cbn [startState changes effects].
    rewrite ?Happly.
    cbn [originalDoc_update lift bind ret Chunk_updateB app].
    reflexivity.
Qed.

(** What [acceptChunk] and [rejectChunk] dispatch when they return true. *)
Lemma acceptChunk_true_inv (ops : Chunk.Ops) (diffConf : DiffConfig)
    (state : EditorState) (pos : option Z) (st1 : EditorState)
    (calls : list ChunkCall) :
  acceptChunk ops diffConf state pos = Some ((true, st1), calls) ->
  exists chunk cs,
    chunkAt state (posOrHead state pos) = Some chunk
    /\ ChangeSet.ofString (Chunk.fromA chunk)
         (Z.min (Text.length (originalDoc state)) (Chunk.toA chunk))
         (acceptInsert state chunk) (Text.length (originalDoc state))
       = Some cs.
Proof.
  unfold acceptChunk, acceptSpec, acceptEffectFor.
  destruct (chunkAt state (posOrHead state pos)) as [chunk|] eqn:Hch;
    [|intro H; inversion H].
  destruct (ChangeSet.ofString (Chunk.fromA chunk)
              (Z.min (Text.length (originalDoc state)) (Chunk.toA chunk))
              (acceptInsert state chunk) (Text.length (originalDoc state)))
    as [cs|] eqn:Hof; [|discriminate].
  intros _. exists chunk, cs. split; [reflexivity|exact Hof].
Qed.

Lemma rejectChunk_true_inv (ops : Chunk.Ops) (diffConf : DiffConfig)
    (state : EditorState) (pos : option Z) (st1 : EditorState)
    (calls : list ChunkCall) :
  rejectChunk ops diffConf state pos = Some ((true, st1), calls) ->
  exists chunk cs,
    chunkAt state (posOrHead state pos) = Some chunk
    /\ ChangeSet.ofString (Chunk.fromB chunk)
         (Z.min (Text.length (doc state)) (Chunk.toB chunk))
         (rejectInsert state chunk) (Text.length (doc state))
       = Some cs.
Proof.
  unfold rejectChunk, rejectSpec, rejectEffectFor.
  destruct (chunkAt state (posOrHead state pos)) as [chunk|] eqn:Hch;
    [|intro H; inversion H].
  destruct (ChangeSet.ofString (Chunk.fromB chunk)
              (Z.min (Text.length (doc state)) (Chunk.toB chunk))
              (rejectInsert state chunk) (Text.length (doc state)))
    as [cs|] eqn:Hof; [|discriminate].
  intros _. exists chunk, cs. split; [reflexivity|exact Hof].
Qed.

Lemma ChangeDesc_mapPosFrom_defined (desc : ChangeDesc.t)
    (assoc posA posB pos : Z) :
  pos <= posA + ChangeDesc.length desc ->
  exists r, ChangeDesc.mapPosFrom desc assoc posA posB pos = Some r.
Proof.
  revert posA posB. induction desc as [|s desc IH]; intros posA posB H.
  - cbn. unfold ChangeDesc.length in H. cbn in H.
    replace (pos >? posA) with false by lia. eexists; reflexivity.
  - assert (Hlen : ChangeDesc.length (s :: desc)
                   = Z.of_nat (ChangeDesc.sectionLen s)
                     + ChangeDesc.length desc)
      by (unfold ChangeDesc.length; cbn [fold_right]; lia).
    rewrite Hlen in H. destruct s as [n|n ins]; cbn [ChangeDesc.mapPosFrom].
    + destruct (posA + Z.of_nat n >? pos); [eexists; reflexivity|].
      apply IH. cbn [ChangeDesc.sectionLen] in H. lia.
    + destruct ((posA + Z.of_nat n >? pos)
                || ((posA + Z.of_nat n =? pos) && (assoc <? 0)
                    && (Z.of_nat n =? 0)));
        [eexists; reflexivity|].
      apply IH. cbn [ChangeDesc.sectionLen] in H. lia.
Qed.

Lemma ChangeSet_desc_length (cs : ChangeSet.t) :
  ChangeDesc.length (ChangeSet.desc cs) = ChangeSet.length cs.
Proof.
  unfold ChangeDesc.length, ChangeSet.length. f_equal.
  induction cs as [|s cs IH]; [reflexivity|].
  destruct s; cbn [ChangeSet.desc List.map fold_right ChangeDesc.sectionLen
                     ChangeSet.sectionLen];
    fold (ChangeSet.desc cs); rewrite IH; reflexivity.
Qed.

(** The default association of [ChangeDesc.mapPos] is the mapping the
    selection of a transaction goes through. *)
Lemma ChangeDesc_mapPos_default (cs : ChangeSet.t) (pos : Z) :
  ChangeDesc.mapPos (ChangeSet.desc cs) pos (-1) = ChangeSet.mapPos cs pos.
Proof.
  unfold ChangeDesc.mapPos, ChangeSet.mapPos. generalize 0 at 1 3.
  generalize 0. revert pos.
  induction cs as [|s cs IH]; intros pos posB posA; [reflexivity|].
  destruct s as [n|n ins];
    cbn [ChangeSet.desc List.map ChangeDesc.mapPosFrom ChangeSet.mapPosFrom];
    fold (ChangeSet.desc cs).
  - destruct (posA + Z.of_nat n >? pos); [reflexivity|apply IH].
  - change (-1 <? 0) with true. rewrite andb_true_r, orb_true_r.
    destruct ((posA + Z.of_nat n >? pos)
              || ((posA + Z.of_nat n =? pos) && (Z.of_nat n =? 0)));
      [reflexivity|apply IH].
Qed.

(** The inverted description of an inverted change set is the description
    of the change set. *)
Lemma ChangeSet_invertedDesc_invert (cs : ChangeSet.t) (d : Text.t) :
  ChangeSet.length cs = Text.length d ->
  ChangeSet.invertedDesc (ChangeSet.invert cs d) = ChangeSet.desc cs.
Proof.
  revert d. induction cs as [|s cs IH]; intros d H; [reflexivity|].
  destruct (ChangeSet_tail_length _ _ _ H) as [Hn Hs].
  specialize (IH _ Hs).
  destruct s as [n|n ins];
    cbn [ChangeSet.invert ChangeSet.invertedDesc ChangeSet.desc List.map
           ChangeSet.sectionLen] in *;
    fold (ChangeSet.invertedDesc (ChangeSet.invert cs (skipn n d)));
    fold (ChangeSet.desc cs); rewrite IH; [reflexivity|].
  rewrite (firstn_exact_length n d Hn). reflexivity.
Qed.

Lemma ChangeSet_empty_invert (cs : ChangeSet.t) (d : Text.t) :
  ChangeSet.empty (ChangeSet.invert cs d) = ChangeSet.empty cs.
Proof.
  revert d. induction cs as [|s cs IH]; intro d; [reflexivity|].
  destruct s as [n|n ins]; cbn [ChangeSet.invert ChangeSet.empty forallb].
  - apply IH.
  - reflexivity.
Qed.

(** A change set that replaces nothing leaves every position of the
    document where it is. *)
Lemma ChangeDesc_mapPosFrom_empty (cs : ChangeSet.t) (assoc : Z) :
  ChangeSet.empty cs = true ->
  forall posA pos,
    posA <= pos <= posA + ChangeSet.length cs ->
    ChangeDesc.mapPosFrom (ChangeSet.desc cs) assoc posA posA pos = Some pos.
Proof.
  induction cs as [|s cs IH]; intros Hempty posA pos H.
  - unfold ChangeSet.length in H. cbn in H. cbn.
    replace (pos >? posA) with false by lia. f_equal. lia.
  - rewrite ChangeSet_length_cons in H.
    destruct s as [n|n ins]; [|discriminate Hempty].
    cbn [ChangeSet.desc List.map ChangeDesc.mapPosFrom
           ChangeSet.sectionLen] in *.
    fold (ChangeSet.desc cs).
    destruct (Z.gtb_spec (posA + Z.of_nat n) pos); [f_equal; lia|].
    apply IH; [exact Hempty|lia].
Qed.

(** X3.  Whenever [acceptChunk] returns true, it has dispatched the
    transaction of [acceptSpec] for the chunk at the position; the history
    record taken for that transaction, dispatched on the state the accept
    led to, gives back document A, leaves document B and the selection as
    they were, and hands the inverted edit to [Chunk.updateA]; the
    transaction that undoes the accept is itself not recorded, whatever
    selection the history gives to its record, so there is nothing to
    redo. *)
Theorem accept_undo_in_general (ops : Chunk.Ops) (diffConf : DiffConfig)
    (state : EditorState) (pos : option Z) (st1 : EditorState)
    (calls : list ChunkCall) :
  acceptChunk ops diffConf state pos = Some ((true, st1), calls) ->
  exists chunk spec tr ev undo st2 cs,
    chunkAt state (posOrHead state pos) = Some chunk
    /\ acceptSpec state chunk = Some spec
    /\ update state spec = Some tr
    /\ applyTransaction ops diffConf tr = Some (st1, calls)
    /\ HistEvent_fromTransaction tr = Some ev
    /\ historySelection ev = Some (head state)
    /\ update st1 (historySpec ev) = Some undo
    /\ applyTransaction ops diffConf undo
       = Some (st2, [CallUpdateA (ChunkField st1) (originalDoc state)
                       (doc state) cs])
    /\ ChangeSet.apply cs (originalDoc st1) = Some (originalDoc state)
    /\ originalDoc st2 = originalDoc state
    /\ doc st2 = doc state
    /\ head st2 = head state
    /\ forall selection, HistEvent_from undo selection = None.
Proof.
  intro Hacc.
  destruct (acceptChunk_true_inv _ _ _ _ _ _ Hacc) as (chunk & cs & Hch & Hof).
  pose proof (acceptChunk_found ops diffConf state pos chunk cs Hch Hof)
    as Hfound.
  cbv zeta in Hfound. rewrite Hfound in Hacc.
  inversion Hacc; subst st1 calls; clear Hacc.
  pose proof (ChangeSet_of_length _ _ _ _ _ Hof) as Hlen.
  set (eff := acceptChunkEffect
                (AcceptChunk.mk (Chunk.fromA chunk) (Chunk.toA chunk)
                   (Chunk.fromB chunk) (Chunk.toB chunk) (originalDoc state)
                   (acceptInsert state chunk) cs)).
  set (a' := ChangeSet.applySections cs (originalDoc state)).
  set (st1 := {| doc := doc state; head := head state; originalDoc := a';
                 ChunkField := Chunk.updateA ops (ChunkField state) a'
                                 (doc state) cs diffConf |}).
  set (spec := {| spec_changes := NoChanges; spec_selection := None;
                  spec_effects := [eff]; spec_userEvent := "accept" |}).
  set (tr := {| startState := state;
                changes := ChangeSet.keep (Text.length (doc state));
                selection := head state; effects := [eff];
                userEvent := "accept" |}).
  assert (Hspec : acceptSpec state chunk = Some spec).
  { unfold acceptSpec, acceptEffectFor. rewrite Hof. reflexivity. }
  assert (Hupd : update state spec = Some tr).
  { unfold update, resolveChanges, mappedHead, ChangeSet.none, spec.
    cbn [spec_changes spec_selection spec_effects spec_userEvent].
    rewrite ChangeSet_empty_keep. reflexivity. }
  assert (Happ : applyTransaction ops diffConf tr
                 = Some (st1, [CallUpdateA (ChunkField state) a' (doc state)
                                 cs])).
  { unfold applyTransaction, newDoc, newOriginalDoc, computeChunks, docChanged.
    unfold tr, eff, st1, a'.
    cbn [startState changes effects selection].
    fold (ChangeSet.none (Text.length (doc state))).
    rewrite ChangeSet_apply_none. unfold ChangeSet.none.
    rewrite ChangeSet_empty_keep.
    cbn [originalDoc_update findUpdateDoc findAccept findReject findGenerate
           AcceptChunk.changes].
    rewrite (ChangeSet_apply_of _ _ _ _ _ Hof).
    cbn [lift bind ret Chunk_updateA app negb andb orb].
    rewrite andb_false_r. reflexivity. }
  set (inv := ChangeSet.invert cs (originalDoc state)).
  set (ev := {| h_changes := ChangeSet.invert (changes tr) (doc state);
                h_effects := [updateOriginalDoc (originalDoc state) inv];
                h_selection := head state |}).
  assert (Hsel : historySelection ev = Some (head state)).
  { unfold historySelection, ev. cbn [h_changes h_selection tr changes].
    rewrite ChangeSet_invert_keep, ChangeSet_empty_keep. reflexivity. }
  destruct (dispatch_updateOriginalDoc ops diffConf st1 (originalDoc state)
              inv (Some (head state)) "undo"
              (OfSet (ChangeSet.keep (Text.length (doc st1)))))
    as (undo & Hundo & Heffs & Hempty & Hstart & Happ2); [right; reflexivity|].
  exists chunk, spec, tr, ev, undo. eexists. exists inv.
  split; [exact Hch|]. split; [exact Hspec|].
  split; [exact Hupd|]. split; [exact Happ|].
  split; [reflexivity|]. split; [exact Hsel|].
  split.
  { unfold historySpec, ev. cbn [h_changes h_effects h_selection tr changes].
    rewrite ChangeSet_invert_keep. exact Hundo. }
  split; [exact Happ2|].
  split.
  { cbn [st1 originalDoc]. unfold inv, a'.
    apply ChangeSet_apply_invert. exact Hlen. }
  split; [reflexivity|]. split; [reflexivity|]. split; [reflexivity|].
  intro selection. unfold HistEvent_from, undoableChunkOperations.
  rewrite Heffs, Hempty. reflexivity.
Qed.

(** X4.  Whenever [rejectChunk] returns true, it has dispatched the
    transaction of [rejectSpec] for the chunk at the position; the history
    record taken for that transaction, dispatched on the state the reject
    led to, gives back document B and the selection and leaves document A
    as it was.  The record taken for that undo holds the reject's own
    change set and effect, and dispatching it leads to the documents the
    reject had led to; the cursor is then where the cursor from before the
    reject goes when it is taken through the reject's change towards the
    end of what was inserted, which is not always where the reject itself
    had put it. *)
Theorem reject_undo_redo_in_general (ops : Chunk.Ops) (diffConf : DiffConfig)
    (state : EditorState) (pos : option Z) (st1 : EditorState)
    (calls : list ChunkCall) :
  0 <= head state <= Text.length (doc state) ->
  rejectChunk ops diffConf state pos = Some ((true, st1), calls) ->
  exists chunk spec tr ev undo st2 calls2 sel ev2 st3 calls3,
    chunkAt state (posOrHead state pos) = Some chunk
    /\ rejectSpec state chunk = Some spec
    /\ update state spec = Some tr
    /\ applyTransaction ops diffConf tr = Some (st1, calls)
    /\ HistEvent_fromTransaction tr = Some ev
    /\ update st1 (historySpec ev) = Some undo
    /\ applyTransaction ops diffConf undo = Some (st2, calls2)
    /\ doc st2 = doc state
    /\ originalDoc st2 = originalDoc state
    /\ head st2 = head state
    /\ historySelection ev = Some sel
    /\ ChangeDesc.mapPos (ChangeSet.desc (changes tr)) (head state) 1
       = Some sel
    /\ HistEvent_from undo (Some sel) = Some ev2
    /\ h_changes ev2 = changes tr
    /\ h_effects ev2 = effects tr
    /\ dispatch ops diffConf st2 (redoSpec ev2) = Some (st3, calls3)
    /\ doc st3 = doc st1
    /\ originalDoc st3 = originalDoc st1
    /\ head st3 = sel.
Proof.
  intros Hhead Hrej.
  destruct (rejectChunk_true_inv _ _ _ _ _ _ Hrej) as (chunk & cs & Hch & Hof).
  pose proof (rejectChunk_found_sel ops diffConf state pos chunk cs Hch Hof)
    as Hfound.
  cbv zeta in Hfound. rewrite Hfound in Hrej.
  destruct (mappedHead state cs) as [sel0|] eqn:Hsel0; [|discriminate].
  inversion Hrej; subst st1 calls; clear Hrej Hfound.
  pose proof (ChangeSet_of_length _ _ _ _ _ Hof) as Hlen.
  set (v := RejectChunk.mk (Chunk.fromA chunk) (Chunk.toA chunk)
              (Chunk.fromB chunk) (Chunk.toB chunk) (rejectInsert state chunk)
              (sliceDoc state (Chunk.fromB chunk)
                 (Z.max (Chunk.fromB chunk) (Chunk.toB chunk - 1))) cs).
  set (b' := ChangeSet.applySections cs (doc state)).
  set (st1 := {| doc := b'; head := sel0; originalDoc := originalDoc state;
                 ChunkField := Chunk.updateB ops (ChunkField state)
                                 (originalDoc state) b' cs diffConf |}).
  set (spec := {| spec_changes :=
                    Range (Chunk.fromB chunk)
                      (Z.min (Text.length (doc state)) (Chunk.toB chunk))
                      (rejectInsert state chunk);
                  spec_selection := None;
                  spec_effects := [rejectChunkEffect v];
                  spec_userEvent := "revert" |}).
  set (tr := {| startState := state; changes := cs; selection := sel0;
                effects := [rejectChunkEffect v]; userEvent := "revert" |}).
  assert (Hspec : rejectSpec state chunk = Some spec).
  { unfold rejectSpec, rejectEffectFor. rewrite Hof. reflexivity. }
  assert (Hupd : update state spec = Some tr).
  { unfold update, resolveChanges, spec.
    cbn [spec_changes spec_selection spec_effects spec_userEvent].
    rewrite Hof, Hsel0. reflexivity. }
  destruct (dispatch_rejectChunkEffect ops diffConf state cs sel0 v "revert"
              Hlen) as [_ Happ].
  fold b' tr st1 in Happ.
  set (inv := ChangeSet.invert cs (doc state)).
  set (v' := RejectChunk.mk (Chunk.fromA chunk) (Chunk.toA chunk)
               (Chunk.fromB chunk) (Chunk.toB chunk)
               (sliceDoc state (Chunk.fromB chunk)
                  (Z.max (Chunk.fromB chunk) (Chunk.toB chunk - 1)))
               (rejectInsert state chunk) inv).
  set (ev := {| h_changes := inv; h_effects := [rejectChunkEffect v'];
                h_selection := head state |}).
  assert (Hinvlen : ChangeSet.length inv = Text.length (doc st1)).
  { unfold inv. cbn [st1 doc]. unfold b'.
    rewrite ChangeSet_length_invert.
    symmetry. apply ChangeSet_applySections_length. exact Hlen. }
  destruct (dispatch_rejectChunkEffect ops diffConf st1 inv (head state) v'
              "undo" Hinvlen) as [Hupd2 Happ2].
  cbv zeta in Hupd2, Happ2.
  assert (Hback : ChangeSet.applySections inv (doc st1) = doc state).
  { unfold inv. cbn [st1 doc]. unfold b'.
    apply ChangeSet_applySections_invert. exact Hlen. }
  rewrite Hback in Happ2.
  set (st2 := {| doc := doc state; head := head state;
                 originalDoc := originalDoc st1;
                 ChunkField := Chunk.updateB ops (ChunkField st1)
                                 (originalDoc st1) (doc state) inv
                                 diffConf |}) in *.
  assert (Hsel : exists sel,
             ChangeDesc.mapPos (ChangeSet.desc cs) (head state) 1 = Some sel).
  { apply ChangeDesc_mapPosFrom_defined.
    rewrite ChangeSet_desc_length, Hlen. lia. }
  destruct Hsel as [sel Hsel].
  assert (Hhist : historySelection ev = Some sel).
  { unfold historySelection, ev. cbn [h_changes h_selection]. unfold inv.
    rewrite ChangeSet_empty_invert.
    destruct (ChangeSet.empty cs) eqn:Hempty.
    - rewrite <- Hsel. symmetry. unfold ChangeDesc.mapPos.
      apply ChangeDesc_mapPosFrom_empty; [exact Hempty|]. rewrite Hlen. lia.
    - rewrite (ChangeSet_invertedDesc_invert _ _ Hlen). exact Hsel. }
  assert (Hlen2 : ChangeSet.length cs = Text.length (doc st2)) by exact Hlen.
  destruct (dispatch_rejectChunkEffect ops diffConf st2 cs sel v "redo"
              Hlen2) as [Hupd3 Happ3].
  cbv zeta in Hupd3, Happ3.
  exists chunk, spec, tr, ev. eexists. exists st2. eexists. exists sel.
  exists {| h_changes := cs; h_effects := [rejectChunkEffect v];
            h_selection := sel |}.
  eexists. eexists.
  split; [exact Hch|]. split; [exact Hspec|].
  split; [exact Hupd|]. split; [exact Happ|].
  split; [reflexivity|].
  split; [exact Hupd2|]. split; [exact Happ2|].
  split; [reflexivity|]. split; [reflexivity|]. split; [reflexivity|].
  split; [exact Hhist|].
  split; [exact Hsel|].
  split.
  { unfold HistEvent_from, undoableChunkOperations.
    cbn [startState changes effects invertEffects andb v'
           RejectChunk.chunkFromA RejectChunk.chunkToA RejectChunk.chunkFromB
           RejectChunk.chunkToB RejectChunk.originalContent
           RejectChunk.currentContent RejectChunk.changes st1 doc head].
    unfold inv, b'. rewrite (ChangeSet_invert_invert _ _ Hlen).
    reflexivity. }
  split; [reflexivity|]. split; [reflexivity|].
  split.
  { unfold dispatch, redoSpec. cbn [h_changes h_effects h_selection].
    rewrite Hupd3. cbn [lift bind ret]. rewrite Happ3. reflexivity. }
  split; [reflexivity|]. split; reflexivity.
Qed.

Lemma accept_undo_in_general_witness :
  exists undo st2,
    originalDoc st2 = Examples.readmeA
    /\ doc st2 = Examples.readmeB
    /\ HistEvent_from undo (Some 0) = None.
Proof.
  destruct (accept_undo_in_general ChunkStore.ops defaultDiffConfig
              Examples.readme (Some 4) Examples.accepted
              [CallUpdateA (ChunkField Examples.readme)
                 (originalDoc Examples.accepted) (doc Examples.readme)
                 [ChangeSet.Keep 4;
                  ChangeSet.Replace 10
                    (Text.of_lines ["Two"%string; "Three"%string; ""%string]);
                  ChangeSet.Keep 9]])
    as (chunk & spec & tr & ev & undo & st2 & cs & _ & _ & _ & _ & _ & _
        & _ & _ & _ & HA & HB & _ & Hnone).
  - vm_compute. reflexivity.
  - exists undo, st2. split; [exact HA|]. split; [exact HB|apply Hnone].
Defined.

Lemma reject_undo_redo_in_general_witness :
  let state := initialState ChunkStore.ops defaultDiffConfig Examples.readmeA
                 Examples.readmeB 25 in
  exists st1 calls st2 st3,
    rejectChunk ChunkStore.ops defaultDiffConfig state None
    = Some ((true, st1), calls)
    /\ head st1 = 19
    /\ doc st2 = Examples.readmeB
    /\ originalDoc st2 = Examples.readmeA
    /\ head st2 = 25
    /\ doc st3 = doc st1
    /\ head st3 = 23.
Proof.
  intro state.
  destruct (rejectChunk ChunkStore.ops defaultDiffConfig state None)
    as [[[r st1] calls]|] eqn:E; [|vm_compute in E; discriminate E].
  assert (Hr : r = true).
  { vm_compute in E. injection E as E _ _. symmetry. exact E. }
  subst r.
  assert (H1 : head st1 = 19).
  { vm_compute in E. injection E as E _. rewrite <- E. reflexivity. }
  assert (Hd1 : doc st1 = Text.of_lines ["one"%string; "Two"%string;
                                        "Three"%string; "four"%string;
                                        "five"%string]).
  { vm_compute in E. injection E as E _. rewrite <- E. reflexivity. }
  destruct (reject_undo_redo_in_general ChunkStore.ops defaultDiffConfig
              state None st1 calls)
    as (chunk & spec & tr & ev & undo & st2 & calls2 & sel & ev2 & st3
        & calls3 & Hch & Hspec & Hupd & _ & _ & _ & _ & HB & HA & Hh2 & _
        & Hsel & _ & _ & _ & _ & HB3 & _ & Hh3).
  - vm_compute. split; intro H; discriminate H.
  - exact E.
  - exists st1, calls, st2, st3. split; [reflexivity|].
    split; [exact H1|]. split; [exact HB|]. split; [exact HA|].
    split; [exact Hh2|]. split; [exact HB3|].
    rewrite Hh3.
    assert (Hc : Some chunk = Some Examples.lastChunk)
      by (rewrite <- Hch; vm_compute; reflexivity).
    injection Hc as Hc. subst chunk.
    assert (Hs : Some spec = rejectSpec state Examples.lastChunk)
      by (symmetry; exact Hspec).
    vm_compute in Hs. injection Hs as Hs. subst spec.
    vm_compute in Hupd. injection Hupd as Hupd. subst tr.
    vm_compute in Hsel. injection Hsel as Hsel. symmetry. exact Hsel.
Defined.

(** * A new original document, and generated code *)

(** X5.  The effect [originalDocChangeEffect] makes for a change set of
    A's length carries A with the changes applied; dispatched alone it
    makes that text the new document A, leaves B and the selection alone
    and hands the change set to [Chunk.updateA]; the transaction leaves no
    history record, so it cannot be undone.  For a change set of another
    length the function raises. *)
Theorem originalDocChangeEffect_dispatch (ops : Chunk.Ops)
    (diffConf : DiffConfig) (state : EditorState) (changes : ChangeSet.t) :
  (ChangeSet.length changes = Text.length (originalDoc state) ->
   exists a' tr,
     a' = ChangeSet.applySections changes (originalDoc state)
     /\ originalDocChangeEffect state changes
        = Some (updateOriginalDoc a' changes)
     /\ update state (effectsSpec [updateOriginalDoc a' changes]) = Some tr
     /\ applyTransaction ops diffConf tr
        = Some ({| doc := doc state; head := head state; originalDoc := a';
                   ChunkField := Chunk.updateA ops (ChunkField state) a'
                                   (doc state) changes diffConf |},
                [CallUpdateA (ChunkField state) a' (doc state) changes])
     /\ HistEvent_fromTransaction tr = None)
  /\ (ChangeSet.length changes <> Text.length (originalDoc state) ->
      originalDocChangeEffect state changes = None).
Proof.
  split.
  - intro Hlen.
    set (a' := ChangeSet.applySections changes (originalDoc state)).
    destruct (dispatch_updateOriginalDoc ops diffConf state a' changes None
                "" NoChanges) as (tr & Hupd & Heffs & Hempty & _ & Happ);
      [left; reflexivity|].
    exists a', tr. split; [reflexivity|].
    split.
    { unfold originalDocChangeEffect, getOriginalDoc, ChangeSet.apply.
      rewrite Hlen, Z.eqb_refl. reflexivity. }
    split; [exact Hupd|]. split; [exact Happ|].
    unfold HistEvent_fromTransaction, HistEvent_from, undoableChunkOperations.
    rewrite Heffs, Hempty. reflexivity.
  - intro Hlen. unfold originalDocChangeEffect, getOriginalDoc, ChangeSet.apply.
    apply Z.eqb_neq in Hlen. rewrite Hlen. reflexivity.
Qed.

Lemma originalDocChangeEffect_dispatch_witness :
  originalDocChangeEffect Examples.readme
    [ChangeSet.Keep 19; ChangeSet.Replace 4 (Text.of_string "FIVE")]
  = Some (updateOriginalDoc
            (Text.of_lines ["one"%string; "two"%string; "three"%string;
                            "four"%string; "FIVE"%string])
            [ChangeSet.Keep 19; ChangeSet.Replace 4 (Text.of_string "FIVE")])
  /\ originalDocChangeEffect Examples.readme [ChangeSet.Keep 19] = None.
Proof.
  pose proof (originalDocChangeEffect_dispatch ChunkStore.ops
                defaultDiffConfig Examples.readme
                [ChangeSet.Keep 19;
                 ChangeSet.Replace 4 (Text.of_string "FIVE")]) as [H _].
  pose proof (originalDocChangeEffect_dispatch ChunkStore.ops
                defaultDiffConfig Examples.readme [ChangeSet.Keep 19])
    as [_ H'].
  split.
  - destruct H as (a' & tr & Ha & Heff & _); [vm_compute; reflexivity|].
    rewrite Heff, Ha. vm_compute. reflexivity.
  - apply H'. vm_compute. intro E. discriminate E.
Defined.

Lemma ChangeSet_of_empty (from to : Z) (ins : Text.t) (len : Z)
    (cs : ChangeSet.t) :
  ChangeSet.of_ from to ins len = Some cs ->
  ChangeSet.empty cs = (from =? to) && (Text.length ins =? 0).
Proof.
  unfold ChangeSet.of_.
  destruct ((from >? to) || (from <? 0) || (to >? len)); [discriminate|].
  destruct ((from =? to) && (Text.length ins =? 0)); intro H; inversion H.
  - apply ChangeSet_empty_keep.
  - unfold ChangeSet.empty. rewrite !forallb_app. cbn [forallb].
    rewrite andb_false_r. reflexivity.
Qed.

(** The transaction of [applyGeneratedCode] for an edit inside the
    document. *)
Lemma dispatch_generate (ops : Chunk.Ops) (diffConf : DiffConfig)
    (state : EditorState) (from to : Z) (code : Text.t) (r : option bool)
    (ins : option Z) (cs : ChangeSet.t) :
  ChangeSet.ofString from to code (Text.length (doc state)) = Some cs ->
  head state <= Text.length (doc state) ->
  let a := originalDoc state in
  let b' := ChangeSet.applySections cs (doc state) in
  let built := Chunk.build ops a b' diffConf in
  exists sel,
    dispatch ops diffConf state
      {| spec_changes := Range from to code; spec_selection := None;
         spec_effects := [generateCodeEffect code r ins];
         spec_userEvent := "generate.code" |}
    = if negb (Z.of_nat (List.length built) =? 0)
         && negb (ChangeSet.empty cs)
      then Some ({| doc := b'; head := sel; originalDoc := a;
                    ChunkField := Chunk.updateB ops built a b' cs diffConf |},
                 [CallBuild a b'; CallUpdateB built a b' cs])
      else Some ({| doc := b'; head := sel; originalDoc := a;
                    ChunkField := built |}, [CallBuild a b']).
Proof.
  intros Hof Hhead a b' built.
  pose proof (ChangeSet_of_length _ _ _ _ _ Hof) as Hlen.
  destruct (mappedHead_defined state cs Hlen Hhead) as [sel Hsel].
  exists sel. unfold dispatch, update, resolveChanges.
  cbn [spec_changes spec_selection spec_effects spec_userEvent].
  rewrite Hof, Hsel. cbn [lift bind ret].
  unfold applyTransaction, newDoc, newOriginalDoc, computeChunks, docChanged.
  cbn [startState changes effects selection].
  rewrite (ChangeSet_apply_of _ _ _ _ _ Hof).
  cbn [originalDoc_update findUpdateDoc findAccept findReject findGenerate
         lift bind ret app orb Chunk_build].
  unfold newDoc, newOriginalDoc. cbn [startState changes effects].
  rewrite ?(ChangeSet_apply_of _ _ _ _ _ Hof).
  cbn [originalDoc_update lift bind ret app].
  unfold Chunk_build. cbn [bind ret app]. fold a b' built.
  destruct (negb (Z.of_nat (List.length built) =? 0)
            && negb (ChangeSet.empty cs)); reflexivity.
Qed.

(** X6.  With [replaceAll] true or not given, [applyGeneratedCode] makes
    the text of the generated code the whole of document B, whatever B was
    and whatever [insertAt] says (the code is a string: a carriage return
    in it, alone or before a line feed, becomes a line break, and code
    without carriage returns is taken as it is); document A is kept, and
    the chunk list is built anew from A and that text.  When the list that
    was built is not empty and the transaction changed the document (B or
    the text is not empty), the list is passed through [Chunk.updateB]
    with the same change, and the result of that is the new chunk list;
    otherwise the list that was built is the new chunk list and the chunk
    store is not called again. *)
Theorem applyGeneratedCode_replaces_document (ops : Chunk.Ops)
    (diffConf : DiffConfig) (state : EditorState) (code : Text.t)
    (replaceAll : option bool) (insertAt : option Z) :
  replaceAll <> Some false ->
  head state <= Text.length (doc state) ->
  let a := originalDoc state in
  let text := ChangeSet.insertText code in
  let built := Chunk.build ops a text diffConf in
  exists st' calls cs,
    applyGeneratedCode ops diffConf state code replaceAll insertAt
    = Some (st', calls)
    /\ ChangeSet.ofString 0 (Text.length (doc state)) code
         (Text.length (doc state)) = Some cs
    /\ ChangeSet.apply cs (doc state) = Some text
    /\ doc st' = text
    /\ originalDoc st' = a
    /\ (~ In ChangeSet.CR code -> text = code)
    /\ (built <> [] -> doc state <> [] \/ text <> [] ->
        calls = [CallBuild a text; CallUpdateB built a text cs]
        /\ ChunkField st' = Chunk.updateB ops built a text cs diffConf)
    /\ (built = [] \/ (doc state = [] /\ text = []) ->
        calls = [CallBuild a text] /\ ChunkField st' = built).
Proof.
  intros Hr Hhead a text built.
  pose proof (Text_length_nonneg (doc state)) as Hnn.
  destruct (ChangeSet_of_defined 0 (Text.length (doc state)) text
              (Text.length (doc state))) as [cs Hof]; try lia.
  destruct (dispatch_generate ops diffConf state 0 (Text.length (doc state))
              code (Some true) insertAt cs Hof Hhead) as [sel Hd].
  cbv zeta in Hd.
  assert (Hb : ChangeSet.applySections cs (doc state) = text).
  { rewrite (ChangeSet_of_applySections _ _ _ _ _ Hof).
    cbn [Z.to_nat firstn app]. rewrite skipn_all2.
    - apply app_nil_r.
    - unfold Text.length. lia. }
  rewrite Hb in Hd. fold a built in Hd.
  assert (Hspec : generateSpec state code replaceAll insertAt
                  = {| spec_changes := Range 0 (Text.length (doc state)) code;
                       spec_selection := None;
                       spec_effects := [generateCodeEffect code (Some true)
                                          insertAt];
                       spec_userEvent := "generate.code" |}).
  { unfold generateSpec. destruct replaceAll as [[|]|]; try reflexivity.
    contradiction Hr. reflexivity. }
  assert (Hempty : ChangeSet.empty cs = true <-> doc state = [] /\ text = []).
  { rewrite (ChangeSet_of_empty _ _ _ _ _ Hof), andb_true_iff, !Z.eqb_eq.
    unfold Text.length. split.
    - intros [H1 H2]. split.
      + destruct (doc state); [reflexivity|cbn [List.length] in H1; lia].
      + destruct text; [reflexivity|cbn [List.length] in H2; lia].
    - intros [-> ->]. split; reflexivity. }
  assert (Hbuilt : (Z.of_nat (List.length built) =? 0) = true <-> built = []).
  { rewrite Z.eqb_eq. split.
    - destruct built; [reflexivity|cbn [List.length]; lia].
    - intros ->. reflexivity. }
  unfold applyGeneratedCode. rewrite Hspec, Hd.
  destruct (Z.of_nat (List.length built) =? 0) eqn:Eb;
    destruct (ChangeSet.empty cs) eqn:Ee; cbn [negb andb];
    (eexists; eexists; exists cs; split; [reflexivity|];
     split; [exact Hof|];
     split; [rewrite (ChangeSet_apply_of _ _ _ _ _ Hof), Hb; reflexivity|];
     cbn [doc originalDoc ChunkField];
     split; [reflexivity|]; split; [reflexivity|];
     split; [apply insertText_no_CR|]; split).
  - intros Hne _. exfalso. apply Hne. apply Hbuilt. reflexivity.
  - intros _. split; reflexivity.
  - intros Hne _. exfalso. apply Hne. apply Hbuilt. reflexivity.
  - intros _. split; reflexivity.
  - intros _ [Hd'|Ht]; exfalso;
      destruct (proj1 Hempty eq_refl) as [H1 H2]; congruence.
  - intros _. split; reflexivity.
  - intros _ _. split; reflexivity.
  - intros [Hnil|Hnone]; exfalso.
    + apply Hbuilt in Hnil. congruence.
    + apply Hempty in Hnone. congruence.
Qed.

Lemma applyGeneratedCode_replaces_document_witness :
  exists st',
    applyGeneratedCode ChunkStore.ops defaultDiffConfig Examples.readme
      Examples.readmeA None (Some 3)
    = Some (st', [CallBuild Examples.readmeA Examples.readmeA])
    /\ doc st' = Examples.readmeA
    /\ ChunkField st' = [].
Proof.
  destruct (applyGeneratedCode_replaces_document ChunkStore.ops
              defaultDiffConfig Examples.readme Examples.readmeA None
              (Some 3))
    as (st' & calls & cs & Happ & _ & _ & HB & _ & _ & _ & Hnil).
  - discriminate.
  - vm_compute. intro E. discriminate E.
  - destruct Hnil as [Hcalls Hchunks]; [left; vm_compute; reflexivity|].
    exists st'. rewrite Happ, HB, Hcalls, Hchunks.
    repeat split; vm_compute; reflexivity.
Defined.

(** X7.  With [replaceAll] false, [applyGeneratedCode] inserts the text of
    the generated code at [insertAt], or at the cursor when no position is
    given, and keeps the rest of document B and all of document A; the code
    is a string, so a carriage return in it, alone or before a line feed,
    becomes a line break, and code without carriage returns is inserted as
    it is.  A position outside the document raises. *)
Theorem applyGeneratedCode_inserts (ops : Chunk.Ops) (diffConf : DiffConfig)
    (state : EditorState) (code : Text.t) (insertAt : option Z) :
  head state <= Text.length (doc state) ->
  let at_ := match insertAt with Some p => p | None => head state end in
  let text := ChangeSet.insertText code in
  (0 <= at_ <= Text.length (doc state) ->
   exists st' rest,
     applyGeneratedCode ops diffConf state code (Some false) insertAt
     = Some (st', CallBuild (originalDoc state) (doc st') :: rest)
     /\ doc st'
        = firstn (Z.to_nat at_) (doc state) ++ text
          ++ skipn (Z.to_nat at_) (doc state)
     /\ originalDoc st' = originalDoc state
     /\ (~ In ChangeSet.CR code -> text = code))
  /\ (~ 0 <= at_ <= Text.length (doc state) ->
      applyGeneratedCode ops diffConf state code (Some false) insertAt
      = None).
Proof.
  intros Hhead at_ text.
  assert (Hspec : generateSpec state code (Some false) insertAt
                  = {| spec_changes := Range at_ at_ code;
                       spec_selection := None;
                       spec_effects := [generateCodeEffect code (Some false)
                                          insertAt];
                       spec_userEvent := "generate.code" |}).
  { unfold generateSpec, at_. destruct insertAt; reflexivity. }
  split.
  - intro Hat.
    destruct (ChangeSet_of_defined at_ at_ text (Text.length (doc state)))
      as [cs Hof]; try lia.
    destruct (dispatch_generate ops diffConf state at_ at_ code (Some false)
                insertAt cs Hof Hhead) as [sel Hd].
    cbv zeta in Hd.
    rewrite (ChangeSet_of_applySections _ _ _ _ _ Hof) in Hd.
    unfold applyGeneratedCode. rewrite Hspec, Hd.
    destruct (negb _ && negb _);
      match goal with
      | |- exists st' rest, Some (?s, _ :: ?r) = _ /\ _ => exists s, r
      end;
      (split; [reflexivity|];
       split; [reflexivity|];
       split; [reflexivity|apply insertText_no_CR]).
  - intro Hat. unfold applyGeneratedCode, dispatch, update, resolveChanges.
    rewrite Hspec.
    cbn [spec_changes spec_selection spec_effects spec_userEvent].
    unfold ChangeSet.ofString, ChangeSet.of_.
    replace ((at_ >? at_) || (at_ <? 0) || (at_ >? Text.length (doc state)))
      with true; [reflexivity|].
    symmetry. apply orb_true_iff.
    destruct (Z_lt_ge_dec at_ 0) as [H|H].
    + left. apply orb_true_iff. right. apply Z.ltb_lt. exact H.
    + right. apply Z.gtb_lt. lia.
Qed.

Lemma applyGeneratedCode_inserts_witness :
  (exists st' rest,
      applyGeneratedCode ChunkStore.ops defaultDiffConfig Examples.readme
        Examples.generatedLine (Some false) (Some 0)
      = Some (st', CallBuild Examples.readmeA (doc st') :: rest)
      /\ doc st' = Examples.generatedLine ++ Examples.readmeB)
  /\ applyGeneratedCode ChunkStore.ops defaultDiffConfig Examples.readme
       Examples.generatedLine (Some false) (Some 28) = None.
Proof.
  split.
  - destruct (applyGeneratedCode_inserts ChunkStore.ops defaultDiffConfig
                Examples.readme Examples.generatedLine (Some 0)) as [H _].
    + vm_compute. intro E. discriminate E.
    + destruct H as (st' & rest & Happ & HB & _).
      * vm_compute. split; intro E; discriminate E.
      * exists st', rest. split; [exact Happ|exact HB].
  - destruct (applyGeneratedCode_inserts ChunkStore.ops defaultDiffConfig
                Examples.readme Examples.generatedLine (Some 28)) as [_ H].
    + vm_compute. intro E. discriminate E.
    + apply H. vm_compute. intros [_ E]. apply E. reflexivity.
Defined.

(** X8.  Once the chunk list is empty, a transaction without effects
    keeps it empty and makes no call to the chunk store, whatever it does
    to the editor's document. *)
Theorem empty_chunk_list_is_kept (ops : Chunk.Ops) (diffConf : DiffConfig)
    (state : EditorState) (spec : TransactionSpec) (st' : EditorState)
    (calls : list ChunkCall) :
  ChunkField state = [] ->
  spec_effects spec = [] ->
  dispatch ops diffConf state spec = Some (st', calls) ->
  ChunkField st' = [] /\ calls = []
  /\ originalDoc st' = originalDoc state
  /\ exists cs,
       resolveChanges state (spec_changes spec) = Some cs
       /\ ChangeSet.apply cs (doc state) = Some (doc st').
Proof.
  intros Hnil Heffs. unfold dispatch, update.
  destruct (resolveChanges state (spec_changes spec)) as [cs|] eqn:Hres;
    [|discriminate].
  destruct (match spec_selection spec with
            | Some s => Some s
            | None => mappedHead state cs
            end) as [sel|]; [|discriminate].
  cbn [lift bind ret].
  unfold applyTransaction, newDoc, newOriginalDoc, computeChunks.
  cbn [startState changes effects selection]. rewrite Heffs, Hnil.
  destruct (ChangeSet.apply cs (doc state)) as [b'|] eqn:Hb; [|discriminate].
  cbn [originalDoc_update findUpdateDoc findAccept findReject findGenerate
         lift bind ret app orb List.length Z.of_nat Z.eqb negb andb].
  intro H. inversion H; subst st' calls. cbn [ChunkField originalDoc doc].
  split; [reflexivity|]. split; [reflexivity|]. split; [reflexivity|].
  exists cs. split; [reflexivity|exact Hb].
Qed.

Lemma empty_chunk_list_is_kept_witness :
  exists st',
    dispatch ChunkStore.ops defaultDiffConfig Examples.agreeing
      {| spec_changes := Range 0 0 (Text.of_string "x");
         spec_selection := None; spec_effects := [];
         spec_userEvent := "input.type" |} = Some (st', [])
    /\ ChunkField st' = []
    /\ doc st' <> originalDoc st'.
Proof.
  destruct (dispatch ChunkStore.ops defaultDiffConfig Examples.agreeing
              {| spec_changes := Range 0 0 (Text.of_string "x");
                 spec_selection := None; spec_effects := [];
                 spec_userEvent := "input.type" |})
    as [[st' calls]|] eqn:E.
  - pose proof (empty_chunk_list_is_kept ChunkStore.ops defaultDiffConfig
                  Examples.agreeing
                  {| spec_changes := Range 0 0 (Text.of_string "x");
                     spec_selection := None; spec_effects := [];
                     spec_userEvent := "input.type" |}
                  st' calls eq_refl eq_refl E)
      as (Hnil & Hcalls & HA & cs & Hres & HB).
    exists st'. rewrite Hcalls. split; [reflexivity|]. split; [exact Hnil|].
    rewrite HA. vm_compute in Hres. injection Hres as Hres. subst cs.
    match type of HB with
    | ?l = _ =>
        assert (Hl : l = Some (Text.of_lines ["xa"%string; "b"%string]))
          by (vm_compute; reflexivity)
    end.
    rewrite Hl in HB. injection HB as HB. rewrite <- HB.
    vm_compute. intro H. discriminate H.
  - vm_compute in E. discriminate E.
Defined.

(** * What the chunk store is told about document A *)

Lemma no_original_change (effs : list StateEffect) :
  filter changesOriginal effs = [] ->
  findUpdateDoc effs = None /\ findAccept effs = None
  /\ forall d, originalDoc_update d effs = Some d.
Proof.
  induction effs as [|e rest IH]; intro H.
  - repeat split; reflexivity.
  - destruct e; cbn [filter changesOriginal] in H; try discriminate H;
      destruct (IH H) as (H1 & H2 & H3); repeat split; assumption.
Qed.

Lemma one_original_change (effs : list StateEffect) (e : StateEffect) :
  filter changesOriginal effs = [e] ->
  match e with
  | updateOriginalDoc d' cs =>
      findUpdateDoc effs = Some (d', cs) /\ findAccept effs = None
      /\ forall d, originalDoc_update d effs = Some d'
  | acceptChunkEffect v =>
      findUpdateDoc effs = None /\ findAccept effs = Some v
      /\ forall d, originalDoc_update d effs
                   = ChangeSet.apply (AcceptChunk.changes v) d
  | _ => False
  end.
Proof.
  induction effs as [|x rest IH]; intro H; [discriminate H|].
  destruct x; cbn [filter changesOriginal] in H.
  - inversion H as [[He Hrest]].
    destruct (no_original_change rest Hrest) as (H1 & H2 & H3).
    cbn [findUpdateDoc findAccept originalDoc_update].
    repeat split; try assumption. intro d. apply H3.
  - inversion H as [[He Hrest]].
    destruct (no_original_change rest Hrest) as (H1 & H2 & H3).
    cbn [findUpdateDoc findAccept originalDoc_update].
    repeat split; try assumption. intro d.
    destruct (ChangeSet.apply (AcceptChunk.changes v) d); [apply H3|].
    reflexivity.
  - specialize (IH H). destruct e; try contradiction; exact IH.
  - specialize (IH H). destruct e; try contradiction; exact IH.
Qed.

Lemma bind_Some_inv {A B : Type} (m : M A) (k : A -> M B) (b : B)
    (l : list ChunkCall) :
  bind m k = Some (b, l) ->
  exists a l1 l2, m = Some (a, l1) /\ k a = Some (b, l2) /\ l = l1 ++ l2.
Proof.
  unfold bind. destruct m as [[a l1]|]; [|discriminate].
  destruct (k a) as [[b' l2]|] eqn:E; [|discriminate].
  intro H. inversion H; subst. exists a, l1, l2.
  split; [reflexivity|]. split; [exact E|reflexivity].
Qed.

(** The calls of the second half of [computeChunks] (lines 128-142). *)
Lemma computeChunks_tail_calls (ops : Chunk.Ops) (diffConf : DiffConfig)
    (tr : Transaction) (a' : Text.t) (chunks1 chunks' : list Chunk.t)
    (calls : list ChunkCall) :
  newOriginalDoc tr = Some a' ->
  (chunks <- (if findGenerate (effects tr)
              then a <- lift (newOriginalDoc tr) ;;
                   b <- lift (newDoc tr) ;;
                   Chunk_build ops diffConf a b
              else ret chunks1) ;;
   if (match findReject (effects tr) with Some _ => true | None => false end)
      || (negb (Z.of_nat (List.length chunks) =? 0) && docChanged tr)
   then a <- lift (newOriginalDoc tr) ;;
        b <- lift (newDoc tr) ;;
        Chunk_updateB ops diffConf chunks a b (changes tr)
   else ret chunks) = Some (chunks', calls) ->
  Forall (fun c => callA c = a') calls.
Proof.
  intros Hnew H. rewrite Hnew in H.
  apply bind_Some_inv in H as (c & l1 & l2 & H1 & H2 & ->).
  apply Forall_app. split.
  - destruct (findGenerate (effects tr)).
    + destruct (newDoc tr) as [b|]; [|discriminate H1].
      inversion H1; subst. constructor; [reflexivity|constructor].
    + inversion H1; subst. constructor.
  - destruct (_ || _).
    + destruct (newDoc tr) as [b|]; [|discriminate H2].
      inversion H2; subst. constructor; [reflexivity|constructor].
    + inversion H2; subst. constructor.
Qed.

(** X9.  When at most one effect of a transaction changes document A (one
    [updateOriginalDoc] or one accept effect, among any number of reject
    and generate effects), every call [computeChunks] makes to the chunk
    store is handed the document A the transaction leads to. *)
Theorem store_is_told_new_original (ops : Chunk.Ops) (diffConf : DiffConfig)
    (chunks : list Chunk.t) (tr : Transaction) (chunks' : list Chunk.t)
    (calls : list ChunkCall) (a' : Text.t) :
  (List.length (filter changesOriginal (effects tr)) <= 1)%nat ->
  newOriginalDoc tr = Some a' ->
  computeChunks ops diffConf chunks tr = Some (chunks', calls) ->
  Forall (fun c => callA c = a') calls.
Proof.
  intros Hone Hnew H. unfold computeChunks in H.
  apply bind_Some_inv in H as (c1 & l1 & l23 & H1 & H & ->).
  apply bind_Some_inv in H as (c2 & l2 & l3 & H2 & H3 & ->).
  apply (computeChunks_tail_calls ops diffConf tr a' c2 chunks' l3 Hnew)
    in H3.
  unfold newOriginalDoc in Hnew.
  apply Forall_app. split; [|apply Forall_app; split; [|exact H3]].
  - destruct (filter changesOriginal (effects tr)) as [|e [|e' l]] eqn:Hf.
    + destruct (no_original_change _ Hf) as (E1 & _ & _).
      rewrite E1 in H1. inversion H1; subst. constructor.
    + pose proof (one_original_change _ _ Hf) as E.
      destruct e as [d' cs|v| |]; try contradiction;
        destruct E as (E1 & E2 & E3); rewrite E1 in H1.
      * rewrite E3 in Hnew. inversion Hnew; subst d'.
        inversion H1; subst. constructor; [reflexivity|constructor].
      * inversion H1; subst. constructor.
    + cbn [List.length] in Hone. lia.
  - destruct (filter changesOriginal (effects tr)) as [|e [|e' l]] eqn:Hf.
    + destruct (no_original_change _ Hf) as (_ & E2 & _).
      rewrite E2 in H2. inversion H2; subst. constructor.
    + pose proof (one_original_change _ _ Hf) as E.
      destruct e as [d' cs|v| |]; try contradiction;
        destruct E as (E1 & E2 & E3); rewrite E2 in H2.
      * inversion H2; subst. constructor.
      * rewrite E3 in Hnew. rewrite Hnew in H2.
        inversion H2; subst. constructor; [reflexivity|constructor].
    + cbn [List.length] in Hone. lia.
Qed.

Lemma store_is_told_new_original_witness :
  Forall (fun c => callA c = Examples.generatedLine ++ Examples.readmeA)
    [CallUpdateA (ChunkField Examples.readme)
       (Examples.generatedLine ++ Examples.readmeA) Examples.readmeB
       [ChangeSet.Replace 0 Examples.generatedLine; ChangeSet.Keep 23];
     CallBuild (Examples.generatedLine ++ Examples.readmeA)
       (Examples.generatedLine ++ Examples.readmeB);
     CallUpdateB
       (ChunkStore.build (Examples.generatedLine ++ Examples.readmeA)
          (Examples.generatedLine ++ Examples.readmeB) defaultDiffConfig)
       (Examples.generatedLine ++ Examples.readmeA)
       (Examples.generatedLine ++ Examples.readmeB)
       [ChangeSet.Replace 0 Examples.generatedLine; ChangeSet.Keep 27]].
Proof.
  apply (store_is_told_new_original ChunkStore.ops defaultDiffConfig
           (ChunkField Examples.readme)
           {| startState := Examples.readme;
              changes := [ChangeSet.Replace 0 Examples.generatedLine;
                          ChangeSet.Keep 27];
              selection := 0;
              effects :=
                [generateCodeEffect Examples.generatedLine (Some false)
                   (Some 0);
                 updateOriginalDoc
                   (Examples.generatedLine ++ Examples.readmeA)
                   [ChangeSet.Replace 0 Examples.generatedLine;
                    ChangeSet.Keep 23]];
              userEvent := "generate.code" |}
           (ChunkStore.updateB
              (ChunkStore.build (Examples.generatedLine ++ Examples.readmeA)
                 (Examples.generatedLine ++ Examples.readmeB)
                 defaultDiffConfig)
              (Examples.generatedLine ++ Examples.readmeA)
              (Examples.generatedLine ++ Examples.readmeB)
              [ChangeSet.Replace 0 Examples.generatedLine; ChangeSet.Keep 27]
              defaultDiffConfig)).
  - cbn. lia.
  - reflexivity.
  - vm_compute. reflexivity.
Defined.

(** X10.  Of two accept effects in one transaction, both edit document A
    (the second on the result of the first), but only the first reaches the
    chunk store: [Chunk.updateA] is called once, with the first effect's
    change set and the document A in between, which is not the document A
    the transaction leads to unless the second effect changes nothing. *)
Theorem only_first_accept_reaches_store (ops : Chunk.Ops)
    (diffConf : DiffConfig) (state : EditorState)
    (v1 v2 : AcceptChunk.value) (a1 a2 : Text.t) :
  ChangeSet.apply (AcceptChunk.changes v1) (originalDoc state) = Some a1 ->
  ChangeSet.apply (AcceptChunk.changes v2) a1 = Some a2 ->
  dispatch ops diffConf state
    (effectsSpec [acceptChunkEffect v1; acceptChunkEffect v2])
  = Some ({| doc := doc state; head := head state; originalDoc := a2;
             ChunkField := Chunk.updateA ops (ChunkField state) a1
                             (doc state) (AcceptChunk.changes v1) diffConf |},
          [CallUpdateA (ChunkField state) a1 (doc state)
             (AcceptChunk.changes v1)]).
Proof.
  intros H1 H2. unfold dispatch, effectsSpec, update, resolveChanges.
  cbn [spec_changes spec_selection spec_effects spec_userEvent].
  unfold mappedHead, ChangeSet.none. rewrite ChangeSet_empty_keep.
  cbn [lift bind ret].
  unfold applyTransaction, newDoc, newOriginalDoc, computeChunks, docChanged.
  cbn [startState changes effects selection].
  fold (ChangeSet.none (Text.length (doc state))).
  rewrite ChangeSet_apply_none. unfold ChangeSet.none.
  rewrite ChangeSet_empty_keep.
  cbn [originalDoc_update findUpdateDoc findAccept findReject findGenerate].
  rewrite H1, H2.
  cbn [lift bind ret Chunk_updateA app negb andb orb].
  rewrite andb_false_r. reflexivity.
Qed.

Lemma only_first_accept_reaches_store_witness :
  exists st' a1,
    dispatch ChunkStore.ops defaultDiffConfig Examples.readme
      (effectsSpec
         [acceptChunkEffect
            (AcceptChunk.mk 4 14 4 14 Examples.readmeA
               (Text.of_lines ["Two"%string; "Three"%string; ""%string])
               [ChangeSet.Keep 4;
                ChangeSet.Replace 10
                  (Text.of_lines ["Two"%string; "Three"%string; ""%string]);
                ChangeSet.Keep 9]);
          acceptChunkEffect
            (AcceptChunk.mk 19 24 19 28 Examples.readmeA
               (Text.of_lines ["five"%string; "Six"%string])
               [ChangeSet.Keep 19;
                ChangeSet.Replace 4
                  (Text.of_lines ["five"%string; "Six"%string])])])
    = Some (st', [CallUpdateA (ChunkField Examples.readme) a1
                    Examples.readmeB
                    [ChangeSet.Keep 4;
                     ChangeSet.Replace 10
                       (Text.of_lines ["Two"%string; "Three"%string;
                                       ""%string]);
                     ChangeSet.Keep 9]])
    /\ originalDoc st' = Examples.readmeB
    /\ a1 <> Examples.readmeB.
Proof.
  eexists. eexists. split; [|split].
  - apply only_first_accept_reaches_store; vm_compute; reflexivity.
  - reflexivity.
  - vm_compute. intro H. discriminate H.
Defined.

(** * Pending effects under an edit of document B *)

Ltac split_tests :=
  repeat match goal with
         | |- context [?a >? ?b] => destruct (Z.gtb_spec a b)
         | |- context [?a =? ?b] => destruct (Z.eqb_spec a b)
         | |- context [?a <=? ?b] => destruct (Z.leb_spec a b)
         | |- context [?a <? ?b] => destruct (Z.ltb_spec a b)
         | H : context [?a <=? ?b] |- _ => destruct (Z.leb_spec a b)
         | H : context [?a <? ?b] |- _ => destruct (Z.ltb_spec a b)
         end.

(** Where a position goes under a single replacement. *)
Lemma ChangeSet_mapPos_of (from to : Z) (ins : Text.t) (len : Z)
    (cs : ChangeSet.t) (pos : Z) :
  ChangeSet.of_ from to ins len = Some cs ->
  0 <= pos <= len ->
  ChangeSet.mapPos cs pos
  = Some (if pos <=? from then pos
          else if pos <? to then from
               else pos - to + from + Text.length ins).
Proof.
  intros Hof Hpos. pose proof (ChangeSet_of_inv _ _ _ _ _ Hof) as Hr.
  pose proof (Text_length_nonneg ins) as Hins.
  unfold ChangeSet.of_ in Hof.
  destruct ((from >? to) || (from <? 0) || (to >? len)); [discriminate|].
  destruct ((from =? to) && (Text.length ins =? 0)) eqn:E.
  - apply andb_true_iff in E as [E1 E2].
    apply Z.eqb_eq in E1. apply Z.eqb_eq in E2.
    inversion Hof; subst cs. unfold ChangeSet.mapPos, ChangeSet.keep.
    destruct (Z.eqb_spec len 0).
    + cbn [ChangeSet.mapPosFrom]. split_tests; f_equal; lia.
    + cbn [ChangeSet.mapPosFrom]. rewrite Z2Nat.id by lia.
      split_tests; f_equal; lia.
  - inversion Hof; subst cs. unfold ChangeSet.mapPos, ChangeSet.keep.
    assert (Hne : from <> to \/ Text.length ins <> 0).
    { apply andb_false_iff in E as [E|E]; apply Z.eqb_neq in E; tauto. }
    destruct (Z.eqb_spec from 0); destruct (Z.eqb_spec (len - to) 0);
      cbn [app ChangeSet.mapPosFrom]; rewrite ?Z2Nat.id by lia;
      split_tests; cbn [orb andb]; f_equal; try lia.
Qed.



(** * The configured original document *)

Lemma String_split_nonempty (s : string) : String_split s <> [].
Proof.
  destruct s as [|c rest]; [discriminate|]. cbn [String_split].
  destruct (Ascii.eqb c "010"); [discriminate|].
  destruct rest as [|c' rest'].
  - discriminate.
  - destruct (Ascii.eqb c "013" && Ascii.eqb c' "010"); [discriminate|].
    unfold consHead. destruct (String_split (String c' rest')); discriminate.
Qed.

Lemma of_lines_cons (l : string) (rest : list string) :
  rest <> [] ->
  Text.of_lines (l :: rest)
  = Text.of_string l ++ Text.nl :: Text.of_lines rest.
Proof. destruct rest; [contradiction|reflexivity]. Qed.

Lemma of_lines_consHead (c : ascii) (lines : list string) :
  lines <> [] -> Text.of_lines (consHead c lines) = c :: Text.of_lines lines.
Proof.
  destruct lines as [|l rest]; [contradiction|]. intros _.
  unfold consHead. destruct rest; reflexivity.
Qed.

Lemma String_split_cons (c : ascii) (rest : string) :
  String_split (String c rest)
  = if Ascii.eqb c "010" then EmptyString :: String_split rest
    else match rest with
         | String c' rest' =>
             if Ascii.eqb c "013" && Ascii.eqb c' "010"
             then EmptyString :: String_split rest'
             else consHead c (String_split rest)
         | EmptyString => consHead c (String_split rest)
         end.
Proof. reflexivity. Qed.

Lemma dropCR_cons (c : ascii) (rest : string) :
  dropCR (String c rest)
  = match rest with
    | String c' rest' =>
        if Ascii.eqb c "013" && Ascii.eqb c' "010"
        then String c' (dropCR rest')
        else String c (dropCR rest)
    | EmptyString => String c EmptyString
    end.
Proof. reflexivity. Qed.

(** The document made of the pieces of a string is the string without the
    carriage returns that stand before line feeds. *)
Lemma of_lines_String_split (s : string) :
  Text.of_lines (String_split s) = Text.of_string (dropCR s)
  /\ forall c, Text.of_lines (String_split (String c s))
               = Text.of_string (dropCR (String c s)).
Proof.
  induction s as [|c' rest' [IH1 IH2]].
  - split; [reflexivity|]. intro c. cbn [String_split dropCR].
    destruct (Ascii.eqb c "010") eqn:E; [|reflexivity].
    apply Ascii.eqb_eq in E. subst c. reflexivity.
  - split; [apply IH2|]. intro c.
    rewrite (String_split_cons c), (dropCR_cons c).
    destruct (Ascii.eqb c "010") eqn:E.
    + apply Ascii.eqb_eq in E. subst c. cbn [Ascii.eqb Bool.eqb andb].
      rewrite of_lines_cons by apply String_split_nonempty.
      rewrite IH2. reflexivity.
    + destruct (Ascii.eqb c "013" && Ascii.eqb c' "010") eqn:E2.
      * apply andb_true_iff in E2 as [_ E2]. apply Ascii.eqb_eq in E2.
        subst c'. rewrite of_lines_cons by apply String_split_nonempty.
        rewrite IH1. reflexivity.
      * rewrite of_lines_consHead by apply String_split_nonempty.
        rewrite IH2. reflexivity.
Qed.

Lemma dropCR_without_CR (s : string) : hasCR s = false -> dropCR s = s.
Proof.
  induction s as [|c rest IH]; [reflexivity|].
  rewrite dropCR_cons. cbn [hasCR].
  intro H. apply orb_false_iff in H as [Hc Hrest].
  destruct rest as [|c' rest']; [reflexivity|].
  rewrite Hc. cbn [andb]. rewrite (IH Hrest). reflexivity.
Qed.

Lemma dropCR_length (s : string) :
  (String.length (dropCR s) <= String.length s)%nat.
Proof.
  assert (H : (String.length (dropCR s) <= String.length s)%nat
              /\ forall c, (String.length (dropCR (String c s))
                            <= String.length (String c s))%nat).
  { induction s as [|c' rest' [IH1 IH2]].
    - split; [apply le_n|]. intro c. apply le_n.
    - split; [apply IH2|]. intro c. rewrite (dropCR_cons c).
      destruct (Ascii.eqb c "013" && Ascii.eqb c' "010").
      + cbn [String.length]. lia.
      + specialize (IH2 c'). cbn [String.length] in *. lia. }
  apply H.
Qed.

Lemma length_list_ascii_of_string (s : string) :
  List.length (list_ascii_of_string s) = String.length s.
Proof. induction s as [|c s IH]; [reflexivity|]. cbn. rewrite IH. reflexivity.
Qed.

(** X12.  An original given as a string is cut at line feeds, a carriage
    return before a line feed going with the cut, and the pieces become
    the lines of document A: A is the string without those carriage
    returns, so the same text with CR LF and with LF line ends gives the
    same document, a string without carriage returns is taken as it is,
    and an original given as a [Text] is taken as it is.  The chunk list
    of a new editor is built from that document with the configured diff
    options, or the default ones. *)
Theorem string_original_is_normalized (ops : Chunk.Ops)
    (config : UnifiedMergeConfig.t) (b : Text.t) (sel : Z) :
  (forall s,
      UnifiedMergeConfig.original config = UnifiedMergeConfig.OfString s ->
      unifiedMergeView_orig config = Text.of_string (dropCR s)
      /\ Text.length (unifiedMergeView_orig config)
         <= Z.of_nat (String.length s)
      /\ (hasCR s = false -> unifiedMergeView_orig config = Text.of_string s))
  /\ (forall t,
         UnifiedMergeConfig.original config = UnifiedMergeConfig.OfText t ->
         unifiedMergeView_orig config = t)
  /\ originalDoc (unifiedMergeView_state ops config b sel)
     = unifiedMergeView_orig config
  /\ ChunkField (unifiedMergeView_state ops config b sel)
     = Chunk.build ops (unifiedMergeView_orig config) b
         match UnifiedMergeConfig.diffConfig config with
         | Some c => c
         | None => defaultDiffConfig
         end.
Proof.
  split; [|split; [|repeat split]].
  - intros s Hs. unfold unifiedMergeView_orig. rewrite Hs.
    destruct (of_lines_String_split s) as [H _]. rewrite H.
    split; [reflexivity|]. split.
    + unfold Text.length, Text.of_string.
      rewrite (length_list_ascii_of_string (dropCR s)).
      pose proof (dropCR_length s). lia.
    + intro Hcr. rewrite (dropCR_without_CR s Hcr). reflexivity.
  - intros t Ht. unfold unifiedMergeView_orig. rewrite Ht. reflexivity.
Qed.

Lemma string_original_is_normalized_witness :
  let crlf :=
    {| UnifiedMergeConfig.original :=
         UnifiedMergeConfig.OfString
           (String "o" (String "n" (String "e" (String "013" (String "010"
              (String "t" (String "w" (String "o" EmptyString))))))));
       UnifiedMergeConfig.highlightChanges := None;
       UnifiedMergeConfig.gutter := None;
       UnifiedMergeConfig.syntaxHighlightDeletions := None;
       UnifiedMergeConfig.allowInlineDiffs := None;
       UnifiedMergeConfig.syntaxHighlightDeletionsMaxLength := None;
       UnifiedMergeConfig.mergeControls := None;
       UnifiedMergeConfig.diffConfig := None |} in
  unifiedMergeView_orig crlf = Text.of_lines ["one"%string; "two"%string].
Proof.
  intro crlf.
  destruct (string_original_is_normalized ChunkStore.ops crlf [] 0)
    as [H _].
  destruct (H _ eq_refl) as [Horig _]. rewrite Horig. reflexivity.
Defined.

(** * The widget of a deleted chunk *)

Lemma indexFrom_spec (s : Text.t) (c : ascii) (i : Z) :
  (JsString.indexFrom s c i = -1 /\ ~ In c s /\ (0 <= i -> True))
  \/ exists n,
       JsString.indexFrom s c i = i + Z.of_nat n
       /\ nth_error s n = Some c
       /\ ~ In c (firstn n s).
Proof.
  revert i. induction s as [|x rest IH]; intro i.
  - left. split; [reflexivity|]. split; [intros []|trivial].
  - cbn [JsString.indexFrom]. destruct (Ascii.eqb x c) eqn:E.
    + apply Ascii.eqb_eq in E. subst x. right. exists 0%nat.
      split; [lia|]. split; [reflexivity|]. intros [].
    + apply Ascii.eqb_neq in E.
      destruct (IH (i + 1)) as [(H1 & H2 & _)|(n & H1 & H2 & H3)].
      * left. split; [exact H1|]. split; [|trivial].
        intros [H|H]; [exact (E H)|exact (H2 H)].
      * right. exists (S n). split; [lia|]. split; [exact H2|].
        cbn [firstn]. intros [H|H]; [exact (E H)|exact (H3 H)].
Qed.

Lemma In_firstn {A : Type} (x : A) (n : nat) (l : list A) :
  In x (firstn n l) -> In x l.
Proof.
  revert l. induction n as [|n IH]; intros [|y l] H; try contradiction.
  destruct H as [H|H]; [left; exact H|right; exact (IH _ H)].
Qed.

Lemma firstn_no_In {A : Type} (x : A) (l : list A) (n m : nat) :
  (m <= n)%nat -> ~ In x (firstn n l) -> ~ In x (firstn m l).
Proof.
  intros Hle Hn Hm. apply Hn.
  replace m with (Nat.min m n) in Hm by lia.
  rewrite <- firstn_firstn in Hm. exact (In_firstn _ _ _ Hm).
Qed.

Lemma charAt_skipn (text : Text.t) (at_ : Z) :
  0 <= at_ ->
  JsString.charAt text at_ = nth_error (skipn (Z.to_nat at_) text) 0.
Proof.
  intro H. unfold JsString.charAt.
  replace (at_ <? 0) with false by (symmetry; apply Z.ltb_ge; lia).
  rewrite nth_error_skipn_add. f_equal. lia.
Qed.

(** Where a text node of [add] may end: at the next line feed, or at [to]
    when there is none before it. *)
Lemma nextStop_spec (text : Text.t) (at_ to : Z) :
  0 <= at_ < to -> to <= Text.length text ->
  JsString.charAt text at_ <> Some Text.nl ->
  let newline := JsString.indexOf text Text.nl at_ in
  let nextStop :=
    if (newline >? -1) && (newline <? to) then newline else to in
  at_ < nextStop <= to
  /\ ~ In Text.nl (firstn (Z.to_nat (nextStop - at_))
                     (skipn (Z.to_nat at_) text)).
Proof.
  intros Hat Hto Hc. cbv zeta.
  rewrite charAt_skipn in Hc by lia.
  unfold JsString.indexOf.
  replace (Z.min (Z.max at_ 0) (Text.length text)) with at_ by lia.
  destruct (indexFrom_spec (skipn (Z.to_nat at_) text) Text.nl at_)
    as [(H1 & H2 & _)|(n & H1 & H2 & H3)].
  - rewrite H1. change (-1 >? -1) with false. cbn [andb].
    split; [lia|]. intro H. apply H2. exact (In_firstn _ _ _ H).
  - assert (Hn : n <> 0%nat).
    { intro E. subst n. apply Hc. exact H2. }
    rewrite H1.
    replace (at_ + Z.of_nat n >? -1) with true
      by (symmetry; apply Z.gtb_lt; lia).
    cbn [andb]. destruct (Z.ltb_spec (at_ + Z.of_nat n) to).
    + split; [lia|]. replace (Z.to_nat (at_ + Z.of_nat n - at_)) with n by lia.
      exact H3.
    + split; [lia|]. apply (firstn_no_In _ _ n); [lia|exact H3].
Qed.

Lemma addFrom_round (text : Text.t) (changes : list Change.t) (hc : bool)
    (fuel : nat) (st : DeletionWidget.Lines) (at_ to : Z) (cls : string) :
  DeletionWidget.addFrom text changes hc (S fuel) st at_ to cls
  = if at_ <? to
    then DeletionWidget.addFrom text changes hc fuel
           (fst (DeletionWidget.round text changes hc st at_ to cls))
           (snd (DeletionWidget.round text changes hc st at_ to cls)) to cls
    else Some st.
Proof.
  cbn [DeletionWidget.addFrom]. unfold DeletionWidget.round.
  destruct (at_ <? to); [|reflexivity].
  destruct (match JsString.charAt text at_ with
            | Some c => Ascii.eqb c "010"
            | None => false
            end); [reflexivity|].
  destruct (if hc then nth_error changes (DeletionWidget.changeI st)
            else None) as [ch|]; [|reflexivity].
  cbv zeta.
  destruct (Z.max 0 (if DeletionWidget.inside st then Change.toA ch
                     else Change.fromA ch) <=? _); reflexivity.
Qed.

(** One round of the loop, case by case. *)
Lemma round_spec (text : Text.t) (changes : list Change.t) (hc : bool)
    (st : DeletionWidget.Lines) (at_ to : Z) (cls : string) :
  let newline := JsString.indexOf text Text.nl at_ in
  let stop :=
    if (newline >? -1) && (newline <? to) then newline else to in
  let nodeCls :=
    (cls ++ (if DeletionWidget.inside st then " cm-deletedText" else ""))
      %string in
  (JsString.charAt text at_ = Some Text.nl
   /\ DeletionWidget.round text changes hc st at_ to cls
      = (DeletionWidget.newLine st, at_ + 1))
  \/ (JsString.charAt text at_ <> Some Text.nl
      /\ exists (nextStop : Z) (changeI' : nat) (flip : bool),
           DeletionWidget.round text changes hc st at_ to cls
           = ({| DeletionWidget.closed := DeletionWidget.closed st;
                 DeletionWidget.line :=
                   if nextStop >? at_
                   then DeletionWidget.line st
                        ++ [DeletionWidget.textNode nodeCls
                              (JsString.slice text at_ nextStop)]
                   else DeletionWidget.line st;
                 DeletionWidget.changeI := changeI';
                 DeletionWidget.inside :=
                   if flip then negb (DeletionWidget.inside st)
                   else DeletionWidget.inside st |},
              if nextStop >? at_ then nextStop else at_)
           /\ nextStop <= stop
           /\ ((flip = false /\ nextStop = stop
                /\ changeI' = DeletionWidget.changeI st
                /\ (hc = true ->
                    forall ch,
                      nth_error changes (DeletionWidget.changeI st) = Some ch ->
                      stop < Z.max 0 (if DeletionWidget.inside st
                                      then Change.toA ch
                                      else Change.fromA ch)))
               \/ (flip = true /\ hc = true
                   /\ exists ch,
                        nth_error changes (DeletionWidget.changeI st)
                        = Some ch
                        /\ nextStop
                           = Z.max 0 (if DeletionWidget.inside st
                                      then Change.toA ch
                                      else Change.fromA ch)
                        /\ changeI'
                           = if DeletionWidget.inside st
                             then S (DeletionWidget.changeI st)
                             else DeletionWidget.changeI st))).
Proof.
  intros newline stop nodeCls. unfold DeletionWidget.round.
  change (JsString.indexOf text "010" at_) with newline.
  change (if (newline >? -1) && (newline <? to) then newline else to)
    with stop.
  fold nodeCls.
  destruct (JsString.charAt text at_) as [c|] eqn:Hc.
  - destruct (Ascii.eqb c "010") eqn:E.
    + apply Ascii.eqb_eq in E. subst c. left. split; reflexivity.
    + apply Ascii.eqb_neq in E. right.
      split; [intro H; inversion H; contradiction|].
      destruct hc.
      * destruct (nth_error changes (DeletionWidget.changeI st)) as [ch|]
          eqn:Hch.
        -- cbv zeta.
           destruct (Z.leb_spec
                       (Z.max 0 (if DeletionWidget.inside st
                                 then Change.toA ch else Change.fromA ch))
                       stop) as [Hle|Hgt].
           ++ eexists. eexists. exists true. split; [reflexivity|].
              split; [exact Hle|]. right. split; [reflexivity|].
              split; [reflexivity|]. exists ch. repeat split; reflexivity.
           ++ exists stop. eexists. exists false. split; [reflexivity|].
              split; [lia|]. left. repeat split; try reflexivity.
              intros _ ch' Hch'. inversion Hch'; subst ch'. exact Hgt.
        -- exists stop. eexists. exists false. split; [reflexivity|].
           split; [lia|]. left. repeat split; try reflexivity.
           intros _ ch' Hch'. discriminate Hch'.
      * exists stop. eexists. exists false. split; [reflexivity|].
        split; [lia|]. left. repeat split; try reflexivity.
        intro H. discriminate H.
  - right. split; [discriminate|].
    destruct hc.
    + destruct (nth_error changes (DeletionWidget.changeI st)) as [ch|]
        eqn:Hch.
      * cbv zeta.
        destruct (Z.leb_spec
                    (Z.max 0 (if DeletionWidget.inside st
                              then Change.toA ch else Change.fromA ch))
                    stop) as [Hle|Hgt].
        -- eexists. eexists. exists true. split; [reflexivity|].
           split; [exact Hle|]. right. split; [reflexivity|].
           split; [reflexivity|]. exists ch. repeat split; reflexivity.
        -- exists stop. eexists. exists false. split; [reflexivity|].
           split; [lia|]. left. repeat split; try reflexivity.
           intros _ ch' Hch'. inversion Hch'; subst ch'. exact Hgt.
      * exists stop. eexists. exists false. split; [reflexivity|].
        split; [lia|]. left. repeat split; try reflexivity.
        intros _ ch' Hch'. discriminate Hch'.
    + exists stop. eexists. exists false. split; [reflexivity|].
      split; [lia|]. left. repeat split; try reflexivity.
      intro H. discriminate H.
Qed.

Lemma joinLines_snoc (ls : list Text.t) (l : Text.t) :
  DeletionWidget.joinLines (ls ++ [l])
  = flat_map (fun x => x ++ [Text.nl]) ls ++ l.
Proof.
  induction ls as [|x ls IH]; [reflexivity|].
  cbn [app flat_map]. rewrite <- !app_assoc. cbn [app].
  rewrite <- IH. destruct ls; reflexivity.
Qed.

Lemma shown_eq (st : DeletionWidget.Lines) :
  DeletionWidget.shown st
  = flat_map (fun x => x ++ [Text.nl])
      (map DeletionWidget.lineText (DeletionWidget.closed st))
    ++ DeletionWidget.lineText (DeletionWidget.line st).
Proof.
  unfold DeletionWidget.shown. rewrite map_app. apply joinLines_snoc.
Qed.

Lemma lineText_orBr (l : list Dom.Node) :
  DeletionWidget.lineText (DeletionWidget.orBr l) = DeletionWidget.lineText l.
Proof. destruct l; reflexivity. Qed.

Lemma lineText_snoc (l : list Dom.Node) (cls : string) (data : Text.t) :
  DeletionWidget.lineText (l ++ [DeletionWidget.textNode cls data])
  = DeletionWidget.lineText l ++ data.
Proof.
  unfold DeletionWidget.lineText. rewrite flat_map_app. f_equal.
  unfold DeletionWidget.textNode. destruct (String.eqb cls "");
    cbn [flat_map Dom.textContent]; rewrite ?app_nil_r; reflexivity.
Qed.

Lemma slice_inside (text : Text.t) (a b : Z) :
  0 <= a <= b -> b <= Text.length text ->
  JsString.slice text a b
  = firstn (Z.to_nat (b - a)) (skipn (Z.to_nat a) text).
Proof.
  intros Ha Hb. unfold JsString.slice.
  replace (a <? 0) with false by (symmetry; apply Z.ltb_ge; lia).
  replace (b <? 0) with false by (symmetry; apply Z.ltb_ge; lia).
  replace (Z.min a (Text.length text)) with a by lia.
  replace (Z.min b (Text.length text)) with b by lia.
  reflexivity.
Qed.

Lemma firstn_plus {A : Type} (n m : nat) (l : list A) :
  firstn (n + m) l = firstn n l ++ firstn m (skipn n l).
Proof.
  revert l. induction n as [|n IH]; intro l; [reflexivity|].
  destruct l as [|x l]; [destruct m; reflexivity|].
  cbn [Nat.add firstn skipn app]. f_equal. apply IH.
Qed.

Lemma firstn_skipn_split {A : Type} (l : list A) (a b c : Z) :
  0 <= a <= b -> b <= c ->
  firstn (Z.to_nat (c - a)) (skipn (Z.to_nat a) l)
  = firstn (Z.to_nat (b - a)) (skipn (Z.to_nat a) l)
    ++ firstn (Z.to_nat (c - b)) (skipn (Z.to_nat b) l).
Proof.
  intros Ha Hb.
  replace (Z.to_nat (c - a)) with (Z.to_nat (b - a) + Z.to_nat (c - b))%nat
    by lia.
  rewrite firstn_plus, skipn_skipn. repeat f_equal. lia.
Qed.

(** What one round of the loop adds to the lines: the text from the loop
    variable to its next value, which is not past [to]. *)
Lemma round_shown (text : Text.t) (changes : list Change.t) (hc : bool)
    (st : DeletionWidget.Lines) (at_ to : Z) (cls : string) :
  0 <= at_ < to -> to <= Text.length text ->
  let r := DeletionWidget.round text changes hc st at_ to cls in
  at_ <= snd r <= to
  /\ DeletionWidget.shown (fst r)
     = DeletionWidget.shown st
       ++ firstn (Z.to_nat (snd r - at_)) (skipn (Z.to_nat at_) text)
  /\ (DeletionWidget.noLineFeed st -> DeletionWidget.noLineFeed (fst r))
  /\ (Z.to_nat (to - snd r) + DeletionWidget.boundsLeft changes (fst r)
      < Z.to_nat (to - at_) + DeletionWidget.boundsLeft changes st)%nat.
Proof.
  intros Hat Hto r.
  destruct (round_spec text changes hc st at_ to cls)
    as [[Hc Hr]|(Hc & ns & ci' & flip & Hr & Hns & Hflip)].
  - subst r. rewrite Hr. cbn [fst snd].
    split; [lia|]. split; [|split].
    + rewrite !shown_eq. cbn [DeletionWidget.newLine DeletionWidget.closed
                               DeletionWidget.line].
      rewrite map_app, flat_map_app. cbn [map flat_map].
      rewrite lineText_orBr, !app_nil_r, <- app_assoc. f_equal. f_equal.
      rewrite charAt_skipn in Hc by lia.
      replace (Z.to_nat (at_ + 1 - at_)) with 1%nat by lia.
      destruct (skipn (Z.to_nat at_) text) as [|x rest]; [discriminate|].
      inversion Hc. reflexivity.
    + unfold DeletionWidget.noLineFeed.
      cbn [DeletionWidget.newLine DeletionWidget.closed DeletionWidget.line].
      rewrite !map_app, !Forall_app. cbn [map].
      intros [H1 H2]. split; [split; [exact H1|]|].
      * rewrite lineText_orBr. exact H2.
      * constructor; [intros []|constructor].
    + unfold DeletionWidget.boundsLeft.
      cbn [DeletionWidget.newLine DeletionWidget.changeI
             DeletionWidget.inside]. lia.
  - destruct (nextStop_spec text at_ to Hat Hto Hc) as [Hstop Hnl].
    cbv zeta in Hstop, Hnl, Hns, Hflip.
    set (stop := if (JsString.indexOf text Text.nl at_ >? -1)
                    && (JsString.indexOf text Text.nl at_ <? to)
                 then JsString.indexOf text Text.nl at_ else to) in *.
    subst r. rewrite Hr. cbn [fst snd].
    destruct (Z.gtb_spec ns at_) as [Hgt|Hle].
    + split; [lia|]. split; [|split].
      * rewrite !shown_eq. cbn [DeletionWidget.closed DeletionWidget.line].
        rewrite lineText_snoc, slice_inside by lia.
        rewrite app_assoc. reflexivity.
      * unfold DeletionWidget.noLineFeed.
        cbn [DeletionWidget.closed DeletionWidget.line].
        rewrite !map_app, !Forall_app. cbn [map].
        intros [H1 H2]. split; [exact H1|].
        constructor; [|constructor].
        rewrite lineText_snoc, slice_inside by lia.
        intro H. apply in_app_or in H as [H|H].
        -- inversion H2; subst. contradiction.
        -- revert H. apply (firstn_no_In _ _ (Z.to_nat (stop - at_)));
             [lia|exact Hnl].
      * unfold DeletionWidget.boundsLeft.
        cbn [DeletionWidget.changeI DeletionWidget.inside].
        destruct Hflip as [(-> & _ & -> & _)|(-> & _ & ch & Hch & _ & ->)].
        -- lia.
        -- assert (Hlt : (DeletionWidget.changeI st < List.length changes)%nat)
             by (apply nth_error_Some; rewrite Hch; discriminate).
           destruct (DeletionWidget.inside st); cbn [negb]; lia.
    + split; [lia|]. split; [|split].
      * replace (Z.to_nat (at_ - at_)) with 0%nat by lia.
        cbn [firstn]. rewrite app_nil_r. reflexivity.
      * intro H. exact H.
      * unfold DeletionWidget.boundsLeft.
        cbn [DeletionWidget.changeI DeletionWidget.inside].
        destruct Hflip as [(-> & -> & _)|(-> & _ & ch & Hch & _ & ->)].
        -- lia.
        -- assert (Hlt : (DeletionWidget.changeI st < List.length changes)%nat)
             by (apply nth_error_Some; rewrite Hch; discriminate).
           destruct (DeletionWidget.inside st); cbn [negb]; lia.
Qed.

(** The loop of [add] ends, and adds the text between its bounds. *)
Lemma addFrom_spec (text : Text.t) (changes : list Change.t) (hc : bool)
    (cls : string) (to : Z) (fuel : nat) :
  forall (st : DeletionWidget.Lines) (at_ : Z),
    0 <= at_ -> to <= Text.length text ->
    (Z.to_nat (to - at_) + DeletionWidget.boundsLeft changes st < fuel)%nat ->
    exists st',
      DeletionWidget.addFrom text changes hc fuel st at_ to cls = Some st'
      /\ DeletionWidget.shown st'
         = DeletionWidget.shown st
           ++ firstn (Z.to_nat (to - at_)) (skipn (Z.to_nat at_) text)
      /\ (DeletionWidget.noLineFeed st -> DeletionWidget.noLineFeed st').
Proof.
  induction fuel as [|fuel IH]; intros st at_ Hat Hto Hfuel; [lia|].
  rewrite addFrom_round. destruct (Z.ltb_spec at_ to) as [Hlt|Hge].
  - destruct (round_shown text changes hc st at_ to cls)
      as (Hnext & Hshown & Hnl & Hless); [lia|exact Hto|].
    cbv zeta in Hnext, Hshown, Hnl, Hless.
    destruct (IH (fst (DeletionWidget.round text changes hc st at_ to cls))
                (snd (DeletionWidget.round text changes hc st at_ to cls)))
      as (st' & Hadd & Hs & Hn); [lia|exact Hto|lia|].
    exists st'. split; [exact Hadd|]. split.
    + rewrite Hs, Hshown, <- app_assoc. f_equal. symmetry.
      apply firstn_skipn_split; lia.
    + intro H. apply Hn, Hnl, H.
  - exists st. split; [reflexivity|]. split; [|intro H; exact H].
    replace (Z.to_nat (to - at_)) with 0%nat by lia.
    cbn [firstn]. rewrite app_nil_r. reflexivity.
Qed.

Lemma add_spec (text : Text.t) (changes : list Change.t) (hc : bool)
    (st : DeletionWidget.Lines) (from to : Z) (cls : string) :
  0 <= from -> to <= Text.length text ->
  exists st',
    DeletionWidget.add text changes hc st from to cls = Some st'
    /\ DeletionWidget.shown st'
       = DeletionWidget.shown st
         ++ firstn (Z.to_nat (to - from)) (skipn (Z.to_nat from) text)
    /\ (DeletionWidget.noLineFeed st -> DeletionWidget.noLineFeed st').
Proof.
  intros Hfrom Hto. unfold DeletionWidget.add.
  apply addFrom_spec; [exact Hfrom|exact Hto|lia].
Qed.

Lemma spansInOrder_bound (spans : list (Z * Z * string)) (pos len : Z) :
  DeletionWidget.spansInOrder spans pos len -> pos <= len.
Proof.
  revert pos. induction spans as [|[[from to] cls] rest IH]; intros pos H.
  - exact H.
  - destruct H as (H1 & H2 & H3). specialize (IH _ H3). lia.
Qed.

Lemma addSpans_spec (text : Text.t) (changes : list Change.t) (hc : bool)
    (spans : list (Z * Z * string)) :
  forall (st : DeletionWidget.Lines) (pos : Z),
    0 <= pos ->
    DeletionWidget.spansInOrder spans pos (Text.length text) ->
    exists st' pos',
      DeletionWidget.addSpans text changes hc spans st pos = Some (st', pos')
      /\ pos <= pos' <= Text.length text
      /\ DeletionWidget.shown st'
         = DeletionWidget.shown st
           ++ firstn (Z.to_nat (pos' - pos)) (skipn (Z.to_nat pos) text)
      /\ (DeletionWidget.noLineFeed st -> DeletionWidget.noLineFeed st').
Proof.
  induction spans as [|[[from to] cls] rest IH]; intros st pos Hpos Hord.
  - exists st, pos. split; [reflexivity|]. split; [cbn in Hord; lia|].
    split; [|intro H; exact H].
    replace (Z.to_nat (pos - pos)) with 0%nat by lia.
    cbn [firstn]. rewrite app_nil_r. reflexivity.
  - destruct Hord as (H1 & H2 & H3).
    pose proof (spansInOrder_bound _ _ _ H3) as Hto.
    cbn [DeletionWidget.addSpans].
    assert (Hgap : exists st1,
               (if from >? pos
                then DeletionWidget.add text changes hc st pos from ""
                else Some st) = Some st1
               /\ DeletionWidget.shown st1
                  = DeletionWidget.shown st
                    ++ firstn (Z.to_nat (from - pos))
                         (skipn (Z.to_nat pos) text)
               /\ (DeletionWidget.noLineFeed st
                   -> DeletionWidget.noLineFeed st1)).
    { destruct (Z.gtb_spec from pos).
      - apply add_spec; lia.
      - exists st. split; [reflexivity|]. split; [|intro Hn; exact Hn].
        replace (Z.to_nat (from - pos)) with 0%nat by lia.
        cbn [firstn]. rewrite app_nil_r. reflexivity. }
    destruct Hgap as (st1 & -> & Hs1 & Hn1).
    destruct (add_spec text changes hc st1 from to cls)
      as (st2 & -> & Hs2 & Hn2); [lia|lia|].
    destruct (IH st2 to) as (st' & pos' & -> & Hp & Hs & Hn); [lia|exact H3|].
    exists st', pos'. split; [reflexivity|]. split; [lia|]. split.
    + rewrite Hs, Hs2, Hs1, <- !app_assoc. f_equal.
      rewrite (firstn_skipn_split text pos from pos') by lia. f_equal.
      symmetry. apply firstn_skipn_split; lia.
    + intro H. apply Hn, Hn2, Hn1, H.
Qed.

Lemma textLines_noLineFeed (l : Text.t) :
  ~ In Text.nl l -> DeletionWidget.textLines l = [l].
Proof.
  induction l as [|c l IH]; intro H; [reflexivity|].
  cbn [DeletionWidget.textLines].
  destruct (Ascii.eqb c Text.nl) eqn:E.
  - apply Ascii.eqb_eq in E. exfalso. apply H. left. exact E.
  - rewrite IH; [reflexivity|]. intro Hin. apply H. right. exact Hin.
Qed.

Lemma textLines_line (l rest : Text.t) :
  ~ In Text.nl l ->
  DeletionWidget.textLines (l ++ Text.nl :: rest)
  = l :: DeletionWidget.textLines rest.
Proof.
  induction l as [|c l IH]; intro H.
  - reflexivity.
  - cbn [app DeletionWidget.textLines].
    destruct (Ascii.eqb c Text.nl) eqn:E.
    + apply Ascii.eqb_eq in E. exfalso. apply H. left. exact E.
    + rewrite IH; [reflexivity|]. intro Hin. apply H. right. exact Hin.
Qed.

(** Lines without line feeds are the lines of their join. *)
Lemma textLines_joinLines (ls : list Text.t) :
  ls <> [] -> Forall (fun l => ~ In Text.nl l) ls ->
  DeletionWidget.textLines (DeletionWidget.joinLines ls) = ls.
Proof.
  induction ls as [|l rest IH]; [contradiction|]. intros _ H.
  inversion H as [|? ? Hl Hrest]; subst.
  destruct rest as [|l' rest'].
  - apply textLines_noLineFeed. exact Hl.
  - cbn [DeletionWidget.joinLines]. rewrite textLines_line by exact Hl.
    f_equal. apply IH; [discriminate|exact Hrest].
Qed.

(** The lines that are complete are never empty: a line without text
    holds a [br]. *)
Lemma round_closed (text : Text.t) (changes : list Change.t) (hc : bool)
    (st : DeletionWidget.Lines) (at_ to : Z) (cls : string) :
  Forall (fun l => l <> []) (DeletionWidget.closed st) ->
  Forall (fun l => l <> [])
    (DeletionWidget.closed
       (fst (DeletionWidget.round text changes hc st at_ to cls))).
Proof.
  intro H.
  destruct (round_spec text changes hc st at_ to cls)
    as [[_ ->]|(_ & ns & ci' & flip & -> & _)].
  - cbn [fst DeletionWidget.newLine DeletionWidget.closed].
    apply Forall_app. split; [exact H|].
    constructor; [|constructor].
    destruct (DeletionWidget.line st); discriminate.
  - exact H.
Qed.

Lemma addFrom_closed (text : Text.t) (changes : list Change.t) (hc : bool)
    (cls : string) (to : Z) (fuel : nat) :
  forall (st st' : DeletionWidget.Lines) (at_ : Z),
    DeletionWidget.addFrom text changes hc fuel st at_ to cls = Some st' ->
    Forall (fun l => l <> []) (DeletionWidget.closed st) ->
    Forall (fun l => l <> []) (DeletionWidget.closed st').
Proof.
  induction fuel as [|fuel IH]; intros st st' at_ Hadd H.
  - cbn [DeletionWidget.addFrom] in Hadd.
    destruct (at_ <? to); [discriminate|]. inversion Hadd; subst. exact H.
  - rewrite addFrom_round in Hadd. destruct (at_ <? to).
    + apply (IH _ _ _ Hadd). apply round_closed. exact H.
    + inversion Hadd; subst. exact H.
Qed.

Lemma addSpans_closed (text : Text.t) (changes : list Change.t) (hc : bool)
    (spans : list (Z * Z * string)) :
  forall (st st' : DeletionWidget.Lines) (pos pos' : Z),
    DeletionWidget.addSpans text changes hc spans st pos = Some (st', pos') ->
    Forall (fun l => l <> []) (DeletionWidget.closed st) ->
    Forall (fun l => l <> []) (DeletionWidget.closed st').
Proof.
  induction spans as [|[[from to] cls] rest IH]; intros st st' pos pos' Hadd H.
  - inversion Hadd; subst. exact H.
  - cbn [DeletionWidget.addSpans] in Hadd.
    destruct (if from >? pos
              then DeletionWidget.add text changes hc st pos from ""
              else Some st) as [st1|] eqn:E1; [|discriminate].
    destruct (DeletionWidget.add text changes hc st1 from to cls)
      as [st2|] eqn:E2; [|discriminate].
    apply (IH _ _ _ _ Hadd). apply (addFrom_closed _ _ _ _ _ _ _ _ _ E2).
    destruct (from >? pos).
    + apply (addFrom_closed _ _ _ _ _ _ _ _ _ E1). exact H.
    + inversion E1; subst. exact H.
Qed.

Lemma deletedLines_of_lines (buttons : MergeControls)
    (lines : list (list Dom.Node)) :
  DeletionWidget.deletedLines
    (Dom.Element "div" "cm-deletedChunk"
       (DeletionWidget.controls buttons
        ++ map DeletionWidget.lineDiv lines))
  = map DeletionWidget.lineText lines.
Proof.
  unfold DeletionWidget.deletedLines. cbn [Dom.children].
  rewrite filter_app.
  replace (filter _ (DeletionWidget.controls buttons)) with (@nil Dom.Node)
    by (destruct buttons as [[|]|]; reflexivity).
  cbn [app]. induction lines as [|l rest IH]; [reflexivity|].
  cbn [map filter].
  change (Dom.className (DeletionWidget.lineDiv l))
    with "cm-deletedLine"%string.
  rewrite String.eqb_refl. cbn [map]. f_equal; [|exact IH].
  unfold DeletionWidget.lineDiv. cbn [Dom.textContent flat_map].
  rewrite !app_nil_r. reflexivity.
Qed.

(** What [buildDOM] makes of the lines [add] has filled. *)
Lemma lines_of_filled (st : DeletionWidget.Lines) (text : Text.t)
    (buttons : MergeControls) :
  DeletionWidget.shown st = text ->
  DeletionWidget.noLineFeed st ->
  Forall (fun l => l <> []) (DeletionWidget.closed st) ->
  let dom :=
    Dom.Element "div" "cm-deletedChunk"
      (DeletionWidget.controls buttons
       ++ map DeletionWidget.lineDiv
            (DeletionWidget.closed st
             ++ [DeletionWidget.orBr (DeletionWidget.line st)])) in
  DeletionWidget.deletedLines dom = DeletionWidget.textLines text
  /\ DeletionWidget.joinLines (DeletionWidget.deletedLines dom) = text
  /\ Forall (fun n =>
               Dom.className n = "cm-deletedLine"%string ->
               exists first rest,
                 Dom.children n = [Dom.Element "del" "" (first :: rest)])
       (Dom.children dom).
Proof.
  intros Hshown Hnl Hclosed dom. subst dom.
  rewrite deletedLines_of_lines.
  assert (Hlines : map DeletionWidget.lineText
                     (DeletionWidget.closed st
                      ++ [DeletionWidget.orBr (DeletionWidget.line st)])
                   = map DeletionWidget.lineText
                       (DeletionWidget.closed st ++ [DeletionWidget.line st])).
  { rewrite !map_app. cbn [map]. rewrite lineText_orBr. reflexivity. }
  rewrite Hlines. fold (DeletionWidget.shown st). rewrite Hshown.
  split; [|split; [reflexivity|]].
  - rewrite <- Hshown. unfold DeletionWidget.shown. symmetry.
    apply textLines_joinLines; [|exact Hnl].
    rewrite map_app. intro H. apply app_eq_nil in H as [_ H]. discriminate H.
  - cbn [Dom.children]. apply Forall_app. split.
    + destruct buttons as [[|]|]; repeat constructor; discriminate.
    + apply Forall_map. apply Forall_app. split.
      * eapply Forall_impl; [|exact Hclosed].
        intros [|first rest] Hne _; [contradiction|].
        exists first, rest. reflexivity.
      * constructor; [|constructor]. intros _.
        destruct (DeletionWidget.line st) as [|first rest];
          eexists; eexists; reflexivity.
Qed.

Lemma shown_start : DeletionWidget.shown DeletionWidget.start = [].
Proof. reflexivity. Qed.

Lemma noLineFeed_start : DeletionWidget.noLineFeed DeletionWidget.start.
Proof. repeat constructor. intros []. Qed.

(** The lines [buildDOM] fills for a text: all of the text, in every
    configuration. *)
Lemma buildDOM_filled (text : Text.t) (changes : list Change.t) (hc : bool)
    (spans : option (list (Z * Z * string))) :
  (forall l, spans = Some l ->
             DeletionWidget.spansInOrder l 0 (Text.length text)) ->
  exists st,
    match spans with
    | Some l =>
        match DeletionWidget.addSpans text changes hc l DeletionWidget.start
                0 with
        | Some (st, pos) =>
            DeletionWidget.add text changes hc st pos (Text.length text) ""
        | None => None
        end
    | None =>
        DeletionWidget.add text changes hc DeletionWidget.start 0
          (Text.length text) ""
    end = Some st
    /\ DeletionWidget.shown st = text
    /\ DeletionWidget.noLineFeed st
    /\ Forall (fun l => l <> []) (DeletionWidget.closed st).
Proof.
  intro Hord.
  assert (Hall : firstn (Z.to_nat (Text.length text - 0))
                   (skipn (Z.to_nat 0) text) = text).
  { cbn [Z.to_nat skipn]. apply firstn_all2. unfold Text.length. lia. }
  destruct spans as [l|].
  - destruct (addSpans_spec text changes hc l DeletionWidget.start 0)
      as (st1 & pos & Hadd & Hpos & Hs1 & Hn1); [lia|apply Hord; reflexivity|].
    rewrite Hadd.
    destruct (add_spec text changes hc st1 pos (Text.length text) "")
      as (st & Hadd2 & Hs & Hn); [lia|lia|].
    exists st. split; [exact Hadd2|]. split; [|split].
    + rewrite Hs, Hs1, shown_start. cbn [app].
      rewrite <- (firstn_skipn_split text 0 pos (Text.length text)) by lia.
      exact Hall.
    + apply Hn, Hn1, noLineFeed_start.
    + apply (addFrom_closed _ _ _ _ _ _ _ _ _ Hadd2).
      apply (addSpans_closed _ _ _ _ _ _ _ _ Hadd). constructor.
  - destruct (add_spec text changes hc DeletionWidget.start 0
                (Text.length text) "") as (st & Hadd & Hs & Hn); [lia|lia|].
    exists st. split; [exact Hadd|]. split; [|split].
    + rewrite Hs, shown_start. exact Hall.
    + apply Hn, noLineFeed_start.
    + apply (addFrom_closed _ _ _ _ _ _ _ _ _ Hadd). constructor.
Qed.

(** X13.  The widget of a chunk that has text in A and is not hidden shows
    exactly A's text of the chunk, from [fromA] to [endA]: one
    [cm-deletedLine] element for every line of that text, in order, each
    holding the line's characters, none lost and none twice, and never a
    line feed; a line without text holds a [br], so that no line element is
    empty.  This holds with and without the marking of changes, and with
    syntax highlighting as long as the highlighter reports its styled
    ranges in order and inside the text. *)
Theorem deleted_chunk_shows_original_lines (conf : MergeConfig.t)
    (lang : option (Text.t -> list (Z * Z * string))) (chunk : Chunk.t)
    (orig : Text.t) :
  Chunk.fromA chunk < Chunk.toA chunk ->
  let text := Text.sliceString orig (Chunk.fromA chunk) (Chunk.endA chunk) in
  (forall highlight,
      lang = Some highlight ->
      DeletionWidget.spansInOrder (highlight text) 0 (Text.length text)) ->
  exists dom,
    DeletionWidget.buildDOM conf lang chunk false orig = Some dom
    /\ DeletionWidget.deletedLines dom = DeletionWidget.textLines text
    /\ DeletionWidget.joinLines (DeletionWidget.deletedLines dom) = text
    /\ Forall (fun n =>
                 Dom.className n = "cm-deletedLine"%string ->
                 exists first rest,
                   Dom.children n = [Dom.Element "del" "" (first :: rest)])
         (Dom.children dom).
Proof.
  intros Hchunk text Hlang. unfold DeletionWidget.buildDOM.
  replace (Chunk.fromA chunk >=? Chunk.toA chunk) with false
    by (symmetry; rewrite Z.geb_leb; apply Z.leb_gt; lia).
  cbn [orb]. fold text.
  set (changes := Chunk.changes chunk).
  set (hc := MergeConfig.highlightChanges conf).
  set (spans :=
         match (if MergeConfig.syntaxHighlightDeletions conf
                then lang else None) with
         | Some highlight =>
             if Chunk.toA chunk - Chunk.fromA chunk
                <=? MergeConfig.syntaxHighlightDeletionsMaxLength conf
             then Some (highlight text) else None
         | None => None
         end).
  destruct (buildDOM_filled text changes hc spans)
    as (st & Hfilled & Hshown & Hnl & Hclosed).
  { intros l Hl. subst spans.
    destruct (MergeConfig.syntaxHighlightDeletions conf); [|discriminate].
    destruct lang as [highlight|]; [|discriminate].
    destruct (_ <=? _); [|discriminate].
    inversion Hl; subst l. apply Hlang. reflexivity. }
  assert (Hsame :
            match (if MergeConfig.syntaxHighlightDeletions conf
                   then lang else None) with
            | Some highlight =>
                if Chunk.toA chunk - Chunk.fromA chunk
                   <=? MergeConfig.syntaxHighlightDeletionsMaxLength conf
                then
                  match DeletionWidget.addSpans text changes hc
                          (highlight text) DeletionWidget.start 0 with
                  | Some (st, pos) =>
                      DeletionWidget.add text changes hc st pos
                        (Text.length text) ""
                  | None => None
                  end
                else DeletionWidget.add text changes hc DeletionWidget.start
                       0 (Text.length text) ""
            | None => DeletionWidget.add text changes hc DeletionWidget.start
                        0 (Text.length text) ""
            end = Some st).
  { rewrite <- Hfilled. subst spans.
    destruct (MergeConfig.syntaxHighlightDeletions conf); [|reflexivity].
    destruct lang as [highlight|]; [|reflexivity].
    destruct (_ <=? _); reflexivity. }
  rewrite Hsame.
  eexists. split; [reflexivity|].
  apply lines_of_filled; assumption.
Qed.

Lemma deleted_chunk_shows_original_lines_witness :
  let conf :=
    {| MergeConfig.highlightChanges := true; MergeConfig.markGutter := true;
       MergeConfig.syntaxHighlightDeletions := true;
       MergeConfig.syntaxHighlightDeletionsMaxLength := 3000;
       MergeConfig.mergeControls := ControlsFlag true;
       MergeConfig.overrideChunk := false; MergeConfig.side := "b" |} in
  let lang := Some (fun _ : Text.t => [(0, 3, "tok-keyword"%string)]) in
  exists dom,
    DeletionWidget.buildDOM conf lang Examples.firstChunk false
      Examples.readmeA = Some dom
    /\ DeletionWidget.deletedLines dom
       = [Text.of_string "two"; Text.of_string "three"; []].
Proof.
  intros conf lang.
  destruct (deleted_chunk_shows_original_lines conf lang Examples.firstChunk
              Examples.readmeA) as (dom & Hdom & Hlines & _).
  - cbn. lia.
  - intros highlight H. inversion H; subst highlight. vm_compute.
    repeat split; intro E; discriminate E.
  - exists dom. split; [exact Hdom|]. rewrite Hlines. vm_compute.
    reflexivity.
Defined.

(** X14.  The limit under which deleted text is syntax highlighted is
    always 3000 characters: the option [syntaxHighlightDeletionsMaxLength]
    of [unifiedMergeView] does not reach the merge configuration.  So the
    widget of a chunk whose range in A is longer than 3000 is built without
    the language, whatever limit was configured; and the widget of a chunk
    that is hidden or has no text in A holds the controls only. *)
Theorem highlight_limit_is_fixed (config : UnifiedMergeConfig.t)
    (lang : option (Text.t -> list (Z * Z * string))) (chunk : Chunk.t)
    (hideContent : bool) (orig : Text.t) :
  let conf := unifiedMergeView_mergeConfig config in
  MergeConfig.syntaxHighlightDeletionsMaxLength conf = 3000
  /\ (forall limit,
         unifiedMergeView_mergeConfig
           {| UnifiedMergeConfig.original :=
                UnifiedMergeConfig.original config;
              UnifiedMergeConfig.highlightChanges :=
                UnifiedMergeConfig.highlightChanges config;
              UnifiedMergeConfig.gutter := UnifiedMergeConfig.gutter config;
              UnifiedMergeConfig.syntaxHighlightDeletions :=
                UnifiedMergeConfig.syntaxHighlightDeletions config;
              UnifiedMergeConfig.allowInlineDiffs :=
                UnifiedMergeConfig.allowInlineDiffs config;
              UnifiedMergeConfig.syntaxHighlightDeletionsMaxLength := limit;
              UnifiedMergeConfig.mergeControls :=
                UnifiedMergeConfig.mergeControls config;
              UnifiedMergeConfig.diffConfig :=
                UnifiedMergeConfig.diffConfig config |} = conf)
  /\ (3000 < Chunk.toA chunk - Chunk.fromA chunk ->
      DeletionWidget.buildDOM conf lang chunk hideContent orig
      = DeletionWidget.buildDOM conf None chunk hideContent orig)
  /\ (hideContent = true \/ Chunk.toA chunk <= Chunk.fromA chunk ->
      DeletionWidget.buildDOM conf lang chunk hideContent orig
      = Some (Dom.Element "div" "cm-deletedChunk"
                (DeletionWidget.controls (MergeConfig.mergeControls conf)))
      /\ DeletionWidget.deletedLines
           (Dom.Element "div" "cm-deletedChunk"
              (DeletionWidget.controls (MergeConfig.mergeControls conf)))
         = []).
Proof.
  intro conf. split; [reflexivity|]. split; [reflexivity|]. split.
  - intro Hlong. unfold DeletionWidget.buildDOM.
    destruct (hideContent || (Chunk.fromA chunk >=? Chunk.toA chunk));
      [reflexivity|].
    change (MergeConfig.syntaxHighlightDeletionsMaxLength conf) with 3000.
    replace (Chunk.toA chunk - Chunk.fromA chunk <=? 3000) with false
      by (symmetry; apply Z.leb_gt; exact Hlong).
    destruct (MergeConfig.syntaxHighlightDeletions conf); [|reflexivity].
    destruct lang; reflexivity.
  - intro H. unfold DeletionWidget.buildDOM.
    replace (hideContent || (Chunk.fromA chunk >=? Chunk.toA chunk))
      with true.
    + split; [reflexivity|].
      pose proof (deletedLines_of_lines (MergeConfig.mergeControls conf) [])
        as Hd.
      cbn [map] in Hd. rewrite app_nil_r in Hd. exact Hd.
    + symmetry. apply orb_true_iff. destruct H as [H|H]; [left; exact H|].
      right. rewrite Z.geb_leb. apply Z.leb_le. exact H.
Qed.

Lemma highlight_limit_is_fixed_witness :
  let config :=
    {| UnifiedMergeConfig.original := UnifiedMergeConfig.OfString "";
       UnifiedMergeConfig.highlightChanges := None;
       UnifiedMergeConfig.gutter := None;
       UnifiedMergeConfig.syntaxHighlightDeletions := None;
       UnifiedMergeConfig.allowInlineDiffs := None;
       UnifiedMergeConfig.syntaxHighlightDeletionsMaxLength := Some 100000;
       UnifiedMergeConfig.mergeControls := None;
       UnifiedMergeConfig.diffConfig := None |} in
  let long := Chunk.mk [] 0 3001 3000 0 0 0 in
  let lang := Some (fun _ : Text.t => [(0, 3, "tok-keyword"%string)]) in
  DeletionWidget.buildDOM (unifiedMergeView_mergeConfig config) lang long
    false (Text.of_string "one")
  = DeletionWidget.buildDOM (unifiedMergeView_mergeConfig config) None long
      false (Text.of_string "one").
Proof.
  intros config long lang.
  destruct (highlight_limit_is_fixed config lang long false
              (Text.of_string "one")) as (_ & _ & H & _).
  apply H. cbn. lia.
Defined.

(** * The marking of changes in the widget *)

Lemma StronglySorted_nth {A : Type} (R : A -> A -> Prop) (l : list A) :
  StronglySorted R l ->
  forall i j a b,
    (i < j)%nat -> nth_error l i = Some a -> nth_error l j = Some b -> R a b.
Proof.
  induction 1 as [|x l Hsorted IH Hall]; intros i j a b Hij Ha Hb.
  - destruct i; discriminate Ha.
  - destruct j as [|j]; [lia|]. cbn [nth_error] in Hb.
    destruct i as [|i].
    + inversion Ha; subst a.
      rewrite Forall_forall in Hall. apply Hall.
      exact (nth_error_In _ _ Hb).
    + cbn [nth_error] in Ha. apply (IH i j); [lia|exact Ha|exact Hb].
Qed.

(** Outside the changes: before the change that comes next. *)
Lemma inChange_outside (changes : list Change.t) (st : DeletionWidget.Lines)
    (at_ p : Z) :
  DeletionWidget.changesInOrder changes ->
  DeletionWidget.caughtUp changes st at_ ->
  DeletionWidget.inside st = false ->
  0 <= at_ <= p ->
  (forall ch,
      nth_error changes (DeletionWidget.changeI st) = Some ch ->
      p < Z.max 0 (Change.fromA ch)) ->
  DeletionWidget.inChange changes p = false.
Proof.
  intros [Hrange Hsorted] [Hdone _] Hin Hp Hnext.
  unfold DeletionWidget.inChange.
  destruct (existsb _ changes) eqn:E; [|reflexivity]. exfalso.
  apply existsb_exists in E as (ch & Hch & Htest).
  apply andb_true_iff in Htest as [H1 H2].
  apply Z.leb_le in H1. apply Z.ltb_lt in H2.
  apply In_nth_error in Hch as [i Hi].
  destruct (Nat.lt_ge_cases i (DeletionWidget.changeI st)) as [Hlt|Hge].
  - specialize (Hdone i ch Hlt Hi). lia.
  - assert (Hci : exists c,
               nth_error changes (DeletionWidget.changeI st) = Some c).
    { destruct (nth_error changes (DeletionWidget.changeI st)) as [c|] eqn:En;
        [exists c; reflexivity|].
      apply nth_error_None in En.
      assert (i < List.length changes)%nat
        by (apply nth_error_Some; rewrite Hi; discriminate).
      lia. }
    destruct Hci as [c Hc]. specialize (Hnext c Hc).
    destruct (Nat.eq_dec i (DeletionWidget.changeI st)) as [->|Hne].
    + rewrite Hc in Hi. inversion Hi; subst c. lia.
    + assert (Hord : Change.toA c <= Change.fromA ch).
      { apply (StronglySorted_nth _ _ Hsorted (DeletionWidget.changeI st) i);
          [lia|exact Hc|exact Hi]. }
      rewrite Forall_forall in Hrange.
      pose proof (Hrange c (nth_error_In _ _ Hc)). lia.
Qed.

(** Inside the change that is open. *)
Lemma inChange_inside (changes : list Change.t) (st : DeletionWidget.Lines)
    (at_ p : Z) (ch : Change.t) :
  DeletionWidget.caughtUp changes st at_ ->
  DeletionWidget.inside st = true ->
  nth_error changes (DeletionWidget.changeI st) = Some ch ->
  0 <= at_ <= p ->
  p < Z.max 0 (Change.toA ch) ->
  DeletionWidget.inChange changes p = true.
Proof.
  intros [_ Hopen] Hin Hch Hp Hto.
  destruct (Hopen Hin) as (c & Hc & Hfrom).
  rewrite Hch in Hc. inversion Hc; subst c.
  unfold DeletionWidget.inChange. apply existsb_exists. exists ch.
  split; [exact (nth_error_In _ _ Hch)|].
  apply andb_true_iff. split; [apply Z.leb_le|apply Z.ltb_lt]; lia.
Qed.

Lemma marksFrom_app (changes : list Change.t) (s1 s2 : Text.t) (p : Z) :
  DeletionWidget.marksFrom changes (s1 ++ s2) p
  = DeletionWidget.marksFrom changes s1 p
    ++ DeletionWidget.marksFrom changes s2 (p + Text.length s1).
Proof.
  revert p. induction s1 as [|c s1 IH]; intro p.
  - cbn [app DeletionWidget.marksFrom]. f_equal. unfold Text.length.
    cbn [List.length]. lia.
  - cbn [app DeletionWidget.marksFrom]. rewrite IH.
    replace (p + 1 + Text.length s1) with (p + Text.length (c :: s1))
      by (unfold Text.length; cbn [List.length]; lia).
    destruct (Ascii.eqb c Text.nl); reflexivity.
Qed.

(** A stretch without line feeds all of whose positions answer alike. *)
Lemma marksFrom_const (changes : list Change.t) (seg : Text.t) (p : Z)
    (b : bool) :
  ~ In Text.nl seg ->
  (forall q, p <= q < p + Text.length seg ->
             DeletionWidget.inChange changes q = b) ->
  DeletionWidget.marksFrom changes seg p = map (fun c => (c, b)) seg.
Proof.
  revert p. induction seg as [|c seg IH]; intros p Hnl Hall; [reflexivity|].
  cbn [DeletionWidget.marksFrom map].
  destruct (Ascii.eqb c Text.nl) eqn:E.
  - apply Ascii.eqb_eq in E. exfalso. apply Hnl. left. exact E.
  - assert (Hlen : Text.length (c :: seg) = 1 + Text.length seg)
      by (unfold Text.length; cbn [List.length]; lia).
    pose proof (Text_length_nonneg seg).
    rewrite (Hall p) by lia. f_equal. apply IH.
    + intro H0. apply Hnl. right. exact H0.
    + intros q Hq. apply Hall. lia.
Qed.

Lemma lineMarks_orBr (l : list Dom.Node) :
  DeletionWidget.lineMarks (DeletionWidget.orBr l)
  = DeletionWidget.lineMarks l.
Proof. destruct l; reflexivity. Qed.

Lemma lineMarks_snoc (l : list Dom.Node) (inside : bool) (data : Text.t) :
  DeletionWidget.lineMarks
    (l ++ [DeletionWidget.textNode
             ("" ++ (if inside then " cm-deletedText" else ""))%string data])
  = DeletionWidget.lineMarks l ++ map (fun c => (c, inside)) data.
Proof.
  unfold DeletionWidget.lineMarks. rewrite flat_map_app. f_equal.
  destruct inside; cbn [flat_map]; rewrite app_nil_r;
    unfold DeletionWidget.textNode, DeletionWidget.marked;
    cbn [append String.eqb Ascii.eqb Bool.eqb Dom.className Dom.textContent
           flat_map]; rewrite ?app_nil_r; reflexivity.
Qed.

Lemma allMarks_eq (st : DeletionWidget.Lines) :
  DeletionWidget.allMarks st
  = flat_map DeletionWidget.lineMarks (DeletionWidget.closed st)
    ++ DeletionWidget.lineMarks (DeletionWidget.line st).
Proof.
  unfold DeletionWidget.allMarks. rewrite flat_map_app. cbn [flat_map].
  rewrite app_nil_r. reflexivity.
Qed.

Lemma caughtUp_later (changes : list Change.t) (st : DeletionWidget.Lines)
    (at_ at' : Z) :
  at_ <= at' ->
  DeletionWidget.caughtUp changes st at_ ->
  DeletionWidget.caughtUp changes st at'.
Proof.
  intros Hle [Hdone Hopen]. split.
  - intros i ch Hi Hch. specialize (Hdone i ch Hi Hch). lia.
  - intro Hin. destruct (Hopen Hin) as (ch & Hch & Hfrom).
    exists ch. split; [exact Hch|lia].
Qed.

Lemma length_firstn_skipn (text : Text.t) (a b : Z) :
  0 <= a <= b -> b <= Text.length text ->
  Text.length (firstn (Z.to_nat (b - a)) (skipn (Z.to_nat a) text)) = b - a.
Proof.
  intros Ha Hb. unfold Text.length in *.
  rewrite length_firstn, length_skipn. lia.
Qed.

(** What one round of the loop adds to the marks, when changes are
    marked and no class is asked for. *)
Lemma round_marks (text : Text.t) (changes : list Change.t)
    (st : DeletionWidget.Lines) (at_ to : Z) :
  0 <= at_ < to -> to <= Text.length text ->
  DeletionWidget.changesInOrder changes ->
  DeletionWidget.caughtUp changes st at_ ->
  let r := DeletionWidget.round text changes true st at_ to "" in
  DeletionWidget.caughtUp changes (fst r) (snd r)
  /\ DeletionWidget.allMarks (fst r)
     = DeletionWidget.allMarks st
       ++ DeletionWidget.marksFrom changes
            (firstn (Z.to_nat (snd r - at_)) (skipn (Z.to_nat at_) text)) at_.
Proof.
  intros Hat Hto Hord Hinv r.
  destruct (round_spec text changes true st at_ to "")
    as [[Hc Hr]|(Hc & ns & ci' & flip & Hr & Hns & Hflip)].
  - subst r. rewrite Hr. cbn [fst snd]. split.
    + apply (caughtUp_later _ _ at_); [lia|]. exact Hinv.
    + rewrite !allMarks_eq.
      cbn [DeletionWidget.newLine DeletionWidget.closed DeletionWidget.line].
      rewrite flat_map_app. cbn [flat_map DeletionWidget.lineMarks].
      rewrite lineMarks_orBr, !app_nil_r. symmetry.
      rewrite <- (app_nil_r (flat_map _ _ ++ _)) at 2. f_equal.
      rewrite charAt_skipn in Hc by lia.
      replace (Z.to_nat (at_ + 1 - at_)) with 1%nat by lia.
      destruct (skipn (Z.to_nat at_) text) as [|x rest]; [discriminate|].
      inversion Hc. reflexivity.
  - destruct (nextStop_spec text at_ to Hat Hto Hc) as [Hstop Hnl].
    cbv zeta in Hstop, Hnl, Hns, Hflip.
    set (stop := if (JsString.indexOf text Text.nl at_ >? -1)
                    && (JsString.indexOf text Text.nl at_ <? to)
                 then JsString.indexOf text Text.nl at_ else to) in *.
    subst r. rewrite Hr. cbn [fst snd].
    assert (Hnext : at_ <= (if ns >? at_ then ns else at_)
                    /\ ns <= (if ns >? at_ then ns else at_))
      by (destruct (Z.gtb_spec ns at_); lia).
    split.
    + (* the place in the changes after the round *)
      destruct Hflip as [(-> & _ & -> & _)|(-> & _ & ch & Hch & Hb & ->)].
      * apply (caughtUp_later _ _ at_); [lia|].
        destruct Hinv as [Hdone Hopen]. split; [exact Hdone|exact Hopen].
      * destruct Hinv as [Hdone Hopen].
        destruct (DeletionWidget.inside st) eqn:Hin; cbn [negb]; split;
          cbn [DeletionWidget.changeI DeletionWidget.inside].
        -- intros i c Hi Hci.
           destruct (Nat.eq_dec i (DeletionWidget.changeI st)) as [->|Hne].
           ++ rewrite Hch in Hci. inversion Hci; subst c. lia.
           ++ assert (Hlt : (i < DeletionWidget.changeI st)%nat) by lia.
              specialize (Hdone i c Hlt Hci). lia.
        -- discriminate.
        -- intros i c Hi Hci. specialize (Hdone i c Hi Hci). lia.
        -- intros _. exists ch. split; [exact Hch|lia].
    + (* the marks of the text node, if there is one *)
      destruct (Z.gtb_spec ns at_) as [Hgt|Hle].
      * rewrite !allMarks_eq.
        cbn [DeletionWidget.closed DeletionWidget.line].
        rewrite lineMarks_snoc, slice_inside by lia.
        rewrite <- app_assoc. f_equal. f_equal. symmetry.
        apply marksFrom_const.
        -- apply (firstn_no_In _ _ (Z.to_nat (stop - at_))); [lia|exact Hnl].
        -- intros q Hq. rewrite length_firstn_skipn in Hq by lia.
           destruct (DeletionWidget.inside st) eqn:Hin.
           ++ destruct Hinv as [Hdone Hopen].
              destruct (Hopen Hin) as (c & Hc' & Hfrom).
              apply (inChange_inside changes st at_ q c);
                [split; assumption|exact Hin|exact Hc'|lia|].
              destruct Hflip as [(_ & -> & _ & Hfar)
                                |(_ & _ & ch & Hch & Hb & _)].
              ** specialize (Hfar eq_refl c Hc'). rewrite ?Hin in Hfar. lia.
              ** rewrite Hch in Hc'. inversion Hc'; subst c.
                 rewrite ?Hin in Hb. lia.
           ++ apply (inChange_outside changes st at_ q);
                [exact Hord|exact Hinv|exact Hin|lia|].
              intros c Hc'.
              destruct Hflip as [(_ & -> & _ & Hfar)
                                |(_ & _ & ch & Hch & Hb & _)].
              ** specialize (Hfar eq_refl c Hc'). rewrite ?Hin in Hfar. lia.
              ** rewrite Hch in Hc'. inversion Hc'; subst c.
                 rewrite ?Hin in Hb. lia.
      * replace (Z.to_nat (at_ - at_)) with 0%nat by lia.
        cbn [firstn DeletionWidget.marksFrom]. rewrite app_nil_r.
        reflexivity.
Qed.

Lemma addFrom_marks (text : Text.t) (changes : list Change.t) (to : Z)
    (fuel : nat) :
  forall (st st' : DeletionWidget.Lines) (at_ : Z),
    0 <= at_ -> to <= Text.length text ->
    DeletionWidget.changesInOrder changes ->
    DeletionWidget.caughtUp changes st at_ ->
    DeletionWidget.addFrom text changes true fuel st at_ to "" = Some st' ->
    DeletionWidget.allMarks st'
    = DeletionWidget.allMarks st
      ++ DeletionWidget.marksFrom changes
           (firstn (Z.to_nat (to - at_)) (skipn (Z.to_nat at_) text)) at_.
Proof.
  induction fuel as [|fuel IH]; intros st st' at_ Hat Hto Hord Hinv Hadd.
  - cbn [DeletionWidget.addFrom] in Hadd.
    destruct (Z.ltb_spec at_ to); [discriminate|]. inversion Hadd; subst st'.
    replace (Z.to_nat (to - at_)) with 0%nat by lia.
    cbn [firstn DeletionWidget.marksFrom]. rewrite app_nil_r. reflexivity.
  - rewrite addFrom_round in Hadd. destruct (Z.ltb_spec at_ to) as [Hlt|Hge].
    + destruct (round_shown text changes true st at_ to "")
        as (Hnext & _); [lia|exact Hto|].
      destruct (round_marks text changes st at_ to) as [Hinv' Hmarks];
        [lia|exact Hto|exact Hord|exact Hinv|].
      cbv zeta in Hnext, Hinv', Hmarks.
      rewrite (IH _ _ _ (proj1 (conj (Z.le_trans _ _ _ Hat (proj1 Hnext)) I))
                 Hto Hord Hinv' Hadd).
      rewrite Hmarks, <- app_assoc. f_equal.
      rewrite (firstn_skipn_split text at_
                 (snd (DeletionWidget.round text changes true st at_ to ""))
                 to) by lia.
      rewrite marksFrom_app, length_firstn_skipn by lia.
      repeat f_equal. lia.
    + inversion Hadd; subst st'.
      replace (Z.to_nat (to - at_)) with 0%nat by lia.
      cbn [firstn DeletionWidget.marksFrom]. rewrite app_nil_r. reflexivity.
Qed.

(** Without the marking of changes the loop runs as it does with marking
    and no change at all. *)
Lemma addFrom_unmarked (text : Text.t) (changes : list Change.t) (to : Z)
    (cls : string) (fuel : nat) :
  forall (st : DeletionWidget.Lines) (at_ : Z),
    DeletionWidget.addFrom text changes false fuel st at_ to cls
    = DeletionWidget.addFrom text [] true fuel st at_ to cls.
Proof.
  induction fuel as [|fuel IH]; intros st at_; [reflexivity|].
  rewrite !addFrom_round.
  assert (Hround : DeletionWidget.round text changes false st at_ to cls
                   = DeletionWidget.round text [] true st at_ to cls).
  { unfold DeletionWidget.round.
    destruct (DeletionWidget.changeI st); reflexivity. }
  rewrite Hround. destruct (at_ <? to); [apply IH|reflexivity].
Qed.

Lemma deletedMarks_of_lines (buttons : MergeControls)
    (lines : list (list Dom.Node)) :
  DeletionWidget.deletedMarks
    (Dom.Element "div" "cm-deletedChunk"
       (DeletionWidget.controls buttons
        ++ map DeletionWidget.lineDiv lines))
  = flat_map DeletionWidget.lineMarks lines.
Proof.
  unfold DeletionWidget.deletedMarks. cbn [Dom.children].
  rewrite filter_app.
  replace (filter _ (DeletionWidget.controls buttons)) with (@nil Dom.Node)
    by (destruct buttons as [[|]|]; reflexivity).
  cbn [app]. induction lines as [|l rest IH]; [reflexivity|].
  cbn [map filter].
  change (Dom.className (DeletionWidget.lineDiv l))
    with "cm-deletedLine"%string.
  rewrite String.eqb_refl. cbn [flat_map]. f_equal; [|exact IH].
  unfold DeletionWidget.lineDiv. cbn [Dom.children flat_map].
  rewrite !app_nil_r. reflexivity.
Qed.

(** X15.  Where no syntax highlighting is applied, the widget of a chunk
    marks as deleted text exactly the characters that lie in one of the
    chunk's changes: reading the text nodes of the widget in order gives
    the characters of A's text of the chunk other than line feeds, and a
    character stands in a [span] of class [cm-deletedText] exactly when its
    position is inside a change (from [fromA] up to [toA], relative to the
    chunk), provided the changes are ranges that follow one another.  With
    [highlightChanges] off no character is marked. *)
Theorem deleted_text_is_marked (conf : MergeConfig.t)
    (lang : option (Text.t -> list (Z * Z * string))) (chunk : Chunk.t)
    (orig : Text.t) :
  Chunk.fromA chunk < Chunk.toA chunk ->
  MergeConfig.syntaxHighlightDeletions conf = false \/ lang = None ->
  DeletionWidget.changesInOrder (Chunk.changes chunk) ->
  let text := Text.sliceString orig (Chunk.fromA chunk) (Chunk.endA chunk) in
  exists dom,
    DeletionWidget.buildDOM conf lang chunk false orig = Some dom
    /\ DeletionWidget.deletedMarks dom
       = DeletionWidget.marksFrom
           (if MergeConfig.highlightChanges conf
            then Chunk.changes chunk else []) text 0.
Proof.
  intros Hchunk Hplain Hord text. unfold DeletionWidget.buildDOM.
  replace (Chunk.fromA chunk >=? Chunk.toA chunk) with false
    by (symmetry; rewrite Z.geb_leb; apply Z.leb_gt; lia).
  cbn [orb]. fold text.
  set (changes := Chunk.changes chunk) in *.
  set (hc := MergeConfig.highlightChanges conf).
  assert (Hsame :
            match (if MergeConfig.syntaxHighlightDeletions conf
                   then lang else None) with
            | Some highlight =>
                if Chunk.toA chunk - Chunk.fromA chunk
                   <=? MergeConfig.syntaxHighlightDeletionsMaxLength conf
                then
                  match DeletionWidget.addSpans text changes hc
                          (highlight text) DeletionWidget.start 0 with
                  | Some (st, pos) =>
                      DeletionWidget.add text changes hc st pos
                        (Text.length text) ""
                  | None => None
                  end
                else DeletionWidget.add text changes hc DeletionWidget.start
                       0 (Text.length text) ""
            | None => DeletionWidget.add text changes hc DeletionWidget.start
                        0 (Text.length text) ""
            end
            = DeletionWidget.add text changes hc DeletionWidget.start 0
                (Text.length text) "").
  { destruct Hplain as [->| ->]; [reflexivity|].
    destruct (MergeConfig.syntaxHighlightDeletions conf); reflexivity. }
  rewrite Hsame.
  destruct (add_spec text changes hc DeletionWidget.start 0
              (Text.length text) "") as (st & Hadd & _); [lia|lia|].
  rewrite Hadd. eexists. split; [reflexivity|].
  rewrite deletedMarks_of_lines, flat_map_app. cbn [flat_map].
  rewrite lineMarks_orBr, app_nil_r, <- allMarks_eq.
  assert (Hall : firstn (Z.to_nat (Text.length text - 0))
                   (skipn (Z.to_nat 0) text) = text).
  { cbn [Z.to_nat skipn]. apply firstn_all2. unfold Text.length. lia. }
  assert (Hstart : forall l, DeletionWidget.caughtUp l DeletionWidget.start 0).
  { intro l. split.
    - intros i ch Hi. cbn [DeletionWidget.start DeletionWidget.changeI] in Hi.
      lia.
    - discriminate. }
  unfold DeletionWidget.add in Hadd. destruct hc.
  - rewrite (addFrom_marks text changes (Text.length text) _ _ _ 0
               (Z.le_refl 0) (Z.le_refl _) Hord (Hstart changes) Hadd).
    rewrite Hall. reflexivity.
  - rewrite addFrom_unmarked in Hadd.
    assert (Hnil : DeletionWidget.changesInOrder [])
      by (split; constructor).
    rewrite (addFrom_marks text [] (Text.length text) _ _ _ 0
               (Z.le_refl 0) (Z.le_refl _) Hnil (Hstart []) Hadd).
    rewrite Hall. reflexivity.
Qed.

Lemma deleted_text_is_marked_witness :
  let conf :=
    {| MergeConfig.highlightChanges := true; MergeConfig.markGutter := true;
       MergeConfig.syntaxHighlightDeletions := true;
       MergeConfig.syntaxHighlightDeletionsMaxLength := 3000;
       MergeConfig.mergeControls := ControlsFlag true;
       MergeConfig.overrideChunk := false; MergeConfig.side := "b" |} in
  let chunk :=
    Chunk.mk [Change.mk 0 1 0 1; Change.mk 4 5 4 5] 4 14 13 4 14 13 in
  exists dom,
    DeletionWidget.buildDOM conf None chunk false Examples.readmeA = Some dom
    /\ DeletionWidget.deletedMarks dom
       = [("t"%char, true); ("w"%char, false); ("o"%char, false);
          ("t"%char, true); ("h"%char, false); ("r"%char, false);
          ("e"%char, false); ("e"%char, false)].
Proof.
  intros conf chunk.
  destruct (deleted_text_is_marked conf None chunk Examples.readmeA)
    as (dom & Hdom & Hmarks).
  - cbn. lia.
  - right. reflexivity.
  - split.
    + repeat constructor; cbn; lia.
    + repeat constructor; cbn; lia.
  - exists dom. split; [exact Hdom|]. rewrite Hmarks. vm_compute.
    reflexivity.
Defined.

(** * Chunks displayed inline *)

Lemma existsb_nl_false (t : Text.t) :
  existsb (Ascii.eqb Text.nl) t = false <-> ~ In Text.nl t.
Proof.
  split.
  - intros H Hin. assert (existsb (Ascii.eqb Text.nl) t = true).
    { apply existsb_exists. exists Text.nl. split; [exact Hin|].
      apply Ascii.eqb_refl. }
    congruence.
  - intro H. destruct (existsb (Ascii.eqb Text.nl) t) eqn:E; [|reflexivity].
    apply existsb_exists in E as (c & Hc & Heq).
    apply Ascii.eqb_eq in Heq. subst c. contradiction.
Qed.

Lemma sliceString_backwards (d : Text.t) (f t : Z) :
  t <= f -> Text.sliceString d f t = [].
Proof.
  intro H. unfold Text.sliceString, Text.clip.
  replace (Z.max (Z.max 0 (Z.min (Text.length d) f))
             (Z.min (Text.length d) t)
           - Z.max 0 (Z.min (Text.length d) f)) with 0 by lia.
  reflexivity.
Qed.

(** The loop over the changes, in closed form: the ranges of the changes
    one after the other and the number of deleted characters, unless a
    deleted text holds a line break. *)
Lemma inlineRanges_spec (a : Text.t) (bA bB : Z) (changes : list Change.t) :
  forall (deco : list Deco.range) (n : Z),
    (Forall (fun ch =>
               ~ In Text.nl (Text.sliceString a (bA + Change.fromA ch)
                               (bA + Change.toA ch))) changes ->
     inlineRanges a bA bB changes deco n
     = Some (deco ++ flat_map (rangesOf a bA bB) changes,
             n + deletedCount changes))
    /\ (~ Forall (fun ch =>
                    ~ In Text.nl (Text.sliceString a (bA + Change.fromA ch)
                                    (bA + Change.toA ch))) changes ->
        inlineRanges a bA bB changes deco n = None).
Proof.
  induction changes as [|ch rest IH]; intros deco n.
  - split.
    + intros _. cbn [inlineRanges flat_map deletedCount fold_right].
      rewrite app_nil_r. f_equal. f_equal. lia.
    + intro H. exfalso. apply H. constructor.
  - cbn [inlineRanges flat_map deletedCount fold_right].
    fold (deletedCount rest).
    set (tail := flat_map (rangesOf a bA bB) rest) in *.
    unfold rangesOf. subst tail.
    destruct (Z.ltb_spec (Change.fromA ch) (Change.toA ch)) as [Hdel|Hdel].
    + destruct (existsb (Ascii.eqb Text.nl)
                  (Text.sliceString a (bA + Change.fromA ch)
                     (bA + Change.toA ch))) eqn:E.
      * split; [|reflexivity]. intro H. inversion H as [|? ? Hnl _]; subst.
        apply existsb_nl_false in Hnl. congruence.
      * apply existsb_nl_false in E.
        destruct (Change.fromB ch <? Change.toB ch);
          match goal with
          | |- context [inlineRanges a bA bB rest ?d ?m] =>
              destruct (IH d m) as [IH1 IH2]
          end;
          (split;
           [intro H; inversion H as [|? ? _ Hrest]; subst;
            rewrite (IH1 Hrest), <- !app_assoc; cbn [app];
            f_equal; f_equal; lia
           |intro H; apply IH2; intro Hrest; apply H; constructor;
            [exact E|exact Hrest]]).
    + assert (Hnone : ~ In Text.nl
                          (Text.sliceString a (bA + Change.fromA ch)
                             (bA + Change.toA ch)))
        by (rewrite sliceString_backwards by lia; intros []).
      destruct (Change.fromB ch <? Change.toB ch);
        match goal with
        | |- context [inlineRanges a bA bB rest ?d ?m] =>
            destruct (IH d m) as [IH1 IH2]
        end;
        (split;
         [intro H; inversion H as [|? ? _ Hrest]; subst;
          rewrite (IH1 Hrest), <- ?app_assoc; cbn [app];
          f_equal; f_equal; lia
         |intro H; apply IH2; intro Hrest; apply H; constructor;
          [exact Hnone|exact Hrest]]).
Qed.

(** X16.  [chunkCanDisplayInline] gives decorations for a chunk exactly
    when all four positions of the chunk are inside the documents, the
    chunk covers the same number of lines, fewer than 10, on both sides, no
    change deletes text that holds a line break, and the changes delete
    fewer characters than the chunk's text in A has beyond two per line;
    the decorations then are, change by change, a widget with the deleted
    text at the change's start in B when the change deletes anything, and
    a mark over the inserted text when it inserts anything. *)
Theorem inline_display_conditions (state : EditorState) (chunk : Chunk.t)
    (deco : list Deco.range) :
  chunkCanDisplayInline state chunk = Some (Some deco) <->
  exists endLineA fromLineA endLineB fromLineB,
    lineAt (originalDoc state) (Chunk.endA chunk) = Some endLineA
    /\ lineAt (originalDoc state) (Chunk.fromA chunk) = Some fromLineA
    /\ lineAt (doc state) (Chunk.endB chunk) = Some endLineB
    /\ lineAt (doc state) (Chunk.fromB chunk) = Some fromLineB
    /\ Line.number endLineA - Line.number fromLineA
       = Line.number endLineB - Line.number fromLineB
    /\ Line.number endLineA - Line.number fromLineA + 1 < 10
    /\ Forall (fun ch =>
                 ~ In Text.nl
                     (Text.sliceString (originalDoc state)
                        (Chunk.fromA chunk + Change.fromA ch)
                        (Chunk.fromA chunk + Change.toA ch)))
         (Chunk.changes chunk)
    /\ deletedCount (Chunk.changes chunk)
       < Chunk.endA chunk - Chunk.fromA chunk
         - (Line.number endLineA - Line.number fromLineA + 1) * 2
    /\ deco = flat_map (rangesOf (originalDoc state) (Chunk.fromA chunk)
                          (Chunk.fromB chunk)) (Chunk.changes chunk).
Proof.
  unfold chunkCanDisplayInline.
  destruct (lineAt (originalDoc state) (Chunk.endA chunk)) as [eA|];
    [|split; [discriminate|intros (? & ? & ? & ? & H & _); discriminate H]].
  destruct (lineAt (originalDoc state) (Chunk.fromA chunk)) as [fA|];
    [|split; [discriminate
             |intros (? & ? & ? & ? & _ & H & _); discriminate H]].
  destruct (lineAt (doc state) (Chunk.endB chunk)) as [eB|];
    [|split; [discriminate
             |intros (? & ? & ? & ? & _ & _ & H & _); discriminate H]].
  destruct (lineAt (doc state) (Chunk.fromB chunk)) as [fB|];
    [|split; [discriminate
             |intros (? & ? & ? & ? & _ & _ & _ & H & _); discriminate H]].
  destruct (inlineRanges_spec (originalDoc state) (Chunk.fromA chunk)
              (Chunk.fromB chunk) (Chunk.changes chunk) [] 0)
    as [Hok Hbreak].
  split.
  - intro H. exists eA, fA, eB, fB.
    do 4 (split; [reflexivity|]).
    destruct (Z.eqb_spec (Line.number eA - Line.number fA + 1)
                (Line.number eB - Line.number fB + 1)) as [Heq|Hne];
      [|discriminate H].
    destruct (Z.ltb_spec (Line.number eA - Line.number fA + 1) 10)
      as [Hlt|Hge]; [|discriminate H].
    cbn [andb] in H.
    destruct (Forall_dec
                (fun ch =>
                   ~ In Text.nl
                       (Text.sliceString (originalDoc state)
                          (Chunk.fromA chunk + Change.fromA ch)
                          (Chunk.fromA chunk + Change.toA ch)))
                (fun ch =>
                   match in_dec ascii_dec Text.nl
                           (Text.sliceString (originalDoc state)
                              (Chunk.fromA chunk + Change.fromA ch)
                              (Chunk.fromA chunk + Change.toA ch)) with
                   | left i => right (fun n => n i)
                   | right n => left n
                   end)
                (Chunk.changes chunk)) as [Hall|Hnot].
    + rewrite (Hok Hall) in H. cbn [app Z.add] in H.
      destruct (Z.ltb_spec (deletedCount (Chunk.changes chunk))
                  (Chunk.endA chunk - Chunk.fromA chunk
                   - (Line.number eA - Line.number fA + 1) * 2))
        as [Hcount|Hcount]; [|discriminate H].
      inversion H; subst deco.
      split; [lia|]. split; [exact Hlt|]. split; [exact Hall|].
      split; [exact Hcount|reflexivity].
    + rewrite (Hbreak Hnot) in H. discriminate H.
  - intros (eA' & fA' & eB' & fB' & H1 & H2 & H3 & H4 & Heq & Hlt & Hall
            & Hcount & ->).
    inversion H1; inversion H2; inversion H3; inversion H4; subst.
    replace (Line.number eA' - Line.number fA' + 1
             =? Line.number eB' - Line.number fB' + 1) with true
      by (symmetry; apply Z.eqb_eq; lia).
    replace (Line.number eA' - Line.number fA' + 1 <? 10) with true
      by (symmetry; apply Z.ltb_lt; lia).
    cbn [andb]. rewrite (Hok Hall). cbn [app Z.add].
    replace (deletedCount (Chunk.changes chunk)
             <? Chunk.endA chunk - Chunk.fromA chunk
                - (Line.number eA' - Line.number fA' + 1) * 2) with true
      by (symmetry; apply Z.ltb_lt; lia).
    reflexivity.
Qed.

Lemma inline_display_conditions_witness :
  let a := Text.of_lines ["one"%string; "a long line of text"%string;
                          "second long line"%string; "three"%string] in
  let b := Text.of_lines ["one"%string; "a lang line of texts"%string;
                          "second lone"%string; "three"%string] in
  let chunk :=
    Chunk.mk [Change.mk 3 4 3 4; Change.mk 19 19 19 20; Change.mk 30 35 31 31]
      4 41 40 4 37 36 in
  let state := {| doc := b; head := 0; originalDoc := a;
                  ChunkField := [chunk] |} in
  chunkCanDisplayInline state chunk
  = Some (Some [Deco.mk 7 7 (Deco.InlineDeletion (Text.of_string "o"));
                Deco.mk 7 8 Deco.changedText;
                Deco.mk 23 24 Deco.changedText;
                Deco.mk 35 35 (Deco.InlineDeletion (Text.of_string "g lin"))]).
Proof.
  intros a b chunk state.
  apply (proj2 (inline_display_conditions state chunk _)).
  exists (Line.mk 24 40 3), (Line.mk 4 23 2), (Line.mk 25 36 3),
    (Line.mk 4 24 2).
  repeat split; try (vm_compute; reflexivity); try (vm_compute; congruence).
  repeat constructor; vm_compute; intuition congruence.
Defined.

(** * Lines *)

Lemma lineLength_bounds (d : Text.t) :
  0 <= lineLength d <= Z.of_nat (List.length d).
Proof.
  induction d as [|c rest IH]; cbn [lineLength List.length]; [lia|].
  destruct (Ascii.eqb c Text.nl); lia.
Qed.

Lemma lineLength_no_nl (d : Text.t) :
  forall j : nat, Z.of_nat j < lineLength d -> nth_error d j <> Some Text.nl.
Proof.
  induction d as [|c rest IH]; intros j Hj; cbn [lineLength] in Hj.
  - lia.
  - destruct (Ascii.eqb c Text.nl) eqn:E; [lia|].
    destruct j as [|j']; cbn [nth_error].
    + intro H. inversion H; subst c. rewrite Ascii.eqb_refl in E.
      discriminate E.
    + apply IH. lia.
Qed.

Lemma lineLength_stop (d : Text.t) :
  lineLength d < Z.of_nat (List.length d) ->
  nth_error d (Z.to_nat (lineLength d)) = Some Text.nl.
Proof.
  induction d as [|c rest IH]; cbn [lineLength List.length]; [lia|].
  destruct (Ascii.eqb c Text.nl) eqn:E; intro H.
  - apply Ascii.eqb_eq in E. subst c. reflexivity.
  - pose proof (lineLength_bounds rest).
    replace (Z.to_nat (1 + lineLength rest))
      with (S (Z.to_nat (lineLength rest))) by lia.
    cbn [nth_error]. apply IH. lia.
Qed.

Lemma lineLength_unique (d : Text.t) :
  forall m : nat,
    (m <= List.length d)%nat ->
    (forall j, (j < m)%nat -> nth_error d j <> Some Text.nl) ->
    ((m < List.length d)%nat -> nth_error d m = Some Text.nl) ->
    lineLength d = Z.of_nat m.
Proof.
  induction d as [|c rest IH]; intros m Hm Hno Hstop;
    cbn [lineLength List.length] in *.
  - lia.
  - destruct (Ascii.eqb c Text.nl) eqn:E.
    + apply Ascii.eqb_eq in E. subst c.
      destruct m as [|m']; [reflexivity|].
      exfalso. apply (Hno 0%nat); [lia|reflexivity].
    + destruct m as [|m'].
      * assert (H : nth_error (c :: rest) 0 = Some Text.nl)
          by (apply Hstop; lia).
        inversion H; subst c. rewrite Ascii.eqb_refl in E. discriminate E.
      * rewrite (IH m'); [lia|lia| |].
        -- intros j Hj. apply (Hno (S j)). lia.
        -- intro H. apply Hstop. lia.
Qed.

Lemma lineScan_to (d : Text.t) :
  forall (k : nat) (off start n : Z),
    (k <= List.length d)%nat ->
    Line.to (lineScan d k off start n)
    = off + Z.of_nat k + lineLength (skipn k d).
Proof.
  induction d as [|c rest IH]; intros k off start n Hk.
  - cbn [List.length] in Hk. assert (k = 0%nat) by lia. subst k.
    cbn. lia.
  - destruct k as [|k']; [cbn [lineScan Line.to skipn]; lia|].
    cbn [lineScan skipn]. cbn [List.length] in Hk.
    destruct (Ascii.eqb c Text.nl); rewrite IH by lia; lia.
Qed.

Lemma lineScan_from (d : Text.t) :
  forall (k : nat) (off start n : Z),
    (k <= List.length d)%nat -> start <= off ->
    start <= Line.from (lineScan d k off start n) <= off + Z.of_nat k
    /\ (Line.from (lineScan d k off start n) = start
        \/ exists j, (j < k)%nat /\ nth_error d j = Some Text.nl
                     /\ Line.from (lineScan d k off start n)
                        = off + Z.of_nat j + 1)
    /\ (forall j, (j < k)%nat ->
                  Line.from (lineScan d k off start n) <= off + Z.of_nat j ->
                  nth_error d j <> Some Text.nl).
Proof.
  induction d as [|c rest IH]; intros k off start n Hk Hstart.
  - cbn [List.length] in Hk. assert (k = 0%nat) by lia. subst k.
    cbn. split; [lia|]. split; [left; reflexivity|]. intros j Hj. lia.
  - destruct k as [|k'].
    { cbn [lineScan Line.from]. split; [lia|]. split; [left; reflexivity|].
      intros j Hj. lia. }
    cbn [lineScan]. cbn [List.length] in Hk.
    destruct (Ascii.eqb c Text.nl) eqn:E.
    + apply Ascii.eqb_eq in E. subst c.
      destruct (IH k' (off + 1) (off + 1) (n + 1)) as (Hb & Hor & Hno);
        [lia|lia|].
      split; [lia|]. split.
      * right. destruct Hor as [Heq|(j & Hj & Hnl & Heq)].
        -- exists 0%nat. split; [lia|]. split; [reflexivity|]. lia.
        -- exists (S j). split; [lia|]. split; [exact Hnl|]. lia.
      * intros j Hj Hle. destruct j as [|j']; [lia|].
        cbn [nth_error]. apply Hno; lia.
    + destruct (IH k' (off + 1) start n) as (Hb & Hor & Hno); [lia|lia|].
      split; [lia|]. split.
      * destruct Hor as [Heq|(j & Hj & Hnl & Heq)]; [left; exact Heq|].
        right. exists (S j). split; [lia|]. split; [exact Hnl|]. lia.
      * intros j Hj Hle. destruct j as [|j']; cbn [nth_error].
        -- intro H. inversion H; subst c. rewrite Ascii.eqb_refl in E.
           discriminate E.
        -- apply Hno; lia.
Qed.

Lemma lineAt_defined (b : Text.t) (p : Z) :
  0 <= p <= Text.length b -> exists l, lineAt b p = Some l.
Proof.
  intro H. unfold lineAt.
  destruct (Z.ltb_spec p 0); [lia|].
  destruct (Z.gtb_spec p (Text.length b)); [lia|].
  cbn [orb]. eexists. reflexivity.
Qed.

(** The line [lineAt] gives is a line of the document, around the
    position. *)
Lemma lineAt_spec (b : Text.t) (p : Z) (l : Line.t) :
  lineAt b p = Some l ->
  0 <= p <= Text.length b /\ Line.from l <= p <= Line.to l /\ isLineOf b l.
Proof.
  unfold lineAt.
  destruct (Z.ltb_spec p 0); [discriminate|].
  destruct (Z.gtb_spec p (Text.length b)); [discriminate|].
  cbn [orb]. intro Hl. inversion Hl as [Heq]. clear Hl.
  unfold Text.length in *.
  assert (Hk : (Z.to_nat p <= List.length b)%nat) by lia.
  pose proof (lineScan_to b (Z.to_nat p) 0 0 1 Hk) as Hto.
  destruct (lineScan_from b (Z.to_nat p) 0 0 1 Hk ltac:(lia))
    as (Hb & Hor & Hno).
  rewrite Heq in *.
  pose proof (lineLength_bounds (skipn (Z.to_nat p) b)) as Hlen.
  rewrite length_skipn in Hlen.
  split; [lia|]. split; [lia|].
  unfold isLineOf, Text.length. split; [lia|]. split; [lia|].
  split; [|split].
  - intros j Hj. destruct (Nat.lt_ge_cases j (Z.to_nat p)) as [Hlt|Hge].
    + apply Hno; lia.
    + replace j with (Z.to_nat p + (j - Z.to_nat p))%nat by lia.
      rewrite <- nth_error_skipn. apply lineLength_no_nl. lia.
  - intro Hlt.
    replace (Z.to_nat (Line.to l))
      with (Z.to_nat p + Z.to_nat (lineLength (skipn (Z.to_nat p) b)))%nat
      by lia.
    rewrite <- nth_error_skipn. apply lineLength_stop.
    rewrite length_skipn. lia.
  - intro Hpos. destruct Hor as [Hz|(j & Hj & Hnl & Hf)]; [lia|].
    replace (Z.to_nat (Line.from l - 1)) with j by lia. exact Hnl.
Qed.

(** Every position of a line is in a line that ends where that line
    ends. *)
Lemma lineAt_in_line (b : Text.t) (l : Line.t) (q : Z) :
  isLineOf b l -> Line.from l <= q <= Line.to l ->
  exists l', lineAt b q = Some l' /\ Line.to l' = Line.to l.
Proof.
  intros (Hord & Hlen & Hno & Hstop & _) Hq.
  destruct (lineAt_defined b q) as [l' Hl']; [lia|].
  exists l'. split; [exact Hl'|].
  unfold lineAt in Hl'.
  destruct ((q <? 0) || (q >? Text.length b)); [discriminate|].
  inversion Hl' as [Heq]. unfold Text.length in *.
  rewrite lineScan_to by lia.
  rewrite (lineLength_unique (skipn (Z.to_nat q) b)
             (Z.to_nat (Line.to l - q))).
  - lia.
  - rewrite length_skipn. lia.
  - intros j Hj. rewrite nth_error_skipn. apply Hno. lia.
  - rewrite length_skipn. intro H. rewrite nth_error_skipn.
    replace (Z.to_nat q + Z.to_nat (Line.to l - q))%nat
      with (Z.to_nat (Line.to l)) by lia.
    apply Hstop. lia.
Qed.

(** After a line that is not the last one comes a line that starts behind
    its line break. *)
Lemma lineAt_next (b : Text.t) (l : Line.t) :
  isLineOf b l -> Line.to l < Text.length b ->
  exists next,
    lineAt b (Line.to l + 1) = Some next
    /\ Line.from next = Line.to l + 1
    /\ isLineOf b next.
Proof.
  intros (Hord & Hlen & Hno & Hstop & _) Hlt.
  destruct (lineAt_defined b (Line.to l + 1)) as [next Hnext]; [lia|].
  exists next. split; [exact Hnext|].
  destruct (lineAt_spec _ _ _ Hnext) as (_ & Hin & Hline).
  split; [|exact Hline].
  unfold lineAt in Hnext.
  destruct ((Line.to l + 1 <? 0) || (Line.to l + 1 >? Text.length b));
    [discriminate|].
  inversion Hnext as [Heq]. unfold Text.length in *.
  destruct (lineScan_from b (Z.to_nat (Line.to l + 1)) 0 0 1) as (Hb & _ & H);
    [lia|lia|].
  rewrite Heq in *.
  destruct (Z.le_gt_cases (Line.from next) (Line.to l)) as [Hle|Hgt]; [|lia].
  exfalso. apply (H (Z.to_nat (Line.to l))); [lia|lia|].
  apply Hstop. lia.
Qed.

Lemma startsLine_after_break (b : Text.t) (s : Z) :
  startsLine b s -> 0 < s -> nth_error b (Z.to_nat (s - 1)) = Some Text.nl.
Proof.
  intros (l & Hl & Hfrom) Hpos.
  destruct (lineAt_spec _ _ _ Hl) as (_ & _ & (_ & _ & _ & _ & H)).
  rewrite Hfrom in H. apply H. exact Hpos.
Qed.

(** * The lines of a chunk that is displayed inline *)

Lemma takeInLine_cons (r : Deco.range) (rest : list Deco.range) (t : Z) :
  takeInLine (r :: rest) t
  = if Deco.to r <=? t
    then (r :: fst (takeInLine rest t), snd (takeInLine rest t))
    else ([], r :: rest).
Proof.
  cbn [takeInLine]. destruct (Deco.to r <=? t); [|reflexivity].
  destruct (takeInLine rest t). reflexivity.
Qed.

Lemma takeInLine_spec (inline : list Deco.range) (t : Z) :
  inline = fst (takeInLine inline t) ++ snd (takeInLine inline t)
  /\ Forall (fun r => Deco.to r <= t) (fst (takeInLine inline t))
  /\ match snd (takeInLine inline t) with
     | [] => True
     | r :: _ => t < Deco.to r
     end.
Proof.
  induction inline as [|r rest (IH1 & IH2 & IH3)].
  - cbn. repeat split. constructor.
  - rewrite takeInLine_cons. destruct (Z.leb_spec (Deco.to r) t) as [Hle|Hgt].
    + cbn [fst snd app]. split; [f_equal; exact IH1|].
      split; [constructor; assumption|exact IH3].
    + cbn [fst snd app]. split; [reflexivity|]. split; [constructor|exact Hgt].
Qed.

Lemma takeInLine_later (inline : list Deco.range) (t1 t2 : Z) :
  t1 <= t2 ->
  fst (takeInLine inline t1)
  ++ fst (takeInLine (snd (takeInLine inline t1)) t2)
  = fst (takeInLine inline t2).
Proof.
  intro Hle. induction inline as [|r rest IH]; [reflexivity|].
  rewrite (takeInLine_cons r rest t1).
  destruct (Z.leb_spec (Deco.to r) t1) as [H1|H1]; cbn [fst snd app].
  - rewrite (takeInLine_cons r rest t2).
    destruct (Z.leb_spec (Deco.to r) t2) as [H2|H2]; [|lia].
    cbn [fst]. f_equal. exact IH.
  - reflexivity.
Qed.

Lemma filter_none {A : Type} (f : A -> bool) (l : list A) :
  Forall (fun x => f x = false) l -> filter f l = [].
Proof.
  induction 1 as [|x l Hx _ IH]; [reflexivity|].
  cbn [filter]. rewrite Hx. exact IH.
Qed.

Lemma filter_all {A : Type} (f : A -> bool) (l : list A) :
  Forall (fun x => f x = false) l -> filter (fun x => negb (f x)) l = l.
Proof.
  induction 1 as [|x l Hx _ IH]; [reflexivity|].
  cbn [filter]. rewrite Hx. cbn [negb]. f_equal. exact IH.
Qed.

Lemma Forall_app_parts {A : Type} (P : A -> Prop) (l1 l2 : list A) :
  Forall P (l1 ++ l2) -> Forall P l1 /\ Forall P l2.
Proof. intro H. apply Forall_app in H. exact H. Qed.

(** The loop over the lines ends, for every line from the first one to the
    one [endB] is in, and adds the ranges that end before the end of that
    last line. *)
Lemma inlineLines_spec (b : Text.t) (endB : Z) (gutter : bool) :
  endB <= Text.length b ->
  forall (fuel : nat) (inline : list Deco.range) (line : Line.t)
         (added : Added),
    isLineOf b line ->
    (Z.to_nat (Text.length b - Line.to line) < fuel)%nat ->
    Forall (fun r => isLineDeco r = false) inline ->
    exists res starts last,
      inlineLines fuel b endB gutter inline line added = Some res
      /\ lineDecos res = lineDecos added ++ Line.from line :: starts
      /\ shownRanges res
         = shownRanges added ++ fst (takeInLine inline (Line.to last))
      /\ gutterMarks res
         = gutterMarks added
           ++ (if gutter then Line.from line :: starts else [])
      /\ StronglySorted Z.lt (Line.from line :: starts)
      /\ (forall s, In s starts <->
                    Line.from line < s <= endB /\ startsLine b s)
      /\ lineAt b (Z.max (Line.from line) endB) = Some last.
Proof.
  intros HendB fuel.
  induction fuel as [|fuel IH]; intros inline line added Hline Hfuel Hinl;
    [lia|].
  cbn [inlineLines].
  destruct (takeInLine_spec inline (Line.to line)) as (Hsplit & _ & _).
  destruct (takeInLine inline (Line.to line)) as [taken waiting] eqn:Htake.
  cbn [fst snd] in Hsplit.
  assert (Hparts : Forall (fun r => isLineDeco r = false) taken
                   /\ Forall (fun r => isLineDeco r = false) waiting)
    by (apply Forall_app_parts; rewrite <- Hsplit; exact Hinl).
  destruct Hparts as [Htaken Hwaiting].
  pose proof Hline as (Hord & Hlen & Hno & Hstop & Hbefore).
  set (added' := {| ranges := ranges added
                              ++ [Deco.mk (Line.from line) (Line.from line)
                                    Deco.inlineChangedLine] ++ taken;
                    gutterMarks := if gutter
                                   then gutterMarks added ++ [Line.from line]
                                   else gutterMarks added |}).
  assert (Hdecos : lineDecos added' = lineDecos added ++ [Line.from line]).
  { unfold lineDecos, added'. cbn [ranges].
    rewrite !filter_app, !map_app. cbn [filter isLineDeco Deco.value].
    rewrite (filter_none _ _ Htaken). reflexivity. }
  assert (Hshown : shownRanges added' = shownRanges added ++ taken).
  { unfold shownRanges, added'. cbn [ranges].
    rewrite !filter_app. cbn [filter isLineDeco Deco.value negb app].
    rewrite (filter_all _ _ Htaken). reflexivity. }
  destruct (Z.geb_spec (Line.to line) endB) as [Hend|Hmore].
  - destruct (lineAt_in_line b line (Z.max (Line.from line) endB) Hline)
      as (last & Hlast & Hto); [lia|].
    exists added', [], last. split; [reflexivity|].
    split; [exact Hdecos|]. split.
    { rewrite Hshown, Hto, Htake. reflexivity. }
    split.
    { unfold added'. cbn [gutterMarks]. destruct gutter;
        [reflexivity|rewrite app_nil_r; reflexivity]. }
    split; [repeat constructor|]. split; [|exact Hlast].
    intro s. split; [intros []|]. intros (Hs & Hstart).
    apply (Hno (Z.to_nat (s - 1))); [lia|].
    apply startsLine_after_break; [exact Hstart|lia].
  - destruct (lineAt_next b line Hline) as (next & Hnext & Hfrom & Hnline);
      [lia|].
    rewrite Hnext.
    pose proof Hnline as (Hnord & Hnlen & _).
    destruct (IH waiting next added' Hnline) as
      (res & starts & last & Hres & Hd & Hs & Hg & Hsorted & Hset & Hlast);
      [lia|exact Hwaiting|].
    exists res, (Line.from next :: starts), last.
    split; [exact Hres|]. split.
    { rewrite Hd, Hdecos, <- app_assoc. reflexivity. }
    destruct (lineAt_spec _ _ _ Hlast) as (_ & Hin & _).
    split.
    { rewrite Hs, Hshown, <- app_assoc. f_equal.
      rewrite <- (takeInLine_later inline (Line.to line) (Line.to last))
        by lia.
      rewrite Htake. reflexivity. }
    split.
    { rewrite Hg. unfold added'. cbn [gutterMarks]. destruct gutter;
        [rewrite <- app_assoc; reflexivity|reflexivity]. }
    split.
    { constructor; [exact Hsorted|]. constructor; [lia|].
      apply Forall_forall. intros s Hin'. apply Hset in Hin'. lia. }
    split.
    { intro s. cbn [In]. rewrite Hset. split.
      - intros [Heq|(Hlt & Hstart)].
        + subst s. split; [lia|]. exists next. split; [|reflexivity].
          rewrite Hfrom. exact Hnext.
        + split; [lia|exact Hstart].
      - intros (Hrange & Hstart).
        destruct (Z.eq_dec s (Line.from next)) as [Heq|Hne];
          [left; symmetry; exact Heq|].
        right. split; [|exact Hstart].
        destruct (Z.le_gt_cases s (Line.to line)) as [Hle|Hgt]; [|lia].
        exfalso. apply (Hno (Z.to_nat (s - 1))); [lia|].
        apply startsLine_after_break; [exact Hstart|lia]. }
    replace (Z.max (Line.from line) endB)
      with (Z.max (Line.from next) endB) by lia.
    exact Hlast.
Qed.

Lemma rangesOf_not_lines (a : Text.t) (bA bB : Z) (ch : Change.t) :
  Forall (fun r => isLineDeco r = false) (rangesOf a bA bB ch).
Proof.
  unfold rangesOf.
  destruct (Change.fromA ch <? Change.toA ch);
    destruct (Change.fromB ch <? Change.toB ch); repeat constructor.
Qed.

Lemma inlineRanges_not_lines (a : Text.t) (bA bB : Z)
    (changes : list Change.t) :
  forall (deco deco' : list Deco.range) (n n' : Z),
    inlineRanges a bA bB changes deco n = Some (deco', n') ->
    Forall (fun r => isLineDeco r = false) deco ->
    Forall (fun r => isLineDeco r = false) deco'.
Proof.
  induction changes as [|ch rest IH]; intros deco deco' n n' H Hdeco.
  - inversion H; subst. exact Hdeco.
  - cbn [inlineRanges] in H.
    destruct (Change.fromA ch <? Change.toA ch).
    + destruct (existsb _ _); [discriminate|].
      apply IH in H; [exact H|].
      destruct (Change.fromB ch <? Change.toB ch);
        repeat (apply Forall_app; split); try exact Hdeco;
        repeat constructor.
    + apply IH in H; [exact H|].
      destruct (Change.fromB ch <? Change.toB ch);
        repeat (apply Forall_app; split); try exact Hdeco;
        repeat constructor.
Qed.

Lemma chunkCanDisplayInline_inv (state : EditorState) (chunk : Chunk.t)
    (inline : list Deco.range) :
  chunkCanDisplayInline state chunk = Some (Some inline) ->
  (exists l, lineAt (doc state) (Chunk.fromB chunk) = Some l)
  /\ (exists l, lineAt (doc state) (Chunk.endB chunk) = Some l)
  /\ Forall (fun r => isLineDeco r = false) inline.
Proof.
  unfold chunkCanDisplayInline.
  destruct (lineAt (originalDoc state) (Chunk.endA chunk)); [|discriminate].
  destruct (lineAt (originalDoc state) (Chunk.fromA chunk)); [|discriminate].
  destruct (lineAt (doc state) (Chunk.endB chunk)) as [eB|]; [|discriminate].
  destruct (lineAt (doc state) (Chunk.fromB chunk)) as [fB|]; [|discriminate].
  intro H. split; [eexists; reflexivity|]. split; [eexists; reflexivity|].
  destruct (_ && _); [|discriminate].
  destruct (inlineRanges _ _ _ _ _ _) as [[deco n]|] eqn:E; [|discriminate].
  destruct (_ <? _); [|discriminate].
  inversion H; subst.
  apply (inlineRanges_not_lines _ _ _ _ _ _ _ _ E). constructor.
Qed.

(** X17.  For a chunk that [chunkCanDisplayInline] gives no decorations
    for, [overrideChunkInline] adds nothing and returns false.  For a chunk
    it gives decorations for, the loop over the lines ends and the call
    returns true; a line decoration is added, in increasing order, at the
    start of the line [fromB] is in and at every later line start up to
    [endB], and nowhere else; the gutter gets a marker at the same
    positions when a gutter builder was given, and none otherwise; and the
    decorations of the chunk are added in their order up to the first one
    that ends behind the line the chunk ends in: that one and those after
    it are not added. *)
Theorem inline_chunk_lines_are_decorated (state : EditorState)
    (chunk : Chunk.t) (gutter : bool) :
  (chunkCanDisplayInline state chunk = Some None ->
   overrideChunkInline state chunk gutter
   = Some (false, {| ranges := []; gutterMarks := [] |}))
  /\ forall inline,
      chunkCanDisplayInline state chunk = Some (Some inline) ->
      exists first last added waiting,
        lineAt (doc state) (Chunk.fromB chunk) = Some first
        /\ lineAt (doc state) (Z.max (Chunk.fromB chunk) (Chunk.endB chunk))
           = Some last
        /\ overrideChunkInline state chunk gutter = Some (true, added)
        /\ StronglySorted Z.lt (lineDecos added)
        /\ (forall s,
               In s (lineDecos added) <->
               s = Line.from first
               \/ (Line.from first < s <= Chunk.endB chunk
                   /\ startsLine (doc state) s))
        /\ gutterMarks added = (if gutter then lineDecos added else [])
        /\ inline = shownRanges added ++ waiting
        /\ Forall (fun r => Deco.to r <= Line.to last) (shownRanges added)
        /\ match waiting with
           | [] => True
           | r :: _ => Line.to last < Deco.to r
           end.
Proof.
  split.
  { intro H. unfold overrideChunkInline. rewrite H. reflexivity. }
  intros inline H.
  destruct (chunkCanDisplayInline_inv _ _ _ H)
    as ((first & Hfirst) & (eB & HeB) & Hinl).
  destruct (lineAt_spec _ _ _ Hfirst) as (HfromB & Hin & Hline).
  destruct (lineAt_spec _ _ _ HeB) as (HendB & _ & _).
  destruct (inlineLines_spec (doc state) (Chunk.endB chunk) gutter
              ltac:(lia) (S (List.length (doc state))) inline first
              {| ranges := []; gutterMarks := [] |} Hline)
    as (added & starts & last0 & Hres & Hd & Hs & Hg & Hsorted & Hset
        & Hlast0); [unfold Text.length in *; lia|exact Hinl|].
  assert (Hlast : exists last,
             lineAt (doc state)
               (Z.max (Chunk.fromB chunk) (Chunk.endB chunk)) = Some last
             /\ Line.to last = Line.to last0).
  { destruct (Z.le_gt_cases (Chunk.fromB chunk) (Chunk.endB chunk))
      as [Hle|Hgt].
    - exists last0. split; [|reflexivity]. rewrite <- Hlast0.
      f_equal. lia.
    - destruct (lineAt_in_line (doc state) first
                  (Z.max (Line.from first) (Chunk.endB chunk)) Hline)
        as (l1 & Hl1 & Hto1); [lia|].
      destruct (lineAt_in_line (doc state) first
                  (Z.max (Chunk.fromB chunk) (Chunk.endB chunk)) Hline)
        as (l2 & Hl2 & Hto2); [lia|].
      exists l2. split; [exact Hl2|]. rewrite Hl1 in Hlast0.
      inversion Hlast0; subst. lia. }
  destruct Hlast as (last & Hlast & Hto).
  destruct (takeInLine_spec inline (Line.to last0)) as (Hsplit & Hall & Hw).
  cbn [lineDecos shownRanges ranges gutterMarks app] in Hd, Hs, Hg.
  change (lineDecos {| ranges := []; gutterMarks := [] |}) with (@nil Z)
    in Hd.
  change (shownRanges {| ranges := []; gutterMarks := [] |})
    with (@nil Deco.range) in Hs.
  cbn [app] in Hd, Hs.
  exists first, last, added, (snd (takeInLine inline (Line.to last0))).
  split; [exact Hfirst|]. split; [exact Hlast|]. split.
  { unfold overrideChunkInline. rewrite H, Hfirst, Hres. reflexivity. }
  split; [rewrite Hd; exact Hsorted|]. split.
  { intro s. rewrite Hd. cbn [In]. rewrite Hset. split.
    - intros [Heq|Hrest]; [left; symmetry; exact Heq|right; exact Hrest].
    - intros [Heq|Hrest]; [left; symmetry; exact Heq|right; exact Hrest]. }
  split; [rewrite Hg, Hd; reflexivity|].
  rewrite Hs, Hto. split; [exact Hsplit|]. split; [exact Hall|exact Hw].
Qed.

Lemma inline_chunk_lines_are_decorated_witness :
  let a := Text.of_lines ["one"%string; "a long line of text"%string;
                          "second long line"%string; "three"%string] in
  let b := Text.of_lines ["one"%string; "a lang line of texts"%string;
                          "second lone"%string; "three"%string] in
  let chunk :=
    Chunk.mk [Change.mk 3 4 3 4; Change.mk 19 19 19 20; Change.mk 30 35 31 31]
      4 41 40 4 37 36 in
  let state := {| doc := b; head := 0; originalDoc := a;
                  ChunkField := [chunk] |} in
  exists added,
    overrideChunkInline state chunk true = Some (true, added)
    /\ lineDecos added = [4; 25]
    /\ gutterMarks added = [4; 25]
    /\ List.length (shownRanges added) = 4%nat.
Proof.
  intros a b chunk state.
  destruct (inline_chunk_lines_are_decorated state chunk true) as [_ H].
  destruct (H [Deco.mk 7 7 (Deco.InlineDeletion (Text.of_string "o"));
               Deco.mk 7 8 Deco.changedText;
               Deco.mk 23 24 Deco.changedText;
               Deco.mk 35 35 (Deco.InlineDeletion (Text.of_string "g lin"))])
    as (first & last & added & waiting & _ & _ & Hadd & _ & _ & Hg & _);
    [vm_compute; reflexivity|].
  exists added. split; [exact Hadd|].
  assert (E : overrideChunkInline state chunk true
              = Some (true,
                      {| ranges :=
                           [Deco.mk 4 4 Deco.inlineChangedLine;
                            Deco.mk 7 7
                              (Deco.InlineDeletion (Text.of_string "o"));
                            Deco.mk 7 8 Deco.changedText;
                            Deco.mk 23 24 Deco.changedText;
                            Deco.mk 25 25 Deco.inlineChangedLine;
                            Deco.mk 35 35
                              (Deco.InlineDeletion (Text.of_string "g lin"))];
                         gutterMarks := [4; 25] |}))
    by (vm_compute; reflexivity).
  rewrite E in Hadd. inversion Hadd; subst added.
  repeat split.
Defined.

(** * Widgets and inline display *)

Lemma hidden_widget_is_empty (conf : MergeConfig.t)
    (lang : option (Text.t -> list (Z * Z * string))) (chunk : Chunk.t)
    (orig : Text.t) :
  exists dom,
    DeletionWidget.buildDOM conf lang chunk true orig = Some dom
    /\ DeletionWidget.deletedLines dom = [].
Proof.
  unfold DeletionWidget.buildDOM. cbn [orb]. eexists. split; [reflexivity|].
  unfold DeletionWidget.deletedLines, DeletionWidget.controls.
  cbn [Dom.children].
  destruct (MergeConfig.mergeControls conf) as [[|]|]; reflexivity.
Qed.

Lemma overrideChunkInline_true (state : EditorState) (chunk : Chunk.t)
    (gutter : bool) (inline : list Deco.range) :
  chunkCanDisplayInline state chunk = Some (Some inline) ->
  exists added, overrideChunkInline state chunk gutter = Some (true, added).
Proof.
  intro H.
  destruct (chunkCanDisplayInline_inv _ _ _ H)
    as ((first & Hfirst) & (eB & HeB) & Hinl).
  destruct (lineAt_spec _ _ _ Hfirst) as (HfromB & Hin & Hline).
  destruct (lineAt_spec _ _ _ HeB) as (HendB & _ & _).
  destruct (inlineLines_spec (doc state) (Chunk.endB chunk) gutter
              ltac:(lia) (S (List.length (doc state))) inline first
              {| ranges := []; gutterMarks := [] |} Hline)
    as (added & _ & _ & Hres & _); [unfold Text.length in *; lia|exact Hinl|].
  exists added. unfold overrideChunkInline. rewrite H, Hfirst, Hres.
  reflexivity.
Qed.

(** X18.  [buildDeletedChunks] puts one widget per chunk, in the order of
    the chunk list, at the chunk's [fromB].  Without the [overrideChunk]
    option no widget is asked to hide its content.  With it, a widget is
    asked to hide its content exactly when [overrideChunkInline] draws the
    chunk inline (it returns true); the DOM built with that flag then has
    no deleted line; and for a chunk whose widget is not asked to hide,
    [overrideChunkInline] returns false and adds nothing. *)
Theorem widget_hides_what_is_inline (conf : MergeConfig.t)
    (state : EditorState) (gutter : bool) :
  (MergeConfig.overrideChunk conf = false ->
   buildDeletedChunks (MergeConfig.overrideChunk conf) state
   = Some (map (fun ch => (Chunk.fromB ch, ch, false)) (ChunkField state)))
  /\ forall l,
      buildDeletedChunks (MergeConfig.overrideChunk conf) state = Some l ->
      map (fun e => (fst (fst e), snd (fst e))) l
      = map (fun ch => (Chunk.fromB ch, ch)) (ChunkField state)
      /\ Forall
           (fun e =>
              (snd e = true ->
               MergeConfig.overrideChunk conf = true
               /\ (exists added,
                      overrideChunkInline state (snd (fst e)) gutter
                      = Some (true, added))
               /\ forall lang,
                   exists dom,
                     DeletionWidget.buildDOM conf lang (snd (fst e)) (snd e)
                       (originalDoc state) = Some dom
                     /\ DeletionWidget.deletedLines dom = [])
              /\ (snd e = false ->
                  MergeConfig.overrideChunk conf = true ->
                  overrideChunkInline state (snd (fst e)) gutter
                  = Some (false, {| ranges := []; gutterMarks := [] |})))
           l.
Proof.
  unfold buildDeletedChunks. generalize (ChunkField state) as chunks.
  intro chunks. split.
  - intro Hoff. rewrite Hoff.
    induction chunks as [|ch rest IH]; [reflexivity|].
    cbn [fold_right map]. rewrite IH. reflexivity.
  - induction chunks as [|ch rest IH]; intros l Hl.
    + inversion Hl; subst l. split; [reflexivity|constructor].
    + cbn [fold_right] in Hl.
      destruct (MergeConfig.overrideChunk conf) eqn:Hopt.
      * destruct (chunkCanDisplayInline state ch) as [[inline|]|] eqn:Hc;
          [| |discriminate Hl].
        -- destruct (fold_right _ _ rest) as [l'|]; [|discriminate Hl].
           inversion Hl; subst l. destruct (IH l' eq_refl) as [IH1 IH2].
           split; [cbn [map fst snd]; f_equal; exact IH1|].
           constructor; [|exact IH2]. cbn [fst snd]. split.
           ++ intros _. split; [reflexivity|]. split.
              ** apply (overrideChunkInline_true _ _ _ _ Hc).
              ** intro lang. apply hidden_widget_is_empty.
           ++ discriminate.
        -- destruct (fold_right _ _ rest) as [l'|]; [|discriminate Hl].
           inversion Hl; subst l. destruct (IH l' eq_refl) as [IH1 IH2].
           split; [cbn [map fst snd]; f_equal; exact IH1|].
           constructor; [|exact IH2]. cbn [fst snd]. split.
           ++ discriminate.
           ++ intros _ _. unfold overrideChunkInline. rewrite Hc.
              reflexivity.
      * destruct (fold_right _ _ rest) as [l'|]; [|discriminate Hl].
        inversion Hl; subst l. destruct (IH l' eq_refl) as [IH1 IH2].
        split; [cbn [map fst snd]; f_equal; exact IH1|].
        constructor; [|exact IH2]. cbn [fst snd]. split; discriminate.
Qed.

Lemma widget_hides_what_is_inline_witness :
  let a := Text.of_lines ["one"%string; "a long line of text"%string;
                          "second long line"%string; "three"%string] in
  let b := Text.of_lines ["one"%string; "a lang line of texts"%string;
                          "second lone"%string; "three"%string] in
  let chunk :=
    Chunk.mk [Change.mk 3 4 3 4; Change.mk 19 19 19 20; Change.mk 30 35 31 31]
      4 41 40 4 37 36 in
  let state := {| doc := b; head := 0; originalDoc := a;
                  ChunkField := [chunk] |} in
  let conf :=
    {| MergeConfig.highlightChanges := true; MergeConfig.markGutter := true;
       MergeConfig.syntaxHighlightDeletions := true;
       MergeConfig.syntaxHighlightDeletionsMaxLength := 3000;
       MergeConfig.mergeControls := ControlsFlag true;
       MergeConfig.overrideChunk := true; MergeConfig.side := "b" |} in
  exists added,
    buildDeletedChunks true state = Some [(4, chunk, true)]
    /\ overrideChunkInline state chunk true = Some (true, added).
Proof.
  intros a b chunk state conf.
  destruct (widget_hides_what_is_inline conf state true) as [_ H].
  destruct (H [(4, chunk, true)]) as [_ Hall]; [vm_compute; reflexivity|].
  inversion Hall as [|e l' [Hhide _] _]; subst.
  destruct (Hhide eq_refl) as (_ & (added & Hadd) & _).
  exists added. split; [vm_compute; reflexivity|exact Hadd].
Defined.
